(** * Split-layers: colour matching, layer export, transforms and reports

    A shallow embedding of the pixel engine of the editor
    ([src/utils/colorUtils.js], the image-export and CSV-report helpers and
    the layer handlers of the application component) together with the
    properties stated about it.

    Conventions of the embedding.
    - A JavaScript number is an IEEE-754 binary64 value: Rocq's primitive
      [float], whose operations are the correctly rounded ones.
    - The elements of a typed array ([Uint8ClampedArray], [Uint8Array]) are
      integers, held in a [list Z]; reading outside the array gives
      [undefined] ([None]) and writing outside it does nothing, which is what
      stdpp's list lookup and insert do.
    - Widths, heights, lengths and indices are natural numbers.
    - A layer's colour channels and tolerance are integers (the colour comes
      from a pixel or from [Math.round], the tolerance from a range slider
      with integer steps); they are converted to numbers where the code
      computes with them. *)

From Stdlib Require Import ZArith Floats Lia ZifyNat Ascii String.
From Stdlib Require Uint63.
From Corelib Require Import PrimInt63.
From stdpp Require Import base option list strings gmap.

(** ** JavaScript numbers and typed arrays *)

Module JS.

Local Open Scope Z_scope.

(** The number of an integer (exact below 2^53 in magnitude). *)
Definition ofZ (z : Z) : float :=
  match z with
  | Z0 => 0%float
  | Zpos _ => of_uint63 (Uint63.of_Z z)
  | Zneg p => (- of_uint63 (Uint63.of_Z (Zpos p)))%float
  end.

(** [ToNumber] of an array read: [undefined] becomes NaN. *)
Definition toNumber (v : option Z) : float :=
  match v with Some z => ofZ z | None => nan end.

(** The integer [(-1)^s * m], the signed mantissa of a finite number. *)
Definition signed (s : bool) (m : positive) : Z :=
  if s then Zneg m else Zpos m.

(** [Math.floor]: the mantissa is shifted right by the (negative)
    exponent, which rounds towards minus infinity; a number with a
    non-negative exponent, a zero, an infinity and NaN are returned as
    they are. *)
Definition Math_floor (x : float) : float :=
  match Prim2SF x with
  | S754_finite s m e =>
      if 0 <=? e then x else ofZ (Z.shiftl (signed s m) e)
  | _ => x
  end.

(** [Math.round]: the nearest integer, a tie going up; a result of zero
    keeps the sign of the argument. *)
Definition Math_round (x : float) : float :=
  match Prim2SF x with
  | S754_finite s m e =>
      if 0 <=? e then x
      else
        let z := Z.shiftr (2 * signed s m + 2 ^ (- e)) (- e + 1) in
        if z =? 0 then (if s then PrimFloat.neg_zero else PrimFloat.zero) else ofZ z
  | _ => x
  end.

(** [Math.min] of two numbers: NaN if either is NaN, and -0 below +0. *)
Definition Math_min (a b : float) : float :=
  if is_nan a || is_nan b then nan
  else if (a <? b)%float then a
  else if (b <? a)%float then b
  else if get_sign a then a else b.

(** The value stored by an assignment to a [Uint8ClampedArray] element:
    NaN gives 0, the number is clamped to [0, 255] and rounded to the
    nearest integer, a tie going to the even one. *)
Definition toUint8Clamp (x : float) : Z :=
  if (255 <=? x)%float then 255
  else
    match Prim2SF x with
    | S754_finite false m e =>
        if 0 <=? e then Z.shiftl (Zpos m) e
        else
          let q := Z.shiftr (Zpos m) (- e) in
          let r := Z.land (Zpos m) (Z.ones (- e)) in
          let half := 2 ^ (- e - 1) in
          if r <? half then q
          else if half <? r then q + 1
          else if Z.even q then q else q + 1
    | _ => 0
    end.

(** The value stored by an assignment to a [Uint8Array] element read from
    another typed array: [undefined] gives 0, an integer is reduced
    modulo 256. *)
Definition toUint8 (v : option Z) : Z :=
  match v with Some z => z mod 256 | None => 0 end.

(** The indices visited by [for (let i = 0; i < stop; i += step)], for a
    positive [step]; [fuel] bounds the number of iterations. *)
Fixpoint for_from (fuel i stop step : nat) : list nat :=
  match fuel with
  | O => []
  | S fuel' =>
      if (i <? stop)%nat then i :: for_from fuel' (i + step) stop step
      else []
  end.

Definition for_range (stop step : nat) : list nat :=
  for_from stop 0 stop step.

(** The digit [d] of a base up to 16: [0]..[9], then [a]..[f]. *)
Definition digit_char (d : N) : ascii :=
  if (d <? 10)%N then ascii_of_N (48 + d) else ascii_of_N (87 + d).

Fixpoint digits_go (fuel : nat) (base n : N) (acc : string) : string :=
  match fuel with
  | O => acc
  | S fuel' =>
      let acc' := String (digit_char (n mod base)) acc in
      if (n / base =? 0)%N then acc'
      else digits_go fuel' base (n / base) acc'
  end.

(** [Number.prototype.toString(radix)] of an integer. *)
Definition intToString (base : N) (z : Z) : string :=
  let n := Z.to_N (Z.abs z) in
  let s := digits_go (S (N.to_nat (N.log2 n))) base n "" in
  if z <? 0 then String "-" s else s.

(** [Number.prototype.toFixed(2)] of a number below 10^21 in magnitude:
    with [n] the integer nearest to 100 times the magnitude (a tie going
    to the larger one), the digits of [n] with a point before the last
    two, after a minus sign for a negative number. *)
Definition toFixed2 (x : float) : string :=
  match Prim2SF x with
  | S754_nan => "NaN"
  | S754_infinity s => if s then "-Infinity" else "Infinity"
  | S754_zero _ => "0.00"
  | S754_finite s m e =>
      let n :=
        if 0 <=? e then 100 * Z.shiftl (Zpos m) e
        else Z.shiftr (200 * Zpos m + 2 ^ (- e)) (- e + 1) in
      let body :=
        String.app (intToString 10 (n / 100))
          (String "."
             (String (digit_char (Z.to_N (n / 10 mod 10)))
                (String (digit_char (Z.to_N (n mod 10))) ""))) in
      if s then String "-" body else body
  end.

End JS.

Import JS.

(** ** The data model *)

(** An [ImageData]: [data] is its [Uint8ClampedArray] of RGBA bytes. *)
Record ImageData := mkImageData {
  width : nat;
  height : nat;
  data : list Z
}.

(** [new ImageData(w, h)]: transparent black; the constructor throws (here
    [None]) when a dimension is zero. *)
Definition new_ImageData (w h : nat) : option ImageData :=
  if ((w =? 0) || (h =? 0))%nat then None
  else Some (mkImageData w h (replicate (4 * w * h) 0%Z)).

(** [new ImageData(array, w, h)]: throws unless the array holds exactly
    [4 * w * h] bytes and [w] and [h] are positive. *)
Definition ImageData_of (arr : list Z) (w h : nat) : option ImageData :=
  if ((w =? 0) || (h =? 0))%nat then None
  else if (length arr =? 4 * w * h)%nat then Some (mkImageData w h arr)
  else None.

Record Color := mkColor { r : Z; g : Z; b : Z }.

(** A layer as [createLayer] builds it; [tolerance] and [paintData] may be
    absent and [mask] may be [null]. *)
Record Layer := mkLayer {
  id : string;
  color : Color;
  name : string;
  visible : bool;
  tolerance : option Z;
  mask : option (list Z);
  paintData : option (list Z)
}.

Record Rect := mkRect { x : nat; y : nat; rwidth : nat; rheight : nat }.

(** [createFullMask]: a mask of [width * height] ones. *)
Definition createFullMask (width height : nat) : list Z :=
  replicate (width * height) 1%Z.

(** [array[k]] read as a number. *)
Definition num (a : list Z) (k : nat) : float := toNumber (a !! k).

(** [array[k] = v] on a [Uint8ClampedArray], [v] a number. *)
Definition store (a : list Z) (k : nat) (v : float) : list Z :=
  <[k := toUint8Clamp v]> a.

(** [out[j..j+3] = src[i..i+3]], the four assignments in order. *)
Definition copy4 (out : list Z) (j : nat) (src : list Z) (i : nat) : list Z :=
  let out := store out j (num src i) in
  let out := store out (j + 1) (num src (i + 1)) in
  let out := store out (j + 2) (num src (i + 2)) in
  store out (j + 3) (num src (i + 3)).

(** ** [src/utils/colorUtils.js] *)

Module ColorUtils.

(** [Math.pow(v, 2)]. *)
Definition pow2 (v : float) : float := (v * v)%float.

Definition rgbDistance (r1 g1 b1 r2 g2 b2 : float) : float :=
  PrimFloat.sqrt (pow2 (r1 - r2) + pow2 (g1 - g2) + pow2 (b1 - b2))%float.

Definition MAX_RGB_DISTANCE : float := PrimFloat.sqrt (3 * 255 * 255)%float.

Definition toleranceToDistance (tolerancePercent : float) : float :=
  if (tolerancePercent <=? 0)%float then 0%float
  else ((tolerancePercent / 100) * MAX_RGB_DISTANCE)%float.

Definition colorMatches (pr pg pb tr tg tb tolerancePercent : float) : bool :=
  let threshold := toleranceToDistance tolerancePercent in
  (rgbDistance pr pg pb tr tg tb <=? threshold)%float.

Definition quantize (v levels : float) : float :=
  Math_min (levels - 1)%float (Math_floor ((v / 255) * levels)%float).

(** [rgbToHex]: each channel in base 16, padded to two digits
    ([Math.round] leaves an integer as it is). *)
Definition hex2 (v : Z) : string :=
  let hex := intToString 16 v in
  if (String.length hex =? 1)%nat then String.app "0" hex else hex.

Definition rgbToHex (r g b : Z) : string :=
  String.app "#" (String.concat "" (map hex2 [r; g; b])).

(** The [count] object of [getDominantColors]: its keys are the strings
    [qr,qg,qb]; two keys are the same string exactly when their numbers
    print alike, that is when they are equal as numbers or both NaN.
    The entries are kept in insertion order, the order in which
    [Object.entries] lists them. *)
Definition same_num (a b : float) : bool :=
  (a =? b)%float || (is_nan a && is_nan b).

Definition Key : Type := float * float * float.

Definition same_key (k1 k2 : Key) : bool :=
  let '(a1, b1, c1) := k1 in
  let '(a2, b2, c2) := k2 in
  same_num a1 a2 && same_num b1 b2 && same_num c1 c2.

(** [count[key] = (count[key] || 0) + 1]. *)
Fixpoint bump (key : Key) (count : list (Key * nat)) : list (Key * nat) :=
  match count with
  | [] => [(key, 1%nat)]
  | (k, c) :: rest =>
      if same_key key k then (k, S c) :: rest
      else (k, c) :: bump key rest
  end.

(** A key read back by [key.split(',').map(Number)]: the printed form of
    -0 is [0]. *)
Definition reparse (q : float) : float :=
  if (q =? 0)%float then 0%float else q.

(** The bucket centre of a quantised level. *)
Definition center (q levels : float) : float :=
  Math_round ((reparse q + 0.5) * (255 / levels))%float.

(** [sort((a, b) => b.count - a.count)]: stable, larger counts first. *)
Fixpoint insert_desc {A} (e : A * nat) (l : list (A * nat)) : list (A * nat) :=
  match l with
  | [] => [e]
  | h :: t => if (h.2 <=? e.2)%nat then e :: l else h :: insert_desc e t
  end.

Definition sort_desc {A} (l : list (A * nat)) : list (A * nat) :=
  foldr insert_desc [] l.

(** One step of the sampling loop, at column [x] of row [y]. *)
Definition sample (img : ImageData) (levels : float) (y x : nat)
    (count : list (Key * nat)) : list (Key * nat) :=
  let i := ((y * width img + x) * 4)%nat in
  let a := num (data img) (i + 3) in
  if (a <? 128)%float then count
  else
    let qr := quantize (num (data img) i) levels in
    let qg := quantize (num (data img) (i + 1)) levels in
    let qb := quantize (num (data img) (i + 2)) levels in
    bump (qr, qg, qb) count.

(** [getDominantColors]; with [sampleStep = 0] and a positive height the
    outer loop never ends ([None]). *)
Definition getDominantColors (img : ImageData) (maxColors sampleStep : nat)
    : option (list (float * float * float)) :=
  let levels := 12%float in
  if ((sampleStep =? 0) && negb (height img =? 0))%nat then None
  else
    let count :=
      foldl (fun count y =>
               foldl (fun count x => sample img levels y x count)
                     count (for_range (width img) sampleStep))
            [] (for_range (height img) sampleStep) in
    let entries :=
      take maxColors
        (sort_desc
           (map (fun '((qr, qg, qb), c) =>
                   ((center qr levels, center qg levels, center qb levels), c))
                count)) in
    Some (map fst entries).

End ColorUtils.

Import ColorUtils.

(** ** The image-export helpers *)

Module ImageExport.

(** [invertImageData]: one iteration inverts the three colour bytes of
    the pixel at [i]; the image is modified in place and returned. *)
Definition invert_px (d : list Z) (i : nat) : list Z :=
  let d := store d i (255 - num d i)%float in
  let d := store d (i + 1) (255 - num d (i + 1))%float in
  store d (i + 2) (255 - num d (i + 2))%float.

Definition invertImageData (imageData : ImageData) : ImageData :=
  mkImageData (width imageData) (height imageData)
    (foldl invert_px (data imageData)
           (for_range (length (data imageData)) 4)).

(** [layer.tolerance ?? 10]. *)
Definition tol_of (layer : Layer) : float :=
  ofZ (default 10%Z (tolerance layer)).

(** [mask && mask[idx] === 1]. *)
Definition mask_keeps (layer : Layer) (idx : nat) : bool :=
  match mask layer with
  | Some m => bool_decide (m !! idx = Some 1%Z)
  | None => false
  end.

(** The colour test of a layer on the pixel of [src] that starts at [i]. *)
Definition layer_matches (src : list Z) (layer : Layer) (i : nat) : bool :=
  colorMatches (num src i) (num src (i + 1))
               (num src (i + 2))
               (ofZ (r (color layer))) (ofZ (g (color layer)))
               (ofZ (b (color layer))) (tol_of layer).

Definition export_px (src : list Z) (layer : Layer) (outData : list Z)
    (i : nat) : list Z :=
  let idx := i / 4 in
  let keep := mask_keeps layer idx in
  let matches := layer_matches src layer i in
  if keep && matches && (0 <? num src (i + 3))%float
  then copy4 outData i src i
  else outData.

Definition exportLayerToImageData (originalImageData : ImageData)
    (layer : Layer) : option ImageData :=
  let w := width originalImageData in
  let h := height originalImageData in
  let src := data originalImageData in
  out ← new_ImageData w h;
  Some (mkImageData w h
          (foldl (export_px src layer) (data out)
                 (for_range (length src) 4))).

(** The body of the inner loop of [exportReconstructedImageData]: the
    contribution [(lr, lg, lb, la)] of one layer at the pixel starting at
    [i], then its source-over blend into [result]. *)
Definition contribution (src : list Z) (layer : Layer) (i : nat)
    : float * float * float * float :=
  let idx := i / 4 in
  let '(lr, lg, lb, la) :=
    if mask_keeps layer idx && layer_matches src layer i
       && (0 <? num src (i + 3))%float
    then (num src i, num src (i + 1),
          num src (i + 2), num src (i + 3))
    else (0, 0, 0, 0)%float in
  match paintData layer with
  | Some pd =>
      if (0 <? num pd (i + 3))%float then
        let pA := (num pd (i + 3) / 255)%float in
        if (0 <? la)%float then
          let bA := (la / 255)%float in
          let oA := (pA + bA * (1 - pA))%float in
          (((num pd i * pA + lr * bA * (1 - pA)) / oA)%float,
           ((num pd (i + 1) * pA + lg * bA * (1 - pA)) / oA)%float,
           ((num pd (i + 2) * pA + lb * bA * (1 - pA)) / oA)%float,
           Math_round (oA * 255)%float)
        else
          (num pd i, num pd (i + 1),
           num pd (i + 2), num pd (i + 3))
      else (lr, lg, lb, la)
  | None => (lr, lg, lb, la)
  end.

Definition blend (src : list Z) (i : nat) (result : list Z) (layer : Layer)
    : list Z :=
  let '(lr, lg, lb, la) := contribution src layer i in
  if (0 <? la)%float then
    let sA := (la / 255)%float in
    let dA := (num result (i + 3) / 255)%float in
    let oA := (sA + dA * (1 - sA))%float in
    if (0 <? oA)%float then
      let result :=
        store result i
          (Math_round ((lr * sA + num result i * dA * (1 - sA)) / oA)%float) in
      let result :=
        store result (i + 1)
          (Math_round ((lg * sA + num result (i + 1) * dA * (1 - sA)) / oA)%float) in
      let result :=
        store result (i + 2)
          (Math_round ((lb * sA + num result (i + 2) * dA * (1 - sA)) / oA)%float) in
      store result (i + 3) (Math_round (oA * 255)%float)
    else result
  else result.

Definition exportReconstructedImageData (originalImageData : ImageData)
    (layers : list Layer) (layerIds : gset string) : option ImageData :=
  let selected := filter (fun l => id l ∈ layerIds) layers in
  if (length selected =? 0)%nat then
    new_ImageData (width originalImageData) (height originalImageData)
  else
    let w := width originalImageData in
    let h := height originalImageData in
    let src := data originalImageData in
    let len := w * h * 4 in
    let result :=
      foldl (fun result i => foldl (blend src i) result (reverse selected))
            (replicate len 0%Z) (for_range len 4) in
    ImageData_of result w h.

(** [rotateImageData]: [degrees] is 90, -90 or 180; any other value
    returns the image itself. *)
Definition rotateImageData (imageData : ImageData) (degrees : Z)
    : option ImageData :=
  let w := width imageData in
  let h := height imageData in
  let data := data imageData in
  let out := replicate (length data) 0%Z in
  let scan (dst : nat -> nat -> nat) :=
    foldl (fun out y =>
             foldl (fun out x => copy4 out (dst y x) data ((y * w + x) * 4))
                   out (seq 0 w))
          out (seq 0 h) in
  if (degrees =? 180)%Z then
    ImageData_of (scan (fun y x => ((h - 1 - y) * w + (w - 1 - x)) * 4)) w h
  else if (degrees =? 90)%Z then
    let outW := h in
    let outH := w in
    ImageData_of (scan (fun y x => (x * outW + (outW - 1 - y)) * 4)) outW outH
  else if (degrees =? -90)%Z then
    let outW := h in
    let outH := w in
    ImageData_of (scan (fun y x => ((outH - 1 - x) * outW + y) * 4)) outW outH
  else Some imageData.

(** [flipImageData]: the bytes are read from a copy taken on entry. *)
Definition flipImageData (imageData : ImageData) (horizontal vertical : bool)
    : ImageData :=
  let w := width imageData in
  let h := height imageData in
  let copy := data imageData in
  mkImageData w h
    (foldl (fun data y =>
              foldl (fun data x =>
                       let sx := if horizontal then w - 1 - x else x in
                       let sy := if vertical then h - 1 - y else y in
                       copy4 data ((y * w + x) * 4) copy ((sy * w + sx) * 4))
                    data (seq 0 w))
           (data imageData) (seq 0 h)).

Definition cropImageData (imageData : ImageData) (rect : Rect)
    : option ImageData :=
  let cw := rwidth rect in
  let ch := rheight rect in
  out ← new_ImageData cw ch;
  let src := data imageData in
  let w := width imageData in
  Some (mkImageData cw ch
          (foldl (fun o dy =>
                    foldl (fun o dx =>
                             let sx := x rect + dx in
                             let sy := y rect + dy in
                             copy4 o ((dy * cw + dx) * 4) src ((sy * w + sx) * 4))
                          o (seq 0 cw))
                 (data out) (seq 0 ch))).

(** [out[k] = mask[i]] on [Uint8Array]s. *)
Definition put (out : list Z) (k : nat) (v : option Z) : list Z :=
  <[k := toUint8 v]> out.

Definition cropMask (mask : list Z) (srcWidth : nat) (rect : Rect) : list Z :=
  let cw := rwidth rect in
  let ch := rheight rect in
  foldl (fun out dy =>
           foldl (fun out dx =>
                    let sx := x rect + dx in
                    let sy := y rect + dy in
                    put out (dy * cw + dx) (mask !! (sy * srcWidth + sx)))
                 out (seq 0 cw))
        (replicate (cw * ch) 0%Z) (seq 0 ch).

Definition rotateMask (mask : list Z) (w h : nat) (degrees : Z) : list Z :=
  let quarter := ((degrees =? 90) || (degrees =? -90))%Z in
  let out := if quarter then replicate (h * w) 0%Z
             else replicate (length mask) 0%Z in
  let outW := if quarter then h else w in
  let outH := if quarter then w else h in
  foldl (fun out y =>
           foldl (fun out x =>
                    if (degrees =? 180)%Z then
                      put out ((h - 1 - y) * outW + (w - 1 - x)) (mask !! (y * w + x))
                    else if (degrees =? 90)%Z then
                      put out (x * outW + (outW - 1 - y)) (mask !! (y * w + x))
                    else if (degrees =? -90)%Z then
                      put out ((outH - 1 - x) * outW + y) (mask !! (y * w + x))
                    else out)
                 out (seq 0 w))
        out (seq 0 h).

(** [flipMask]: in place, reading from a copy taken on entry. *)
Definition flipMask (mask : list Z) (w h : nat) (horizontal vertical : bool)
    : list Z :=
  let copy := mask in
  foldl (fun mask y =>
           foldl (fun mask x =>
                    let sx := if horizontal then w - 1 - x else x in
                    let sy := if vertical then h - 1 - y else y in
                    put mask (y * w + x) (copy !! (sy * w + sx)))
                 mask (seq 0 w))
        mask (seq 0 h).

End ImageExport.

(** ** The colour report *)

Module Report.

Definition CRLF : string := String (ascii_of_nat 13) (String (ascii_of_nat 10) "").

Definition header : string := "Color (Hex),R,G,B,Pixel Count,Percentage".

(** The counting loop of one layer. *)
Definition count_px (data : list Z) (layer : Layer) (count : nat) (i : nat) : nat :=
  if (num data (i + 3) <? 128)%float then count
  else if ImageExport.layer_matches data layer i then S count
  else count.

Definition pixel_count (data : list Z) (layer : Layer) : nat :=
  foldl (count_px data layer) 0 (for_range (length data) 4).

Definition percentage (count totalPixels : nat) : string :=
  if (0 <? totalPixels)%nat
  then toFixed2 ((ofZ (Z.of_nat count) / ofZ (Z.of_nat totalPixels)) * 100)%float
  else "0".

Definition row (imageData : ImageData) (layer : Layer) : string :=
  let totalPixels := width imageData * height imageData in
  let '(mkColor tr tg tb) := color layer in
  let count := pixel_count (data imageData) layer in
  let pct := percentage count totalPixels in
  let hex := rgbToHex tr tg tb in
  String.concat ","
    [hex; intToString 10 tr; intToString 10 tg; intToString 10 tb;
     intToString 10 (Z.of_nat count); String.app pct "%"].

Definition exportColorReportCSV (layers : list Layer) (imageData : ImageData)
    : string :=
  String.concat CRLF (header :: map (row imageData) layers).

End Report.

(** ** The layer handlers of the application component

    The handlers are modelled on the part of the component state they
    replace: the image, its dimensions and the ordered layers.  Pushing the
    previous state on the history, the toasts and the preview URL are left
    out.  [None] stands for an exception (a [null] mask, or an [ImageData]
    that cannot be built). *)

Module App.

Record State := mkState {
  originalImageData : option ImageData;
  dimensions : option (nat * nat);
  layers : list Layer
}.

Definition with_mask (l : Layer) (m : list Z) : Layer :=
  mkLayer (id l) (color l) (name l) (visible l) (tolerance l) (Some m)
          (paintData l).

(** [rotateMask(l.mask, w, h, degrees)] on a mask that may be [null]:
    reading [mask.length], or an element of [null] in the loop, throws; a
    quarter turn of an image without pixels reads neither. *)
Definition rotateMask_of (m : option (list Z)) (w h : nat) (degrees : Z)
    : option (list Z) :=
  match m with
  | Some m => Some (ImageExport.rotateMask m w h degrees)
  | None =>
      if ((degrees =? 90) || (degrees =? -90))%Z && ((w =? 0) || (h =? 0))%nat
      then Some [] else None
  end.

Definition handleRotate (degrees : Z) (st : State) : option State :=
  match originalImageData st, dimensions st with
  | Some img, Some (w, h) =>
      rotated ← ImageExport.rotateImageData img degrees;
      let quarter := ((degrees =? 90) || (degrees =? -90))%Z in
      let newW := if quarter then h else w in
      let newH := if quarter then w else h in
      newLayers ← mapM (fun l => m ← rotateMask_of (mask l) w h degrees;
                                 Some (with_mask l m))
                       (layers st);
      Some (mkState (Some rotated) (Some (newW, newH)) newLayers)
  | _, _ => Some st
  end.

Definition handleFlip (horizontal vertical : bool) (st : State) : option State :=
  match originalImageData st, dimensions st with
  | Some img, Some (w, h) =>
      copy ← ImageData_of (data img) w h;
      let copy := ImageExport.flipImageData copy horizontal vertical in
      let newLayers :=
        map (fun l =>
               (* [new Uint8Array(l.mask)]: a copy, empty for [null] *)
               let m := default [] (mask l) in
               with_mask l (ImageExport.flipMask m w h horizontal vertical))
            (layers st) in
      Some (mkState (Some copy) (dimensions st) newLayers)
  | _, _ => Some st
  end.

(** In [handleCrop] the crop of the image comes first and throws for an
    empty rectangle, so that [cropMask] reads an element of a [null] mask,
    which throws. *)
Definition handleCrop (rect : Rect) (st : State) : option State :=
  match originalImageData st, dimensions st with
  | Some img, Some (w, _) =>
      cropped ← ImageExport.cropImageData img rect;
      newLayers ← mapM (fun l => m ← mask l;
                                 Some (with_mask l (ImageExport.cropMask m w rect)))
                       (layers st);
      Some (mkState (Some cropped) (Some (rwidth rect, rheight rect)) newLayers)
  | _, _ => Some st
  end.

(** [prev.findIndex((l) => l.id === layerId)]. *)
Fixpoint findIndex (layerId : string) (prev : list Layer) : option nat :=
  match prev with
  | [] => None
  | l :: rest =>
      if String.eqb (id l) layerId then Some 0
      else S <$> findIndex layerId rest
  end.

(** The state update of [handleMoveLayerToIndex]. *)
Definition handleMoveLayerToIndex (layerId : string) (toIndex : Z)
    (prev : list Layer) : list Layer :=
  match findIndex layerId prev with
  | None => prev
  | Some fromIndex =>
      let target := Z.max 0 (Z.min (Z.of_nat (length prev) - 1) toIndex) in
      let target := if (Z.of_nat fromIndex <? target)%Z
                    then (target - 1)%Z else target in
      if (Z.of_nat fromIndex =? target)%Z then prev
      else
        match prev !! fromIndex with
        | Some removed =>
            let next := delete fromIndex prev in
            take (Z.to_nat target) next ++ removed :: drop (Z.to_nat target) next
        | None => prev
        end
  end.

End App.

(** ** Exhaustive checks over integer ranges

    The colour functions compute with binary64 numbers; on bytes and on
    slider values their arguments range over finitely many integers, and a
    property of all of them is decided by running the code on each.  The
    checks run on 63-bit machine integers. *)

Module Exhaust.

(** The number of a machine integer, and of a non-negative [Z]. *)
Definition F (i : int) : float := of_uint63 i.

Fixpoint all_from (fuel : nat) (i : int) (P : int -> bool) : bool :=
  match fuel with
  | O => true
  | S fuel' => if P i then all_from fuel' (PrimInt63.add i 1%uint63) P else false
  end.

(** [P] holds of the integers [0 .. n - 1]. *)
Definition all_below (n : Z) (P : int -> bool) : bool :=
  all_from (Z.to_nat n) 0%uint63 P.

Definition sq (i : int) : int := PrimInt63.mul i i.

(** The squared distance of two colours, as an integer. *)
Definition dist2 (pr pg pb tr tg tb : Z) : Z :=
  ((pr - tr) * (pr - tr) + (pg - tg) * (pg - tg) + (pb - tb) * (pb - tb))%Z.

(** The distance test on a squared distance [d] and a slider value [t]. *)
Definition within (d t : int) : bool :=
  (PrimFloat.sqrt (F d) <=? toleranceToDistance (F t))%float.

Definition check_pow2_sub : bool :=
  all_below 256 (fun a => all_below 256 (fun b =>
    PrimFloat.Leibniz.eqb (pow2 (F a - F b))
                          (F (sq (PrimInt63.sub a b))))).

Definition check_add_square : bool :=
  all_below 130051 (fun s => all_below 256 (fun k =>
    PrimFloat.Leibniz.eqb (F s + F (sq k))%float
                          (F (PrimInt63.add s (sq k))))).

(** Once the test succeeds at a slider value it succeeds at the next. *)
Definition check_within_step : bool :=
  all_below 195076 (fun d => all_below 100 (fun t =>
    implb (within d t) (within d (PrimInt63.add t 1%uint63)))).

(** At tolerance 0 only the distance 0 passes. *)
Definition check_within_0 : bool :=
  all_below 195076 (fun d =>
    Bool.eqb (within d 0%uint63) (PrimInt63.eqb d 0%uint63)).

(** At tolerance 100 every distance of two colours passes. *)
Definition check_within_100 : bool :=
  all_below 195076 (fun d => within d 100%uint63).

(** The thresholds of two slider values are ordered as the values. *)
Definition check_threshold_mono : bool :=
  all_below 101 (fun t1 => all_below 101 (fun t2 =>
    implb (PrimInt63.leb t1 t2)
          (toleranceToDistance (F t1) <=? toleranceToDistance (F t2))%float)).

(** A byte is stored as it is, its complement to 255 is exact, and its
    comparisons with 0 and 128 are those of the integers. *)
Definition check_byte : bool :=
  all_below 256 (fun v =>
    Z.eqb (toUint8Clamp (F v)) (Uint63.to_Z v)
    && Z.eqb (toUint8Clamp (255 - F v)%float) (255 - Uint63.to_Z v)
    && Bool.eqb (0 <? F v)%float (0 <? Uint63.to_Z v)%Z
    && Bool.eqb (F v <? 128)%float (Uint63.to_Z v <? 128)%Z).

End Exhaust.

Import ImageExport Exhaust.

(** ** Vocabulary of the properties *)

Local Open Scope Z_scope.

(** A byte value. *)
Definition is_byte (v : Z) : Prop := 0 <= v <= 255.

(** A buffer of bytes. *)
Definition bytes (d : list Z) : Prop := Forall is_byte d.

(** The value of the byte at index [j] after [invertImageData]. *)
Definition inverted (j : nat) (v : Z) : Z :=
  if (j mod 4 =? 3)%nat then v else 255 - v.

(** A raster as an [ImageData] object holds it: positive dimensions, four
    bytes per pixel. *)
Definition raster (img : ImageData) : Prop :=
  (0 < width img)%nat ∧ (0 < height img)%nat
  ∧ length (data img) = (4 * width img * height img)%nat
  ∧ bytes (data img).

(** The four bytes of pixel [p]. *)
Definition pixel (img : ImageData) (p : nat) : option (Z * Z * Z * Z) :=
  r ← data img !! (4 * p)%nat;
  g ← data img !! (4 * p + 1)%nat;
  b ← data img !! (4 * p + 2)%nat;
  a ← data img !! (4 * p + 3)%nat;
  Some (r, g, b, a).

(** Every pixel of the raster has alpha 255. *)
Definition opaque (img : ImageData) : Prop :=
  forall p, (p < width img * height img)%nat ->
            data img !! (4 * p + 3)%nat = Some 255.

(** A colour whose channels are bytes. *)
Definition is_color (c : Color) : Prop :=
  is_byte (r c) ∧ is_byte (g c) ∧ is_byte (b c).

(** The 4x4 raster whose pixels are all opaque red. *)
Definition red4x4 : ImageData :=
  mkImageData 4 4 (concat (replicate 16 [255; 0; 0; 255])).

(** A sequence of assignments [out[k] = v], carried out in order. *)
Definition writes (ws : list (nat * Z)) (out : list Z) : list Z :=
  foldl (fun o p => <[p.1 := p.2]> o) out ws.

(** The four assignments of [copy4]. *)
Definition px4 (j : nat) (src : list Z) (i : nat) : list (nat * Z) :=
  [(j, toUint8Clamp (num src i));
   ((j + 1)%nat, toUint8Clamp (num src (i + 1)));
   ((j + 2)%nat, toUint8Clamp (num src (i + 2)));
   ((j + 3)%nat, toUint8Clamp (num src (i + 3)))].

(** The rectangle lies inside an image of the given dimensions. *)
Definition in_bounds (rect : Rect) (w h : nat) : Prop :=
  (x rect + rwidth rect ≤ w)%nat ∧ (y rect + rheight rect ≤ h)%nat.

(** The layer has a mask of [n] entries. *)
Definition has_mask (n : nat) (l : Layer) : Prop :=
  exists m, mask l = Some m ∧ length m = n.

(** The state holds an image of the recorded dimensions and every layer has
    a mask of width times height entries. *)
Definition consistent (st : App.State) (w h : nat) : Prop :=
  exists img,
    App.originalImageData st = Some img ∧ App.dimensions st = Some (w, h)
    ∧ width img = w ∧ height img = h
    ∧ (0 < w)%nat ∧ (0 < h)%nat
    ∧ length (data img) = (4 * w * h)%nat
    ∧ Forall (has_mask (w * h)) (App.layers st).

(** Pixel [p] counts for a layer: its alpha is at least 128 and its colour
    matches the layer's colour at the layer's tolerance. *)
Definition counts (img : ImageData) (layer : Layer) (p : nat) : bool :=
  match pixel img p with
  | Some (pr, pg, pb, pa) =>
      (128 <=? pa)
      && colorMatches (ofZ pr) (ofZ pg) (ofZ pb)
                      (ofZ (r (color layer))) (ofZ (g (color layer)))
                      (ofZ (b (color layer))) (tol_of layer)
  | None => false
  end.

(** The number of pixels of the image that count for the layer. *)
Definition matching_pixels (img : ImageData) (layer : Layer) : nat :=
  length (filter (fun p => counts img layer p)
                 (seq 0 (width img * height img))).

(** The text of the row of a layer whose pixel count is [count]. *)
Definition row_text (img : ImageData) (layer : Layer) (count : nat) : string :=
  let c := color layer in
  String.app (rgbToHex (r c) (g c) (b c))
    (String.app ","
       (String.app (intToString 10 (r c))
          (String.app ","
             (String.app (intToString 10 (g c))
                (String.app ","
                   (String.app (intToString 10 (b c))
                      (String.app ","
                         (String.app (intToString 10 (Z.of_nat count))
                            (String.app ","
                               (String.app
                                  (Report.percentage count (width img * height img))
                                  "%")))))))))).

(** A decimal digit. *)
Definition is_digit (c : ascii) : Prop :=
  (48 <= N_of_ascii c <= 57)%N.

(** A text of the form [-?digits.dd]. *)
Definition two_decimals (s : string) : Prop :=
  exists (sign ip : string) (d1 d2 : ascii),
    s = String.app sign
          (String.app ip (String "." (String d1 (String d2 ""))))
    ∧ (sign = "" ∨ sign = "-")
    ∧ ip <> "" ∧ Forall is_digit (list_ascii_of_string ip)
    ∧ is_digit d1 ∧ is_digit d2.

(** The text ends with the given suffix. *)
Definition ends_with (s suffix : string) : bool :=
  let n := String.length s in
  let k := String.length suffix in
  (k <=? n)%nat && String.eqb (substring (n - k) k s) suffix.

(** ** Vocabulary of the rounding *)

(** Where the fraction [r / B] lies in [[0, 1)], as the rounding reads it:
    zero, below the half, the half, above the half. *)
Definition loc_of (r B : Z) : location :=
  if r =? 0 then loc_Exact else loc_Inexact (Z.compare (2 * r) B).

(** The integer nearest to [A / B], a tie going to the even one. *)
Definition rne (A B : Z) : Z :=
  round_nearest_even (A / B) (loc_of (A mod B) B).

(** The power of two [2 ^ e] for an exponent above -4000, scaled to an
    integer: values [m * 2 ^ e] are compared as [m * pw e]. *)
Definition pw (e : Z) : Z := 2 ^ (e + 4000).

(** The record of the shifts holds the floor of [A / B] and the two bits
    that locate the fraction. *)
Definition holds (A B : Z) (rec : shr_record) : Prop :=
  shr_m rec = A / B
  ∧ shr_r rec = (B <=? 2 * (A mod B))
  ∧ shr_s rec = negb ((A mod B =? 0) || (2 * (A mod B) =? B)).

(** The number with mantissa [m] and exponent [e] that the rounding
    returns: zero, finite, or infinite above the largest exponent. *)
Definition rounded (m e : Z) : spec_float :=
  match m with
  | Z0 => S754_zero false
  | Zpos p => if e <=? 971 then S754_finite false p e else S754_infinity false
  | Zneg _ => S754_nan
  end.

(** The number is not NaN and its sign bit is clear. *)
Definition nonneg (x : spec_float) : Prop :=
  match x with
  | S754_nan => False
  | S754_zero s | S754_infinity s | S754_finite s _ _ => s = false
  end.

(** * Further parts of the editor *)

(** ** More of the number library *)

Module JSMath.

(** [Math.max] of two numbers: NaN if either is NaN, and +0 above -0. *)
Definition Math_max (a b : float) : float :=
  if is_nan a || is_nan b then nan
  else if (a <? b)%float then b
  else if (b <? a)%float then a
  else if get_sign a then b else a.

(** [Math.max(0, Math.min(255, v))]. *)
Definition clamp255 (v : float) : float := Math_max 0 (Math_min 255 v).

End JSMath.

Import JSMath.

(** ** Painting, adjusting and replacing colours *)

Module ImageEdit.

Local Open Scope nat_scope.

(** One iteration of [mergePaintOverlay], for the pixel that starts at
    [i]: the new paint over the existing one, or the new paint alone. *)
Definition merge_px (existing : option (list Z)) (newData : list Z)
    (out : list Z) (i : nat) : list Z :=
  let nA := (num newData (i + 3) / 255)%float in
  match existing with
  | Some existing =>
      let eA := (num existing (i + 3) / 255)%float in
      let out :=
        store out i
          (num newData i * nA + num existing i * eA * (1 - nA))%float in
      let out :=
        store out (i + 1)
          (num newData (i + 1) * nA + num existing (i + 1) * eA * (1 - nA))%float in
      let out :=
        store out (i + 2)
          (num newData (i + 2) * nA + num existing (i + 2) * eA * (1 - nA))%float in
      store out (i + 3) (Math_round (255 * (nA + eA * (1 - nA)))%float)
  | None => copy4 out i newData i
  end.

Definition mergePaintOverlay (existing : option (list Z)) (newData : list Z)
    (w h : nat) : list Z :=
  let len := w * h * 4 in
  foldl (merge_px existing newData) (replicate len 0%Z) (for_range len 4).

(** The first stage of [adjustImageData] on one channel: contrast and
    brightness around the middle grey. *)
Definition adjust_channel (v c b : float) : float :=
  clamp255 ((v - 127.5) * c * b + 127.5)%float.

(** The second stage: the distance to the grey of the pixel is scaled by
    [s]; it is skipped when [s] is 1. *)
Definition saturate (r g b_ s : float) : float * float * float :=
  if negb (s =? 1)%float then
    let gray := (0.299 * r + 0.587 * g + 0.114 * b_)%float in
    (clamp255 (gray + (r - gray) * s)%float,
     clamp255 (gray + (g - gray) * s)%float,
     clamp255 (gray + (b_ - gray) * s)%float)
  else (r, g, b_).

Definition adjust_px (c b s : float) (data : list Z) (i : nat) : list Z :=
  let r := adjust_channel (num data i) c b in
  let g := adjust_channel (num data (i + 1)) c b in
  let b_ := adjust_channel (num data (i + 2)) c b in
  let '(r, g, b_) := saturate r g b_ s in
  let data := store data i r in
  let data := store data (i + 1) g in
  store data (i + 2) b_.

(** [adjustImageData(imageData, { brightness, contrast, saturation })]. *)
Definition adjustImageData (imageData : ImageData)
    (brightness contrast saturation : float) : ImageData :=
  let b := (1 + brightness / 100)%float in
  let c := (1 + contrast / 100)%float in
  let s := (1 + saturation / 100)%float in
  mkImageData (width imageData) (height imageData)
    (foldl (adjust_px c b s) (data imageData)
           (for_range (length (data imageData)) 4)).

(** The distance of [replaceColorInImageData], with [x ** 2]. *)
Definition dist (r1 g1 b1 r2 g2 b2 : float) : float :=
  PrimFloat.sqrt (pow2 (r1 - r2) + pow2 (g1 - g2) + pow2 (b1 - b2))%float.

Definition replace_px (fromColor toColor : Color) (threshold : float)
    (data : list Z) (i : nat) : list Z :=
  if (dist (num data i) (num data (i + 1)) (num data (i + 2))
           (ofZ (r fromColor)) (ofZ (g fromColor)) (ofZ (b fromColor))
      <=? threshold)%float
  then
    let data := store data i (ofZ (r toColor)) in
    let data := store data (i + 1) (ofZ (g toColor)) in
    store data (i + 2) (ofZ (b toColor))
  else data.

Definition replaceColorInImageData (imageData : ImageData)
    (fromColor toColor : Color) (tolerancePercent : float) : ImageData :=
  let maxDist := PrimFloat.sqrt (3 * 255 * 255)%float in
  let threshold := ((tolerancePercent / 100) * maxDist)%float in
  mkImageData (width imageData) (height imageData)
    (foldl (replace_px fromColor toColor threshold) (data imageData)
           (for_range (length (data imageData)) 4)).

End ImageEdit.

(** ** Hexadecimal colour names and layers *)

Module HexColor.

(** The value of a character matched by [[a-f\d]] under the [i] flag. *)
Definition hexDigit (c : ascii) : option Z :=
  let n := Z.of_N (N_of_ascii c) in
  if (48 <=? n) && (n <=? 57) then Some (n - 48)
  else if (97 <=? n) && (n <=? 102) then Some (n - 87)
  else if (65 <=? n) && (n <=? 70) then Some (n - 55)
  else None.

(** [parseInt(group, 16)] of a group of two hexadecimal digits. *)
Definition parseHex2 (c1 c2 : ascii) : option Z :=
  d1 ← hexDigit c1; d2 ← hexDigit c2; Some (16 * d1 + d2).

(** [hexToRgb]: the pattern [^#?([a-f\d]{2})([a-f\d]{2})([a-f\d]{2})$]
    matches six hexadecimal digits after an optional [#]; anything else
    gives [null]. *)
Definition hexToRgb (hex : string) : option Color :=
  let body := match hex with
              | String "#" rest => rest
              | _ => hex
              end in
  match body with
  | String c1 (String c2 (String c3 (String c4 (String c5 (String c6 EmptyString))))) =>
      r ← parseHex2 c1 c2;
      g ← parseHex2 c3 c4;
      b ← parseHex2 c5 c6;
      Some (mkColor r g b)
  | _ => None
  end.

(** [createLayer(color, id, mask)]; the caller supplies the id (its
    default is built from the clock and a random number). *)
Definition createLayer (color : Color) (id : string) (mask : option (list Z))
    : Layer :=
  mkLayer id (mkColor (r color) (g color) (b color))
          (rgbToHex (r color) (g color) (b color)) true (Some 10) mask None.

(** [layer.name || rgbToHex(...)]: an empty name is falsy. *)
Definition layerDisplayName (layer : Layer) : string :=
  if String.eqb (name layer) "" then
    rgbToHex (r (color layer)) (g (color layer)) (b (color layer))
  else name layer.

End HexColor.

(** A hexadecimal digit: one of [0-9], [a-f] and [A-F]. *)
Definition is_hex_digit (c : ascii) : Prop :=
  (48 <= N_of_ascii c <= 57)%N ∨ (97 <= N_of_ascii c <= 102)%N
  ∨ (65 <= N_of_ascii c <= 70)%N.

(** ** More handlers of the application component *)

Module Handlers.

Import HexColor App.

(** [updateLayer(id, updates)]: the layers with that id are replaced by
    their updated copies. *)
Definition updateLayer (layerId : string) (updates : Layer -> Layer)
    (prev : list Layer) : list Layer :=
  map (fun l => if String.eqb (id l) layerId then updates l else l) prev.

Definition with_paint (pd : option (list Z)) (l : Layer) : Layer :=
  mkLayer (id l) (color l) (name l) (visible l) (tolerance l) (mask l) pd.

Definition with_color (c : Color) (l : Layer) : Layer :=
  mkLayer (id l) c (name l) (visible l) (tolerance l) (mask l) (paintData l).

(** [handleCommitPaint(layerId, { data, width, height })]: nothing happens
    for an empty or ill-sized overlay or an unknown layer; otherwise the
    overlay is merged over the paint of the first layer with that id. *)
Definition handleCommitPaint (layerId : string) (data : list Z)
    (width height : nat) (layers : list Layer) : list Layer :=
  if ((width =? 0) || (height =? 0)
      || negb (length data =? width * height * 4))%nat
  then layers
  else
    match find (fun l => String.eqb (id l) layerId) layers with
    | None => layers
    | Some layer =>
        let merged :=
          ImageEdit.mergePaintOverlay (paintData layer) data width height in
        updateLayer layerId (with_paint (Some merged)) layers
    end.

(** [handleMoveLayer(id, delta)]: the state update. *)
Definition handleMoveLayer (layerId : string) (delta : Z) (prev : list Layer)
    : list Layer :=
  match findIndex layerId prev with
  | None => prev
  | Some i =>
      let j := Z.max 0 (Z.min (Z.of_nat (length prev) - 1)
                              (Z.of_nat i + delta)) in
      if (Z.of_nat i =? j)%Z then prev
      else
        match prev !! i with
        | Some removed =>
            let next := delete i prev in
            take (Z.to_nat j) next ++ removed :: drop (Z.to_nat j) next
        | None => prev
        end
  end.

(** [handleAddLayer]: without a picked colour or without dimensions
    nothing is added; [newId] is the id that [createLayer] makes up. *)
Definition handleAddLayer (selectedColor : option Color)
    (dimensions : option (nat * nat)) (newId : string) (prev : list Layer)
    : list Layer :=
  match selectedColor, dimensions with
  | Some c, Some (w, h) =>
      prev ++ [with_mask (createLayer c newId None) (createFullMask w h)]
  | _, _ => prev
  end.

(** [handleReset]: the state update of the layers. *)
Definition handleReset (dimensions : option (nat * nat)) (prev : list Layer)
    : list Layer :=
  map (fun l =>
         match dimensions with
         | Some (w, h) => with_mask l (createFullMask w h)
         | None => l
         end)
      prev.

(** The state update of the layers in [handleReplaceColor]: a layer whose
    colour matches the picked colour at the layer's tolerance takes the
    replacement colour. *)
Definition replaceLayerColors (effectiveColor replaceToColor : Color)
    (prev : list Layer) : list Layer :=
  map (fun layer =>
         if colorMatches (ofZ (r (color layer))) (ofZ (g (color layer)))
                         (ofZ (b (color layer)))
                         (ofZ (r effectiveColor)) (ofZ (g effectiveColor))
                         (ofZ (b effectiveColor)) (tol_of layer)
         then with_color (mkColor (r replaceToColor) (g replaceToColor)
                                  (b replaceToColor)) layer
         else layer)
      prev.

(** [handleReplaceColor]: nothing happens without an image or a picked
    colour; otherwise the colour is replaced in a copy of the image, which
    becomes the image of the state, and in the layers. *)
Definition handleReplaceColor (effectiveColor : option Color)
    (replaceToColor : Color) (replaceTolerance : float) (st : State)
    : option State :=
  match originalImageData st, effectiveColor with
  | Some img, Some ec =>
      copy ← ImageData_of (data img) (width img) (height img);
      let copy :=
        ImageEdit.replaceColorInImageData copy ec replaceToColor
                                          replaceTolerance in
      Some (mkState (Some copy) (dimensions st)
                    (replaceLayerColors ec replaceToColor (layers st)))
  | _, _ => Some st
  end.

End Handlers.

(** ** The crop dialog *)

Module CropModal.

Local Open Scope Z_scope.

(** The rectangle [{ x, y, width, height }] that [handlePointerUp] sets
    from the two corners of the drag, in an image of [w] by [h] pixels. *)
Definition pointerUpRect (start current : Z * Z) (w h : Z) : Z * Z * Z * Z :=
  let x0 := Z.min start.1 current.1 in
  let y0 := Z.min start.2 current.2 in
  let x1 := Z.max start.1 current.1 in
  let y1 := Z.max start.2 current.2 in
  let x := x0 in
  let y := y0 in
  let width := x1 - x0 in
  let height := y1 - y0 in
  let width := if width <? 4 then 4 else width in
  let height := if height <? 4 then 4 else height in
  let x := if w <? x + width then w - width else x in
  let y := if h <? y + height then h - height else y in
  let x := if x <? 0 then 0 else x in
  let y := if y <? 0 then 0 else y in
  (x, y, width, height).

(** The rectangle as [handleCrop] receives it. *)
Definition toRect (r : Z * Z * Z * Z) : Rect :=
  let '(x, y, width, height) := r in
  mkRect (Z.to_nat x) (Z.to_nat y) (Z.to_nat width) (Z.to_nat height).

End CropModal.

(** ** Vocabulary of the pixel edits *)

(** The test of [replaceColorInImageData] on pixel [p] of a buffer. *)
Definition replace_test (fromColor : Color) (threshold : float) (d : list Z)
    (p : nat) : bool :=
  (ImageEdit.dist (num d (4 * p)) (num d (4 * p + 1)) (num d (4 * p + 2))
                  (ofZ (r fromColor)) (ofZ (g fromColor)) (ofZ (b fromColor))
   <=? threshold)%float.

(** What [replaceColorInImageData] leaves at index [j]. *)
Definition replaced (fromColor toColor : Color) (threshold : float)
    (d : list Z) (j : nat) : option Z :=
  if replace_test fromColor threshold d (j / 4) then
    match (j mod 4)%nat with
    | 0%nat => Some (toUint8Clamp (ofZ (r toColor)))
    | 1%nat => Some (toUint8Clamp (ofZ (g toColor)))
    | 2%nat => Some (toUint8Clamp (ofZ (b toColor)))
    | _ => d !! j
    end
  else d !! j.

(** What [adjustImageData] leaves at index [j], for the factors [c], [b]
    and [s]. *)
Definition adjusted (c b s : float) (d : list Z) (j : nat) : option Z :=
  let p := (j / 4)%nat in
  let '(r', g', b') :=
    ImageEdit.saturate
      (ImageEdit.adjust_channel (num d (4 * p)) c b)
      (ImageEdit.adjust_channel (num d (4 * p + 1)) c b)
      (ImageEdit.adjust_channel (num d (4 * p + 2)) c b) s in
  match (j mod 4)%nat with
  | 0%nat => Some (toUint8Clamp r')
  | 1%nat => Some (toUint8Clamp g')
  | 2%nat => Some (toUint8Clamp b')
  | _ => d !! j
  end.

(** The number is a zero, or finite and below [2 ^ B] in absolute value. *)
Definition small (B : Z) (x : spec_float) : Prop :=
  match x with
  | S754_zero _ => True
  | S754_finite _ m e => Zdigits2 (Zpos m) + e <= B
  | _ => False
  end.

(** ** More exhaustive checks *)

Module Checks.

(** The number of the slider value [k - 100], for [k] from 0 to 200. *)
Definition slider (k : int) : float := ofZ (Uint63.to_Z k - 100).

(** With the factors 1 a channel is stored as it was. *)
Definition check_adjust_neutral : bool :=
  all_below 256 (fun v =>
    PrimFloat.Leibniz.eqb (ImageEdit.adjust_channel (F v) 1 1) (F v)).

(** With the brightness factor 0 a channel is 127.5, whatever the contrast
    slider. *)
Definition check_brightness_min : bool :=
  all_below 201 (fun k => all_below 256 (fun v =>
    PrimFloat.Leibniz.eqb
      (ImageEdit.adjust_channel (F v) (1 + slider k / 100) 0) 127.5)).

(** The grey 127.5 is stored as 128, whatever the saturation slider. *)
Definition check_grey_stored : bool :=
  all_below 201 (fun k =>
    let '(r', g', b') :=
      ImageEdit.saturate 127.5 127.5 127.5 (1 + slider k / 100) in
    Z.eqb (toUint8Clamp r') 128 && Z.eqb (toUint8Clamp g') 128
    && Z.eqb (toUint8Clamp b') 128).

End Checks.

(** What [mergePaintOverlay] leaves at index [j]. *)
Definition merged (existing : option (list Z)) (newData : list Z) (j : nat)
    : option Z :=
  match existing with
  | None => Some (toUint8Clamp (num newData j))
  | Some existing =>
      let i := (4 * (j / 4))%nat in
      let nA := (num newData (i + 3) / 255)%float in
      let eA := (num existing (i + 3) / 255)%float in
      match (j mod 4)%nat with
      | 3%nat => Some (toUint8Clamp (Math_round (255 * (nA + eA * (1 - nA)))%float))
      | _ => Some (toUint8Clamp
                     (num newData j * nA + num existing j * eA * (1 - nA))%float)
      end
  end.

(** The byte [e] scaled by the alpha [a]: the nearest integer to
    [e * a / 255]. *)
Definition premultiplied (e a : Z) : Z := (2 * e * a + 255) / 510.

Module PaintChecks.

(** The alpha of new paint over existing paint is at least either. *)
Definition check_alpha_over : bool :=
  all_below 256 (fun na => all_below 256 (fun ea =>
    let a := toUint8Clamp
               (Math_round (255 * (F na / 255 + F ea / 255 * (1 - F na / 255)))%float) in
    Z.leb (Uint63.to_Z na) a && Z.leb (Uint63.to_Z ea) a)).

(** Under opaque new paint the existing paint does not count. *)
Definition check_hidden : bool :=
  all_below 256 (fun e => all_below 256 (fun ea =>
    PrimFloat.Leibniz.eqb (F e * (F ea / 255) * 0)%float 0%float)).

Definition check_opaque_new : bool :=
  all_below 256 (fun n =>
    PrimFloat.Leibniz.eqb (F n * 1 + 0)%float (F n)
    && PrimFloat.Leibniz.eqb (F n * 0)%float 0%float
    && PrimFloat.Leibniz.eqb (255 * (1 + F n / 255 * 0))%float 255%float).

(** Under transparent new paint the existing colour is scaled by its
    alpha, and the alpha is kept. *)
Definition check_transparent_new : bool :=
  all_below 256 (fun e => all_below 256 (fun ea =>
    Z.eqb (toUint8Clamp (0 + F e * (F ea / 255) * 1)%float)
          (premultiplied (Uint63.to_Z e) (Uint63.to_Z ea))
    && Z.eqb (toUint8Clamp (Math_round (255 * (0 + F ea / 255 * 1))%float))
             (Uint63.to_Z ea))).

End PaintChecks.

(** ** Vocabulary of the layer exports *)

(** Pixel [p] of the image passes the three tests of the layer: the mask
    keeps it, its colour matches and it is not fully transparent. *)
Definition shown (img : ImageData) (layer : Layer) (p : nat) : bool :=
  mask_keeps layer p
  && layer_matches (data img) layer (4 * p)
  && (0 <? num (data img) (4 * p + 3))%float.

Module BlendChecks.

(** An opaque colour byte blended over nothing, and over itself, is
    stored as it is. *)
Definition check_blend_opaque : bool :=
  all_below 256 (fun v =>
    Z.eqb (toUint8Clamp (Math_round ((F v * 1 + 0 * 0 * (1 - 1)) / 1)%float))
          (Uint63.to_Z v)
    && Z.eqb (toUint8Clamp (Math_round ((F v * 1 + F v * 1 * (1 - 1)) / 1)%float))
             (Uint63.to_Z v)).

End BlendChecks.

(** ** Vocabulary of the dominant colours *)

(** The level of a byte among 12 levels, and the centre of a level. *)
Definition level (v : Z) : Z := Z.min 11 (12 * v / 255).

Definition centre (q : Z) : Z := ((2 * q + 1) * 85 + 4) / 8.

(** Every pixel of the image is the given one. *)
Definition solid (img : ImageData) (px : Z * Z * Z * Z) : Prop :=
  forall p, (p < width img * height img)%nat -> pixel img p = Some px.

Module LevelChecks.

(** On bytes, [quantize] with 12 levels computes the level, and [center]
    the centre of the level. *)
Definition check_quantize : bool :=
  all_below 256 (fun v =>
    PrimFloat.Leibniz.eqb (quantize (F v) 12) (ofZ (level (Uint63.to_Z v)))
    && PrimFloat.Leibniz.eqb (center (quantize (F v) 12) 12)
                             (ofZ (centre (level (Uint63.to_Z v))))
    && Z.leb (Z.abs (centre (level (Uint63.to_Z v)) - Uint63.to_Z v)) 11).

End LevelChecks.

(** * Properties *)

(** ** Machine integers and exhaustive checks *)

Lemma of_Z_add a b :
  Uint63.of_Z (a + b) = PrimInt63.add (Uint63.of_Z a) (Uint63.of_Z b).
Proof.
  apply Uint63.to_Z_inj.
  rewrite Uint63.add_spec, !Uint63.of_Z_spec.
  by rewrite <- Z.add_mod by discriminate.
Qed.

Lemma of_Z_sub a b :
  Uint63.of_Z (a - b) = PrimInt63.sub (Uint63.of_Z a) (Uint63.of_Z b).
Proof.
  apply Uint63.to_Z_inj.
  rewrite Uint63.sub_spec, !Uint63.of_Z_spec.
  by rewrite <- Zminus_mod.
Qed.

Lemma of_Z_mul a b :
  Uint63.of_Z (a * b) = PrimInt63.mul (Uint63.of_Z a) (Uint63.of_Z b).
Proof.
  apply Uint63.to_Z_inj.
  rewrite Uint63.mul_spec, !Uint63.of_Z_spec.
  by rewrite <- Z.mul_mod by discriminate.
Qed.

Lemma ofZ_F z : 0 <= z -> ofZ z = F (Uint63.of_Z z).
Proof. destruct z; [done | done | lia]. Qed.

Lemma all_from_sound fuel i P :
  all_from fuel i P = true ->
  Uint63.to_Z i + Z.of_nat fuel <= Uint63.wB ->
  forall z, Uint63.to_Z i <= z < Uint63.to_Z i + Z.of_nat fuel ->
  P (Uint63.of_Z z) = true.
Proof.
  revert i. induction fuel as [|fuel IH]; intros i H Hb z Hz; [lia|].
  simpl in H. destruct (P i) eqn:Hi; [|discriminate].
  destruct (decide (z = Uint63.to_Z i)) as [->|Hne].
  - by rewrite Uint63.of_to_Z.
  - pose proof (Uint63.to_Z_bounded i) as Hi'.
    assert (Hs : Uint63.to_Z (PrimInt63.add i 1%uint63) = Uint63.to_Z i + 1).
    { rewrite Uint63.add_spec, Uint63.to_Z_1. apply Z.mod_small. lia. }
    apply (IH _ H); lia.
Qed.

Lemma all_below_sound n P :
  all_below n P = true -> n <= 1000000 ->
  forall z, 0 <= z < n -> P (Uint63.of_Z z) = true.
Proof.
  intros H Hn z Hz.
  assert (1000000 <= Uint63.wB) by (by vm_compute).
  apply (all_from_sound _ _ _ H); rewrite Uint63.to_Z_0; lia.
Qed.

Lemma float_eq_of_eqb (a b : float) : PrimFloat.Leibniz.eqb a b = true -> a = b.
Proof. apply FloatAxioms.Leibniz.eqb_spec. Qed.

Lemma check_pow2_sub_ok :
  ltac:(let t := eval unfold check_pow2_sub in (check_pow2_sub = true) in exact t).
Proof. vm_compute. reflexivity. Qed.

Lemma check_add_square_ok :
  ltac:(let t := eval unfold check_add_square in (check_add_square = true) in exact t).
Proof. vm_compute. reflexivity. Qed.

Lemma check_within_step_ok :
  ltac:(let t := eval unfold check_within_step in (check_within_step = true) in exact t).
Proof. vm_compute. reflexivity. Qed.

Lemma check_within_0_ok :
  ltac:(let t := eval unfold check_within_0 in (check_within_0 = true) in exact t).
Proof. vm_compute. reflexivity. Qed.

Lemma check_within_100_ok :
  ltac:(let t := eval unfold check_within_100 in (check_within_100 = true) in exact t).
Proof. vm_compute. reflexivity. Qed.

Lemma check_threshold_mono_ok :
  ltac:(let t := eval unfold check_threshold_mono in (check_threshold_mono = true) in exact t).
Proof. vm_compute. reflexivity. Qed.

Lemma check_byte_ok :
  ltac:(let t := eval unfold check_byte in (check_byte = true) in exact t).
Proof. vm_compute. reflexivity. Qed.

Lemma to_of_Z_small z : 0 <= z <= 1000000 -> Uint63.to_Z (Uint63.of_Z z) = z.
Proof.
  intros Hz. rewrite Uint63.of_Z_spec. apply Z.mod_small.
  assert (1000000 < Uint63.wB) by (by vm_compute). lia.
Qed.

(** ** The colour functions on bytes *)

(** The square of a difference of two bytes is computed exactly. *)
Lemma pow2_sub_bytes a b :
  is_byte a -> is_byte b ->
  pow2 (ofZ a - ofZ b) = ofZ ((a - b) * (a - b)).
Proof.
  unfold is_byte. intros Ha Hb.
  rewrite (ofZ_F ((a - b) * (a - b))) by apply Z.square_nonneg.
  rewrite !ofZ_F by lia. rewrite of_Z_mul, of_Z_sub.
  apply float_eq_of_eqb.
  pose proof (all_below_sound _ _ check_pow2_sub_ok ltac:(lia) a ltac:(lia)) as H.
  exact (all_below_sound _ _ H ltac:(lia) b ltac:(lia)).
Qed.

(** Adding the square of a byte to a sum of two such squares is exact. *)
Lemma add_square_exact s k :
  0 <= s <= 130050 -> 0 <= k <= 255 ->
  (ofZ s + ofZ (k * k))%float = ofZ (s + k * k).
Proof.
  intros Hs Hk.
  pose proof (Z.square_nonneg k) as Hkk.
  rewrite !ofZ_F by lia. rewrite of_Z_add, of_Z_mul.
  apply float_eq_of_eqb.
  pose proof (all_below_sound _ _ check_add_square_ok ltac:(lia) s ltac:(lia)) as H.
  exact (all_below_sound _ _ H ltac:(lia) k ltac:(lia)).
Qed.

Lemma sq_abs (v : Z) : v * v = Z.abs v * Z.abs v.
Proof. lia. Qed.

Lemma sq_diff_bound a b :
  is_byte a -> is_byte b -> 0 <= (a - b) * (a - b) <= 65025.
Proof.
  unfold is_byte. intros Ha Hb. rewrite sq_abs. split.
  - apply Z.square_nonneg.
  - change 65025 with (255 * 255).
    apply Z.mul_le_mono_nonneg; lia.
Qed.

Lemma dist2_bounds pr pg pb tr tg tb :
  is_byte pr -> is_byte pg -> is_byte pb ->
  is_byte tr -> is_byte tg -> is_byte tb ->
  0 <= dist2 pr pg pb tr tg tb <= 195075.
Proof.
  intros Hpr Hpg Hpb Htr Htg Htb. unfold dist2.
  pose proof (sq_diff_bound pr tr Hpr Htr).
  pose proof (sq_diff_bound pg tg Hpg Htg).
  pose proof (sq_diff_bound pb tb Hpb Htb).
  lia.
Qed.

(** On bytes, [rgbDistance] is the rounded square root of the integer
    squared distance. *)
Lemma rgbDistance_bytes pr pg pb tr tg tb :
  is_byte pr -> is_byte pg -> is_byte pb ->
  is_byte tr -> is_byte tg -> is_byte tb ->
  rgbDistance (ofZ pr) (ofZ pg) (ofZ pb) (ofZ tr) (ofZ tg) (ofZ tb)
  = PrimFloat.sqrt (ofZ (dist2 pr pg pb tr tg tb)).
Proof.
  intros Hpr Hpg Hpb Htr Htg Htb. unfold rgbDistance, dist2.
  rewrite !pow2_sub_bytes by done.
  pose proof (sq_diff_bound pr tr Hpr Htr) as H1.
  pose proof (sq_diff_bound pg tg Hpg Htg) as H2.
  unfold is_byte in *.
  rewrite (sq_abs (pg - tg)), (sq_abs (pb - tb)).
  rewrite (sq_abs (pg - tg)) in H2.
  rewrite add_square_exact by lia.
  rewrite add_square_exact by lia.
  done.
Qed.

Lemma colorMatches_bytes pr pg pb tr tg tb t :
  is_byte pr -> is_byte pg -> is_byte pb ->
  is_byte tr -> is_byte tg -> is_byte tb -> 0 <= t ->
  colorMatches (ofZ pr) (ofZ pg) (ofZ pb) (ofZ tr) (ofZ tg) (ofZ tb) (ofZ t)
  = within (Uint63.of_Z (dist2 pr pg pb tr tg tb)) (Uint63.of_Z t).
Proof.
  intros Hpr Hpg Hpb Htr Htg Htb Ht. unfold colorMatches, within.
  rewrite rgbDistance_bytes by done.
  pose proof (dist2_bounds pr pg pb tr tg tb Hpr Hpg Hpb Htr Htg Htb) as Hd.
  by rewrite !ofZ_F by lia.
Qed.

Lemma within_100 d : 0 <= d <= 195075 -> within (Uint63.of_Z d) (Uint63.of_Z 100) = true.
Proof.
  intros Hd.
  exact (all_below_sound _ _ check_within_100_ok ltac:(lia) d ltac:(lia)).
Qed.

Lemma within_0 d :
  0 <= d <= 195075 -> within (Uint63.of_Z d) (Uint63.of_Z 0) = (d =? 0).
Proof.
  intros Hd.
  pose proof (all_below_sound _ _ check_within_0_ok ltac:(lia) d ltac:(lia)) as H.
  cbv beta in H. apply Bool.eqb_prop in H. change (Uint63.of_Z 0) with 0%uint63.
  rewrite H. destruct (Z.eqb_spec d 0) as [->|Hne]; [done|].
  apply Bool.not_true_is_false. intros Heq. apply Uint63.eqb_correct in Heq.
  apply Hne. rewrite <- (to_of_Z_small d) by lia. by rewrite Heq.
Qed.

Lemma within_step d t :
  0 <= d <= 195075 -> 0 <= t < 100 ->
  within (Uint63.of_Z d) (Uint63.of_Z t) = true ->
  within (Uint63.of_Z d) (Uint63.of_Z (t + 1)) = true.
Proof.
  intros Hd Ht Hw.
  pose proof (all_below_sound _ _ check_within_step_ok ltac:(lia) d ltac:(lia)) as H.
  pose proof (all_below_sound _ _ H ltac:(lia) t ltac:(lia)) as H'.
  cbv beta in H'. rewrite Hw in H'. by rewrite of_Z_add.
Qed.

(** Raising the slider never turns a passing distance into a failing
    one. *)
Lemma within_mono d t1 t2 :
  0 <= d <= 195075 -> 0 <= t1 <= t2 -> t2 <= 100 ->
  within (Uint63.of_Z d) (Uint63.of_Z t1) = true ->
  within (Uint63.of_Z d) (Uint63.of_Z t2) = true.
Proof.
  intros Hd Ht1 Ht2 Hw.
  assert (forall n : nat, t1 + Z.of_nat n <= 100 ->
            within (Uint63.of_Z d) (Uint63.of_Z (t1 + Z.of_nat n)) = true) as Hn.
  { induction n as [|n IH]; intros Hle.
    - by rewrite Z.add_0_r.
    - replace (t1 + Z.of_nat (S n)) with (t1 + Z.of_nat n + 1) by lia.
      apply within_step; [lia | lia | apply IH; lia]. }
  specialize (Hn (Z.to_nat (t2 - t1))).
  replace (t1 + Z.of_nat (Z.to_nat (t2 - t1))) with t2 in Hn by lia.
  apply Hn. lia.
Qed.

Lemma threshold_mono t1 t2 :
  0 <= t1 <= t2 -> t2 <= 100 ->
  (toleranceToDistance (ofZ t1) <=? toleranceToDistance (ofZ t2))%float = true.
Proof.
  intros Ht1 Ht2. rewrite !ofZ_F by lia.
  pose proof (all_below_sound _ _ check_threshold_mono_ok ltac:(lia) t1 ltac:(lia)) as H.
  pose proof (all_below_sound _ _ H ltac:(lia) t2 ltac:(lia)) as H'.
  cbv beta in H'.
  assert (Hle : PrimInt63.leb (Uint63.of_Z t1) (Uint63.of_Z t2) = true).
  { apply Uint63.leb_spec. rewrite !to_of_Z_small by lia. lia. }
  by rewrite Hle in H'.
Qed.

(** A byte read back from the buffer and stored again is unchanged, and so
    on for the other byte operations of the loops. *)
Lemma byte_facts v :
  is_byte v ->
  toUint8Clamp (ofZ v) = v
  /\ toUint8Clamp (255 - ofZ v)%float = 255 - v
  /\ (0 <? ofZ v)%float = (0 <? v)
  /\ (ofZ v <? 128)%float = (v <? 128).
Proof.
  unfold is_byte. intros Hv. rewrite ofZ_F by lia.
  pose proof (all_below_sound _ _ check_byte_ok ltac:(lia) v ltac:(lia)) as H.
  cbv beta in H. rewrite to_of_Z_small in H by lia.
  apply andb_prop in H as [H H4]. apply andb_prop in H as [H H3].
  apply andb_prop in H as [H1 H2].
  apply Z.eqb_eq in H1, H2. apply Bool.eqb_prop in H3, H4. done.
Qed.

(** ** Loops and typed-array accesses *)

Section Loops.

Local Open Scope nat_scope.

Lemma for_from_4 fuel i stop :
  (stop + 3 - i) / 4 ≤ fuel ->
  for_from fuel i stop 4 = (fun k => i + 4 * k) <$> seq 0 ((stop + 3 - i) / 4).
Proof.
  revert i. induction fuel as [|fuel IH]; intros i Hf.
  - by replace ((stop + 3 - i) / 4) with 0 by lia.
  - cbn [for_from]. destruct (Nat.ltb_spec i stop) as [Hlt|Hge].
    + replace ((stop + 3 - i) / 4) with (S ((stop + 3 - (i + 4)) / 4)) by lia.
      rewrite IH by lia.
      change (seq 0 (S ?m)) with (0 :: seq 1 m). rewrite fmap_cons.
      rewrite <- fmap_S_seq, <- list_fmap_compose.
      f_equal; [lia|].
      apply list_fmap_ext. intros _ k _. simpl. lia.
    + by replace ((stop + 3 - i) / 4) with 0 by lia.
Qed.

(** The pixel loop [for (i = 0; i < stop; i += 4)] visits the multiples
    of 4 below [stop]. *)
Lemma for_range_4 stop :
  for_range stop 4 = (fun k => 4 * k) <$> seq 0 ((stop + 3) / 4).
Proof.
  unfold for_range. rewrite for_from_4 by lia.
  by rewrite Nat.sub_0_r.
Qed.

Lemma store_lookup a k v j :
  store a k v !! j
  = if decide (k = j ∧ k < length a) then Some (toUint8Clamp v) else a !! j.
Proof. apply list_lookup_insert. Qed.

Lemma length_store a k v : length (store a k v) = length a.
Proof. apply length_insert. Qed.

Lemma num_Some a k v : a !! k = Some v -> num a k = ofZ v.
Proof. unfold num. by intros ->. Qed.

Lemma bytes_lookup d k v : bytes d -> d !! k = Some v -> is_byte v.
Proof. intros Hd. by apply Forall_lookup_1. Qed.

(** *** [invertImageData] *)

Lemma store_inv_lookup d p j :
  bytes d ->
  store d p (255 - num d p)%float !! j
  = if decide (p = j) then (fun v => 255 - v)%Z <$> d !! j else d !! j.
Proof.
  intros Hd. rewrite store_lookup.
  destruct (decide (p = j)) as [->|Hne].
  - destruct (d !! j) as [v|] eqn:Hv.
    + rewrite decide_True by (split; [done | by eapply lookup_lt_Some]).
      rewrite (num_Some _ _ _ Hv). simpl. f_equal.
      by apply byte_facts, (bytes_lookup d j).
    + apply lookup_ge_None_1 in Hv. rewrite decide_False by lia. done.
  - by rewrite decide_False by tauto.
Qed.

Lemma store_inv_bytes d p : bytes d -> bytes (store d p (255 - num d p)%float).
Proof.
  intros Hd. apply Forall_lookup_2. intros j v.
  rewrite store_inv_lookup by done.
  destruct (decide (p = j)) as [->|]; [|by apply bytes_lookup].
  destruct (d !! j) as [u|] eqn:Hu; [|done]. intros [= <-].
  apply (bytes_lookup d j) in Hu; [|done]. unfold is_byte in *. lia.
Qed.

Lemma invert_px_lookup d i j :
  bytes d ->
  invert_px d i !! j
  = if decide (i ≤ j < i + 3) then (fun v => 255 - v)%Z <$> d !! j else d !! j.
Proof.
  intros Hd. unfold invert_px.
  pose proof (store_inv_bytes d i Hd) as H1.
  pose proof (store_inv_bytes _ (i + 1) H1) as H2.
  rewrite !store_inv_lookup by done.
  repeat case_decide; try lia; done.
Qed.

Lemma invert_px_bytes d i : bytes d -> bytes (invert_px d i).
Proof.
  intros Hd. unfold invert_px.
  by do 3 apply store_inv_bytes.
Qed.

Lemma invert_fold d n :
  bytes d ->
  bytes (foldl invert_px d ((fun k => 4 * k) <$> seq 0 n)) ∧
  forall j, foldl invert_px d ((fun k => 4 * k) <$> seq 0 n) !! j
            = if decide (j < 4 * n ∧ j mod 4 ≠ 3)
              then (fun v => 255 - v)%Z <$> d !! j else d !! j.
Proof.
  intros Hd. induction n as [|n [IHb IH]].
  - split; [done|]. intros j. cbn [seq fmap list_fmap foldl].
    by rewrite decide_False by lia.
  - rewrite seq_S, fmap_app, foldl_app. cbn [fmap list_fmap foldl Nat.add].
    split.
    + by apply invert_px_bytes.
    + intros j. rewrite invert_px_lookup by done. rewrite IH.
      repeat case_decide; try lia; done.
Qed.

End Loops.

Lemma invertImageData_lookup img j :
  bytes (data img) ->
  data (invertImageData img) !! j = inverted j <$> data img !! j.
Proof.
  intros Hd. unfold invertImageData. simpl. rewrite for_range_4.
  destruct (invert_fold (data img) ((length (data img) + 3) / 4) Hd) as [_ ->].
  unfold inverted.
  destruct (data img !! j) as [v|] eqn:Hv; [|by destruct (decide _)].
  apply lookup_lt_Some in Hv.
  destruct (Nat.eqb_spec (j mod 4) 3) as [He|Hne].
  - by rewrite decide_False by (intros [_ Hc]; by apply Hc).
  - rewrite decide_True; [done|]. split; [lia | done].
Qed.

Lemma invertImageData_bytes img :
  bytes (data img) -> bytes (data (invertImageData img)).
Proof.
  intros Hd. unfold invertImageData. simpl. rewrite for_range_4.
  by apply invert_fold.
Qed.

(** C10. [invertImageData] keeps the dimensions, maps the byte [v] of every
    colour channel to [255 - v] and leaves every alpha byte (index 3 modulo
    4) as it is; applied twice it gives back the raster. *)
Theorem invertImageData_involution img :
  bytes (data img) ->
  width (invertImageData img) = width img
  ∧ height (invertImageData img) = height img
  ∧ (forall j v, data img !! j = Some v ->
       data (invertImageData img) !! j
       = Some (if (j mod 4 =? 3)%nat then v else 255 - v))
  ∧ invertImageData (invertImageData img) = img.
Proof.
  intros Hd. split; [done|]. split; [done|]. split.
  - intros j v Hv. by rewrite invertImageData_lookup, Hv.
  - destruct img as [w h d]. simpl in Hd.
    assert (data (invertImageData (invertImageData (mkImageData w h d))) = d) as Hdd.
    { apply list_eq. intros j.
      rewrite invertImageData_lookup by by apply invertImageData_bytes.
      rewrite invertImageData_lookup by done. simpl.
      destruct (d !! j) as [v|] eqn:Hv; [|done]. simpl. f_equal.
      unfold inverted. destruct (j mod 4 =? 3)%nat; lia. }
    unfold invertImageData in *. simpl in *. by rewrite Hdd.
Qed.

Lemma invertImageData_involution_witness :
  invertImageData (invertImageData (mkImageData 1 2 [10; 20; 30; 255; 0; 255; 7; 128]))
  = mkImageData 1 2 [10; 20; 30; 255; 0; 255; 7; 128].
Proof.
  apply invertImageData_involution.
  unfold bytes, is_byte. simpl. repeat constructor; lia.
Defined.

(** ** Rasters *)

Section LayerExport.

Local Open Scope nat_scope.

Lemma new_ImageData_pos w h :
  0 < w -> 0 < h ->
  new_ImageData w h = Some (mkImageData w h (replicate (4 * w * h) 0%Z)).
Proof.
  intros Hw Hh. unfold new_ImageData.
  destruct w, h; try lia. done.
Qed.

Lemma store_byte_lookup out j src i k v :
  bytes src -> src !! i = Some v -> j < length out ->
  store out j (num src i) !! k = if decide (j = k) then Some v else out !! k.
Proof.
  intros Hs Hv Hj. rewrite store_lookup, (num_Some _ _ _ Hv).
  destruct (decide (j = k)) as [->|Hne].
  - rewrite decide_True by done. f_equal.
    by apply byte_facts, (bytes_lookup src i).
  - by rewrite decide_False by tauto.
Qed.

(** Copying a pixel that lies inside both buffers. *)
Lemma copy4_lookup out j src i k :
  bytes src -> i + 3 < length src -> j + 3 < length out ->
  copy4 out j src i !! k
  = if decide (j ≤ k < j + 4) then src !! (i + (k - j)) else out !! k.
Proof.
  intros Hs Hi Hj. unfold copy4.
  destruct (lookup_lt_is_Some_2 src i) as [v0 H0]; [lia|].
  destruct (lookup_lt_is_Some_2 src (i + 1)) as [v1 H1]; [lia|].
  destruct (lookup_lt_is_Some_2 src (i + 2)) as [v2 H2]; [lia|].
  destruct (lookup_lt_is_Some_2 src (i + 3)) as [v3 H3]; [lia|].
  rewrite (store_byte_lookup _ _ _ _ _ _ Hs H3) by (rewrite !length_store; lia).
  rewrite (store_byte_lookup _ _ _ _ _ _ Hs H2) by (rewrite !length_store; lia).
  rewrite (store_byte_lookup _ _ _ _ _ _ Hs H1) by (rewrite !length_store; lia).
  rewrite (store_byte_lookup _ _ _ _ _ _ Hs H0) by lia.
  repeat case_decide; try lia.
  - by replace (i + (k - j)) with (i + 3) by lia.
  - by replace (i + (k - j)) with (i + 2) by lia.
  - by replace (i + (k - j)) with (i + 1) by lia.
  - by replace (i + (k - j)) with i by lia.
  - done.
Qed.

Lemma length_copy4 out j src i : length (copy4 out j src i) = length out.
Proof. unfold copy4. by rewrite !length_store. Qed.

(** The export loop over the first [n] pixels, when each of them passes
    the three tests of the layer. *)
Lemma export_fold src layer out n :
  bytes src -> length out = length src -> 4 * n ≤ length src ->
  (forall p, p < n ->
     mask_keeps layer p = true ∧ layer_matches src layer (4 * p) = true
     ∧ (0 <? num src (4 * p + 3))%float = true) ->
  length (foldl (export_px src layer) out ((fun k => 4 * k) <$> seq 0 n))
  = length out
  ∧ forall k, foldl (export_px src layer) out ((fun k => 4 * k) <$> seq 0 n) !! k
              = if decide (k < 4 * n) then src !! k else out !! k.
Proof.
  intros Hs Hlen. induction n as [|n IH]; intros Hn Hall.
  - split; [done|]. intros k. cbn [seq fmap list_fmap foldl].
    by rewrite decide_False by lia.
  - destruct IH as [IHl IH]; [lia | intros p Hp; apply Hall; lia |].
    rewrite seq_S, fmap_app, foldl_app. cbn [fmap list_fmap foldl Nat.add].
    destruct (Hall n) as (Hk & Hm & Ha); [lia|].
    unfold export_px at 1 3.
    replace (4 * n / 4) with n by lia.
    rewrite Hk, Hm, Ha. cbn [andb].
    split; [by rewrite length_copy4|].
    intros k. rewrite copy4_lookup by first [done | rewrite ?IHl; lia]. rewrite IH.
    repeat case_decide; try lia; try done.
    f_equal. lia.
Qed.

End LayerExport.

(** ** Per-layer export *)

Lemma raster_pixel img p :
  raster img -> (p < width img * height img)%nat ->
  exists r g b a,
    data img !! (4 * p)%nat = Some r ∧ data img !! (4 * p + 1)%nat = Some g
    ∧ data img !! (4 * p + 2)%nat = Some b ∧ data img !! (4 * p + 3)%nat = Some a
    ∧ is_byte r ∧ is_byte g ∧ is_byte b ∧ is_byte a.
Proof.
  intros (Hw & Hh & Hlen & Hb) Hp.
  destruct (lookup_lt_is_Some_2 (data img) (4 * p)) as [r Hr]; [lia|].
  destruct (lookup_lt_is_Some_2 (data img) (4 * p + 1)) as [g Hg]; [lia|].
  destruct (lookup_lt_is_Some_2 (data img) (4 * p + 2)) as [b Hbl]; [lia|].
  destruct (lookup_lt_is_Some_2 (data img) (4 * p + 3)) as [a Ha]; [lia|].
  exists r, g, b, a. repeat split; try done; by eapply bytes_lookup.
Qed.

(** On a raster the colour test of a layer is the distance test on the
    integer squared distance. *)
Lemma layer_matches_raster img layer p pr pg pb pa t :
  raster img -> (p < width img * height img)%nat ->
  is_color (color layer) -> tolerance layer = Some t -> 0 <= t ->
  pixel img p = Some (pr, pg, pb, pa) ->
  layer_matches (data img) layer (4 * p)
  = within (Uint63.of_Z (dist2 pr pg pb (r (color layer)) (g (color layer))
                               (b (color layer))))
           (Uint63.of_Z t).
Proof.
  intros Hr Hp (Hcr & Hcg & Hcb) Ht Ht0 Hpx.
  destruct (raster_pixel img p Hr Hp)
    as (r' & g' & b' & a' & H0 & H1 & H2 & H3 & Br & Bg & Bb & Ba).
  unfold pixel in Hpx. rewrite H0, H1, H2, H3 in Hpx. simpl in Hpx.
  injection Hpx as <- <- <- <-.
  unfold layer_matches, tol_of. rewrite Ht.
  change (default 10 (Some t)) with t.
  rewrite (num_Some _ _ _ H0), (num_Some _ _ _ H1), (num_Some _ _ _ H2).
  by apply colorMatches_bytes.
Qed.

(** C1. On a raster whose pixels all have alpha 255, the export of a layer
    with an all-ones mask and tolerance 100 (and any colour) is the raster
    itself, byte for byte. *)
Theorem exportLayer_opaque_full_mask img layer :
  raster img -> opaque img -> is_color (color layer) ->
  mask layer = Some (replicate (width img * height img) 1) ->
  tolerance layer = Some 100 ->
  exportLayerToImageData img layer = Some img.
Proof.
  intros Hr Ho Hc Hm Ht.
  pose proof Hr as (Hw & Hh & Hlen & Hb).
  unfold exportLayerToImageData.
  rewrite new_ImageData_pos by done. cbn [mbind option_bind data].
  rewrite for_range_4.
  replace ((length (data img) + 3) / 4)%nat with (width img * height img)%nat by lia.
  destruct (export_fold (data img) layer
              (replicate (4 * width img * height img) 0)
              (width img * height img)%nat) as [Hl Hk].
  - done.
  - by rewrite length_replicate.
  - lia.
  - intros p Hp. split; [|split].
    + unfold mask_keeps. rewrite Hm. apply bool_decide_eq_true.
      by apply lookup_replicate_2.
    + destruct (raster_pixel img p Hr Hp)
        as (pr & pg & pb & pa & H0 & H1 & H2 & H3 & Br & Bg & Bb & Ba).
      rewrite (layer_matches_raster img layer p pr pg pb pa 100) by
        first [done | lia | unfold pixel; by rewrite H0, H1, H2, H3].
      apply within_100. by apply dist2_bounds; destruct Hc as (? & ? & ?).
    + rewrite (num_Some _ _ _ (Ho p Hp)). by vm_compute.
  - destruct img as [w h d]. cbn [width height data] in *. do 2 f_equal.
    apply list_eq. intros k. rewrite Hk.
    case_decide; [done|].
    rewrite (lookup_ge_None_2 d) by lia.
    apply lookup_replicate_None. lia.
Qed.

Lemma exportLayer_opaque_full_mask_witness :
  let img := mkImageData 1 2 [255; 0; 0; 255; 3; 200; 77; 255] in
  let layer := mkLayer "a" (mkColor 0 255 255) "#00ffff" true (Some 100)
                       (Some [1; 1]) None in
  raster img ∧ exportLayerToImageData img layer = Some img.
Proof.
  assert (Hr : raster (mkImageData 1 2 [255; 0; 0; 255; 3; 200; 77; 255])).
  { unfold raster, bytes, is_byte. simpl. repeat split; try lia.
    repeat constructor; lia. }
  split; [exact Hr|].
  apply exportLayer_opaque_full_mask; [exact Hr | | | reflexivity | reflexivity].
  - intros p Hp. simpl in Hp. destruct p as [|[|p]]; [done | done | lia].
  - unfold is_color, is_byte. simpl. lia.
Defined.

(** ** Reconstruction *)

Lemma filter_none {A} (P : A -> Prop) `{forall a, Decision (P a)} (l : list A) :
  (forall a, ¬ P a) -> filter P l = [].
Proof.
  intros Hn. induction l as [|a l IH]; [done|].
  by rewrite filter_cons_False.
Qed.

(** C6. With an empty set of selected ids, [exportReconstructedImageData]
    returns (it does not throw) a raster of the same width and height whose
    bytes are all zero, whatever the layers. *)
Theorem exportReconstructed_empty img layers :
  (0 < width img)%nat -> (0 < height img)%nat ->
  exportReconstructedImageData img layers ∅
  = Some (mkImageData (width img) (height img)
            (replicate (4 * width img * height img) 0)).
Proof.
  intros Hw Hh. unfold exportReconstructedImageData.
  rewrite filter_none by set_solver.
  cbn [length Nat.eqb]. by apply new_ImageData_pos.
Qed.

Lemma exportReconstructed_empty_witness :
  exportReconstructedImageData
    (mkImageData 1 1 [9; 8; 7; 255])
    [mkLayer "a" (mkColor 9 8 7) "#090807" true (Some 10) (Some [1]) None] ∅
  = Some (mkImageData 1 1 [0; 0; 0; 0]).
Proof.
  apply (exportReconstructed_empty (mkImageData 1 1 [9; 8; 7; 255])); simpl; lia.
Defined.


(** ** Magnitudes of binary64 numbers

    The number of a pixel count and the percentage computed from it are
    finite: this follows the exponents through the rounding of
    [SpecFloat]. *)

Section Magnitude.

Local Open Scope Z_scope.

Lemma digits2_pos_size p : digits2_pos p = Pos.size p.
Proof. induction p as [p IH|p IH|]; cbn; by rewrite ?IH. Qed.

Lemma Zdigits2_nonneg m : 0 <= Zdigits2 m.
Proof. destruct m; cbn; lia. Qed.

Lemma Zdigits2_pos m : 0 < m -> 0 < Zdigits2 m.
Proof. destruct m; cbn; lia. Qed.

Lemma Zdigits2_gt m : 0 <= m -> m < 2 ^ Zdigits2 m.
Proof.
  destruct m as [|p|p]; intros Hm; [done| |lia].
  cbn [Zdigits2]. rewrite digits2_pos_size.
  pose proof (Pos.size_gt p) as H.
  apply Pos2Z.pos_lt_pos in H. by rewrite Pos2Z.inj_pow in H.
Qed.

Lemma Zdigits2_le m : 0 < m -> 2 ^ Zdigits2 m <= 2 * m.
Proof.
  destruct m as [|p|p]; intros Hm; [lia| |lia].
  cbn [Zdigits2]. rewrite digits2_pos_size.
  pose proof (Pos.size_le p) as H.
  apply Pos2Z.pos_le_pos in H. by rewrite Pos2Z.inj_pow in H.
Qed.

(** A number below [2^k] has at most [k] digits. *)
Lemma Zdigits2_ub m k : 0 <= k -> 0 <= m < 2 ^ k -> Zdigits2 m <= k.
Proof.
  intros Hk [Hm Hlt]. destruct (Z.eq_dec m 0) as [->|Hne]; [done|].
  pose proof (Zdigits2_le m ltac:(lia)) as Hle.
  destruct (Z_lt_le_dec k (Zdigits2 m)) as [Hgt|]; [|done].
  exfalso.
  assert (2 ^ (k + 1) <= 2 ^ Zdigits2 m) by (apply Z.pow_le_mono_r; lia).
  rewrite Z.pow_add_r in H by lia. lia.
Qed.

(** A number that is at least [2^k] has more than [k] digits. *)
Lemma Zdigits2_lb m k : 0 <= k -> 2 ^ k <= m -> k < Zdigits2 m.
Proof.
  intros Hk Hle. pose proof (Z.pow_pos_nonneg 2 k ltac:(lia) Hk) as Hp.
  pose proof (Zdigits2_gt m ltac:(lia)) as Hgt.
  destruct (Z_lt_le_dec k (Zdigits2 m)) as [|Hge]; [done|].
  exfalso.
  assert (2 ^ Zdigits2 m <= 2 ^ k)
    by (apply Z.pow_le_mono_r; [lia | done]).
  lia.
Qed.

Lemma Zdigits2_mono a b : 0 <= a <= b -> Zdigits2 a <= Zdigits2 b.
Proof.
  intros [Ha Hab]. apply Zdigits2_ub; [apply Zdigits2_nonneg|].
  pose proof (Zdigits2_gt b ltac:(lia)). lia.
Qed.

Lemma Zdigits2_succ m : 0 <= m -> Zdigits2 (m + 1) <= Zdigits2 m + 1.
Proof.
  intros Hm. pose proof (Zdigits2_nonneg m) as Hn.
  apply Zdigits2_ub; [lia|].
  pose proof (Zdigits2_gt m Hm). rewrite Z.pow_add_r by lia. lia.
Qed.

Lemma Zdigits2_mul a b :
  0 <= a -> 0 <= b -> Zdigits2 (a * b) <= Zdigits2 a + Zdigits2 b.
Proof.
  intros Ha Hb. pose proof (Zdigits2_nonneg a). pose proof (Zdigits2_nonneg b).
  apply Zdigits2_ub; [lia|]. split; [lia|].
  rewrite Z.pow_add_r by lia.
  pose proof (Zdigits2_gt a Ha). pose proof (Zdigits2_gt b Hb).
  apply Z.mul_lt_mono_nonneg; lia.
Qed.

(** *** Shifting the mantissa right *)

Lemma shr_1_m r : 0 <= shr_m r -> shr_m (shr_1 r) = shr_m r / 2.
Proof.
  destruct r as [m rb sb]. cbn [shr_m]. intros Hm.
  rewrite <- Z.div2_div.
  destruct m as [|[p|p|]|p]; first [done | lia].
Qed.

Lemma iter_shr_m p r :
  0 <= shr_m r -> shr_m (SpecFloat.iter_pos shr_1 p r) = shr_m r / 2 ^ Zpos p.
Proof.
  revert r. induction p as [p IH|p IH|]; intros r Hr.
  - cbn [SpecFloat.iter_pos].
    assert (H1 : 0 <= shr_m (shr_1 r)) by (rewrite shr_1_m by done; apply Z.div_pos; lia).
    assert (H2 : 0 <= shr_m (SpecFloat.iter_pos shr_1 p (shr_1 r)))
      by (rewrite IH by done; apply Z.div_pos; lia).
    rewrite IH, IH, shr_1_m by done.
    pose proof (Z.pow_pos_nonneg 2 (Z.pos p) ltac:(lia) ltac:(lia)) as Hp.
    rewrite !Z.div_div by lia. f_equal.
    replace (Z.pos p~1) with (1 + Z.pos p + Z.pos p) by lia.
    rewrite !Z.pow_add_r by lia. rewrite Z.pow_1_r. ring.
  - cbn [SpecFloat.iter_pos].
    assert (H2 : 0 <= shr_m (SpecFloat.iter_pos shr_1 p r))
      by (rewrite IH by done; apply Z.div_pos; lia).
    rewrite IH, IH by done.
    pose proof (Z.pow_pos_nonneg 2 (Z.pos p) ltac:(lia) ltac:(lia)) as Hp.
    rewrite !Z.div_div by lia. f_equal.
    replace (Z.pos p~0) with (Z.pos p + Z.pos p) by lia.
    rewrite !Z.pow_add_r by lia. ring.
  - cbn [SpecFloat.iter_pos]. by rewrite shr_1_m, Z.pow_1_r.
Qed.

Lemma shr_record_of_loc_m m l : shr_m (shr_record_of_loc m l) = m.
Proof. by destruct l as [|[]]. Qed.

(** The mantissa and exponent after [shr_fexp]. *)
Lemma shr_fexp_eq m e l :
  0 <= m ->
  let n := fexp prec emax (Zdigits2 m + e) - e in
  shr_m (shr_fexp prec emax m e l).1 = (if 0 <? n then m / 2 ^ n else m)
  ∧ (shr_fexp prec emax m e l).2 = (if 0 <? n then e + n else e).
Proof.
  intros Hm n. unfold shr_fexp, shr. fold n.
  destruct n as [|p|p]; cbn [fst snd Z.ltb Z.compare].
  - by rewrite shr_record_of_loc_m.
  - rewrite iter_shr_m by by rewrite shr_record_of_loc_m.
    by rewrite shr_record_of_loc_m.
  - by rewrite shr_record_of_loc_m.
Qed.

(** Upper bound: the magnitude [digits + exponent] does not grow, and the
    exponent stays below the bound. *)
Lemma shr_fexp_ub m e l B :
  0 <= m -> Zdigits2 m + e <= B -> e <= B -> emin <= B ->
  0 <= shr_m (shr_fexp prec emax m e l).1
  ∧ Zdigits2 (shr_m (shr_fexp prec emax m e l).1) + (shr_fexp prec emax m e l).2 <= B
  ∧ (shr_fexp prec emax m e l).2 <= B.
Proof.
  intros Hm HB He Hemin.
  destruct (shr_fexp_eq m e l Hm) as [-> ->].
  set (n := fexp prec emax (Zdigits2 m + e) - e).
  assert (Hn : e + n <= B).
  { unfold n, fexp. set (em := SpecFloat.emin prec emax) in *.
    change prec with 53. lia. }
  destruct (Z.ltb_spec 0 n) as [Hpos|Hle]; [|done].
  pose proof (Z.pow_pos_nonneg 2 n ltac:(lia) ltac:(lia)) as Hp.
  pose proof (Zdigits2_gt m Hm) as Hgt.
  pose proof (Zdigits2_nonneg m) as Hd.
  split; [apply Z.div_pos; lia|]. split; [|done].
  destruct (Z_lt_le_dec (Zdigits2 m) n) as [Hs|Hs].
  - rewrite Z.div_small; [cbn; lia|]. split; [done|].
    assert (2 ^ Zdigits2 m <= 2 ^ n) by (apply Z.pow_le_mono_r; lia). lia.
  - assert (Zdigits2 (m / 2 ^ n) <= Zdigits2 m - n); [|lia].
    apply Zdigits2_ub; [lia|]. split; [apply Z.div_pos; lia|].
    apply Z.div_lt_upper_bound; [lia|].
    rewrite <- Z.pow_add_r by lia. by replace (n + (Zdigits2 m - n)) with (Zdigits2 m) by lia.
Qed.

Lemma round_nearest_even_bounds m l :
  m <= round_nearest_even m l <= m + 1.
Proof.
  unfold round_nearest_even. destruct l as [|[]]; try lia.
  destruct (Z.even m); lia.
Qed.

Lemma shr_fexp_nonneg m e l :
  0 <= m -> 0 <= shr_m (shr_fexp prec emax m e l).1.
Proof.
  intros Hm. destruct (shr_fexp_eq m e l Hm) as [-> _].
  destruct (Z.ltb_spec 0 (fexp prec emax (Zdigits2 m + e) - e)); [|done].
  apply Z.div_pos; [done|]. apply Z.pow_pos_nonneg; lia.
Qed.

(** Lower bound, for a mantissa in the normal range: the magnitude does
    not shrink. *)
Lemma shr_fexp_lb m e l :
  0 < m -> emin + 53 <= Zdigits2 m + e ->
  0 < shr_m (shr_fexp prec emax m e l).1
  ∧ Zdigits2 m + e
    <= Zdigits2 (shr_m (shr_fexp prec emax m e l).1) + (shr_fexp prec emax m e l).2.
Proof.
  intros Hm HM.
  destruct (shr_fexp_eq m e l ltac:(lia)) as [-> ->].
  set (n := fexp prec emax (Zdigits2 m + e) - e).
  assert (Hn : n = Zdigits2 m - 53).
  { unfold n, fexp. set (em := SpecFloat.emin prec emax) in *.
    change prec with 53. lia. }
  destruct (Z.ltb_spec 0 n) as [Hpos|Hle]; [|lia].
  pose proof (Zdigits2_le m Hm) as Hle.
  assert (H52 : 2 ^ 52 <= m / 2 ^ n).
  { apply Z.div_le_lower_bound; [apply Z.pow_pos_nonneg; lia|].
    rewrite <- Z.pow_add_r by lia.
    replace (n + 52) with (Zdigits2 m - 1) by lia.
    assert (2 ^ Zdigits2 m = 2 * 2 ^ (Zdigits2 m - 1)).
    { rewrite <- (Z.pow_succ_r 2) by lia. f_equal. lia. }
    lia. }
  pose proof (Zdigits2_lb _ 52 ltac:(lia) H52).
  pose proof (Z.pow_pos_nonneg 2 52 ltac:(lia) ltac:(lia)).
  lia.
Qed.

Lemma binary_round_aux_eq s mx ex lx :
  binary_round_aux prec emax s mx ex lx
  = let p1 := shr_fexp prec emax mx ex lx in
    let p2 := shr_fexp prec emax
                (round_nearest_even (shr_m p1.1) (loc_of_shr_record p1.1))
                p1.2 loc_Exact in
    match shr_m p2.1 with
    | Z0 => S754_zero s
    | Zpos m => if p2.2 <=? emax - prec then S754_finite s m p2.2
                else S754_infinity s
    | Zneg _ => S754_nan
    end.
Proof.
  unfold binary_round_aux.
  destruct (shr_fexp prec emax mx ex lx) as [r1 e1]. cbn [fst snd].
  by destruct (shr_fexp prec emax _ e1 loc_Exact) as [r2 e2].
Qed.

(** The result of rounding a non-negative mantissa has the given sign and
    is not NaN. *)
Lemma binary_round_aux_sign s mx ex lx :
  0 <= mx ->
  match binary_round_aux prec emax s mx ex lx with
  | S754_nan => False
  | S754_zero s' | S754_infinity s' | S754_finite s' _ _ => s' = s
  end.
Proof.
  intros Hm. rewrite binary_round_aux_eq. cbv zeta.
  pose proof (shr_fexp_nonneg mx ex lx Hm) as H1.
  set (p1 := shr_fexp prec emax mx ex lx) in *.
  pose proof (round_nearest_even_bounds (shr_m p1.1) (loc_of_shr_record p1.1)) as Hr.
  set (mr := round_nearest_even (shr_m p1.1) (loc_of_shr_record p1.1)) in *.
  assert (H2 := shr_fexp_nonneg mr p1.2 loc_Exact ltac:(lia)).
  set (p2 := shr_fexp prec emax mr p1.2 loc_Exact) in *.
  destruct (shr_m p2.1) as [|m|m]; [done | by destruct (_ <=? _) | lia].
Qed.

(** Rounding a mantissa of magnitude at most [B] gives zero or a finite
    number of magnitude at most [B + 1]. *)
Lemma binary_round_aux_ub s mx ex lx B :
  0 <= mx -> Zdigits2 mx + ex <= B -> ex <= B -> emin <= B -> B <= 971 ->
  match binary_round_aux prec emax s mx ex lx with
  | S754_zero s' => s' = s
  | S754_finite s' m e => s' = s ∧ Zdigits2 (Zpos m) + e <= B + 1
  | _ => False
  end.
Proof.
  intros Hm HB He Hemin H971. rewrite binary_round_aux_eq. cbv zeta.
  destruct (shr_fexp_ub mx ex lx B Hm HB He Hemin) as (H1 & H1B & H1e).
  set (p1 := shr_fexp prec emax mx ex lx) in *.
  pose proof (round_nearest_even_bounds (shr_m p1.1) (loc_of_shr_record p1.1)) as Hr.
  set (mr := round_nearest_even (shr_m p1.1) (loc_of_shr_record p1.1)) in *.
  assert (Hmr : Zdigits2 mr <= Zdigits2 (shr_m p1.1) + 1).
  { etrans; [apply (Zdigits2_mono mr (shr_m p1.1 + 1)); lia|].
    by apply Zdigits2_succ. }
  destruct (shr_fexp_ub mr p1.2 loc_Exact (B + 1)) as (H2 & H2B & H2e); try lia.
  set (p2 := shr_fexp prec emax mr p1.2 loc_Exact) in *.
  destruct (shr_m p2.1) as [|m|m] eqn:E2; [done | | lia].
  assert (Hle : p2.2 <= emax - prec).
  { change (emax - prec) with 971. cbn [Zdigits2] in H2B. lia. }
  by rewrite (proj2 (Z.leb_le _ _) Hle).
Qed.

(** Rounding a positive mantissa in the normal range does not give zero,
    and the magnitude does not shrink. *)
Lemma binary_round_aux_lb s mx ex lx :
  0 < mx -> emin + 53 <= Zdigits2 mx + ex ->
  match binary_round_aux prec emax s mx ex lx with
  | S754_finite _ m e => Zdigits2 mx + ex <= Zdigits2 (Zpos m) + e
  | S754_infinity _ => True
  | _ => False
  end.
Proof.
  intros Hm HM. rewrite binary_round_aux_eq. cbv zeta.
  destruct (shr_fexp_lb mx ex lx Hm HM) as (H1 & H1M).
  set (p1 := shr_fexp prec emax mx ex lx) in *.
  pose proof (round_nearest_even_bounds (shr_m p1.1) (loc_of_shr_record p1.1)) as Hr.
  set (mr := round_nearest_even (shr_m p1.1) (loc_of_shr_record p1.1)) in *.
  pose proof (Zdigits2_mono (shr_m p1.1) mr ltac:(lia)) as Hmr.
  destruct (shr_fexp_lb mr p1.2 loc_Exact) as (H2 & H2M); try lia.
  set (p2 := shr_fexp prec emax mr p1.2 loc_Exact) in *.
  destruct (shr_m p2.1) as [|m|m] eqn:E2; [lia | | lia].
  destruct (_ <=? _); [|done]. lia.
Qed.

(** A positive mantissa in the normal range rounds to a finite number of
    the same magnitude or the next one. *)
Lemma binary_round_aux_normal s mx ex lx :
  0 < mx -> emin + 53 <= Zdigits2 mx + ex -> Zdigits2 mx + ex <= 971 ->
  exists m e,
    binary_round_aux prec emax s mx ex lx = S754_finite s m e
    ∧ Zdigits2 mx + ex <= Zdigits2 (Zpos m) + e <= Zdigits2 mx + ex + 1.
Proof.
  intros Hm Hlo Hhi.
  pose proof (Zdigits2_pos mx Hm) as Hd.
  pose proof (binary_round_aux_lb s mx ex lx Hm Hlo) as Hl.
  pose proof (binary_round_aux_ub s mx ex lx (Zdigits2 mx + ex)
                ltac:(lia) ltac:(lia) ltac:(lia) ltac:(lia) Hhi) as Hu.
  destruct (binary_round_aux prec emax s mx ex lx) as [s'|s'| |s' m e]; try done.
  destruct Hu as [-> Hu]. exists m, e. split; [done|lia].
Qed.

(** *** Numbers of integers *)

Lemma digits2_iter_xO p d :
  digits2_pos (Pos.iter xO p d) = (digits2_pos p + d)%positive.
Proof.
  induction d as [|d IH] using Pos.peano_ind.
  - cbn. lia.
  - rewrite Pos.iter_succ. cbn [digits2_pos]. rewrite IH. lia.
Qed.

Lemma shl_align_magnitude mx ex ex' :
  Zdigits2 (Zpos (shl_align mx ex ex').1) + (shl_align mx ex ex').2
  = Zdigits2 (Zpos mx) + ex.
Proof.
  unfold shl_align. destruct (ex' - ex) as [|d|d] eqn:E; cbn [fst snd]; try done.
  cbn [Zdigits2]. rewrite digits2_iter_xO. lia.
Qed.

Lemma binary_round_magnitude s mx ex :
  emin + 53 <= Zdigits2 (Zpos mx) + ex -> Zdigits2 (Zpos mx) + ex <= 971 ->
  exists m e,
    binary_round prec emax s mx ex = S754_finite s m e
    ∧ Zdigits2 (Zpos mx) + ex <= Zdigits2 (Zpos m) + e
      <= Zdigits2 (Zpos mx) + ex + 1.
Proof.
  intros Hlo Hhi. unfold binary_round.
  pose proof (shl_align_magnitude mx ex
                (fexp prec emax (Zpos (digits2_pos mx) + ex))) as Hs.
  destruct (shl_align _ _ _) as [mz ez]. cbn [fst snd] in Hs.
  rewrite <- Hs in *. by apply binary_round_aux_normal.
Qed.

(** The number of a positive integer below [2^63] is finite and positive,
    of magnitude between 1 and 64. *)
Lemma ofZ_magnitude z :
  0 < z < 2 ^ 63 ->
  exists m e,
    Prim2SF (ofZ z) = S754_finite false m e
    ∧ 1 <= Zdigits2 (Zpos m) + e <= 64.
Proof.
  intros [Hz Hlt]. destruct z as [|p|p]; try lia.
  unfold ofZ. rewrite of_uint63_spec, Uint63.of_Z_spec.
  rewrite Z.mod_small by (change Uint63Axioms.wB with (2 ^ 63); lia).
  cbn [binary_normalize].
  assert (Hd : 1 <= Zdigits2 (Zpos p) <= 63).
  { pose proof (Zdigits2_pos (Zpos p) ltac:(lia)).
    pose proof (Zdigits2_ub (Zpos p) 63 ltac:(lia) ltac:(lia)). lia. }
  assert (Hemin : emin = -1074) by done.
  destruct (binary_round_magnitude false p 0) as (m & e & -> & Hm); try lia.
  exists m, e. split; [done|lia].
Qed.

(** *** Quotients and products *)

Lemma SFdiv_finite_ub s1 m1 e1 s2 m2 e2 B :
  (Zdigits2 (Zpos m1) + e1) - (Zdigits2 (Zpos m2) + e2) + 1 <= B ->
  emin <= B -> B <= 971 ->
  match SFdiv prec emax (S754_finite s1 m1 e1) (S754_finite s2 m2 e2) with
  | S754_zero s => s = xorb s1 s2
  | S754_finite s m e => s = xorb s1 s2 ∧ Zdigits2 (Zpos m) + e <= B + 1
  | _ => False
  end.
Proof.
  intros HB Hemin H971. unfold SFdiv, SFdiv_core_binary. cbv zeta.
  set (d1 := Zdigits2 (Zpos m1)) in *. set (d2 := Zdigits2 (Zpos m2)) in *.
  set (e' := Z.min (fexp prec emax (d1 + e1 - (d2 + e2))) (e1 - e2)).
  set (s := e1 - e2 - e').
  set (m' := match s with Zpos _ => Z.shiftl (Zpos m1) s | Z0 => Zpos m1
             | Zneg _ => 0 end).
  destruct (Z.div_eucl m' (Zpos m2)) as [q r] eqn:E.
  assert (Hq : q = m' / Zpos m2) by (unfold Z.div; by rewrite E).
  assert (Hs : 0 <= s) by (unfold s, e'; lia).
  assert (Hm' : m' = Zpos m1 * 2 ^ s).
  { unfold m'. destruct s as [|k|k] eqn:Es; [lia| |lia].
    by rewrite Z.shiftl_mul_pow2. }
  assert (He' : e' <= B).
  { unfold e', fexp. set (em := SpecFloat.emin prec emax) in *.
    change prec with 53. lia. }
  pose proof (Zdigits2_pos (Zpos m1) ltac:(lia)) as Hd1. fold d1 in Hd1.
  pose proof (Zdigits2_pos (Zpos m2) ltac:(lia)) as Hd2. fold d2 in Hd2.
  pose proof (Zdigits2_gt (Zpos m1) ltac:(lia)) as Hg1. fold d1 in Hg1.
  pose proof (Zdigits2_le (Zpos m2) ltac:(lia)) as Hl2. fold d2 in Hl2.
  pose proof (Z.pow_pos_nonneg 2 s ltac:(lia) Hs) as Hps.
  assert (Hq0 : 0 <= q).
  { rewrite Hq. apply Z.div_pos; lia. }
  assert (Hqm : q * Zpos m2 <= m').
  { rewrite Hq, Z.mul_comm. apply Z.mul_div_le. lia. }
  assert (Hlt : m' < 2 ^ (d1 + s)).
  { rewrite Hm', Z.pow_add_r by lia. apply Z.mul_lt_mono_pos_r; lia. }
  assert (H2 : 2 ^ d2 = 2 * 2 ^ (d2 - 1)).
  { rewrite <- (Z.pow_succ_r 2) by lia. f_equal. lia. }
  assert (Hdq : Zdigits2 q + e' <= B).
  { destruct (Z.le_gt_cases 0 (d1 + s - d2 + 1)) as [Hk|Hk].
    - enough (Zdigits2 q <= d1 + s - d2 + 1) by (unfold s in *; lia).
      apply Zdigits2_ub; [done|]. split; [done|].
      apply Z.nle_gt. intros Hge.
      assert (2 ^ (d1 + s - d2 + 1) * 2 ^ (d2 - 1) <= q * Zpos m2).
      { apply Z.mul_le_mono_nonneg; try lia; apply Z.pow_nonneg; lia. }
      rewrite <- Z.pow_add_r in * by lia.
      replace (d1 + s - d2 + 1 + (d2 - 1)) with (d1 + s) in * by lia. lia.
    - assert (q = 0) as ->.
      { rewrite Hq. apply Z.div_small. split; [lia|].
        assert (2 ^ (d1 + s) <= 2 ^ (d2 - 1))
          by (apply Z.pow_le_mono_r; lia).
        lia. }
      cbn [Zdigits2]. lia. }
  by apply binary_round_aux_ub.
Qed.

Lemma SFmul_finite_ub s1 m1 e1 s2 m2 e2 B :
  (Zdigits2 (Zpos m1) + e1) + (Zdigits2 (Zpos m2) + e2) <= B ->
  emin <= B -> B <= 971 ->
  match SFmul prec emax (S754_finite s1 m1 e1) (S754_finite s2 m2 e2) with
  | S754_zero s => s = xorb s1 s2
  | S754_finite s m e => s = xorb s1 s2 ∧ Zdigits2 (Zpos m) + e <= B + 1
  | _ => False
  end.
Proof.
  intros HB Hemin H971. unfold SFmul.
  pose proof (Zdigits2_mul (Zpos m1) (Zpos m2) ltac:(lia) ltac:(lia)) as Hd.
  pose proof (Zdigits2_pos (Zpos m1 * Zpos m2) ltac:(lia)) as Hp.
  change (Zpos m1 * Zpos m2) with (Zpos (m1 * m2)) in *.
  apply binary_round_aux_ub; lia.
Qed.

Lemma SFdiv_finite_sign s1 m1 e1 s2 m2 e2 :
  match SFdiv prec emax (S754_finite s1 m1 e1) (S754_finite s2 m2 e2) with
  | S754_nan => False
  | S754_zero s | S754_infinity s | S754_finite s _ _ => s = xorb s1 s2
  end.
Proof.
  unfold SFdiv, SFdiv_core_binary. cbv zeta.
  set (s := e1 - e2 - _).
  set (m' := match s with Zpos _ => Z.shiftl (Zpos m1) s | Z0 => Zpos m1
             | Zneg _ => 0 end).
  destruct (Z.div_eucl m' (Zpos m2)) as [q r] eqn:E.
  assert (Hq : q = m' / Zpos m2) by (unfold Z.div; by rewrite E).
  apply binary_round_aux_sign. rewrite Hq. apply Z.div_pos; [|lia].
  unfold m'. destruct s; [lia| |lia]. by apply Z.shiftl_nonneg.
Qed.

Lemma SFmul_finite_sign s1 m1 e1 s2 m2 e2 :
  match SFmul prec emax (S754_finite s1 m1 e1) (S754_finite s2 m2 e2) with
  | S754_nan => False
  | S754_zero s | S754_infinity s | S754_finite s _ _ => s = xorb s1 s2
  end.
Proof. unfold SFmul. by apply binary_round_aux_sign. Qed.

(** *** The threshold of a tolerance *)

(** For a tolerance that is at least 0 (infinite or not), the threshold
    is a number and it is not negative. *)
Lemma toleranceToDistance_sign (t : float) :
  (0 <=? t)%float = true ->
  match Prim2SF (toleranceToDistance t) with
  | S754_nan => False
  | S754_zero s | S754_infinity s | S754_finite s _ _ => s = false
  end.
Proof.
  intros H. unfold toleranceToDistance.
  rewrite leb_spec in H. rewrite (leb_spec t 0).
  change (Prim2SF 0) with (S754_zero false) in *.
  destruct (Prim2SF t) as [s|s| |s m e] eqn:E.
  - done.
  - destruct s; [done|]. cbn [SFleb SFcompare].
    rewrite mul_spec, div_spec, E.
    change (Prim2SF 100) with (S754_finite false 7036874417766400 (-46)).
    by change (Prim2SF MAX_RGB_DISTANCE)
      with (S754_finite false 7769992811508830 (-44)).
  - done.
  - destruct s; [done|]. cbn [SFleb SFcompare].
    rewrite mul_spec, div_spec, E.
    change (Prim2SF 100) with (S754_finite false 7036874417766400 (-46)).
    change (Prim2SF MAX_RGB_DISTANCE)
      with (S754_finite false 7769992811508830 (-44)).
    pose proof (SFdiv_finite_sign false m e false 7036874417766400 (-46)) as Hd.
    unfold SF64div, SF64mul.
    destruct (SFdiv prec emax _ _) as [s'|s'| |s' m' e']; try done.
    + by subst.
    + by subst.
    + subst. apply (SFmul_finite_sign false m' e' false).
Qed.

(** A number that is at least 0 is not below 0. *)
Lemma leb_0_nonneg (x : float) :
  match Prim2SF x with
  | S754_nan => False
  | S754_zero s | S754_infinity s | S754_finite s _ _ => s = false
  end ->
  (0 <=? x)%float = true.
Proof.
  rewrite leb_spec. change (Prim2SF 0) with (S754_zero false).
  by destruct (Prim2SF x) as [s|s| |s m e]; try done; intros ->.
Qed.

Lemma colorMatches_self_float cr cg cb (t : float) :
  is_byte cr -> is_byte cg -> is_byte cb -> (0 <=? t)%float = true ->
  colorMatches (ofZ cr) (ofZ cg) (ofZ cb) (ofZ cr) (ofZ cg) (ofZ cb) t = true.
Proof.
  intros Hr Hg Hb Ht. unfold colorMatches. cbv zeta.
  rewrite rgbDistance_bytes by done.
  assert (dist2 cr cg cb cr cg cb = 0) as -> by (unfold dist2; lia).
  change (PrimFloat.sqrt (ofZ 0)) with 0%float.
  by apply leb_0_nonneg, toleranceToDistance_sign.
Qed.

(** *** The percentage of a pixel count *)

(** The percentage of a count in a total below [2^63] is zero or a finite
    number below [2^73], so below the [10^21] from which [toFixed] changes
    its format. *)
Lemma percentage_magnitude count total :
  0 <= count < 2 ^ 63 -> 0 < total < 2 ^ 63 ->
  match Prim2SF ((ofZ count / ofZ total) * 100)%float with
  | S754_zero _ => True
  | S754_finite _ m e => Zdigits2 (Zpos m) + e <= 73
  | _ => False
  end.
Proof.
  intros Hc Ht. rewrite mul_spec, div_spec.
  change (Prim2SF 100) with (S754_finite false 7036874417766400 (-46)).
  destruct (ofZ_magnitude total Ht) as (mt & et & -> & Hmt).
  assert (Hemin : emin = -1074) by done.
  unfold SF64div, SF64mul.
  destruct (Z.eq_dec count 0) as [->|Hne]; [done|].
  destruct (ofZ_magnitude count ltac:(lia)) as (mc & ec & -> & Hmc).
  pose proof (SFdiv_finite_ub false mc ec false mt et 64
                ltac:(lia) ltac:(lia) ltac:(lia)) as Hd.
  destruct (SFdiv prec emax _ _) as [s'|s'| |s' m' e']; try done.
  destruct Hd as [_ Hd].
  pose proof (SFmul_finite_ub s' m' e' false 7036874417766400 (-46) 72) as Hm.
  change (Zdigits2 (Zpos 7036874417766400)) with 53 in Hm.
  specialize (Hm ltac:(lia) ltac:(lia) ltac:(lia)).
  destruct (SFmul prec emax _ _) as [s''|s''| |s'' m'' e'']; try done.
  by destruct Hm.
Qed.

End Magnitude.

(** ** Rounding is monotone

    The value [(A / B) * 2 ^ e] of a product or a quotient is handed to
    [binary_round_aux] as the floor of [A / B] and the location of the
    fraction.  Below, the result is described by the nearest integer at the
    exponent of the format, and two values in order are shown to round to
    numbers in order. *)

Section Monotone.

Local Open Scope Z_scope.

Lemma rne_bounds A B : A / B <= rne A B <= A / B + 1.
Proof. apply round_nearest_even_bounds. Qed.

Lemma rne_mono A1 B1 A2 B2 :
  0 < B1 -> 0 < B2 -> A1 * B2 <= A2 * B1 -> rne A1 B1 <= rne A2 B2.
Proof.
  intros HB1 HB2 Hle.
  pose proof (Z.div_mod A1 B1 ltac:(lia)) as E1.
  pose proof (Z.div_mod A2 B2 ltac:(lia)) as E2.
  pose proof (Z.mod_pos_bound A1 B1 HB1) as R1.
  pose proof (Z.mod_pos_bound A2 B2 HB2) as R2.
  pose proof (rne_bounds A1 B1) as Hb1.
  pose proof (rne_bounds A2 B2) as Hb2.
  unfold rne, loc_of, round_nearest_even in *.
  set (m1 := A1 / B1) in *. set (r1 := A1 mod B1) in *.
  set (m2 := A2 / B2) in *. set (r2 := A2 mod B2) in *.
  assert (Hm : m1 <= m2).
  { apply Z.nlt_ge. intros Hlt.
    assert (B1 * B2 * (m2 + 1) <= B1 * B2 * m1)
      by (apply Z.mul_le_mono_nonneg_l; nia).
    nia. }
  destruct (Z.eq_dec m1 m2) as [Heq|Hne]; [|lia].
  assert (Hr : r1 * B2 <= r2 * B1) by nia.
  rewrite <- Heq in *.
  clear Hb1 Hb2.
  destruct (Z.eqb_spec r1 0) as [Hz1|Hz1];
    destruct (Z.eqb_spec r2 0) as [Hz2|Hz2]; cbv iota.
  - lia.
  - destruct (Z.compare_spec (2 * r2) B2); destruct (Z.even m1); lia.
  - exfalso. nia.
  - destruct (Z.compare_spec (2 * r1) B1) as [H1|H1|H1];
      destruct (Z.compare_spec (2 * r2) B2) as [H2|H2|H2];
      destruct (Z.even m1); try lia; exfalso; nia.
Qed.

(** *** The record of the shifts *)

Lemma holds_loc A B rec :
  0 < B -> holds A B rec -> loc_of_shr_record rec = loc_of (A mod B) B.
Proof.
  intros HB (Hm & Hr & Hs). destruct rec as [m r s]. cbn in *. subst r s.
  pose proof (Z.mod_pos_bound A B HB) as R.
  unfold loc_of.
  destruct (Z.eqb_spec (A mod B) 0) as [Hz|Hz].
  - rewrite Hz. change (2 * 0) with 0.
    by rewrite (proj2 (Z.leb_gt B 0)) by lia.
  - cbn [orb].
    destruct (Z.compare_spec (2 * (A mod B)) B) as [H|H|H].
    + rewrite (proj2 (Z.leb_le _ _)) by lia.
      by rewrite (proj2 (Z.eqb_eq _ _) H).
    + rewrite (proj2 (Z.leb_gt _ _)) by lia.
      by rewrite (proj2 (Z.eqb_neq _ _)) by lia.
    + rewrite (proj2 (Z.leb_le _ _)) by lia.
      by rewrite (proj2 (Z.eqb_neq _ _)) by lia.
Qed.

Lemma holds_start A B :
  0 < B -> holds A B (shr_record_of_loc (A / B) (loc_of (A mod B) B)).
Proof.
  intros HB. pose proof (Z.mod_pos_bound A B HB) as R.
  unfold holds, loc_of.
  destruct (Z.eqb_spec (A mod B) 0) as [Hz|Hz].
  - rewrite Hz. change (2 * 0) with 0.
    by rewrite (proj2 (Z.leb_gt B 0)) by lia.
  - cbn [orb].
    destruct (Z.compare_spec (2 * (A mod B)) B) as [H|H|H]; cbn.
    + rewrite (proj2 (Z.leb_le _ _)) by lia.
      by rewrite (proj2 (Z.eqb_eq _ _) H).
    + rewrite (proj2 (Z.leb_gt _ _)) by lia.
      by rewrite (proj2 (Z.eqb_neq _ _)) by lia.
    + rewrite (proj2 (Z.leb_le _ _)) by lia.
      by rewrite (proj2 (Z.eqb_neq _ _)) by lia.
Qed.

Lemma holds_shr_1 A B rec :
  0 <= A -> 0 < B -> holds A B rec -> holds A (2 * B) (shr_1 rec).
Proof.
  intros HA HB (Hm & Hr & Hs).
  pose proof (Z.mod_pos_bound A B HB) as R.
  pose proof (Z.div_mod A B ltac:(lia)) as E.
  assert (Hm0 : 0 <= A / B) by (apply Z.div_pos; lia).
  set (m := A / B) in *. set (r := A mod B) in *.
  pose proof (Z.div_mod m 2 ltac:(lia)) as Em.
  pose proof (Z.mod_pos_bound m 2 ltac:(lia)) as Rm.
  assert (Hdiv : A / (2 * B) = m / 2).
  { unfold m. rewrite (Z.mul_comm 2 B), Z.div_div by lia. done. }
  assert (Hmod : A mod (2 * B) = (m mod 2) * B + r).
  { symmetry. apply (Z.mod_unique_pos A (2 * B) (m / 2)); nia. }
  unfold holds. rewrite Hdiv, Hmod.
  assert (H1 : shr_m (shr_1 rec) = m / 2)
    by (rewrite shr_1_m by lia; by rewrite Hm).
  assert (H2 : shr_r (shr_1 rec) = Z.odd m
               ∧ shr_s (shr_1 rec) = shr_r rec || shr_s rec).
  { destruct rec as [m' r' s']. cbn in Hm. subst m'.
    cbn [shr_r shr_s]. destruct m as [|[p|p|]|p]; done. }
  destruct H2 as [H2 H3].
  split; [done|]. rewrite H2, H3, Hr, Hs.
  rewrite Zmod_odd in Rm, Em |- *.
  destruct (Z.odd m); split.
  - apply eq_sym, Z.leb_le. lia.
  - destruct (Z.leb_spec B (2 * r)), (Z.eqb_spec r 0), (Z.eqb_spec (2 * r) B),
      (Z.eqb_spec (1 * B + r) 0), (Z.eqb_spec (2 * (1 * B + r)) (2 * B));
      cbn; try done; lia.
  - apply eq_sym, Z.leb_gt. lia.
  - destruct (Z.leb_spec B (2 * r)), (Z.eqb_spec r 0), (Z.eqb_spec (2 * r) B),
      (Z.eqb_spec (0 * B + r) 0), (Z.eqb_spec (2 * (0 * B + r)) (2 * B));
      cbn; try done; lia.
Qed.

Lemma holds_iter A B p rec :
  0 <= A -> 0 < B -> holds A B rec ->
  holds A (B * 2 ^ Zpos p) (SpecFloat.iter_pos shr_1 p rec).
Proof.
  intros HA. revert B rec.
  induction p as [p IH|p IH|]; intros B rec HB H; cbn [SpecFloat.iter_pos].
  - pose proof (Z.pow_pos_nonneg 2 (Zpos p) ltac:(lia) ltac:(lia)) as Hp.
    replace (B * 2 ^ Z.pos p~1) with (2 * B * 2 ^ Zpos p * 2 ^ Zpos p).
    + apply IH; [nia|]. apply IH; [lia|]. by apply holds_shr_1.
    + replace (Z.pos p~1) with (1 + Z.pos p + Z.pos p) by lia.
      rewrite !Z.pow_add_r by lia. rewrite Z.pow_1_r. ring.
  - pose proof (Z.pow_pos_nonneg 2 (Zpos p) ltac:(lia) ltac:(lia)) as Hp.
    replace (B * 2 ^ Z.pos p~0) with (B * 2 ^ Zpos p * 2 ^ Zpos p).
    + apply IH; [nia|]. by apply IH.
    + replace (Z.pos p~0) with (Z.pos p + Z.pos p) by lia.
      rewrite !Z.pow_add_r by lia. ring.
  - rewrite Z.pow_1_r, Z.mul_comm. by apply holds_shr_1.
Qed.

(** The first shift of [binary_round_aux], when the exponent is not above
    the one of the format. *)
Lemma shr_fexp_holds A B e :
  0 <= A -> 0 < B ->
  let n := fexp prec emax (Zdigits2 (A / B) + e) - e in
  0 <= n ->
  holds A (B * 2 ^ n)
        (shr_fexp prec emax (A / B) e (loc_of (A mod B) B)).1
  ∧ (shr_fexp prec emax (A / B) e (loc_of (A mod B) B)).2 = e + n.
Proof.
  intros HA HB n Hn. unfold shr_fexp, shr. fold n.
  destruct n as [|p|p]; cbn [fst snd]; [| |lia].
  - rewrite Z.pow_0_r, Z.mul_1_r, Z.add_0_r. split; [|done].
    by apply holds_start.
  - split; [|done]. apply holds_iter; [done|done|]. by apply holds_start.
Qed.

(** *** The result of [binary_round_aux] *)

Lemma pow2_split a b : 0 <= a -> 0 <= b -> 2 ^ (a + b) = 2 ^ a * 2 ^ b.
Proof. intros. by rewrite Z.pow_add_r. Qed.

Lemma pow2_pos k : 0 <= k -> 0 < 2 ^ k.
Proof. intros. apply Z.pow_pos_nonneg; lia. Qed.

Lemma pow2_le a b : 0 <= a <= b -> 2 ^ a <= 2 ^ b.
Proof. intros. apply Z.pow_le_mono_r; lia. Qed.

Lemma pow2_lt_inv a b : 0 <= b -> 2 ^ a < 2 ^ b -> a < b.
Proof. intros Hb H. apply (Z.pow_lt_mono_r_iff 2); [lia | done | done]. Qed.

(** The floor after the first shift: below [2 ^ 53], and at least
    [2 ^ 52] above the smallest exponent. *)
Lemma shifted_bounds m e :
  0 <= m ->
  let mag := Zdigits2 m + e in
  let F := fexp prec emax mag in
  e <= F ->
  let D := Z.max (mag - F) 0 in
  D <= 53 ∧ m / 2 ^ (F - e) < 2 ^ D ∧ (emin < F -> 2 ^ 52 <= m / 2 ^ (F - e))
  ∧ emin <= F ∧ mag - 53 <= F.
Proof.
  intros Hm mag F He D.
  assert (HF : F = Z.max (mag - 53) emin) by done.
  assert (Hemin : emin = -1074) by done.
  pose proof (Zdigits2_nonneg m) as Hd.
  pose proof (Zdigits2_gt m Hm) as Hgt.
  pose proof (pow2_pos (F - e) ltac:(lia)) as Hp.
  split; [lia|]. split; [|split; [|lia]].
  - destruct (Z_lt_le_dec (Zdigits2 m) (F - e)) as [Hs|Hs].
    + rewrite Z.div_small.
      * apply pow2_pos. lia.
      * split; [done|]. pose proof (pow2_le (Zdigits2 m) (F - e) ltac:(lia)). lia.
    + replace D with (Zdigits2 m - (F - e)) by lia.
      apply Z.div_lt_upper_bound; [done|].
      rewrite <- pow2_split by lia.
      by replace (F - e + (Zdigits2 m - (F - e))) with (Zdigits2 m) by lia.
  - intros Hlt.
    assert (Hn : F - e = Zdigits2 m - 53) by lia.
    assert (Hpos : 0 < m) by (destruct m; cbn in *; lia).
    pose proof (Zdigits2_le m Hpos) as Hle.
    apply Z.div_le_lower_bound; [done|].
    rewrite <- pow2_split by lia.
    replace (F - e + 52) with (Zdigits2 m - 1) by lia.
    assert (2 ^ Zdigits2 m = 2 * 2 ^ (Zdigits2 m - 1)).
    { rewrite <- (Z.pow_succ_r 2) by lia. f_equal. lia. }
    lia.
Qed.

(** The shape of a result: zero, a finite number or the infinity, by the
    mantissa and the exponent reached. *)
Lemma round_result A B e :
  0 <= A -> 0 < B ->
  let m := A / B in
  let F := fexp prec emax (Zdigits2 m + e) in
  e <= F ->
  let q := rne A (B * 2 ^ (F - e)) in
  exists m' e',
    binary_round_aux prec emax false m e (loc_of (A mod B) B) = rounded m' e'
    ∧ 0 <= m' < 2 ^ 53 ∧ emin <= e' ∧ (emin < e' -> 2 ^ 52 <= m')
    ∧ ((m' = q ∧ e' = F) ∨ (q = 2 ^ 53 ∧ m' = 2 ^ 52 ∧ e' = F + 1)).
Proof.
  intros HA HB m F He q.
  assert (Hm : 0 <= m) by (apply Z.div_pos; lia).
  destruct (shifted_bounds m e Hm He) as (HD & Hlt & H52 & HFmin & HFmag).
  fold F in HD, Hlt, H52, HFmin, HFmag.
  set (D := Z.max (Zdigits2 m + e - F) 0) in *.
  pose proof (pow2_pos (F - e) ltac:(lia)) as Hp.
  destruct (shr_fexp_holds A B e HA HB) as [Hh He1]; [fold m F; lia|].
  fold m F in Hh, He1.
  replace (e + (F - e)) with F in He1 by lia.
  rewrite binary_round_aux_eq. cbv zeta. fold m.
  set (p1 := shr_fexp prec emax m e (loc_of (A mod B) B)) in *.
  rewrite (holds_loc A (B * 2 ^ (F - e)) p1.1 ltac:(nia) Hh).
  destruct Hh as (Hm1 & _). rewrite Hm1, He1. fold (rne A (B * 2 ^ (F - e))).
  fold q.
  assert (Hdiv : A / (B * 2 ^ (F - e)) = m / 2 ^ (F - e))
    by (unfold m; by rewrite Z.div_div by lia).
  pose proof (rne_bounds A (B * 2 ^ (F - e))) as Hq. fold q in Hq.
  rewrite Hdiv in Hq.
  assert (Hm' : 0 <= m / 2 ^ (F - e)) by (apply Z.div_pos; lia).
  assert (HqD : q <= 2 ^ 53).
  { pose proof (pow2_le D 53 ltac:(lia)). lia. }
  destruct (shr_fexp_eq q F loc_Exact ltac:(lia)) as [E1 E2].
  cbv zeta in E1, E2.
  assert (Hemin : emin = -1074) by done.
  destruct (Z.eq_dec q (2 ^ 53)) as [Hq53|Hq53].
  - assert (Hn3 : fexp prec emax (Zdigits2 q + F) - F = 1).
    { rewrite Hq53. change (Zdigits2 (2 ^ 53)) with 54.
      unfold fexp. change (SpecFloat.emin prec emax) with (-1074).
      change prec with 53. lia. }
    rewrite Hn3 in E1, E2. cbn [Z.ltb Z.compare] in E1, E2.
    rewrite E1, E2, Hq53. change (2 ^ 53 / 2 ^ 1) with (2 ^ 52).
    exists (2 ^ 52), (F + 1). split; [done|].
    split; [done|]. split; [lia|]. split; [done|]. right. done.
  - assert (Hd : Zdigits2 q <= 53)
      by (apply Zdigits2_ub; lia).
    assert (Hn3 : fexp prec emax (Zdigits2 q + F) - F <= 0).
    { unfold fexp. change (SpecFloat.emin prec emax) with (-1074).
      change prec with 53. lia. }
    rewrite (proj2 (Z.ltb_ge _ _) Hn3) in E1, E2.
    rewrite E1, E2. exists q, F.
    split; [done|]. split; [lia|]. split; [done|].
    split; [intros; specialize (H52 ltac:(done)); lia|]. by left.
Qed.

(** *** Values in order round to numbers in order *)

Lemma pw_pos e : -4000 <= e -> 0 < pw e.
Proof. intros. apply pow2_pos. lia. Qed.

Lemma pw_add e n : -4000 <= e -> 0 <= n -> pw (e + n) = pw e * 2 ^ n.
Proof.
  intros He Hn. unfold pw.
  replace (e + n + 4000) with (e + 4000 + n) by lia.
  apply pow2_split; lia.
Qed.

Lemma pw_le e1 e2 : -4000 <= e1 <= e2 -> pw e1 <= pw e2.
Proof. intros. apply pow2_le. lia. Qed.

(** The nearest integers at the exponents of the format are in order. *)
Lemma pre_mono A1 B1 e1 A2 B2 e2 :
  0 <= A1 -> 0 < B1 -> 0 <= A2 -> 0 < B2 -> -4000 <= e1 -> -4000 <= e2 ->
  let F1 := fexp prec emax (Zdigits2 (A1 / B1) + e1) in
  let F2 := fexp prec emax (Zdigits2 (A2 / B2) + e2) in
  e1 <= F1 -> e2 <= F2 ->
  A1 * pw e1 * B2 <= A2 * pw e2 * B1 ->
  rne A1 (B1 * 2 ^ (F1 - e1)) * pw F1 <= rne A2 (B2 * 2 ^ (F2 - e2)) * pw F2.
Proof.
  intros HA1 HB1 HA2 HB2 He1 He2 F1 F2 HF1 HF2 Hle.
  set (m1 := A1 / B1) in *. set (m2 := A2 / B2) in *.
  assert (Hm1 : 0 <= m1) by (apply Z.div_pos; lia).
  assert (Hm2 : 0 <= m2) by (apply Z.div_pos; lia).
  destruct (shifted_bounds m1 e1 Hm1 HF1) as (HD1 & Hlt1 & H521 & Hmin1 & Hmag1).
  destruct (shifted_bounds m2 e2 Hm2 HF2) as (HD2 & Hlt2 & H522 & Hmin2 & Hmag2).
  fold F1 in HD1, Hlt1, H521, Hmin1, Hmag1.
  fold F2 in HD2, Hlt2, H522, Hmin2, Hmag2.
  assert (Hemin : emin = -1074) by done.
  pose proof (pow2_pos (F1 - e1) ltac:(lia)) as Hx.
  pose proof (pow2_pos (F2 - e2) ltac:(lia)) as Hy.
  pose proof (pw_pos e1 He1) as Ha. pose proof (pw_pos e2 He2) as Hb.
  pose proof (pw_add e1 (F1 - e1) He1 ltac:(lia)) as Hax.
  pose proof (pw_add e2 (F2 - e2) He2 ltac:(lia)) as Hby.
  replace (e1 + (F1 - e1)) with F1 in Hax by lia.
  replace (e2 + (F2 - e2)) with F2 in Hby by lia.
  pose proof (rne_bounds A1 (B1 * 2 ^ (F1 - e1))) as Hq1.
  pose proof (rne_bounds A2 (B2 * 2 ^ (F2 - e2))) as Hq2.
  rewrite <- Z.div_div in Hq1, Hq2 by lia. fold m1 in Hq1. fold m2 in Hq2.
  set (q1 := rne A1 (B1 * 2 ^ (F1 - e1))) in *.
  set (q2 := rne A2 (B2 * 2 ^ (F2 - e2))) in *.
  destruct (Z.lt_trichotomy F1 F2) as [Hlt|[Heq|Hgt]].
  - (* the second value lies in a higher binade *)
    specialize (H522 ltac:(lia)).
    set (D1 := Z.max (Zdigits2 m1 + e1 - F1) 0) in *.
    assert (H1 : q1 * pw F1 <= 2 ^ D1 * pw F1)
      by (apply Z.mul_le_mono_nonneg_r; [unfold pw; apply Z.pow_nonneg|]; lia).
    assert (H2 : 2 ^ 52 * pw F2 <= q2 * pw F2)
      by (apply Z.mul_le_mono_nonneg_r; [unfold pw; apply Z.pow_nonneg|]; lia).
    assert (H3 : 2 ^ D1 * pw F1 <= 2 ^ 52 * pw F2).
    { unfold pw. rewrite <- (pow2_split D1 (F1 + 4000)),
        <- (pow2_split 52 (F2 + 4000)) by lia. apply pow2_le. lia. }
    lia.
  - (* the same binade: the nearest integers are in order *)
    assert (Hq : q1 <= q2).
    { apply rne_mono; [nia | nia |].
      apply (Z.mul_le_mono_pos_l _ _ (pw F1)); [lia|].
      assert (HP2 : pw F1 = pw e2 * 2 ^ (F2 - e2))
        by (rewrite Heq; exact Hby).
      replace (pw F1 * (A1 * (B2 * 2 ^ (F2 - e2))))
        with (A1 * pw e1 * B2 * (2 ^ (F1 - e1) * 2 ^ (F2 - e2)))
        by (rewrite Hax; ring).
      replace (pw F1 * (A2 * (B1 * 2 ^ (F1 - e1))))
        with (A2 * pw e2 * B1 * (2 ^ (F1 - e1) * 2 ^ (F2 - e2)))
        by (rewrite HP2; ring).
      apply Z.mul_le_mono_nonneg_r; [nia|done]. }
    rewrite <- Heq. apply Z.mul_le_mono_nonneg_r; [|done].
    unfold pw. apply Z.pow_nonneg. lia.
  - (* the first value cannot lie in a higher binade *)
    exfalso.
    assert (HF1eq : F1 = Z.max (Zdigits2 m1 + e1 - 53) emin) by done.
    assert (Hd1 : 53 <= Zdigits2 m1) by lia.
    assert (Hpos1 : 0 < m1) by (destruct m1; cbn in *; lia).
    pose proof (Zdigits2_le m1 Hpos1) as Hl1.
    pose proof (Zdigits2_gt m2 Hm2) as Hg2.
    pose proof (Zdigits2_nonneg m2) as Hn2.
    assert (H2d : 2 ^ Zdigits2 m1 = 2 * 2 ^ (Zdigits2 m1 - 1)).
    { rewrite <- (Z.pow_succ_r 2) by lia. f_equal. lia. }
    pose proof (Z.mul_div_le A1 B1 HB1) as HA1'. fold m1 in HA1'.
    pose proof (Z.mul_succ_div_gt A2 B2 HB2) as HA2'. fold m2 in HA2'.
    assert (Hc : m1 * pw e1 < (m2 + 1) * pw e2).
    { apply (Z.mul_lt_mono_pos_l (B1 * B2)); [nia|].
      apply Z.le_lt_trans with (A1 * pw e1 * B2).
      - replace (B1 * B2 * (m1 * pw e1)) with (B1 * m1 * (pw e1 * B2)) by ring.
        replace (A1 * pw e1 * B2) with (A1 * (pw e1 * B2)) by ring.
        apply Z.mul_le_mono_nonneg_r; [nia|done].
      - apply Z.le_lt_trans with (A2 * pw e2 * B1); [done|].
        replace (B1 * B2 * ((m2 + 1) * pw e2))
          with (B2 * Z.succ m2 * (pw e2 * B1)) by (unfold Z.succ; ring).
        replace (A2 * pw e2 * B1) with (A2 * (pw e2 * B1)) by ring.
        apply Z.mul_lt_mono_pos_r; [nia|done]. }
    assert (Hlo : 2 ^ (Zdigits2 m1 - 1) * pw e1 <= m1 * pw e1)
      by (apply Z.mul_le_mono_nonneg_r; lia).
    assert (Hhi : (m2 + 1) * pw e2 <= 2 ^ Zdigits2 m2 * pw e2)
      by (apply Z.mul_le_mono_nonneg_r; lia).
    assert (Hpw : 2 ^ (Zdigits2 m1 - 1 + (e1 + 4000))
                  < 2 ^ (Zdigits2 m2 + (e2 + 4000))).
    { rewrite (pow2_split (Zdigits2 m1 - 1) (e1 + 4000)),
        (pow2_split (Zdigits2 m2) (e2 + 4000)) by lia.
      change (2 ^ (e1 + 4000)) with (pw e1).
      change (2 ^ (e2 + 4000)) with (pw e2).
      eapply Z.le_lt_trans; [exact Hlo|].
      eapply Z.lt_le_trans; [exact Hc|exact Hhi]. }
    apply pow2_lt_inv in Hpw; lia.
Qed.

(** Numbers of the format are ordered as their values are. *)
Lemma rounded_le m1 e1 m2 e2 :
  0 <= m1 < 2 ^ 53 -> emin <= e1 -> (emin < e1 -> 2 ^ 52 <= m1) ->
  0 <= m2 < 2 ^ 53 -> emin <= e2 -> (emin < e2 -> 2 ^ 52 <= m2) ->
  m1 * pw e1 <= m2 * pw e2 ->
  SFleb (rounded m1 e1) (rounded m2 e2) = true.
Proof.
  intros Hm1 He1 Hn1 Hm2 He2 Hn2 Hle.
  assert (Hemin : emin = -1074) by done.
  pose proof (pw_pos e1 ltac:(lia)) as Hp1.
  pose proof (pw_pos e2 ltac:(lia)) as Hp2.
  destruct m1 as [|p1|p1]; [| |lia].
  - destruct m2 as [|p2|p2]; [done | |lia].
    cbn [rounded]. by destruct (e2 <=? 971).
  - destruct m2 as [|p2|p2]; [nia | |lia].
    assert (Hee : e1 <= e2).
    { apply Z.nlt_ge. intros Hlt. specialize (Hn1 ltac:(lia)).
      pose proof (pw_add e2 (e1 - e2) ltac:(lia) ltac:(lia)) as Hadd.
      replace (e2 + (e1 - e2)) with e1 in Hadd by lia.
      pose proof (pow2_le 1 (e1 - e2) ltac:(lia)) as H2.
      change (2 ^ 1) with 2 in H2.
      assert (2 ^ 53 = 2 * 2 ^ 52) by done.
      assert (2 ^ 52 * (2 * pw e2) <= Zpos p1 * pw e1).
      { rewrite Hadd. apply Z.mul_le_mono_nonneg; nia. }
      nia. }
    assert (Hmm : e1 = e2 -> (p1 <= p2)%positive).
    { intros ->. apply Pos2Z.pos_le_pos. nia. }
    cbn [rounded].
    destruct (Z.leb_spec e1 971), (Z.leb_spec e2 971); try done; [|lia].
    unfold SFleb, SFcompare.
    destruct (Z.compare_spec e1 e2) as [Heq|Hlt|Hgt]; [|done|lia].
    specialize (Hmm Heq).
    change (Pos.compare_cont Eq p1 p2) with (Pos.compare p1 p2).
    destruct (Pos.compare_spec p1 p2); [done|done|lia].
Qed.

(** Two values in order, each handed to [binary_round_aux] as its floor
    and the location of its fraction, round to numbers in order. *)
Lemma round_mono A1 B1 e1 A2 B2 e2 :
  0 <= A1 -> 0 < B1 -> 0 <= A2 -> 0 < B2 -> -4000 <= e1 -> -4000 <= e2 ->
  e1 <= fexp prec emax (Zdigits2 (A1 / B1) + e1) ->
  e2 <= fexp prec emax (Zdigits2 (A2 / B2) + e2) ->
  A1 * pw e1 * B2 <= A2 * pw e2 * B1 ->
  SFleb (binary_round_aux prec emax false (A1 / B1) e1 (loc_of (A1 mod B1) B1))
        (binary_round_aux prec emax false (A2 / B2) e2 (loc_of (A2 mod B2) B2))
  = true.
Proof.
  intros HA1 HB1 HA2 HB2 He1 He2 HF1 HF2 Hle.
  pose proof (pre_mono A1 B1 e1 A2 B2 e2 HA1 HB1 HA2 HB2 He1 He2 HF1 HF2 Hle)
    as Hpre.
  destruct (round_result A1 B1 e1 HA1 HB1 HF1)
    as (m1' & e1' & -> & Hm1 & Hmin1 & Hn1 & Hv1).
  destruct (round_result A2 B2 e2 HA2 HB2 HF2)
    as (m2' & e2' & -> & Hm2 & Hmin2 & Hn2 & Hv2).
  assert (Hemin : emin = -1074) by done.
  apply rounded_le; try done.
  set (F1 := fexp prec emax (Zdigits2 (A1 / B1) + e1)) in *.
  set (F2 := fexp prec emax (Zdigits2 (A2 / B2) + e2)) in *.
  assert (H53 : 2 ^ 53 = 2 ^ 52 * 2) by done.
  assert (Hv1' : m1' * pw e1' = rne A1 (B1 * 2 ^ (F1 - e1)) * pw F1).
  { destruct Hv1 as [[-> ->]|(-> & -> & ->)]; [done|].
    rewrite (pw_add F1 1) by lia. change (2 ^ 1) with 2. lia. }
  assert (Hv2' : m2' * pw e2' = rne A2 (B2 * 2 ^ (F2 - e2)) * pw F2).
  { destruct Hv2 as [[-> ->]|(-> & -> & ->)]; [done|].
    rewrite (pw_add F2 1) by lia. change (2 ^ 1) with 2. lia. }
  by rewrite Hv1', Hv2'.
Qed.

(** *** Numbers of the format *)

Lemma bounded_facts m e :
  bounded prec emax m e = true ->
  0 < Zpos m < 2 ^ 53 ∧ emin <= e <= 971 ∧ (emin < e -> 2 ^ 52 <= Zpos m)
  ∧ fexp prec emax (Zdigits2 (Zpos m) + e) = e.
Proof.
  unfold bounded, canonical_mantissa. intros H.
  apply andb_prop in H as [H1 H2].
  apply Z.eqb_eq in H1. apply Z.leb_le in H2.
  change (emax - prec) with 971 in H2.
  change (Z.pos (digits2_pos m)) with (Zdigits2 (Zpos m)) in H1.
  assert (Hemin : emin = -1074) by done.
  split; [|split; [|split; [|done]]].
  - split; [lia|].
    pose proof (Zdigits2_gt (Zpos m) ltac:(lia)) as Hgt.
    assert (Hd : Zdigits2 (Zpos m) <= 53).
    { unfold fexp in H1. change (SpecFloat.emin prec emax) with (-1074) in H1.
      change prec with 53 in H1. lia. }
    pose proof (Zdigits2_pos (Zpos m) ltac:(lia)).
    pose proof (pow2_le (Zdigits2 (Zpos m)) 53 ltac:(lia)). lia.
  - unfold fexp in H1. change (SpecFloat.emin prec emax) with (-1074) in H1.
    change prec with 53 in H1. lia.
  - intros Hlt.
    assert (Hd : Zdigits2 (Zpos m) = 53).
    { unfold fexp in H1. change (SpecFloat.emin prec emax) with (-1074) in H1.
      change prec with 53 in H1. lia. }
    pose proof (Zdigits2_le (Zpos m) ltac:(lia)) as Hle. rewrite Hd in Hle.
    assert (2 ^ 53 = 2 * 2 ^ 52) by done. lia.
Qed.

(** Numbers of the format in order have their values in order. *)
Lemma value_le m1 e1 m2 e2 k :
  bounded prec emax m1 e1 = true -> bounded prec emax m2 e2 = true ->
  SFleb (S754_finite false m1 e1) (S754_finite false m2 e2) = true ->
  0 <= e1 + k -> 0 <= e2 + k ->
  Zpos m1 * 2 ^ (e1 + k) <= Zpos m2 * 2 ^ (e2 + k).
Proof.
  intros Hb1 Hb2 Hle Hk1 Hk2.
  destruct (bounded_facts m1 e1 Hb1) as (Hm1 & He1 & Hn1 & _).
  destruct (bounded_facts m2 e2 Hb2) as (Hm2 & He2 & Hn2 & _).
  pose proof (pow2_pos (e1 + k) Hk1) as Hp1.
  unfold SFleb, SFcompare in Hle.
  destruct (Z.compare_spec e1 e2) as [Heq|Hlt|Hgt]; [| |done].
  - subst e2. apply Z.mul_le_mono_nonneg_r; [lia|].
    change (Pos.compare_cont Eq m1 m2) with (Pos.compare m1 m2) in Hle.
    destruct (Pos.compare_spec m1 m2); [lia|lia|done].
  - specialize (Hn2 ltac:(lia)).
    replace (e2 + k) with (e1 + k + (e2 - e1)) by lia.
    rewrite (pow2_split (e1 + k) (e2 - e1)) by lia.
    pose proof (pow2_le 1 (e2 - e1) ltac:(lia)) as H2.
    change (2 ^ 1) with 2 in H2.
    assert (2 ^ 53 = 2 ^ 52 * 2) by done.
    assert (Zpos m1 * 2 ^ (e1 + k) <= 2 ^ 52 * 2 * 2 ^ (e1 + k)) by nia.
    assert (2 ^ 52 * (2 * 2 ^ (e1 + k))
            <= Zpos m2 * (2 ^ (e2 - e1) * 2 ^ (e1 + k))).
    { apply Z.mul_le_mono_nonneg; [lia|done|nia|].
      apply Z.mul_le_mono_nonneg_r; lia. }
    nia.
Qed.

Lemma nonneg_le_inf x : nonneg x -> SFleb x (S754_infinity false) = true.
Proof. destruct x as [s|s| |s m e]; try done; by intros ->. Qed.

Lemma zero_le_nonneg s x : nonneg x -> SFleb (S754_zero s) x = true.
Proof. destruct x as [s'|s'| |s' m e]; try done; by intros ->. Qed.

Lemma rounded_nonneg m e : 0 <= m -> nonneg (rounded m e).
Proof. destruct m as [|p|p]; [done | |lia]. cbn. by destruct (e <=? 971). Qed.

Lemma round_nonneg A B e :
  0 <= A -> 0 < B -> e <= fexp prec emax (Zdigits2 (A / B) + e) ->
  nonneg (binary_round_aux prec emax false (A / B) e (loc_of (A mod B) B)).
Proof.
  intros HA HB He.
  destruct (round_result A B e HA HB He) as (m' & e' & -> & Hm & _).
  apply rounded_nonneg. lia.
Qed.

(** An exact mantissa is its own floor. *)
Lemma round_exact A e :
  binary_round_aux prec emax false A e loc_Exact
  = binary_round_aux prec emax false (A / 1) e (loc_of (A mod 1) 1).
Proof. by rewrite Z.div_1_r, Z.mod_1_r. Qed.

(** *** Products *)

Lemma product_exponent m e mc ec :
  0 < m -> 2 ^ 52 <= mc ->
  e + ec <= fexp prec emax (Zdigits2 (m * mc / 1) + (e + ec)).
Proof.
  intros Hm Hc. rewrite Z.div_1_r.
  pose proof (Zdigits2_pos m Hm) as Hd.
  pose proof (Zdigits2_le m Hm) as Hle.
  assert (H2d : 2 ^ Zdigits2 m = 2 * 2 ^ (Zdigits2 m - 1)).
  { rewrite <- (Z.pow_succ_r 2) by lia. f_equal. lia. }
  assert (Hlb : 2 ^ (Zdigits2 m - 1 + 52) <= m * mc).
  { rewrite pow2_split by lia.
    pose proof (pow2_pos (Zdigits2 m - 1) ltac:(lia)).
    apply Z.mul_le_mono_nonneg; lia. }
  pose proof (Zdigits2_lb (m * mc) (Zdigits2 m - 1 + 52) ltac:(lia) Hlb).
  unfold fexp. change prec with 53. lia.
Qed.

(** The product by a normal positive constant keeps the order of numbers
    that are not negative. *)
Lemma SFmul_mono X Y mc ec :
  SpecFloat.valid_binary prec emax X = true ->
  SpecFloat.valid_binary prec emax Y = true ->
  nonneg X -> nonneg Y -> SFleb X Y = true ->
  bounded prec emax mc ec = true -> 2 ^ 52 <= Zpos mc ->
  SFleb (SFmul prec emax X (S754_finite false mc ec))
        (SFmul prec emax Y (S754_finite false mc ec)) = true
  ∧ nonneg (SFmul prec emax X (S754_finite false mc ec))
  ∧ nonneg (SFmul prec emax Y (S754_finite false mc ec)).
Proof.
  intros HvX HvY HX HY Hle Hbc Hc52.
  destruct (bounded_facts mc ec Hbc) as (Hmc & Hec & _ & _).
  assert (Hemin : emin = -1074) by done.
  assert (Hfin : forall m e, bounded prec emax m e = true ->
            nonneg (SFmul prec emax (S754_finite false m e)
                          (S754_finite false mc ec))).
  { intros m e Hb. cbn [SFmul xorb]. rewrite round_exact.
    destruct (bounded_facts m e Hb) as (Hm & He & _ & _).
    apply round_nonneg; [lia | lia |].
    change (Zpos (m * mc)) with (Zpos m * Zpos mc).
    apply product_exponent; lia. }
  destruct X as [sx|sx| |sx mx ex]; try done; cbn [nonneg] in HX; subst sx;
    destruct Y as [sy|sy| |sy my ey]; try done; cbn [nonneg] in HY; subst sy;
    try done; cbn [SpecFloat.valid_binary] in HvX, HvY.
  - (* zero and a finite number *)
    split; [|split; [done|by apply Hfin]].
    apply (zero_le_nonneg false). by apply Hfin.
  - (* a finite number and the infinity *)
    split; [|split; [by apply Hfin|done]].
    apply nonneg_le_inf. by apply Hfin.
  - (* two finite numbers *)
    split; [|split; by apply Hfin].
    cbn [SFmul xorb]. rewrite !round_exact.
    destruct (bounded_facts mx ex HvX) as (Hmx & Hex & _ & _).
    destruct (bounded_facts my ey HvY) as (Hmy & Hey & _ & _).
    change (Zpos (mx * mc)) with (Zpos mx * Zpos mc).
    change (Zpos (my * mc)) with (Zpos my * Zpos mc).
    apply round_mono; try lia.
    + by apply product_exponent; lia.
    + by apply product_exponent; lia.
    + pose proof (value_le mx ex my ey (ec + 4000) HvX HvY Hle
                    ltac:(lia) ltac:(lia)) as Hv.
      unfold pw.
      replace (ex + ec + 4000) with (ex + (ec + 4000)) by lia.
      replace (ey + ec + 4000) with (ey + (ec + 4000)) by lia.
      nia.
Qed.

(** *** Quotients *)

Lemma new_location_loc_of nb r :
  0 < nb -> 0 <= r < nb -> new_location nb r = loc_of r nb.
Proof.
  intros Hnb Hr. unfold new_location, new_location_even, new_location_odd, loc_of.
  destruct (Z.even nb) eqn:Hev; [done|].
  destruct (Z.eqb_spec r 0) as [|Hne]; [done|]. f_equal.
  assert (Hodd : Z.odd nb = true) by (by rewrite <- Z.negb_even, Hev).
  apply Z.odd_spec in Hodd as [k Hk].
  destruct (Z.compare_spec (2 * r + 1) nb), (Z.compare_spec (2 * r) nb);
    try done; lia.
Qed.

(** The quotient of two positive finite numbers is the rounding of the
    quotient of the mantissas at the exponent that [SFdiv] chooses. *)
Lemma SFdiv_finite m1 e1 mc ec :
  let e' := Z.min (fexp prec emax (Zdigits2 (Zpos m1) + e1
                                   - (Zdigits2 (Zpos mc) + ec))) (e1 - ec) in
  let A := Zpos m1 * 2 ^ (e1 - ec - e') in
  SFdiv prec emax (S754_finite false m1 e1) (S754_finite false mc ec)
  = binary_round_aux prec emax false (A / Zpos mc) e'
      (loc_of (A mod Zpos mc) (Zpos mc))
  ∧ 0 <= e1 - ec - e'
  ∧ e' <= fexp prec emax (Zdigits2 (A / Zpos mc) + e').
Proof.
  intros e' A.
  assert (Hs : 0 <= e1 - ec - e') by (unfold e'; lia).
  pose proof (pow2_pos _ Hs) as Hp.
  split; [|split; [done|]].
  - unfold SFdiv, SFdiv_core_binary. cbv zeta. fold e'. cbn [xorb].
    assert (Hm' : match e1 - ec - e' with
                  | Zpos _ => Z.shiftl (Zpos m1) (e1 - ec - e')
                  | Z0 => Zpos m1
                  | Zneg _ => 0
                  end = A).
    { unfold A. destruct (e1 - ec - e') as [|p|p] eqn:E; [|  |lia].
      - by rewrite Z.pow_0_r, Z.mul_1_r.
      - by rewrite Z.shiftl_mul_pow2. }
    rewrite Hm'.
    pose proof (Z.mod_pos_bound A (Zpos mc) ltac:(lia)) as Hr.
    unfold Z.modulo in Hr |- *. unfold Z.div.
    destruct (Z.div_eucl A (Zpos mc)) as [q r]. cbn [fst snd] in *.
    by rewrite new_location_loc_of by lia.
  - set (d1 := Zdigits2 (Zpos m1)) in *. set (dc := Zdigits2 (Zpos mc)) in *.
    pose proof (Zdigits2_pos (Zpos m1) ltac:(lia)) as Hd1. fold d1 in Hd1.
    pose proof (Zdigits2_pos (Zpos mc) ltac:(lia)) as Hdc. fold dc in Hdc.
    pose proof (Zdigits2_le (Zpos m1) ltac:(lia)) as Hl1. fold d1 in Hl1.
    pose proof (Zdigits2_gt (Zpos mc) ltac:(lia)) as Hgc. fold dc in Hgc.
    set (s := e1 - ec - e') in *.
    assert (Hq : d1 + s - dc <= Zdigits2 (A / Zpos mc)).
    { pose proof (Zdigits2_nonneg (A / Zpos mc)).
      destruct (Z_le_gt_dec (d1 + s - dc) 0) as [|Hk]; [lia|].
      enough (d1 + s - dc - 1 < Zdigits2 (A / Zpos mc)) by lia.
      apply Zdigits2_lb; [lia|].
      apply Z.div_le_lower_bound; [lia|].
      assert (H2d : 2 ^ d1 = 2 * 2 ^ (d1 - 1)).
      { rewrite <- (Z.pow_succ_r 2) by lia. f_equal. lia. }
      assert (Hsplit : 2 ^ (d1 - 1 + s) = 2 ^ (d1 + s - dc - 1) * 2 ^ dc).
      { rewrite <- pow2_split by lia. f_equal. lia. }
      assert (HA : 2 ^ (d1 - 1 + s) <= A).
      { unfold A. rewrite pow2_split by lia.
        apply Z.mul_le_mono_nonneg_r; lia. }
      pose proof (pow2_pos (d1 + s - dc - 1) ltac:(lia)).
      nia. }
    assert (He' : e' <= fexp prec emax (d1 + e1 - (dc + ec))) by (unfold e'; lia).
    unfold fexp in *. change prec with 53 in *. lia.
Qed.

(** The quotient by a positive finite constant keeps the order of
    positive numbers. *)
Lemma SFdiv_mono X Y mc ec :
  SpecFloat.valid_binary prec emax X = true ->
  SpecFloat.valid_binary prec emax Y = true ->
  nonneg X -> nonneg Y -> SFleb X Y = true ->
  bounded prec emax mc ec = true ->
  SFleb (SFdiv prec emax X (S754_finite false mc ec))
        (SFdiv prec emax Y (S754_finite false mc ec)) = true
  ∧ nonneg (SFdiv prec emax X (S754_finite false mc ec))
  ∧ nonneg (SFdiv prec emax Y (S754_finite false mc ec)).
Proof.
  intros HvX HvY HX HY Hle Hbc.
  destruct (bounded_facts mc ec Hbc) as (Hmc & Hec & _ & _).
  assert (Hemin : emin = -1074) by done.
  assert (Hfin : forall m e, bounded prec emax m e = true ->
            nonneg (SFdiv prec emax (S754_finite false m e)
                          (S754_finite false mc ec))).
  { intros m e Hb.
    destruct (SFdiv_finite m e mc ec) as (-> & Hs & He).
    pose proof (pow2_pos _ Hs). apply round_nonneg; [lia | lia | done]. }
  destruct X as [sx|sx| |sx mx ex]; try done; cbn [nonneg] in HX; subst sx;
    destruct Y as [sy|sy| |sy my ey]; try done; cbn [nonneg] in HY; subst sy;
    try done; cbn [SpecFloat.valid_binary] in HvX, HvY.
  - (* zero and a finite number *)
    split; [|split; [done|by apply Hfin]].
    apply (zero_le_nonneg false). by apply Hfin.
  - (* a finite number and the infinity *)
    split; [|split; [by apply Hfin|done]].
    apply nonneg_le_inf. by apply Hfin.
  - (* two finite numbers *)
    split; [|split; by apply Hfin].
    destruct (SFdiv_finite mx ex mc ec) as (-> & Hs1 & He1).
    destruct (SFdiv_finite my ey mc ec) as (-> & Hs2 & He2).
    destruct (bounded_facts mx ex HvX) as (Hmx & Hex & _ & _).
    destruct (bounded_facts my ey HvY) as (Hmy & Hey & _ & _).
    set (e1' := Z.min (fexp prec emax (Zdigits2 (Zpos mx) + ex
                                       - (Zdigits2 (Zpos mc) + ec))) (ex - ec))
      in *.
    set (e2' := Z.min (fexp prec emax (Zdigits2 (Zpos my) + ey
                                       - (Zdigits2 (Zpos mc) + ec))) (ey - ec))
      in *.
    assert (Hlo1 : -4000 <= e1').
    { unfold e1', fexp. change (SpecFloat.emin prec emax) with (-1074). lia. }
    assert (Hlo2 : -4000 <= e2').
    { unfold e2', fexp. change (SpecFloat.emin prec emax) with (-1074). lia. }
    pose proof (pow2_pos _ Hs1) as Hp1. pose proof (pow2_pos _ Hs2) as Hp2.
    apply round_mono; try lia; try done.
    pose proof (value_le mx ex my ey (4000 - ec) HvX HvY Hle
                  ltac:(lia) ltac:(lia)) as Hv.
    assert (E1 : 2 ^ (ex - ec - e1') * pw e1' = 2 ^ (ex + (4000 - ec))).
    { unfold pw. rewrite <- pow2_split by lia. f_equal. lia. }
    assert (E2 : 2 ^ (ey - ec - e2') * pw e2' = 2 ^ (ey + (4000 - ec))).
    { unfold pw. rewrite <- pow2_split by lia. f_equal. lia. }
    replace (Zpos mx * 2 ^ (ex - ec - e1') * pw e1' * Zpos mc)
      with (Zpos mx * (2 ^ (ex - ec - e1') * pw e1') * Zpos mc) by ring.
    replace (Zpos my * 2 ^ (ey - ec - e2') * pw e2' * Zpos mc)
      with (Zpos my * (2 ^ (ey - ec - e2') * pw e2') * Zpos mc) by ring.
    rewrite E1, E2. apply Z.mul_le_mono_nonneg_r; lia.
Qed.

(** *** The order of the numbers is transitive *)

Lemma SFleb_trans X Y Z :
  SFleb X Y = true -> SFleb Y Z = true -> SFleb X Z = true.
Proof.
  unfold SFleb, SFcompare.
  destruct X as [sx|sx| |sx mx ex], Y as [sy|sy| |sy my ey],
    Z as [sz|sz| |sz mz ez];
    try destruct sx; try destruct sy; try destruct sz; try done.
  - change (Pos.compare_cont Eq mx my) with (Pos.compare mx my).
    change (Pos.compare_cont Eq my mz) with (Pos.compare my mz).
    change (Pos.compare_cont Eq mx mz) with (Pos.compare mx mz).
    destruct (Z.compare_spec ex ey), (Z.compare_spec ey ez),
      (Z.compare_spec ex ez); try done; try lia; subst;
      destruct (Pos.compare_spec mx my), (Pos.compare_spec my mz),
        (Pos.compare_spec mx mz); try done; lia.
  - change (Pos.compare_cont Eq mx my) with (Pos.compare mx my).
    change (Pos.compare_cont Eq my mz) with (Pos.compare my mz).
    change (Pos.compare_cont Eq mx mz) with (Pos.compare mx mz).
    destruct (Z.compare_spec ex ey), (Z.compare_spec ey ez),
      (Z.compare_spec ex ez); try done; try lia; subst;
      destruct (Pos.compare_spec mx my), (Pos.compare_spec my mz),
        (Pos.compare_spec mx mz); try done; lia.
Qed.

(** *** [toleranceToDistance] does not decrease *)

Lemma toleranceToDistance_mono (t1 t2 : float) :
  (t1 <=? t2)%float = true ->
  (toleranceToDistance t1 <=? toleranceToDistance t2)%float = true.
Proof.
  intros Hle. rewrite leb_spec in Hle.
  pose proof (Prim2SF_valid t1) as Hv1. pose proof (Prim2SF_valid t2) as Hv2.
  pose proof (Prim2SF_valid (t1 / 100)) as Hu1.
  pose proof (Prim2SF_valid (t2 / 100)) as Hu2.
  rewrite div_spec in Hu1, Hu2.
  assert (H100 : Prim2SF 100 = S754_finite false 7036874417766400 (-46))
    by done.
  assert (HM : Prim2SF MAX_RGB_DISTANCE
               = S754_finite false 7769992811508830 (-44)) by done.
  assert (Hb100 : bounded prec emax 7036874417766400 (-46) = true) by done.
  assert (HbM : bounded prec emax 7769992811508830 (-44) = true) by done.
  assert (HM52 : 2 ^ 52 <= 7769992811508830) by done.
  assert (Hpos : forall X Y,
            SpecFloat.valid_binary prec emax X = true ->
            SpecFloat.valid_binary prec emax Y = true ->
            SpecFloat.valid_binary prec emax
              (SFdiv prec emax X (S754_finite false 7036874417766400 (-46)))
            = true ->
            SpecFloat.valid_binary prec emax
              (SFdiv prec emax Y (S754_finite false 7036874417766400 (-46)))
            = true ->
            nonneg X -> nonneg Y -> SFleb X Y = true ->
            SFleb
              (SFmul prec emax
                 (SFdiv prec emax X (S754_finite false 7036874417766400 (-46)))
                 (S754_finite false 7769992811508830 (-44)))
              (SFmul prec emax
                 (SFdiv prec emax Y (S754_finite false 7036874417766400 (-46)))
                 (S754_finite false 7769992811508830 (-44))) = true
            ∧ nonneg
                (SFmul prec emax
                   (SFdiv prec emax Y
                      (S754_finite false 7036874417766400 (-46)))
                   (S754_finite false 7769992811508830 (-44)))).
  { intros X Y HX HY HUX HUY HnX HnY HXY.
    destruct (SFdiv_mono X Y _ _ HX HY HnX HnY HXY Hb100) as (Hd & Hn1 & Hn2).
    destruct (SFmul_mono _ _ _ _ HUX HUY Hn1 Hn2 Hd HbM HM52) as (Hm & _ & Hn).
    done. }
  unfold toleranceToDistance.
  rewrite (leb_spec t1 0), (leb_spec t2 0).
  change (Prim2SF 0) with (S754_zero false).
  set (X := Prim2SF t1) in *. set (Y := Prim2SF t2) in *.
  assert (Hrefl : nonneg Y -> SFleb Y Y = true).
  { destruct Y as [s|s| |s m e]; try done; intros ->; try done.
    unfold SFleb, SFcompare. rewrite Z.compare_refl.
    change (Pos.compare_cont Eq m m) with (Pos.compare m m).
    by rewrite Pos.compare_refl. }
  destruct (SFleb X (S754_zero false)) eqn:HX0,
    (SFleb Y (S754_zero false)) eqn:HY0.
  - done.
  - (* the first threshold is 0 *)
    assert (HnY : nonneg Y).
    { destruct X as [sx|sx| |sx mx ex], Y as [sy|sy| |sy my ey];
        try destruct sx; try destruct sy; done. }
    rewrite leb_spec, mul_spec, div_spec, H100, HM.
    change (Prim2SF 0) with (S754_zero false). fold Y.
    apply zero_le_nonneg.
    rewrite H100 in Hu2. fold Y in Hu2. unfold SF64mul, SF64div.
    exact (proj2 (Hpos Y Y Hv2 Hv2 Hu2 Hu2 HnY HnY (Hrefl HnY))).
  - (* impossible: the second tolerance is not below the first *)
    destruct X as [sx|sx| |sx mx ex], Y as [sy|sy| |sy my ey];
      try destruct sx; try destruct sy; done.
  - assert (HnX : nonneg X ∧ nonneg Y).
    { destruct X as [sx|sx| |sx mx ex], Y as [sy|sy| |sy my ey];
        try destruct sx; try destruct sy; done. }
    destruct HnX as [HnX HnY].
    rewrite leb_spec, !mul_spec, !div_spec, H100, HM. fold X Y.
    rewrite H100 in Hu1, Hu2. fold X in Hu1. fold Y in Hu2.
    unfold SF64mul, SF64div.
    exact (proj1 (Hpos X Y Hv1 Hv2 Hu1 Hu2 HnX HnY Hle)).
Qed.

(** A pixel that matches at one tolerance matches at every larger one. *)
Lemma colorMatches_mono (pr pg pb tr tg tb t1 t2 : float) :
  (t1 <=? t2)%float = true ->
  colorMatches pr pg pb tr tg tb t1 = true ->
  colorMatches pr pg pb tr tg tb t2 = true.
Proof.
  intros Hle. unfold colorMatches. cbv zeta.
  pose proof (toleranceToDistance_mono t1 t2 Hle) as Hm.
  rewrite !leb_spec in *. intros H. by eapply SFleb_trans.
Qed.

End Monotone.

(** ** Tolerance and colour matching *)

Lemma dist2_zero pr pg pb tr tg tb :
  dist2 pr pg pb tr tg tb = 0 <-> pr = tr ∧ pg = tg ∧ pb = tb.
Proof.
  unfold dist2. split.
  - intros H.
    pose proof (Z.square_nonneg (pr - tr)) as H1.
    pose proof (Z.square_nonneg (pg - tg)) as H2.
    pose proof (Z.square_nonneg (pb - tb)) as H3.
    assert ((pr - tr) * (pr - tr) = 0) as E1 by lia.
    assert ((pg - tg) * (pg - tg) = 0) as E2 by lia.
    assert ((pb - tb) * (pb - tb) = 0) as E3 by lia.
    apply Z.mul_eq_0 in E1, E2, E3. lia.
  - intros (-> & -> & ->). lia.
Qed.

(** C4. [toleranceToDistance t] is 0 when [t <= 0] and
    [(t / 100) * sqrt (3 * 255 * 255)] otherwise.  It does not decrease:
    for every two numbers [t1 <= t2], in [[0, 100]] or not, integers or
    not, the threshold at [t1] is at most the threshold at [t2] (so also
    over the slider values 0..100).  At 0 the threshold is 0 and two
    colours match only when they are equal; at 100 it is the largest
    distance of two colours (between 441.67 and 441.68), and any two
    colours match. *)
Theorem toleranceToDistance_spec :
  (forall t : float,
      toleranceToDistance t
      = if (t <=? 0)%float then 0%float
        else ((t / 100) * PrimFloat.sqrt (3 * 255 * 255))%float)
  ∧ (forall t1 t2 : float,
       (t1 <=? t2)%float = true ->
       (toleranceToDistance t1 <=? toleranceToDistance t2)%float = true)
  ∧ (forall t1 t2 : float,
       (0 <=? t1)%float = true -> (t1 <=? t2)%float = true ->
       (t2 <=? 100)%float = true ->
       (toleranceToDistance t1 <=? toleranceToDistance t2)%float = true)
  ∧ (forall t1 t2 : Z, 0 <= t1 <= t2 -> t2 <= 100 ->
       (toleranceToDistance (ofZ t1) <=? toleranceToDistance (ofZ t2))%float = true)
  ∧ toleranceToDistance (ofZ 0) = 0%float
  ∧ (forall pr pg pb tr tg tb,
       is_byte pr -> is_byte pg -> is_byte pb ->
       is_byte tr -> is_byte tg -> is_byte tb ->
       colorMatches (ofZ pr) (ofZ pg) (ofZ pb) (ofZ tr) (ofZ tg) (ofZ tb) (ofZ 0) = true
       <-> pr = tr ∧ pg = tg ∧ pb = tb)
  ∧ toleranceToDistance (ofZ 100) = PrimFloat.sqrt (3 * 255 * 255)%float
  ∧ (44167 <=? toleranceToDistance (ofZ 100) * 100)%float = true
  ∧ (toleranceToDistance (ofZ 100) * 100 <=? 44168)%float = true
  ∧ (forall pr pg pb tr tg tb,
       is_byte pr -> is_byte pg -> is_byte pb ->
       is_byte tr -> is_byte tg -> is_byte tb ->
       colorMatches (ofZ pr) (ofZ pg) (ofZ pb) (ofZ tr) (ofZ tg) (ofZ tb) (ofZ 100) = true).
Proof.
  split; [done|]. split; [apply toleranceToDistance_mono|].
  split; [intros t1 t2 _ H _; by apply toleranceToDistance_mono|].
  split; [apply threshold_mono|].
  split; [by vm_compute|]. split.
  { intros pr pg pb tr tg tb Hpr Hpg Hpb Htr Htg Htb.
    rewrite colorMatches_bytes by first [done | lia].
    rewrite within_0 by by apply dist2_bounds.
    rewrite Z.eqb_eq. apply dist2_zero. }
  split; [by vm_compute|]. split; [by vm_compute|]. split; [by vm_compute|].
  intros pr pg pb tr tg tb Hpr Hpg Hpb Htr Htg Htb.
  rewrite colorMatches_bytes by first [done | lia].
  apply within_100. by apply dist2_bounds.
Qed.

Lemma toleranceToDistance_spec_witness :
  (0 <=? 0.5)%float = true ∧ (0.5 <=? 12.25)%float = true
  ∧ (12.25 <=? 100)%float = true
  ∧ (toleranceToDistance 0.5 <=? toleranceToDistance 12.25)%float = true
  ∧ 0 <= 10 <= 50 ∧ 50 <= 100
  ∧ (toleranceToDistance (ofZ 10) <=? toleranceToDistance (ofZ 50))%float = true.
Proof.
  split; [reflexivity|]. split; [reflexivity|]. split; [reflexivity|].
  split.
  { apply (proj1 (proj2 (proj2 toleranceToDistance_spec)) 0.5%float 12.25%float);
      reflexivity. }
  split; [lia|]. split; [lia|].
  apply (proj1 (proj2 (proj2 (proj2 toleranceToDistance_spec)))); lia.
Defined.

(** C5. A colour matches itself at every tolerance that is at least 0
    (any number, the infinite one too), and a pixel that matches a target
    at one tolerance matches it at every larger one, whatever the two
    tolerances [t1 <= t2] are (any numbers, so the values of the slider
    too) and whatever the channels are. *)
Theorem colorMatches_self_mono :
  (forall cr cg cb (t : float),
      is_byte cr -> is_byte cg -> is_byte cb -> (0 <=? t)%float = true ->
      colorMatches (ofZ cr) (ofZ cg) (ofZ cb) (ofZ cr) (ofZ cg) (ofZ cb) t = true)
  ∧ (forall pr pg pb tr tg tb t1 t2 : float,
       (t1 <=? t2)%float = true ->
       colorMatches pr pg pb tr tg tb t1 = true ->
       colorMatches pr pg pb tr tg tb t2 = true)
  ∧ (forall pr pg pb tr tg tb t1 t2,
       is_byte pr -> is_byte pg -> is_byte pb ->
       is_byte tr -> is_byte tg -> is_byte tb ->
       0 <= t1 <= t2 -> t2 <= 100 ->
       colorMatches (ofZ pr) (ofZ pg) (ofZ pb) (ofZ tr) (ofZ tg) (ofZ tb) (ofZ t1) = true ->
       colorMatches (ofZ pr) (ofZ pg) (ofZ pb) (ofZ tr) (ofZ tg) (ofZ tb) (ofZ t2) = true).
Proof.
  split; [apply colorMatches_self_float|].
  split; [apply colorMatches_mono|].
  intros pr pg pb tr tg tb t1 t2 Hpr Hpg Hpb Htr Htg Htb Ht1 Ht2.
  rewrite !colorMatches_bytes by first [done | lia].
  apply within_mono; [by apply dist2_bounds | lia | lia].
Qed.

Lemma colorMatches_self_mono_witness :
  (0 <=? 12.5)%float = true
  ∧ colorMatches (ofZ 200) (ofZ 10) (ofZ 10) (ofZ 200) (ofZ 10) (ofZ 10) 12.5 = true
  ∧ (12.875 <=? 60.5)%float = true
  ∧ colorMatches (ofZ 200) (ofZ 10) (ofZ 10) (ofZ 255) (ofZ 0) (ofZ 0) 12.875 = true
  ∧ colorMatches (ofZ 200) (ofZ 10) (ofZ 10) (ofZ 255) (ofZ 0) (ofZ 0) 60.5 = true
  ∧ colorMatches (ofZ 200) (ofZ 10) (ofZ 10) (ofZ 255) (ofZ 0) (ofZ 0) (ofZ 13) = true
  ∧ colorMatches (ofZ 200) (ofZ 10) (ofZ 10) (ofZ 255) (ofZ 0) (ofZ 0) (ofZ 60) = true.
Proof.
  assert (H : colorMatches (ofZ 200) (ofZ 10) (ofZ 10) (ofZ 255) (ofZ 0) (ofZ 0) (ofZ 13) = true)
    by (by vm_compute).
  assert (H' : colorMatches (ofZ 200) (ofZ 10) (ofZ 10) (ofZ 255) (ofZ 0) (ofZ 0) 12.875 = true)
    by (by vm_compute).
  split; [reflexivity|]. split.
  { apply (proj1 colorMatches_self_mono 200 10 10 12.5%float);
      unfold is_byte; first [lia | reflexivity]. }
  split; [reflexivity|]. split; [exact H'|]. split.
  { apply (proj1 (proj2 colorMatches_self_mono) _ _ _ _ _ _ 12.875%float 60.5%float);
      [reflexivity | exact H']. }
  split; [exact H|].
  apply (proj2 (proj2 colorMatches_self_mono) 200 10 10 255 0 0 13 60);
    unfold is_byte; try lia. exact H.
Defined.

(** ** Dominant colours *)

(** C3. On the 4x4 raster whose pixels are all (255, 0, 0, 255),
    [getDominantColors] with [maxColors = 5] and [sampleStep = 1] (and its
    12 quantisation levels) returns the single colour (244, 11, 11): the
    centres [round ((level + 0.5) * 255 / 12)] of the levels (11, 0, 0). *)
Theorem getDominantColors_red4x4 :
  getDominantColors red4x4 5 1 = Some [(244, 11, 11)%float]
  ∧ (quantize 255 12, quantize 0 12) = (11, 0)%float
  ∧ (center 11 12, center 0 12) = (244, 11)%float.
Proof. by vm_compute. Qed.

(** ** Reordering layers *)

Section Reorder.

Import App.

Lemma findIndex_Some layerId prev i :
  findIndex layerId prev = Some i ->
  exists l, prev !! i = Some l ∧ id l = layerId.
Proof.
  revert i. induction prev as [|l prev IH]; intros i; [done|].
  cbn [findIndex]. destruct (String.eqb_spec (id l) layerId) as [He|Hne].
  - intros [= <-]. by exists l.
  - destruct (findIndex layerId prev) as [k|]; [|done].
    intros [= <-]. by apply IH.
Qed.

Lemma findIndex_present layerId prev l :
  l ∈ prev -> id l = layerId -> is_Some (findIndex layerId prev).
Proof.
  intros Hin Hid. induction prev as [|l' prev IH]; [by apply elem_of_nil in Hin|].
  cbn [findIndex]. destruct (String.eqb_spec (id l') layerId) as [He|Hne]; [done|].
  apply elem_of_cons in Hin as [->|Hin]; [done|].
  destruct (IH Hin) as [k ->]. done.
Qed.

(** Inserting [x] at position [n] of [l], as [l.splice(n, 0, x)] does. *)
Lemma lookup_splice {A} (l : list A) (n : nat) (x : A) :
  (n ≤ length l)%nat ->
  (take n l ++ x :: drop n l) !! n = Some x
  ∧ delete n (take n l ++ x :: drop n l) = l
  ∧ length (take n l ++ x :: drop n l) = S (length l).
Proof.
  intros Hn.
  assert (Hl : length (take n l) = n) by (by apply length_take_le).
  split; [|split].
  - by apply list_lookup_middle.
  - rewrite <- Hl at 1. rewrite delete_middle. apply take_drop.
  - rewrite length_app. cbn [length]. rewrite Hl, length_drop. lia.
Qed.

(** C8. Moving a layer that is in the list to an absolute index: the
    index is clamped into [0, length - 1]; when it lies after the layer's
    position it is decremented by one; the layer ends at that position
    and the other layers keep their order. *)
Theorem handleMoveLayerToIndex_spec layerId toIndex prev l :
  l ∈ prev -> id l = layerId ->
  exists (fromIndex : nat) (moved : Layer),
    findIndex layerId prev = Some fromIndex
    ∧ prev !! fromIndex = Some moved ∧ id moved = layerId
    ∧ let len := Z.of_nat (length prev) in
      let clamped := Z.max 0 (Z.min (len - 1) toIndex) in
      let target := if Z.of_nat fromIndex <? clamped then clamped - 1 else clamped in
      let next := handleMoveLayerToIndex layerId toIndex prev in
      0 <= clamped <= len - 1
      ∧ (0 <= toIndex <= len - 1 -> clamped = toIndex)
      ∧ 0 <= target
      ∧ length next = length prev
      ∧ next !! Z.to_nat target = Some moved
      ∧ delete (Z.to_nat target) next = delete fromIndex prev.
Proof.
  intros Hin Hid.
  destruct (findIndex_present layerId prev l Hin Hid) as [fromIndex Hf].
  destruct (findIndex_Some _ _ _ Hf) as (moved & Hm & Hmid).
  exists fromIndex, moved. split; [done|]. split; [done|]. split; [done|].
  pose proof (lookup_lt_Some _ _ _ Hm) as Hlt.
  cbv zeta. unfold handleMoveLayerToIndex. rewrite Hf, Hm.
  set (clamped := Z.max 0 (Z.min (Z.of_nat (length prev) - 1) toIndex)).
  set (target := if Z.of_nat fromIndex <? clamped then clamped - 1 else clamped).
  assert (Hc : 0 <= clamped <= Z.of_nat (length prev) - 1) by lia.
  assert (Ht : 0 <= target <= Z.of_nat (length prev) - 1).
  { unfold target. destruct (Z.ltb_spec (Z.of_nat fromIndex) clamped); lia. }
  split; [done|]. split; [lia|]. split; [lia|].
  destruct (Z.eqb_spec (Z.of_nat fromIndex) target) as [He|Hne].
  - replace (Z.to_nat target) with fromIndex by lia. done.
  - destruct (lookup_splice (delete fromIndex prev) (Z.to_nat target) moved)
      as (H1 & H2 & H3).
    { rewrite length_delete by done. lia. }
    rewrite H3, length_delete by done. split; [lia|]. done.
Qed.

Lemma handleMoveLayerToIndex_spec_witness :
  let mk s := mkLayer s (mkColor 0 0 0) "#000000" true None None None in
  map id (handleMoveLayerToIndex "b" 3 [mk "a"; mk "b"; mk "c"; mk "d"])
  = ["a"; "c"; "b"; "d"]
  ∧ exists fromIndex moved,
      findIndex "b" [mk "a"; mk "b"; mk "c"; mk "d"] = Some fromIndex
      ∧ [mk "a"; mk "b"; mk "c"; mk "d"] !! fromIndex = Some moved.
Proof.
  intros mk. split; [reflexivity|].
  destruct (handleMoveLayerToIndex_spec "b" 3 [mk "a"; mk "b"; mk "c"; mk "d"] (mk "b"))
    as (fromIndex & moved & H1 & H2 & _).
  - apply elem_of_cons. right. apply elem_of_cons. by left.
  - reflexivity.
  - by exists fromIndex, moved.
Defined.

End Reorder.

(** ** Scatter loops

    The transforms run two nested loops over the rows and columns of the
    source and assign one element of the destination per step.  Such a loop
    is a sequence of assignments [out[k] = v]; when the assignments to an
    index all carry the same value, that value is what the index holds at
    the end. *)

Section Scatter.

Local Open Scope nat_scope.

Lemma length_writes ws out : length (writes ws out) = length out.
Proof.
  revert out. induction ws as [|p ws IH]; intros out; [done|].
  unfold writes in *. cbn [foldl]. by rewrite IH, length_insert.
Qed.

Lemma writes_app ws1 ws2 out :
  writes (ws1 ++ ws2) out = writes ws2 (writes ws1 out).
Proof. apply foldl_app. Qed.

Lemma writes_lookup_notin ws out k :
  (forall v, (k, v) ∉ ws) -> writes ws out !! k = out !! k.
Proof.
  revert out. induction ws as [|[k1 v1] ws IH]; intros out Hn; [done|].
  unfold writes in *. cbn [foldl fst snd]. rewrite IH.
  - apply list_lookup_insert_ne. intros ->. apply (Hn v1). by left.
  - intros v Hv. apply (Hn v). by right.
Qed.

Lemma writes_lookup_in ws out k v :
  (k, v) ∈ ws -> (forall v', (k, v') ∈ ws -> v' = v) -> k < length out ->
  writes ws out !! k = Some v.
Proof.
  revert out. induction ws as [|[k1 v1] ws IH]; intros out Hin Hfun Hk.
  - by apply elem_of_nil in Hin.
  - change (writes ((k1, v1) :: ws) out) with (writes ws (<[k1 := v1]> out)).
    assert (Hdec : (exists v', (k, v') ∈ ws) ∨ ¬ (exists v', (k, v') ∈ ws)).
    { destruct (decide (k ∈ ws.*1)) as [Hk1|Hk1].
      - left. apply list_elem_of_fmap in Hk1 as ([k' v'] & -> & Hp). by exists v'.
      - right. intros [v' Hv']. apply Hk1.
        apply list_elem_of_fmap. by exists (k, v'). }
    destruct Hdec as [[v' Hv']|Hno].
    + assert (v' = v) as -> by (apply Hfun; by right).
      apply IH; [done | | by rewrite length_insert].
      intros v'' Hv''. apply Hfun. by right.
    + rewrite writes_lookup_notin by (intros v' Hv'; apply Hno; by exists v').
      apply elem_of_cons in Hin as [[= <- <-]|Hin].
      * by apply list_lookup_insert_eq.
      * exfalso. apply Hno. by exists v.
Qed.

(** Two nested loops of assignments are one sequence of assignments. *)
Lemma scan_writes (W : nat -> nat -> list (nat * Z)) (ys xs : list nat) out :
  foldl (fun o y => foldl (fun o x => writes (W y x) o) o xs) out ys
  = writes (ys ≫= fun y => xs ≫= W y) out.
Proof.
  assert (Hin : forall y o, foldl (fun o x => writes (W y x) o) o xs
                            = writes (xs ≫= W y) o).
  { intros y. induction xs as [|x xs IH]; intros o; [done|].
    cbn [foldl]. rewrite IH, bind_cons. by rewrite writes_app. }
  revert out. induction ys as [|y ys IH]; intros out; [done|].
  cbn [foldl]. rewrite IH, Hin, bind_cons. by rewrite writes_app.
Qed.

Lemma elem_of_scan (W : nat -> nat -> list (nat * Z)) h w p :
  p ∈ (seq 0 h ≫= fun y => seq 0 w ≫= W y)
  <-> exists y x, y < h ∧ x < w ∧ p ∈ W y x.
Proof.
  rewrite list_elem_of_bind. split.
  - intros (y & Hp & Hy). apply list_elem_of_bind in Hp as (x & Hp & Hx).
    apply elem_of_seq in Hy, Hx. exists y, x. repeat split; [lia | lia | done].
  - intros (y & x & Hy & Hx & Hp). exists y. split.
    + apply list_elem_of_bind. exists x. split; [done|]. apply elem_of_seq. lia.
    + apply elem_of_seq. lia.
Qed.

Section Scan.

Variable W : nat -> nat -> list (nat * Z).
Variables h w : nat.
Variable out : list Z.

Let scan : list Z :=
  foldl (fun o y => foldl (fun o x => writes (W y x) o) o (seq 0 w))
        out (seq 0 h).

Lemma length_scan : length scan = length out.
Proof. unfold scan. by rewrite scan_writes, length_writes. Qed.

Lemma scan_lookup_in k v y x :
  y < h -> x < w -> (k, v) ∈ W y x ->
  (forall y' x' v', y' < h -> x' < w -> (k, v') ∈ W y' x' -> v' = v) ->
  k < length out ->
  scan !! k = Some v.
Proof.
  intros Hy Hx Hin Hfun Hk. unfold scan. rewrite scan_writes.
  apply writes_lookup_in; [| |done].
  - apply elem_of_scan. by exists y, x.
  - intros v' Hv'. apply elem_of_scan in Hv' as (y' & x' & ? & ? & ?).
    by apply (Hfun y' x').
Qed.

Lemma scan_lookup_notin k :
  (forall y x v, y < h -> x < w -> (k, v) ∉ W y x) ->
  scan !! k = out !! k.
Proof.
  intros Hn. unfold scan. rewrite scan_writes.
  apply writes_lookup_notin. intros v Hv.
  apply elem_of_scan in Hv as (y & x & ? & ? & ?). by apply (Hn y x v).
Qed.

End Scan.

Lemma copy4_writes out j src i : copy4 out j src i = writes (px4 j src i) out.
Proof. done. Qed.

Lemma put_writes out k v : put out k v = writes [(k, toUint8 v)] out.
Proof. done. Qed.

(** A row-major index determines its row and column. *)
Lemma row_major_inj (W a b a' b' : nat) :
  b < W -> b' < W -> a * W + b = a' * W + b' -> a = a' ∧ b = b'.
Proof.
  intros Hb Hb' He.
  assert (Ha : (a * W + b) / W = a).
  { rewrite Nat.div_add_l by lia. rewrite Nat.div_small by lia. lia. }
  assert (Ha' : (a' * W + b') / W = a').
  { rewrite Nat.div_add_l by lia. rewrite Nat.div_small by lia. lia. }
  rewrite He, Ha' in Ha. subst a'. lia.
Qed.

Lemma row_major_lt (W H a b : nat) : a < H -> b < W -> a * W + b < H * W.
Proof.
  intros Ha Hb. pose proof (Nat.mul_le_mono_r (S a) H W Ha). lia.
Qed.

(** Every index below [H * W] is the row-major index of a cell. *)
Lemma row_major_split (W H k : nat) :
  k < H * W -> exists a b, a < H ∧ b < W ∧ k = a * W + b.
Proof.
  intros Hk. assert (0 < W) by (destruct W; lia).
  exists (k / W), (k mod W).
  pose proof (Nat.div_mod_eq k W). pose proof (Nat.mod_upper_bound k W).
  split; [|split]; [|lia|lia].
  apply Nat.Div0.div_lt_upper_bound. lia.
Qed.

End Scatter.

(** ** Rotations *)

Section Rotate.

Local Open Scope nat_scope.

Lemma elem_of_px4 k v j src i :
  (k, v) ∈ px4 j src i
  <-> exists c, c < 4 ∧ k = j + c ∧ v = toUint8Clamp (num src (i + c)).
Proof.
  unfold px4. rewrite !elem_of_cons, elem_of_nil. split.
  - intros [[= -> ->]|[[= -> ->]|[[= -> ->]|[[= -> ->]|[]]]]].
    + exists 0. rewrite !Nat.add_0_r. split_and!; [lia | done | done].
    + exists 1. split_and!; [lia | done | done].
    + exists 2. split_and!; [lia | done | done].
    + exists 3. split_and!; [lia | done | done].
  - intros (c & Hc & -> & ->).
    destruct c as [|[|[|[|c]]]]; [| | | |lia].
    + left. by rewrite !Nat.add_0_r.
    + right. by left.
    + right. right. by left.
    + right. right. right. by left.
Qed.

(** A pixel scan whose destination pixels are distinct: the four bytes of
    the destination pixel of a cell are those read for that cell. *)
Lemma pixel_scan_lookup (dp sp : nat -> nat -> nat) src out h w y x c :
  (forall y x y' x', y < h -> x < w -> y' < h -> x' < w ->
                     dp y x = dp y' x' -> y = y' ∧ x = x') ->
  dp y x * 4 + 3 < length out -> y < h -> x < w -> c < 4 ->
  foldl (fun o y =>
           foldl (fun o x => copy4 o (dp y x * 4) src (sp y x * 4)) o (seq 0 w))
        out (seq 0 h) !! (dp y x * 4 + c)
  = Some (toUint8Clamp (num src (sp y x * 4 + c))).
Proof.
  intros Hinj Hlen Hy Hx Hc.
  apply (scan_lookup_in (fun y x => px4 (dp y x * 4) src (sp y x * 4))
                        h w out _ _ y x); [done | done | | | lia].
  - apply elem_of_px4. by exists c.
  - intros y' x' v' Hy' Hx' Hin.
    apply elem_of_px4 in Hin as (c' & Hc' & He & ->).
    assert (dp y x = dp y' x' ∧ c = c') as [Hd ->].
    { apply (row_major_inj 4); [done | done | lia]. }
    by destruct (Hinj y x y' x' Hy Hx Hy' Hx' Hd) as [-> ->].
Qed.

Lemma length_pixel_scan (dp sp : nat -> nat -> nat) src out h w :
  length (foldl (fun o y =>
                   foldl (fun o x => copy4 o (dp y x * 4) src (sp y x * 4))
                         o (seq 0 w))
                out (seq 0 h))
  = length out.
Proof.
  apply (length_scan (fun y x => px4 (dp y x * 4) src (sp y x * 4))).
Qed.

(** The same for a scan of a one-byte-per-pixel mask. *)
Lemma mask_scan_lookup (dp sp : nat -> nat -> nat) (mask out : list Z) h w y x :
  (forall y x y' x', y < h -> x < w -> y' < h -> x' < w ->
                     dp y x = dp y' x' -> y = y' ∧ x = x') ->
  dp y x < length out -> y < h -> x < w ->
  foldl (fun o y =>
           foldl (fun o x => put o (dp y x) (mask !! sp y x)) o (seq 0 w))
        out (seq 0 h) !! dp y x
  = Some (toUint8 (mask !! sp y x)).
Proof.
  intros Hinj Hlen Hy Hx.
  apply (scan_lookup_in (fun y x => [(dp y x, toUint8 (mask !! sp y x))])
                        h w out _ _ y x); [done | done | | | done].
  - by apply list_elem_of_singleton.
  - intros y' x' v' Hy' Hx' Hin.
    apply list_elem_of_singleton in Hin as [= Hd ->].
    by destruct (Hinj y x y' x' Hy Hx Hy' Hx' Hd) as [-> ->].
Qed.

Lemma length_mask_scan (dp sp : nat -> nat -> nat) (mask out : list Z) h w :
  length (foldl (fun o y =>
                   foldl (fun o x => put o (dp y x) (mask !! sp y x))
                         o (seq 0 w))
                out (seq 0 h))
  = length out.
Proof.
  apply (length_scan (fun y x => [(dp y x, toUint8 (mask !! sp y x))])).
Qed.

(** The destination cells of the three rotations are distinct. *)
Lemma dst180_inj h w y x y' x' :
  y < h -> x < w -> y' < h -> x' < w ->
  (h - 1 - y) * w + (w - 1 - x) = (h - 1 - y') * w + (w - 1 - x') ->
  y = y' ∧ x = x'.
Proof.
  intros Hy Hx Hy' Hx' He.
  apply row_major_inj in He as [? ?]; lia.
Qed.

Lemma dst90_inj h w y x y' x' :
  y < h -> x < w -> y' < h -> x' < w ->
  x * h + (h - 1 - y) = x' * h + (h - 1 - y') -> y = y' ∧ x = x'.
Proof.
  intros Hy Hx Hy' Hx' He.
  apply row_major_inj in He as [? ?]; lia.
Qed.

Lemma dstm90_inj h w y x y' x' :
  y < h -> x < w -> y' < h -> x' < w ->
  (w - 1 - x) * h + y = (w - 1 - x') * h + y' -> y = y' ∧ x = x'.
Proof.
  intros Hy Hx Hy' Hx' He.
  apply row_major_inj in He as [? ?]; lia.
Qed.

(** *** Masks *)

Lemma rotateMask_length (mask : list Z) w h degrees :
  length (rotateMask mask w h degrees)
  = if ((degrees =? 90) || (degrees =? -90))%Z then h * w else length mask.
Proof.
  unfold rotateMask.
  destruct (degrees =? 180)%Z, (degrees =? 90)%Z, (degrees =? -90)%Z;
    cbn [orb];
    first [ rewrite (length_mask_scan _ (fun y x => y * w + x))
          | rewrite (length_scan (fun _ _ => [])) ];
    by rewrite length_replicate.
Qed.

Lemma rotateMask_90_eq (mask : list Z) w h :
  rotateMask mask w h 90
  = foldl (fun o y =>
             foldl (fun o x => put o (x * h + (h - 1 - y)) (mask !! (y * w + x)))
                   o (seq 0 w))
          (replicate (h * w) 0%Z) (seq 0 h).
Proof. reflexivity. Qed.

Lemma rotateMask_m90_eq (mask : list Z) w h :
  rotateMask mask w h (-90)
  = foldl (fun o y =>
             foldl (fun o x => put o ((w - 1 - x) * h + y) (mask !! (y * w + x)))
                   o (seq 0 w))
          (replicate (h * w) 0%Z) (seq 0 h).
Proof. reflexivity. Qed.

Lemma rotateMask_180_eq (mask : list Z) w h :
  rotateMask mask w h 180
  = foldl (fun o y =>
             foldl (fun o x => put o ((h - 1 - y) * w + (w - 1 - x))
                                   (mask !! (y * w + x)))
                   o (seq 0 w))
          (replicate (length mask) 0%Z) (seq 0 h).
Proof. reflexivity. Qed.

Lemma rotateMask_90_lookup (mask : list Z) w h y x :
  y < h -> x < w ->
  rotateMask mask w h 90 !! (x * h + (h - 1 - y))
  = Some (toUint8 (mask !! (y * w + x))).
Proof.
  intros Hy Hx. rewrite rotateMask_90_eq.
  apply (mask_scan_lookup (fun y x => x * h + (h - 1 - y))
                          (fun y x => y * w + x)); [| |done|done].
  - intros. by eapply dst90_inj.
  - rewrite length_replicate, (Nat.mul_comm h w). apply row_major_lt; lia.
Qed.

Lemma rotateMask_m90_lookup (mask : list Z) w h y x :
  y < h -> x < w ->
  rotateMask mask w h (-90) !! ((w - 1 - x) * h + y)
  = Some (toUint8 (mask !! (y * w + x))).
Proof.
  intros Hy Hx. rewrite rotateMask_m90_eq.
  apply (mask_scan_lookup (fun y x => (w - 1 - x) * h + y)
                          (fun y x => y * w + x)); [| |done|done].
  - intros. by eapply dstm90_inj.
  - rewrite length_replicate, (Nat.mul_comm h w). apply row_major_lt; lia.
Qed.

Lemma rotateMask_180_lookup (mask : list Z) w h y x :
  length mask = w * h -> y < h -> x < w ->
  rotateMask mask w h 180 !! ((h - 1 - y) * w + (w - 1 - x))
  = Some (toUint8 (mask !! (y * w + x))).
Proof.
  intros Hl Hy Hx. rewrite rotateMask_180_eq.
  apply (mask_scan_lookup (fun y x => (h - 1 - y) * w + (w - 1 - x))
                          (fun y x => y * w + x)); [| |done|done].
  - intros. by eapply dst180_inj.
  - rewrite length_replicate, Hl, (Nat.mul_comm w h). apply row_major_lt; lia.
Qed.

Lemma toUint8_byte (m : list Z) (k : nat) v : bytes m -> m !! k = Some v -> toUint8 (m !! k) = v.
Proof.
  intros Hb Hv. rewrite Hv. cbn [toUint8].
  apply (bytes_lookup m k) in Hv; [|done]. unfold is_byte in Hv.
  apply Z.mod_small. lia.
Qed.

Lemma rotateMask_90_m90 (mask : list Z) w h :
  length mask = w * h -> bytes mask ->
  rotateMask (rotateMask mask w h 90) h w (-90) = mask.
Proof.
  intros Hl Hb. apply list_eq. intros k.
  destruct (decide (k < h * w)) as [Hk|Hk].
  - destruct (row_major_split w h k Hk) as (y & x & Hy & Hx & ->).
    pose proof (rotateMask_m90_lookup (rotateMask mask w h 90) h w x (h - 1 - y))
      as H2.
    replace (h - 1 - (h - 1 - y)) with y in H2 by lia.
    rewrite H2 by lia. rewrite rotateMask_90_lookup by done.
    cbn [toUint8].
    destruct (lookup_lt_is_Some_2 mask (y * w + x)) as [v Hv].
    { rewrite Hl, (Nat.mul_comm w h). by apply row_major_lt. }
    rewrite (toUint8_byte _ _ _ Hb Hv), Hv. f_equal.
    apply (bytes_lookup mask _ _ Hb) in Hv. unfold is_byte in Hv.
    apply Z.mod_small. lia.
  - rewrite !lookup_ge_None_2; [done | lia |].
    rewrite rotateMask_length. cbn. lia.
Qed.

Lemma rotateMask_180_180 (mask : list Z) w h :
  length mask = w * h -> bytes mask ->
  rotateMask (rotateMask mask w h 180) w h 180 = mask.
Proof.
  intros Hl Hb.
  assert (Hl1 : length (rotateMask mask w h 180) = w * h).
  { by rewrite rotateMask_length. }
  apply list_eq. intros k.
  destruct (decide (k < h * w)) as [Hk|Hk].
  - destruct (row_major_split w h k Hk) as (y & x & Hy & Hx & ->).
    pose proof (rotateMask_180_lookup (rotateMask mask w h 180) w h
                  (h - 1 - y) (w - 1 - x) Hl1) as H2.
    replace (h - 1 - (h - 1 - y)) with y in H2 by lia.
    replace (w - 1 - (w - 1 - x)) with x in H2 by lia.
    rewrite H2 by lia. rewrite rotateMask_180_lookup by done.
    cbn [toUint8].
    destruct (lookup_lt_is_Some_2 mask (y * w + x)) as [v Hv].
    { rewrite Hl, (Nat.mul_comm w h). by apply row_major_lt. }
    rewrite (toUint8_byte _ _ _ Hb Hv), Hv. f_equal.
    apply (bytes_lookup mask _ _ Hb) in Hv. unfold is_byte in Hv.
    apply Z.mod_small. lia.
  - rewrite !lookup_ge_None_2; [done | lia |].
    rewrite rotateMask_length. cbn. lia.
Qed.

End Rotate.

Section RotateImage.

Local Open Scope nat_scope.

Lemma ImageData_of_Some arr w h :
  0 < w -> 0 < h -> length arr = 4 * w * h ->
  ImageData_of arr w h = Some (mkImageData w h arr).
Proof.
  intros Hw Hh Hl. unfold ImageData_of.
  destruct w, h; try lia. cbn [Nat.eqb orb].
  by rewrite (proj2 (Nat.eqb_eq _ _) Hl).
Qed.

Lemma clamp_num (src : list Z) k v :
  src !! k = Some v -> is_byte v -> toUint8Clamp (num src k) = v.
Proof. intros Hv Hb. rewrite (num_Some _ _ _ Hv). by apply byte_facts. Qed.

Lemma rotateImageData_90_eq img :
  rotateImageData img 90
  = ImageData_of
      (foldl (fun o y =>
                foldl (fun o x =>
                         copy4 o ((x * height img + (height img - 1 - y)) * 4)
                               (data img) ((y * width img + x) * 4))
                      o (seq 0 (width img)))
             (replicate (length (data img)) 0%Z) (seq 0 (height img)))
      (height img) (width img).
Proof. reflexivity. Qed.

Lemma rotateImageData_m90_eq img :
  rotateImageData img (-90)
  = ImageData_of
      (foldl (fun o y =>
                foldl (fun o x =>
                         copy4 o (((width img - 1 - x) * height img + y) * 4)
                               (data img) ((y * width img + x) * 4))
                      o (seq 0 (width img)))
             (replicate (length (data img)) 0%Z) (seq 0 (height img)))
      (height img) (width img).
Proof. reflexivity. Qed.

Lemma rotateImageData_180_eq img :
  rotateImageData img 180
  = ImageData_of
      (foldl (fun o y =>
                foldl (fun o x =>
                         copy4 o (((height img - 1 - y) * width img
                                   + (width img - 1 - x)) * 4)
                               (data img) ((y * width img + x) * 4))
                      o (seq 0 (width img)))
             (replicate (length (data img)) 0%Z) (seq 0 (height img)))
      (width img) (height img).
Proof. reflexivity. Qed.

(** Every byte index of a raster is channel [c] of the pixel of a cell. *)
Lemma byte_index_split w h k :
  k < 4 * w * h ->
  exists y x c, y < h ∧ x < w ∧ c < 4 ∧ k = (y * w + x) * 4 + c.
Proof.
  intros Hk.
  destruct (row_major_split 4 (h * w) k) as (p & c & Hp & Hc & ->); [lia|].
  destruct (row_major_split w h p Hp) as (y & x & Hy & Hx & ->).
  by exists y, x, c.
Qed.

Lemma byte_index_lt w h y x c :
  y < h -> x < w -> c < 4 -> (y * w + x) * 4 + c < 4 * w * h.
Proof.
  intros Hy Hx Hc. pose proof (row_major_lt w h y x Hy Hx). lia.
Qed.

(** The result of a rotation by a quarter or half turn. *)
Lemma rotateImageData_90_Some img :
  raster img ->
  exists d, rotateImageData img 90 = Some (mkImageData (height img) (width img) d)
    ∧ length d = 4 * width img * height img
    ∧ forall y x c, y < height img -> x < width img -> c < 4 ->
        d !! ((x * height img + (height img - 1 - y)) * 4 + c)
        = data img !! ((y * width img + x) * 4 + c).
Proof.
  intros (Hw & Hh & Hl & Hb). rewrite rotateImageData_90_eq.
  eexists. split; [apply ImageData_of_Some; [done | done |]|split].
  - rewrite length_pixel_scan, length_replicate. lia.
  - rewrite length_pixel_scan, length_replicate. lia.
  - intros y x c Hy Hx Hc.
    rewrite (pixel_scan_lookup (fun y x => x * height img + (height img - 1 - y))
                               (fun y x => y * width img + x)); try done.
    + destruct (lookup_lt_is_Some_2 (data img) ((y * width img + x) * 4 + c))
        as [v Hv]; [rewrite Hl; by apply byte_index_lt|].
      rewrite Hv. f_equal. apply clamp_num; [done | by eapply bytes_lookup].
    + intros. by eapply dst90_inj.
    + rewrite length_replicate, Hl.
      pose proof (byte_index_lt (height img) (width img) x (height img - 1 - y) 3).
      lia.
Qed.

Lemma rotateImageData_m90_Some img :
  (0 < width img) -> (0 < height img) ->
  length (data img) = 4 * width img * height img ->
  exists d, rotateImageData img (-90) = Some (mkImageData (height img) (width img) d)
    ∧ length d = 4 * width img * height img
    ∧ forall y x c, y < height img -> x < width img -> c < 4 ->
        d !! (((width img - 1 - x) * height img + y) * 4 + c)
        = Some (toUint8Clamp (num (data img) ((y * width img + x) * 4 + c))).
Proof.
  intros Hw Hh Hl. rewrite rotateImageData_m90_eq.
  eexists. split; [apply ImageData_of_Some; [done | done |]|split].
  - rewrite length_pixel_scan, length_replicate. lia.
  - rewrite length_pixel_scan, length_replicate. lia.
  - intros y x c Hy Hx Hc.
    rewrite (pixel_scan_lookup (fun y x => (width img - 1 - x) * height img + y)
                               (fun y x => y * width img + x)); try done.
    + intros. by eapply dstm90_inj.
    + rewrite length_replicate, Hl.
      pose proof (byte_index_lt (height img) (width img) (width img - 1 - x) y 3).
      lia.
Qed.

Lemma rotateImageData_180_Some img :
  (0 < width img) -> (0 < height img) ->
  length (data img) = 4 * width img * height img ->
  exists d, rotateImageData img 180 = Some (mkImageData (width img) (height img) d)
    ∧ length d = 4 * width img * height img
    ∧ forall y x c, y < height img -> x < width img -> c < 4 ->
        d !! (((height img - 1 - y) * width img + (width img - 1 - x)) * 4 + c)
        = Some (toUint8Clamp (num (data img) ((y * width img + x) * 4 + c))).
Proof.
  intros Hw Hh Hl. rewrite rotateImageData_180_eq.
  eexists. split; [apply ImageData_of_Some; [done | done |]|split].
  - rewrite length_pixel_scan, length_replicate. lia.
  - rewrite length_pixel_scan, length_replicate. lia.
  - intros y x c Hy Hx Hc.
    rewrite (pixel_scan_lookup
               (fun y x => (height img - 1 - y) * width img + (width img - 1 - x))
               (fun y x => y * width img + x)); try done.
    + intros. by eapply dst180_inj.
    + rewrite length_replicate, Hl.
      pose proof (byte_index_lt (width img) (height img)
                    (height img - 1 - y) (width img - 1 - x) 3).
      lia.
Qed.

Lemma rotateImageData_90_m90 img :
  raster img ->
  rotateImageData img 90 ≫= (fun r => rotateImageData r (-90)) = Some img.
Proof.
  intros Hr. pose proof Hr as (Hw & Hh & Hl & Hb).
  destruct (rotateImageData_90_Some img Hr) as (d1 & -> & Hl1 & H1).
  cbn [mbind option_bind].
  destruct (rotateImageData_m90_Some (mkImageData (height img) (width img) d1))
    as (d2 & -> & Hl2 & H2); cbn [width height data]; [done | done | lia |].
  cbn [width height data] in *.
  destruct img as [w h d]. cbn [width height data] in *. do 2 f_equal.
  apply list_eq. intros k.
  destruct (decide (k < 4 * w * h)) as [Hk|Hk].
  - destruct (byte_index_split w h k Hk) as (y & x & c & Hy & Hx & Hc & ->).
    specialize (H2 x (h - 1 - y) c).
    replace (h - 1 - (h - 1 - y)) with y in H2 by lia.
    rewrite H2 by lia.
    specialize (H1 y x c Hy Hx Hc).
    destruct (lookup_lt_is_Some_2 d ((y * w + x) * 4 + c)) as [v Hv];
      [rewrite Hl; by apply byte_index_lt|].
    rewrite Hv in H1. rewrite Hv. f_equal.
    apply clamp_num; [done | by eapply bytes_lookup].
  - rewrite !lookup_ge_None_2; [done | lia | lia].
Qed.

Lemma rotateImageData_180_180 img :
  raster img ->
  rotateImageData img 180 ≫= (fun r => rotateImageData r 180) = Some img.
Proof.
  intros Hr. pose proof Hr as (Hw & Hh & Hl & Hb).
  destruct (rotateImageData_180_Some img Hw Hh Hl) as (d1 & -> & Hl1 & H1).
  cbn [mbind option_bind].
  destruct (rotateImageData_180_Some (mkImageData (width img) (height img) d1))
    as (d2 & -> & Hl2 & H2); cbn [width height data]; [done | done | lia |].
  cbn [width height data] in *.
  destruct img as [w h d]. cbn [width height data] in *. do 2 f_equal.
  apply list_eq. intros k.
  destruct (decide (k < 4 * w * h)) as [Hk|Hk].
  - destruct (byte_index_split w h k Hk) as (y & x & c & Hy & Hx & Hc & ->).
    specialize (H2 (h - 1 - y) (w - 1 - x) c).
    replace (h - 1 - (h - 1 - y)) with y in H2 by lia.
    replace (w - 1 - (w - 1 - x)) with x in H2 by lia.
    rewrite H2 by lia.
    specialize (H1 y x c Hy Hx Hc).
    destruct (lookup_lt_is_Some_2 d ((y * w + x) * 4 + c)) as [v Hv];
      [rewrite Hl; by apply byte_index_lt|].
    assert (Hbv : is_byte v) by by eapply bytes_lookup.
    rewrite (clamp_num _ _ _ Hv Hbv) in H1.
    rewrite Hv. f_equal. by apply clamp_num.
  - rewrite !lookup_ge_None_2; [done | lia | lia].
Qed.

End RotateImage.

(** C2. Rotating a raster by 90 degrees and then by -90 degrees gives back
    the raster, bit for bit, and so does rotating it twice by 180 degrees;
    the same holds of [rotateMask] on a mask of the raster's dimensions. *)
Theorem rotate_inverse_pair :
  (forall img, raster img ->
      rotateImageData img 90 ≫= (fun r => rotateImageData r (-90)) = Some img
      ∧ rotateImageData img 180 ≫= (fun r => rotateImageData r 180) = Some img)
  ∧ (forall (mask : list Z) (w h : nat),
       length mask = (w * h)%nat -> bytes mask ->
       rotateMask (rotateMask mask w h 90) h w (-90) = mask
       ∧ rotateMask (rotateMask mask w h 180) w h 180 = mask).
Proof.
  split.
  - intros img Hr. split; [by apply rotateImageData_90_m90 | by apply rotateImageData_180_180].
  - intros mask w h Hl Hb. split; [by apply rotateMask_90_m90 | by apply rotateMask_180_180].
Qed.

Lemma rotate_inverse_pair_witness :
  let img := mkImageData 2 1 [1; 2; 3; 255; 4; 5; 6; 128] in
  raster img
  ∧ rotateImageData img 90 ≫= (fun r => rotateImageData r (-90)) = Some img.
Proof.
  assert (Hr : raster (mkImageData 2 1 [1; 2; 3; 255; 4; 5; 6; 128])).
  { unfold raster, bytes, is_byte. simpl. repeat split; try lia.
    repeat constructor; lia. }
  split; [exact Hr|].
  exact (proj1 (proj1 rotate_inverse_pair _ Hr)).
Defined.

(** ** Transforms and the mask-length invariant *)

Section Transforms.

Local Open Scope nat_scope.

Lemma flipMask_length (mask : list Z) w h hz vt :
  length (flipMask mask w h hz vt) = length mask.
Proof.
  unfold flipMask.
  apply (length_mask_scan (fun y x => y * w + x)
           (fun y x => (if vt then h - 1 - y else y) * w
                       + (if hz then w - 1 - x else x))).
Qed.

Lemma cropMask_length (mask : list Z) srcWidth rect :
  length (cropMask mask srcWidth rect) = rwidth rect * rheight rect.
Proof.
  unfold cropMask.
  rewrite (length_mask_scan (fun dy dx => dy * rwidth rect + dx)
             (fun dy dx => (y rect + dy) * srcWidth + (x rect + dx))).
  by rewrite length_replicate.
Qed.

Lemma flipImageData_length img hz vt :
  length (data (flipImageData img hz vt)) = length (data img).
Proof.
  unfold flipImageData. cbn [data].
  apply (length_pixel_scan (fun y x => y * width img + x)
           (fun y x => (if vt then height img - 1 - y else y) * width img
                       + (if hz then width img - 1 - x else x))).
Qed.

Lemma cropImageData_Some img rect :
  0 < rwidth rect -> 0 < rheight rect ->
  exists d, cropImageData img rect
            = Some (mkImageData (rwidth rect) (rheight rect) d)
    ∧ length d = 4 * rwidth rect * rheight rect.
Proof.
  intros Hw Hh. unfold cropImageData.
  rewrite new_ImageData_pos by done. cbn [mbind option_bind data].
  eexists. split; [done|].
  rewrite (length_pixel_scan (fun dy dx => dy * rwidth rect + dx)
             (fun dy dx => (y rect + dy) * width img + (x rect + dx))).
  by rewrite length_replicate.
Qed.

Lemma rotateImageData_Some img degrees :
  0 < width img -> 0 < height img ->
  length (data img) = 4 * width img * height img ->
  exists d,
    rotateImageData img degrees
    = Some (if ((degrees =? 90) || (degrees =? -90))%Z
            then mkImageData (height img) (width img) d
            else mkImageData (width img) (height img) d)
    ∧ length d = 4 * width img * height img.
Proof.
  intros Hw Hh Hl. unfold rotateImageData.
  destruct (degrees =? 180)%Z eqn:E180;
    [|destruct (degrees =? 90)%Z eqn:E90;
      [|destruct (degrees =? -90)%Z eqn:Em90]].
  - apply Z.eqb_eq in E180 as ->.
    change ((180 =? 90) || (180 =? -90))%Z with false.
    eexists. split; [apply ImageData_of_Some; [done | done |]|].
    + rewrite length_pixel_scan, length_replicate. lia.
    + rewrite length_pixel_scan, length_replicate. lia.
  - cbn [orb].
    eexists. split; [apply ImageData_of_Some; [done | done |]|].
    + rewrite length_pixel_scan, length_replicate. lia.
    + rewrite length_pixel_scan, length_replicate. lia.
  - cbn [orb].
    eexists. split; [apply ImageData_of_Some; [done | done |]|].
    + rewrite length_pixel_scan, length_replicate. lia.
    + rewrite length_pixel_scan, length_replicate. lia.
  - cbn [orb]. exists (data img). by destruct img.
Qed.

(** Replacing the mask of every layer by a transformed one. *)
Lemma mapM_masks (F : option (list Z) -> option (list Z)) layers n n' :
  Forall (has_mask n) layers ->
  (forall m, length m = n ->
             exists m', F (Some m) = Some m' ∧ length m' = n') ->
  exists ls,
    mapM (fun l => m ← F (mask l); Some (App.with_mask l m)) layers = Some ls
    ∧ Forall (has_mask n') ls.
Proof.
  intros Hall Hf. induction Hall as [|l ls (m & Hm & Hlm) _ (ls' & Hls & IH)].
  - by exists [].
  - destruct (Hf m Hlm) as (m' & HF & Hlm').
    exists (App.with_mask l m' :: ls'). split.
    + cbn [mapM]. rewrite Hm, HF. cbn [mbind option_bind]. rewrite Hls. done.
    + constructor; [|done]. by exists m'.
Qed.

Lemma handleRotate_consistent degrees st w h :
  consistent st w h ->
  exists st', App.handleRotate degrees st = Some st'
    ∧ if ((degrees =? 90) || (degrees =? -90))%Z
      then consistent st' h w else consistent st' w h.
Proof.
  intros (img & Hi & Hd & <- & <- & Hw & Hh & Hl & Hm).
  unfold App.handleRotate. rewrite Hi, Hd.
  destruct (rotateImageData_Some img degrees Hw Hh Hl) as (d & -> & Hld).
  cbn [mbind option_bind].
  set (quarter := ((degrees =? 90) || (degrees =? -90))%Z).
  destruct (mapM_masks
              (fun m => App.rotateMask_of m (width img) (height img) degrees)
              (App.layers st) (width img * height img)
              (if quarter then height img * width img
               else width img * height img) Hm) as (ls & -> & Hls).
  { intros m Hlm. eexists. split; [done|].
    rewrite rotateMask_length. fold quarter.
    destruct quarter; [done | done]. }
  cbn [mbind option_bind]. eexists. split; [done|].
  destruct quarter.
  - eexists. cbn [App.originalImageData App.dimensions App.layers].
    repeat split; try done. cbn [data]. lia.
  - eexists. cbn [App.originalImageData App.dimensions App.layers].
    repeat split; done.
Qed.

Lemma handleFlip_consistent hz vt st w h :
  consistent st w h ->
  exists st', App.handleFlip hz vt st = Some st' ∧ consistent st' w h.
Proof.
  intros (img & Hi & Hd & <- & <- & Hw & Hh & Hl & Hm).
  unfold App.handleFlip. rewrite Hi, Hd.
  rewrite ImageData_of_Some by done. cbn [mbind option_bind].
  eexists. split; [done|].
  eexists. cbn [App.originalImageData App.dimensions App.layers].
  repeat split; try done.
  - by rewrite flipImageData_length.
  - apply Forall_fmap. eapply Forall_impl; [exact Hm|].
    intros l (m & Hlm & Hlen). eexists. split; [done|].
    by rewrite flipMask_length, Hlm.
Qed.

Lemma handleCrop_consistent rect st w h :
  consistent st w h -> 0 < rwidth rect -> 0 < rheight rect ->
  exists st', App.handleCrop rect st = Some st'
    ∧ consistent st' (rwidth rect) (rheight rect).
Proof.
  intros (img & Hi & Hd & <- & <- & Hw & Hh & Hl & Hm) Hrw Hrh.
  unfold App.handleCrop. rewrite Hi, Hd.
  destruct (cropImageData_Some img rect Hrw Hrh) as (d & -> & Hld).
  cbn [mbind option_bind].
  destruct (mapM_masks (fun om => m ← om; Some (cropMask m (width img) rect))
              (App.layers st) (width img * height img)
              (rwidth rect * rheight rect) Hm) as (ls & Hls' & Hls).
  { intros m Hlm. eexists. split; [done|]. by rewrite cropMask_length. }
  assert (mapM (fun l => m ← mask l;
                         Some (App.with_mask l (cropMask m (width img) rect)))
               (App.layers st) = Some ls) as ->.
  { rewrite <- Hls'. apply mapM_ext. intros l. by destruct (mask l). }
  cbn [mbind option_bind]. eexists. split; [done|].
  eexists. cbn [App.originalImageData App.dimensions App.layers].
  repeat split; done.
Qed.

Lemma cropMask_full w h rect :
  in_bounds rect w h ->
  cropMask (createFullMask w h) w rect
  = replicate (rwidth rect * rheight rect) 1%Z.
Proof.
  intros [Hx Hy]. apply list_eq. intros k.
  destruct (decide (k < rheight rect * rwidth rect)) as [Hk|Hk].
  - destruct (row_major_split _ _ k Hk) as (dy & dx & Hdy & Hdx & ->).
    unfold cropMask.
    rewrite (mask_scan_lookup (fun dy dx => dy * rwidth rect + dx)
               (fun dy dx => (y rect + dy) * w + (x rect + dx))); try done.
    + unfold createFullMask.
      rewrite lookup_replicate_2.
      * symmetry. rewrite lookup_replicate_2; [done | lia].
      * rewrite (Nat.mul_comm w h). apply row_major_lt; lia.
    + intros. by eapply row_major_inj.
    + rewrite length_replicate, (Nat.mul_comm (rwidth rect)).
      by apply row_major_lt.
  - rewrite !lookup_ge_None_2; [done | rewrite length_replicate; lia |].
    rewrite cropMask_length. lia.
Qed.

End Transforms.

(** C9. Rotating, flipping and cropping keep the mask-length invariant:
    [rotateMask] gives a mask of [h * w] entries (the dimensions swapped by
    a quarter turn), [flipMask] keeps the length and [cropMask] gives
    [rect.width * rect.height] entries; a state whose image and layer masks
    agree with its dimensions is taken by [handleRotate], [handleFlip] and
    [handleCrop] to such a state of the new dimensions; and cropping the
    full all-ones mask by a rectangle inside the image gives
    [rect.width * rect.height] ones. *)
Theorem transforms_keep_mask_length :
  (forall (mask : list Z) w h degrees, length mask = (w * h)%nat ->
      length (rotateMask mask w h degrees)
      = if ((degrees =? 90) || (degrees =? -90))%Z then (h * w)%nat else (w * h)%nat)
  ∧ (forall (mask : list Z) w h hz vt,
       length (flipMask mask w h hz vt) = length mask)
  ∧ (forall (mask : list Z) srcWidth rect,
       length (cropMask mask srcWidth rect) = (rwidth rect * rheight rect)%nat)
  ∧ (forall degrees st w h, consistent st w h ->
       exists st', App.handleRotate degrees st = Some st'
         ∧ if ((degrees =? 90) || (degrees =? -90))%Z
           then consistent st' h w else consistent st' w h)
  ∧ (forall hz vt st w h, consistent st w h ->
       exists st', App.handleFlip hz vt st = Some st' ∧ consistent st' w h)
  ∧ (forall rect st w h, consistent st w h ->
       (0 < rwidth rect)%nat -> (0 < rheight rect)%nat ->
       exists st', App.handleCrop rect st = Some st'
         ∧ consistent st' (rwidth rect) (rheight rect))
  ∧ (forall w h rect, in_bounds rect w h ->
       cropMask (createFullMask w h) w rect
       = replicate (rwidth rect * rheight rect) 1).
Proof.
  split_and!.
  - intros mask w h degrees Hl. rewrite rotateMask_length, Hl. done.
  - apply flipMask_length.
  - apply cropMask_length.
  - apply handleRotate_consistent.
  - apply handleFlip_consistent.
  - apply handleCrop_consistent.
  - apply cropMask_full.
Qed.

Lemma transforms_keep_mask_length_witness :
  in_bounds (mkRect 1 0 2 2) 3 2
  ∧ cropMask (createFullMask 3 2) 3 (mkRect 1 0 2 2) = [1; 1; 1; 1].
Proof.
  assert (Hb : in_bounds (mkRect 1 0 2 2) 3 2) by (unfold in_bounds; simpl; lia).
  split; [exact Hb|].
  exact (proj2 (proj2 (proj2 (proj2 (proj2 (proj2 transforms_keep_mask_length)))))
           3%nat 2%nat (mkRect 1 0 2 2) Hb).
Defined.

(** ** The colour report *)

Section ReportProofs.

Import Report.

Lemma count_fold {A} (f : A -> bool) (l : list A) (c0 : nat) :
  foldl (fun c i => if f i then S c else c) c0 l
  = (c0 + length (filter (fun i => f i) l))%nat.
Proof.
  revert c0. induction l as [|a l IH]; intros c0; [cbn; lia|].
  cbn [foldl]. rewrite IH. rewrite filter_cons.
  destruct (f a); cbn [length]; [|done].
  rewrite decide_True by done. cbn [length]. lia.
Qed.

Lemma foldl_ext_in {A B} (f g : A -> B -> A) (l : list B) (a : A) :
  (forall a b, b ∈ l -> f a b = g a b) -> foldl f a l = foldl g a l.
Proof.
  revert a. induction l as [|b l IH]; intros a Hfg; [done|].
  cbn [foldl]. rewrite Hfg by by left. apply IH.
  intros a' b' Hb'. apply Hfg. by right.
Qed.

(** On a raster, one step of the counting loop adds one exactly for a
    pixel that counts. *)
Lemma count_px_counts img layer c p :
  raster img -> (p < width img * height img)%nat ->
  count_px (data img) layer c (4 * p)
  = if counts img layer p then S c else c.
Proof.
  intros Hr Hp.
  destruct (raster_pixel img p Hr Hp)
    as (pr & pg & pb & pa & H0 & H1 & H2 & H3 & Br & Bg & Bb & Ba).
  unfold count_px, counts, pixel. rewrite H0, H1, H2, H3.
  cbn [mbind option_bind].
  rewrite (num_Some _ _ _ H3).
  destruct (byte_facts pa Ba) as (_ & _ & _ & ->).
  unfold layer_matches.
  rewrite (num_Some _ _ _ H0), (num_Some _ _ _ H1), (num_Some _ _ _ H2).
  destruct (Z.ltb_spec pa 128), (Z.leb_spec 128 pa); try lia; done.
Qed.

(** The pixel count of a row is the number of pixels that count. *)
Lemma pixel_count_matching img layer :
  raster img -> pixel_count (data img) layer = matching_pixels img layer.
Proof.
  intros Hr. pose proof Hr as (Hw & Hh & Hl & Hb).
  unfold pixel_count, matching_pixels. rewrite for_range_4.
  replace ((length (data img) + 3) / 4)%nat with (width img * height img)%nat by lia.
  rewrite foldl_fmap.
  rewrite (foldl_ext_in _ (fun c p => if counts img layer p then S c else c)).
  - by rewrite count_fold.
  - intros c p Hp. apply elem_of_seq in Hp. apply count_px_counts; [done | lia].
Qed.

Lemma row_row_text img layer :
  row img layer = row_text img layer (pixel_count (data img) layer).
Proof. unfold row, row_text. by destruct (color layer). Qed.

Lemma append_nil_r (s : string) : String.app s "" = s.
Proof.
  induction s as [|c s IH]; [done|].
  change (String.app (String c s) "") with (String c (String.app s "")).
  by rewrite IH.
Qed.

(** Joining with a separator puts the separator before every element but
    the first. *)
Lemma concat_sep (sep h : string) (l : list string) :
  String.concat sep (h :: l)
  = String.app h (foldr (fun s rest => String.app sep (String.app s rest)) "" l).
Proof.
  revert h. induction l as [|a l IH]; intros h.
  - cbn [String.concat foldr]. by rewrite append_nil_r.
  - change (String.concat sep (h :: a :: l))
      with (String.app h (String.app sep (String.concat sep (a :: l)))).
    by rewrite IH.
Qed.

(** *** The digits of a number *)

Lemma is_digit_digit_char (d : N) : (d < 10)%N -> is_digit (digit_char d).
Proof.
  intros Hd. unfold is_digit, digit_char.
  rewrite (proj2 (N.ltb_lt _ _) Hd).
  rewrite N_ascii_embedding by lia. lia.
Qed.

Lemma digits_go_digits fuel n acc :
  Forall is_digit (list_ascii_of_string acc) ->
  Forall is_digit (list_ascii_of_string (digits_go fuel 10 n acc)).
Proof.
  revert n acc. induction fuel as [|fuel IH]; intros n acc Hacc; [done|].
  cbn [digits_go].
  assert (Forall is_digit
            (list_ascii_of_string (String (digit_char (n mod 10)) acc))) as Hacc'.
  { cbn. constructor; [|done]. apply is_digit_digit_char.
    apply N.mod_lt. lia. }
  destruct (n / 10 =? 0)%N; [done | by apply IH].
Qed.

Lemma digits_go_nonempty fuel n acc :
  acc <> "" ∨ fuel <> 0%nat -> digits_go fuel 10 n acc <> "".
Proof.
  revert n acc. induction fuel as [|fuel IH]; intros n acc Hne.
  - cbn. by destruct Hne.
  - cbn [digits_go]. destruct (n / 10 =? 0)%N; [done|].
    apply IH. by left.
Qed.

Lemma intToString_digits (z : Z) :
  0 <= z ->
  intToString 10 z <> ""
  ∧ Forall is_digit (list_ascii_of_string (intToString 10 z)).
Proof.
  intros Hz. unfold intToString.
  rewrite (proj2 (Z.ltb_ge _ _) Hz). split.
  - apply digits_go_nonempty. by right.
  - apply digits_go_digits. constructor.
Qed.

(** A number that is neither NaN nor infinite. *)
Lemma toFixed2_two_decimals (v : float) :
  match Prim2SF v with
  | S754_zero _ | S754_finite _ _ _ => True
  | _ => False
  end ->
  two_decimals (toFixed2 v).
Proof.
  unfold toFixed2. destruct (Prim2SF v) as [s|s| |s m e]; try done; intros _.
  - exists "", "0", "0"%char, "0"%char. split; [done|]. split; [by left|].
    split; [done|]. split; [|split]; [|by vm_compute..].
    repeat constructor; by vm_compute.
  - set (n := if 0 <=? e then 100 * Z.shiftl (Z.pos m) e
              else Z.shiftr (200 * Z.pos m + 2 ^ (- e)) (- e + 1)).
    assert (Hn : 0 <= n).
    { unfold n. destruct (0 <=? e).
      - pose proof (proj2 (Z.shiftl_nonneg (Z.pos m) e)). lia.
      - apply Z.shiftr_nonneg.
        pose proof (Z.pow_nonneg 2 (- e)). lia. }
    destruct (intToString_digits (n / 100)) as [Hne Hds].
    { apply Z.div_pos; lia. }
    exists (if s then "-" else ""), (intToString 10 (n / 100)),
           (digit_char (Z.to_N (n / 10 mod 10))),
           (digit_char (Z.to_N (n mod 10))).
    split; [by destruct s|]. split; [destruct s; auto|].
    split; [done|]. split; [done|].
    split; apply is_digit_digit_char.
    + pose proof (Z.mod_pos_bound (n / 10) 10). lia.
    + pose proof (Z.mod_pos_bound n 10). lia.
Qed.

(** The percentage of a count in the number of pixels of an image. *)
Lemma percentage_two_decimals (count total : nat) :
  (0 < total)%nat -> (count <= total)%nat -> Z.of_nat total < 2 ^ 53 ->
  two_decimals (percentage count total).
Proof.
  intros Ht Hc Hlt. unfold percentage.
  rewrite (proj2 (Nat.ltb_lt _ _) Ht).
  apply toFixed2_two_decimals.
  pose proof (percentage_magnitude (Z.of_nat count) (Z.of_nat total)
                ltac:(lia) ltac:(lia)) as H.
  by destruct (Prim2SF _).
Qed.

End ReportProofs.

(** C7 (as amended). The report is the header row followed, for each layer
    in order, by CRLF and the layer's row (so the rows are separated by CRLF
    and the last row is not followed by one); on a raster, a row is the
    colour in hexadecimal, its three channels, the pixel count and the
    percentage, separated by commas, where the pixel count is the number of
    pixels of the image whose alpha is at least 128 and whose colour matches
    the layer's colour at its tolerance, and the percentage is [toFixed(2)]
    of 100 times the count over the number of pixels, followed by [%]; for
    a count that is at most the number of pixels, and fewer than [2^53]
    pixels, the percentage has exactly two digits after the point. *)
Theorem exportColorReportCSV_spec :
  (forall layers img,
      raster img ->
      Report.exportColorReportCSV layers img
      = String.app Report.header
          (foldr (fun l rest =>
                    String.app Report.CRLF
                      (String.app (row_text img l (matching_pixels img l)) rest))
                 "" layers))
  ∧ (forall count total, (0 < total)%nat ->
       Report.percentage count total
       = toFixed2 ((ofZ (Z.of_nat count) / ofZ (Z.of_nat total)) * 100)%float)
  ∧ (forall count total,
       (0 < total)%nat -> (count <= total)%nat -> Z.of_nat total < 2 ^ 53 ->
       two_decimals (Report.percentage count total)).
Proof.
  split; [|split].
  - intros layers img Hr. unfold Report.exportColorReportCSV.
    rewrite concat_sep. f_equal.
    induction layers as [|l layers IH]; [done|].
    cbn [map foldr]. rewrite IH, row_row_text.
    by rewrite pixel_count_matching.
  - intros count total Ht. unfold Report.percentage.
    by rewrite (proj2 (Nat.ltb_lt _ _) Ht).
  - apply percentage_two_decimals.
Qed.

Lemma exportColorReportCSV_spec_witness :
  let layer := mkLayer "a" (mkColor 255 0 0) "#ff0000" true (Some 10)
                       (Some (replicate 16 1)) None in
  raster red4x4
  ∧ Report.exportColorReportCSV [layer] red4x4
    = String.app Report.header
        (String.app Report.CRLF "#ff0000,255,0,0,16,100.00%")
  ∧ two_decimals (Report.percentage 16 16).
Proof.
  assert (Hr : raster red4x4).
  { unfold raster, bytes, is_byte. simpl. repeat split; try lia.
    repeat constructor; lia. }
  split; [exact Hr|]. split.
  - rewrite (proj1 exportColorReportCSV_spec _ _ Hr). by vm_compute.
  - apply (proj2 (proj2 exportColorReportCSV_spec) 16%nat 16%nat); lia.
Defined.

(** C7 as stated fails: the last row of the report is not terminated by
    CRLF. *)
Lemma exportColorReportCSV_last_row_unterminated :
  let layer := mkLayer "a" (mkColor 255 0 0) "#ff0000" true (Some 10)
                       (Some (replicate 16 1)) None in
  ends_with (Report.exportColorReportCSV [layer] red4x4) Report.CRLF = false
  ∧ Report.exportColorReportCSV [layer] red4x4
    <> String.concat ""
         (map (fun row => String.app row Report.CRLF)
              [Report.header; Report.row red4x4 layer]).
Proof. split; [by vm_compute|]. by vm_compute. Qed.

(** * Further properties *)

(** ** Pixel loops

    A loop [for (i = 0; i < length; i += 4)] whose iteration at [i] assigns
    the four bytes of the pixel at [i], from what it reads in that pixel and
    in other buffers, leaves at every index what its own iteration put
    there. *)

Section PixelLoops.

Local Open Scope nat_scope.

Lemma pixel_fold (step : list Z -> nat -> list Z) (d : list Z)
    (tgt : nat -> option Z) n :
  (forall cur p, p < n -> length cur = length d ->
     (forall j, 4 * p ≤ j -> cur !! j = d !! j) ->
     length (step cur (4 * p)) = length d
     ∧ forall j, step cur (4 * p) !! j
                 = if decide (4 * p ≤ j < 4 * p + 4) then tgt j else cur !! j) ->
  length (foldl step d ((fun k => 4 * k) <$> seq 0 n)) = length d
  ∧ forall j, foldl step d ((fun k => 4 * k) <$> seq 0 n) !! j
              = if decide (j < 4 * n) then tgt j else d !! j.
Proof.
  induction n as [|n IH]; intros Hstep.
  - split; [done|]. intros j. cbn [seq fmap list_fmap foldl].
    by rewrite decide_False by lia.
  - destruct IH as [IHl IH].
    { intros cur p Hp. apply Hstep. lia. }
    rewrite seq_S, fmap_app, foldl_app. cbn [fmap list_fmap foldl Nat.add].
    destruct (Hstep (foldl step d ((fun k => 4 * k) <$> seq 0 n)) n)
      as [Hl Hk]; [lia | done | |].
    { intros j Hj. rewrite IH. by rewrite decide_False by lia. }
    split; [done|]. intros j. rewrite Hk, IH.
    repeat case_decide; try lia; done.
Qed.

(** An index that no iteration assigns keeps its element. *)
Lemma fold_untouched (step : list Z -> nat -> list Z) (l : list nat)
    (d : list Z) j :
  (forall cur i, i ∈ l -> step cur i !! j = cur !! j) ->
  foldl step d l !! j = d !! j.
Proof.
  revert d. induction l as [|i l IH]; intros d Hs; [done|].
  cbn [foldl]. rewrite IH.
  - apply Hs. by left.
  - intros cur i' Hi'. apply Hs. by right.
Qed.

Lemma fold_length (step : list Z -> nat -> list Z) (l : list nat) (d : list Z) :
  (forall cur i, length (step cur i) = length cur) ->
  length (foldl step d l) = length d.
Proof.
  intros Hs. revert d. induction l as [|i l IH]; intros d; [done|].
  cbn [foldl]. by rewrite IH, Hs.
Qed.

(** The pixel loop of a raster visits its pixels. *)
Lemma for_range_raster img :
  raster img ->
  for_range (length (data img)) 4
  = (fun k => 4 * k) <$> seq 0 (width img * height img).
Proof.
  intros (Hw & Hh & Hlen & Hb). rewrite for_range_4. do 2 f_equal. lia.
Qed.

Lemma elem_of_for_range_4 stop i : i ∈ for_range stop 4 -> i mod 4 = 0.
Proof.
  rewrite for_range_4. intros Hi.
  apply list_elem_of_fmap in Hi as (k & -> & _).
  by rewrite Nat.mul_comm, Nat.Div0.mod_mul.
Qed.

End PixelLoops.

(** ** Stored bytes *)

Section StoredBytes.

Local Open Scope Z_scope.

(** Whatever number is assigned to an element of a [Uint8ClampedArray],
    a byte is stored. *)
Lemma toUint8Clamp_byte (x : float) : is_byte (toUint8Clamp x).
Proof.
  unfold toUint8Clamp, is_byte.
  destruct (255 <=? x)%float eqn:H255; [lia|].
  rewrite leb_spec in H255.
  change (Prim2SF 255) with (S754_finite false 8972014882652160 (-45)) in H255.
  pose proof (Prim2SF_valid x) as Hv.
  destruct (Prim2SF x) as [s|s| |s m e]; try lia.
  destruct s; [lia|].
  cbn [valid_binary] in Hv. unfold bounded, canonical_mantissa in Hv.
  apply andb_prop in Hv as [Hc _]. apply Z.eqb_eq in Hc.
  unfold fexp in Hc. change prec with 53 in Hc.
  assert (Hd : Zdigits2 (Zpos m) <= 53) by (cbn [Zdigits2]; lia).
  pose proof (Zdigits2_gt (Zpos m) ltac:(lia)) as Hm.
  assert (Hm53 : Zpos m < 2 ^ 53).
  { eapply Z.lt_le_trans; [exact Hm|]. apply Z.pow_le_mono_r; lia. }
  unfold SFleb, SFcompare in H255.
  assert (He : e < -45 ∨ (e = -45 ∧ Zpos m < 8972014882652160)).
  { destruct (Z.compare_spec (-45) e) as [He|He|He];
      [|discriminate H255|left; clear -He; lia].
    right. split; [clear -He; lia|].
    destruct (Pos.compare_cont Eq 8972014882652160 m) eqn:Hcmp;
      [discriminate H255|discriminate H255|].
    apply Z.gt_lt. exact Hcmp. }
  clear H255 Hc Hm Hd.
  destruct (Z.leb_spec 0 e) as [?|Hneg]; [lia|].
  rewrite Z.shiftr_div_pow2 by lia.
  assert (Hq : 0 <= Zpos m / 2 ^ (- e) <= 254).
  { assert (HP : 0 < 2 ^ (- e)) by (apply Z.pow_pos_nonneg; lia).
    assert (HP' : e < -45 -> 70368744177664 <= 2 ^ (- e)).
    { intros He'. change 70368744177664 with (2 ^ 46).
      apply Z.pow_le_mono_r; lia. }
    assert (HP'' : e = -45 -> 2 ^ (- e) = 35184372088832) by (by intros ->).
    assert (Hm53' : Zpos m < 9007199254740992) by exact Hm53.
    clear Hm53.
    generalize dependent (2 ^ (- e)). intros P HP HP' HP''.
    split; [apply Z.div_pos; lia|].
    apply Z.lt_succ_r. apply Z.div_lt_upper_bound; [done|].
    destruct He as [He|[He Hm]].
    - specialize (HP' He). lia.
    - specialize (HP'' He). lia. }
  clear -Hq. generalize dependent (Zpos m / 2 ^ (- e)). intros q Hq.
  destruct (_ <? _); [lia|]. destruct (_ <? _); [lia|].
  destruct (Z.even q); lia.
Qed.

(** Two numbers that compare equal are the same number, or both zero. *)
Lemma eqb_cases (a b : float) :
  (a =? b)%float = true ->
  a = b ∨ (exists s1 s2, Prim2SF a = S754_zero s1 ∧ Prim2SF b = S754_zero s2).
Proof.
  rewrite FloatAxioms.eqb_spec. unfold SFeqb, SFcompare. intros H.
  assert (Hinj : Prim2SF a = Prim2SF b -> a = b).
  { intros E. by rewrite <- (SF2Prim_Prim2SF a), <- (SF2Prim_Prim2SF b), E. }
  destruct (Prim2SF a) as [s1|s1| |s1 m1 e1], (Prim2SF b) as [s2|s2| |s2 m2 e2];
    try discriminate H;
    try (destruct s1; discriminate H); try (destruct s2; discriminate H).
  - right. by exists s1, s2.
  - left. apply Hinj. by destruct s1, s2.
  - left. apply Hinj.
    destruct s1, s2; try discriminate H;
      destruct (Z.compare_spec e1 e2) as [->|?|?]; try discriminate H;
      destruct (Pos.compare_cont Eq m1 m2) eqn:Hc; try discriminate H;
      change ((m1 ?= m2)%positive = Eq) in Hc;
      apply Pos.compare_eq in Hc; by subst.
Qed.

Lemma toUint8Clamp_eqb (a b : float) :
  (a =? b)%float = true -> toUint8Clamp a = toUint8Clamp b.
Proof.
  intros H. destruct (eqb_cases a b H) as [->|(s1 & s2 & Ha & Hb)]; [done|].
  unfold toUint8Clamp. rewrite !leb_spec, Ha, Hb. done.
Qed.

End StoredBytes.

(** ** [replaceColorInImageData] *)

Section ReplaceColor.

Local Open Scope nat_scope.

Variables fromColor toColor : Color.
Variable threshold : float.

Lemma replace_test_ext d d' p :
  (forall j, 4 * p ≤ j < 4 * p + 3 -> d' !! j = d !! j) ->
  replace_test fromColor threshold d' p = replace_test fromColor threshold d p.
Proof.
  intros H. unfold replace_test, num.
  by rewrite !H by lia.
Qed.

Lemma replace_px_lookup cur p j :
  4 * p + 3 < length cur ->
  ImageEdit.replace_px fromColor toColor threshold cur (4 * p) !! j
  = if decide (4 * p ≤ j < 4 * p + 4)
    then replaced fromColor toColor threshold cur j else cur !! j.
Proof.
  intros Hl. unfold ImageEdit.replace_px, replaced.
  fold (replace_test fromColor threshold cur p).
  destruct (decide (4 * p ≤ j < 4 * p + 4)) as [Hj|Hj].
  - replace (j / 4) with p by lia.
    destruct (replace_test fromColor threshold cur p); [|done].
    rewrite !store_lookup, !length_store.
    assert (j = 4 * p ∨ j = 4 * p + 1 ∨ j = 4 * p + 2 ∨ j = 4 * p + 3)
      as [-> | [-> | [-> | ->]]] by lia.
    + replace (4 * p mod 4) with 0 by lia.
      repeat case_decide; try lia; done.
    + replace ((4 * p + 1) mod 4) with 1 by lia.
      repeat case_decide; try lia; done.
    + replace ((4 * p + 2) mod 4) with 2 by lia.
      repeat case_decide; try lia; done.
    + replace ((4 * p + 3) mod 4) with 3 by lia.
      repeat case_decide; try lia; done.
  - destruct (replace_test fromColor threshold cur p); [|done].
    rewrite !store_lookup.
    repeat case_decide; try lia; done.
Qed.

Lemma length_replace_px cur i :
  length (ImageEdit.replace_px fromColor toColor threshold cur i) = length cur.
Proof.
  unfold ImageEdit.replace_px. destruct (_ <=? _)%float; [|done].
  by rewrite !length_store.
Qed.

Lemma replaced_ext d d' j :
  (forall k, 4 * (j / 4) ≤ k < 4 * (j / 4) + 4 -> d' !! k = d !! k) ->
  replaced fromColor toColor threshold d' j
  = replaced fromColor toColor threshold d j.
Proof.
  intros H. unfold replaced.
  rewrite (replace_test_ext d d') by (intros; apply H; lia).
  rewrite (H j) by lia. done.
Qed.

Lemma replace_fold d n :
  length d = 4 * n ->
  length (foldl (ImageEdit.replace_px fromColor toColor threshold) d
                ((fun k => 4 * k) <$> seq 0 n)) = length d
  ∧ forall j, j < 4 * n ->
      foldl (ImageEdit.replace_px fromColor toColor threshold) d
            ((fun k => 4 * k) <$> seq 0 n) !! j
      = replaced fromColor toColor threshold d j.
Proof.
  intros Hl.
  destruct (pixel_fold (ImageEdit.replace_px fromColor toColor threshold) d
              (replaced fromColor toColor threshold d) n) as [H1 H2].
  - intros cur p Hp Hc Hagree. split; [by rewrite length_replace_px|].
    intros j. rewrite replace_px_lookup by lia.
    case_decide; [|done].
    apply replaced_ext. intros k Hk. apply Hagree. lia.
  - split; [done|]. intros j Hj. rewrite H2.
    by rewrite decide_True by done.
Qed.

(** A pixel that passes the test after the replacement holds the
    replacement colour. *)
Lemma replaced_fixed d d1 n j :
  (forall k, k < 4 * n -> d1 !! k = replaced fromColor toColor threshold d k) ->
  j < 4 * n ->
  replaced fromColor toColor threshold d1 j = d1 !! j.
Proof.
  intros Hd1 Hj. unfold replaced at 1.
  destruct (replace_test fromColor threshold d1 (j / 4)) eqn:Ht1; [|done].
  destruct (replace_test fromColor threshold d (j / 4)) eqn:Ht.
  - rewrite (Hd1 j Hj). unfold replaced. rewrite Ht.
    destruct (j mod 4) as [|[|[|?]]]; try done.
  - exfalso. rewrite (replace_test_ext d d1) in Ht1; [congruence|].
    intros k Hk. rewrite Hd1 by lia. unfold replaced.
    replace (k / 4) with (j / 4) by lia. by rewrite Ht.
Qed.

End ReplaceColor.

Lemma replaceColor_length img fromColor toColor t :
  length (data (ImageEdit.replaceColorInImageData img fromColor toColor t))
  = length (data img).
Proof.
  unfold ImageEdit.replaceColorInImageData. cbn [data].
  apply fold_length. intros. apply length_replace_px.
Qed.

Lemma replaceColor_data img fromColor toColor t j :
  raster img -> (j < 4 * (width img * height img))%nat ->
  data (ImageEdit.replaceColorInImageData img fromColor toColor t) !! j
  = replaced fromColor toColor
             ((t / 100) * PrimFloat.sqrt (3 * 255 * 255))%float (data img) j.
Proof.
  intros Hr Hj. unfold ImageEdit.replaceColorInImageData. cbn [data].
  rewrite (for_range_raster img Hr).
  destruct Hr as (Hw & Hh & Hlen & Hb).
  by apply replace_fold; [lia|].
Qed.

Lemma replaceColor_raster img fromColor toColor t :
  raster img ->
  raster (ImageEdit.replaceColorInImageData img fromColor toColor t).
Proof.
  intros Hr. pose proof Hr as (Hw & Hh & Hlen & Hb).
  pose proof (replaceColor_length img fromColor toColor t) as Hl.
  split; [exact Hw|]. split; [exact Hh|].
  split; [rewrite Hl; exact Hlen|].
  apply Forall_lookup_2. intros j v Hv.
  assert (Hj : (j < 4 * (width img * height img))%nat).
  { apply lookup_lt_Some in Hv. lia. }
  rewrite replaceColor_data in Hv by done.
  unfold replaced in Hv.
  destruct (replace_test _ _ _ _); [|by eapply bytes_lookup].
  destruct (j mod 4)%nat as [|[|[|?]]]; try (by eapply bytes_lookup);
    injection Hv as <-; apply toUint8Clamp_byte.
Qed.

Lemma replaceColor_alpha img fromColor toColor t j :
  (j mod 4 = 3)%nat ->
  data (ImageEdit.replaceColorInImageData img fromColor toColor t) !! j
  = data img !! j.
Proof.
  intros Hj. unfold ImageEdit.replaceColorInImageData. cbn [data].
  apply fold_untouched. intros cur i Hi.
  apply elem_of_for_range_4 in Hi.
  unfold ImageEdit.replace_px. destruct (_ <=? _)%float; [|done].
  rewrite !store_lookup. repeat case_decide; try lia; done.
Qed.

(** *** The test of the replacement and [colorMatches] *)

Lemma leb_zero_sign (x : spec_float) s :
  SFleb x (S754_zero s) = SFleb x (S754_zero false).
Proof. by destruct x as [?|[]| |[] ? ?], s. Qed.

Lemma zero_of_leb_not_ltb (t : float) :
  (t <=? 0)%float = true -> (t <? 0)%float = false ->
  exists s, Prim2SF t = S754_zero s.
Proof.
  rewrite leb_spec, ltb_spec.
  change (Prim2SF 0) with (S754_zero false).
  unfold SFleb, SFltb, SFcompare.
  destruct (Prim2SF t) as [s|[]| |[] m e]; try done. by exists s.
Qed.

(** For a tolerance that is not negative, the threshold of the replacement
    allows the distances that [toleranceToDistance] allows. *)
Lemma replace_threshold (x t : float) :
  (t <? 0)%float = false ->
  (x <=? (t / 100) * PrimFloat.sqrt (3 * 255 * 255))%float
  = (x <=? toleranceToDistance t)%float.
Proof.
  intros Hneg. unfold toleranceToDistance.
  destruct (t <=? 0)%float eqn:Hle; [|done].
  destruct (zero_of_leb_not_ltb t Hle Hneg) as [s Hs].
  rewrite !leb_spec, mul_spec, div_spec, Hs.
  change (Prim2SF 100) with (S754_finite false 7036874417766400 (-46)).
  change (Prim2SF (PrimFloat.sqrt (3 * 255 * 255)))
    with (S754_finite false 7769992811508830 (-44)).
  change (Prim2SF 0) with (S754_zero false).
  cbn [SF64div SFdiv SF64mul SFmul]. apply leb_zero_sign.
Qed.

(** The pixels of the result, for a tolerance that is not negative. *)
Lemma replaceColor_pixel_at img fromColor toColor (t : float) p pr pg pb pa :
  raster img -> is_color toColor -> (t <? 0)%float = false ->
  (p < width img * height img)%nat ->
  pixel img p = Some (pr, pg, pb, pa) ->
  pixel (ImageEdit.replaceColorInImageData img fromColor toColor t) p
  = Some (if colorMatches (ofZ pr) (ofZ pg) (ofZ pb)
                          (ofZ (r fromColor)) (ofZ (g fromColor))
                          (ofZ (b fromColor)) t
          then (r toColor, g toColor, b toColor, pa)
          else (pr, pg, pb, pa)).
Proof.
  intros Hr (Hcr & Hcg & Hcb) Ht Hp Hpx.
  destruct (raster_pixel img p Hr Hp)
    as (r' & g' & b' & a' & H0 & H1 & H2 & H3 & Br & Bg & Bb & Ba).
  unfold pixel in Hpx. rewrite H0, H1, H2, H3 in Hpx. simpl in Hpx.
  injection Hpx as <- <- <- <-.
  unfold pixel.
  rewrite !replaceColor_data by first [done | lia].
  unfold replaced.
  replace ((4 * p) / 4)%nat with p by lia.
  replace ((4 * p + 1) / 4)%nat with p by lia.
  replace ((4 * p + 2) / 4)%nat with p by lia.
  replace ((4 * p + 3) / 4)%nat with p by lia.
  replace ((4 * p) mod 4)%nat with 0%nat by lia.
  replace ((4 * p + 1) mod 4)%nat with 1%nat by lia.
  replace ((4 * p + 2) mod 4)%nat with 2%nat by lia.
  replace ((4 * p + 3) mod 4)%nat with 3%nat by lia.
  assert (replace_test fromColor ((t / 100) * PrimFloat.sqrt (3 * 255 * 255))%float
                       (data img) p
          = colorMatches (ofZ r') (ofZ g') (ofZ b')
                         (ofZ (r fromColor)) (ofZ (g fromColor))
                         (ofZ (b fromColor)) t) as ->.
  { unfold replace_test.
    rewrite (num_Some _ _ _ H0), (num_Some _ _ _ H1), (num_Some _ _ _ H2).
    rewrite replace_threshold by done. done. }
  destruct (colorMatches _ _ _ _ _ _ _).
  - rewrite H3. simpl.
    by rewrite (proj1 (byte_facts _ Hcr)), (proj1 (byte_facts _ Hcg)),
      (proj1 (byte_facts _ Hcb)).
  - by rewrite H0, H1, H2, H3.
Qed.

(** ** [adjustImageData] *)

Lemma check_adjust_neutral_ok :
  ltac:(let t := eval unfold Checks.check_adjust_neutral
                 in (Checks.check_adjust_neutral = true) in exact t).
Proof. vm_compute. reflexivity. Qed.

Lemma check_brightness_min_ok :
  ltac:(let t := eval unfold Checks.check_brightness_min
                 in (Checks.check_brightness_min = true) in exact t).
Proof. vm_compute. reflexivity. Qed.

Lemma check_grey_stored_ok :
  ltac:(let t := eval unfold Checks.check_grey_stored
                 in (Checks.check_grey_stored = true) in exact t).
Proof. vm_compute. reflexivity. Qed.

Lemma slider_of_Z k :
  -100 <= k <= 100 -> Checks.slider (Uint63.of_Z (k + 100)) = ofZ k.
Proof.
  intros Hk. unfold Checks.slider. rewrite to_of_Z_small by lia.
  f_equal. lia.
Qed.

Lemma adjust_channel_neutral v :
  is_byte v -> ImageEdit.adjust_channel (ofZ v) 1 1 = ofZ v.
Proof.
  unfold is_byte. intros Hv. rewrite ofZ_F by lia.
  apply float_eq_of_eqb.
  exact (all_below_sound _ _ check_adjust_neutral_ok ltac:(lia) v ltac:(lia)).
Qed.

Lemma adjust_channel_dark v ct :
  is_byte v -> -100 <= ct <= 100 ->
  ImageEdit.adjust_channel (ofZ v) (1 + ofZ ct / 100) 0 = 127.5%float.
Proof.
  unfold is_byte. intros Hv Hc. rewrite (ofZ_F v) by lia.
  rewrite <- (slider_of_Z ct) by done.
  apply float_eq_of_eqb.
  pose proof (all_below_sound _ _ check_brightness_min_ok ltac:(lia)
                (ct + 100) ltac:(lia)) as H.
  exact (all_below_sound _ _ H ltac:(lia) v ltac:(lia)).
Qed.

Lemma saturate_grey st :
  -100 <= st <= 100 ->
  exists r' g' b',
    ImageEdit.saturate 127.5 127.5 127.5 (1 + ofZ st / 100) = (r', g', b')
    ∧ toUint8Clamp r' = 128 ∧ toUint8Clamp g' = 128 ∧ toUint8Clamp b' = 128.
Proof.
  intros Hs. rewrite <- (slider_of_Z st) by done.
  pose proof (all_below_sound _ _ check_grey_stored_ok ltac:(lia)
                (st + 100) ltac:(lia)) as H.
  cbv beta in H.
  destruct (ImageEdit.saturate _ _ _ _) as [[r' g'] b'].
  apply andb_prop in H as [H H3]. apply andb_prop in H as [H1 H2].
  apply Z.eqb_eq in H1, H2, H3. by exists r', g', b'.
Qed.

Section AdjustLoop.

Local Open Scope nat_scope.

Variables c b s : float.

Lemma adjusted_ext d d' j :
  (forall k, 4 * (j / 4) ≤ k < 4 * (j / 4) + 4 -> d' !! k = d !! k) ->
  adjusted c b s d' j = adjusted c b s d j.
Proof.
  intros H. unfold adjusted, num.
  by rewrite !H by lia.
Qed.

Lemma adjust_px_lookup cur p j :
  4 * p + 3 < length cur ->
  ImageEdit.adjust_px c b s cur (4 * p) !! j
  = if decide (4 * p ≤ j < 4 * p + 4) then adjusted c b s cur j
    else cur !! j.
Proof.
  intros Hl. unfold ImageEdit.adjust_px, adjusted.
  destruct (decide (4 * p ≤ j < 4 * p + 4)) as [Hj|Hj].
  - replace (j / 4) with p by lia.
    destruct (ImageEdit.saturate _ _ _ _) as [[r' g'] b'].
    rewrite !store_lookup, !length_store.
    assert (j = 4 * p ∨ j = 4 * p + 1 ∨ j = 4 * p + 2 ∨ j = 4 * p + 3)
      as [-> | [-> | [-> | ->]]] by lia.
    + replace (4 * p mod 4) with 0 by lia.
      repeat case_decide; try lia; done.
    + replace ((4 * p + 1) mod 4) with 1 by lia.
      repeat case_decide; try lia; done.
    + replace ((4 * p + 2) mod 4) with 2 by lia.
      repeat case_decide; try lia; done.
    + replace ((4 * p + 3) mod 4) with 3 by lia.
      repeat case_decide; try lia; done.
  - destruct (ImageEdit.saturate _ _ _ _) as [[r' g'] b'].
    rewrite !store_lookup.
    repeat case_decide; try lia; done.
Qed.

Lemma length_adjust_px cur i :
  length (ImageEdit.adjust_px c b s cur i) = length cur.
Proof.
  unfold ImageEdit.adjust_px.
  destruct (ImageEdit.saturate _ _ _ _) as [[r' g'] b'].
  by rewrite !length_store.
Qed.

(** The alpha bytes are not assigned. *)
Lemma adjust_px_alpha cur i j :
  i mod 4 = 0 -> j mod 4 = 3 ->
  ImageEdit.adjust_px c b s cur i !! j = cur !! j.
Proof.
  intros Hi Hj. unfold ImageEdit.adjust_px.
  destruct (ImageEdit.saturate _ _ _ _) as [[r' g'] b'].
  rewrite !store_lookup.
  repeat case_decide; try lia; done.
Qed.

Lemma adjust_fold d n :
  length d = 4 * n ->
  forall j, j < 4 * n ->
    foldl (ImageEdit.adjust_px c b s) d ((fun k => 4 * k) <$> seq 0 n) !! j
    = adjusted c b s d j.
Proof.
  intros Hl.
  destruct (pixel_fold (ImageEdit.adjust_px c b s) d (adjusted c b s d) n)
    as [H1 H2].
  - intros cur p Hp Hc Hagree. split; [by rewrite length_adjust_px|].
    intros j. rewrite adjust_px_lookup by lia.
    case_decide; [|done].
    apply adjusted_ext. intros k Hk. apply Hagree. lia.
  - intros j Hj. rewrite H2. by rewrite decide_True by done.
Qed.

End AdjustLoop.

Lemma adjustImageData_length img br ct st :
  length (data (ImageEdit.adjustImageData img br ct st)) = length (data img).
Proof.
  unfold ImageEdit.adjustImageData. cbn [data].
  apply fold_length. intros. apply length_adjust_px.
Qed.

Lemma adjustImageData_data img br ct st j :
  raster img -> (j < 4 * (width img * height img))%nat ->
  data (ImageEdit.adjustImageData img br ct st) !! j
  = adjusted (1 + ct / 100) (1 + br / 100) (1 + st / 100) (data img) j.
Proof.
  intros Hr Hj. unfold ImageEdit.adjustImageData. cbn [data].
  rewrite (for_range_raster img Hr).
  destruct Hr as (Hw & Hh & Hlen & Hb).
  by apply adjust_fold; [lia|].
Qed.

Lemma adjustImageData_alpha img br ct st j :
  (j mod 4 = 3)%nat ->
  data (ImageEdit.adjustImageData img br ct st) !! j = data img !! j.
Proof.
  intros Hj. unfold ImageEdit.adjustImageData. cbn [data].
  apply fold_untouched. intros cur i Hi.
  apply adjust_px_alpha; [|done]. by eapply elem_of_for_range_4.
Qed.

(** An image is determined by its dimensions and its bytes. *)
Lemma ImageData_eq (a b : ImageData) :
  width a = width b -> height a = height b ->
  length (data a) = length (data b) ->
  (forall j, (j < length (data b))%nat -> data a !! j = data b !! j) ->
  a = b.
Proof.
  destruct a as [wa ha da], b as [wb hb db]. cbn. intros -> -> Hl H.
  f_equal. apply list_eq. intros j.
  destruct (decide (j < length db)%nat) as [Hj|Hj]; [by apply H|].
  by rewrite !lookup_ge_None_2 by lia.
Qed.

(** Byte [c] of pixel [p] of a raster. *)
Lemma raster_byte img j :
  raster img -> (j < 4 * (width img * height img))%nat ->
  exists v, data img !! j = Some v ∧ is_byte v.
Proof.
  intros (Hw & Hh & Hlen & Hb) Hj.
  destruct (lookup_lt_is_Some_2 (data img) j) as [v Hv]; [lia|].
  exists v. split; [done|]. by eapply bytes_lookup.
Qed.

(** ** Numbers of small magnitude *)

Section Smallness.

Local Open Scope Z_scope.

Lemma small_mono B B' x : B <= B' -> small B x -> small B' x.
Proof. intros HB. destruct x as [s|s| |s m e]; cbn; try done. lia. Qed.

Lemma shl_align_snd mx ex ez : ez <= ex -> (shl_align mx ex ez).2 = ez.
Proof.
  intros H. unfold shl_align. destruct (ez - ex) as [|d|d] eqn:E; cbn [snd]; lia.
Qed.

(** Normalising an integer mantissa below [2 ^ (B - e)] gives a zero or a
    finite number below [2 ^ (B + 1)]. *)
Lemma binary_normalize_small z e B szero :
  Zdigits2 (Z.abs z) + e <= B -> emin <= B -> B <= 971 ->
  small (B + 1) (binary_normalize prec emax z e szero).
Proof.
  intros Hz Hemin H971.
  assert (Hround : forall s m, Zdigits2 (Zpos m) + e <= B ->
            small (B + 1) (binary_round prec emax s m e)).
  { intros s m Hm. unfold binary_round.
    pose proof (shl_align_magnitude m e
                  (fexp prec emax (Zpos (digits2_pos m) + e))) as Hs.
    assert (Hsnd : (shl_align m e (fexp prec emax (Zpos (digits2_pos m) + e))).2
                   <= e).
    { unfold shl_align. destruct (_ - e) as [|d|d] eqn:E; cbn [snd]; lia. }
    destruct (shl_align _ _ _) as [mz ez]. cbn [fst snd] in Hs, Hsnd.
    pose proof (Zdigits2_pos (Zpos m) ltac:(lia)) as Hd.
    pose proof (binary_round_aux_ub s (Zpos mz) ez loc_Exact B
                  ltac:(lia) ltac:(lia) ltac:(lia) Hemin H971) as Hub.
    destruct (binary_round_aux _ _ _ _ _ _) as [s'|s'| |s' m' e'];
      cbn; try done. by destruct Hub. }
  destruct z as [|m|m]; cbn [binary_normalize]; [done | |];
    apply Hround; exact Hz.
Qed.

Lemma aligned_sum_digits s1 m1 e1 s2 m2 e2 (opp : bool) B :
  Zdigits2 (Zpos m1) + e1 <= B -> Zdigits2 (Zpos m2) + e2 <= B ->
  let ez := Z.min e1 e2 in
  let a := cond_Zopp s1 (Zpos (shl_align m1 e1 ez).1) in
  let b := cond_Zopp s2 (Zpos (shl_align m2 e2 ez).1) in
  Zdigits2 (Z.abs (if opp then a - b else a + b)) + ez <= B + 1.
Proof.
  intros H1 H2 ez a b.
  pose proof (shl_align_magnitude m1 e1 ez) as Ha.
  pose proof (shl_align_magnitude m2 e2 ez) as Hb.
  rewrite (shl_align_snd m1 e1 ez) in Ha by (unfold ez; lia).
  rewrite (shl_align_snd m2 e2 ez) in Hb by (unfold ez; lia).
  set (ma := Zpos (shl_align m1 e1 ez).1) in *.
  set (mb := Zpos (shl_align m2 e2 ez).1) in *.
  pose proof (Zdigits2_pos ma ltac:(unfold ma; lia)) as Hpa.
  pose proof (Zdigits2_pos mb ltac:(unfold mb; lia)) as Hpb.
  pose proof (Zdigits2_gt ma ltac:(unfold ma; lia)) as Hga.
  pose proof (Zdigits2_gt mb ltac:(unfold mb; lia)) as Hgb.
  assert (Hpa' : 2 ^ Zdigits2 ma <= 2 ^ (B - ez))
    by (apply Z.pow_le_mono_r; lia).
  assert (Hpb' : 2 ^ Zdigits2 mb <= 2 ^ (B - ez))
    by (apply Z.pow_le_mono_r; lia).
  assert (Hp2 : 2 ^ (B - ez + 1) = 2 * 2 ^ (B - ez))
    by (rewrite Z.pow_add_r by lia; lia).
  enough (Zdigits2 (Z.abs (if opp then a - b else a + b)) <= B - ez + 1) by lia.
  apply Zdigits2_ub; [lia|].
  assert (Habs : Z.abs (if opp then a - b else a + b) <= ma + mb).
  { unfold a, b. fold ma mb. assert (0 < ma) by (unfold ma; lia).
    assert (0 < mb) by (unfold mb; lia).
    destruct opp, s1, s2; cbn [cond_Zopp]; lia. }
  split; [lia|].
  generalize dependent (2 ^ Zdigits2 ma). generalize dependent (2 ^ Zdigits2 mb).
  generalize dependent (2 ^ (B - ez)). generalize dependent (2 ^ (B - ez + 1)).
  intros. lia.
Qed.

Lemma SFadd_small x y B :
  small B x -> small B y -> emin <= B + 1 -> B + 1 <= 971 ->
  small (B + 2) (SFadd prec emax x y).
Proof.
  intros Hx Hy Hemin H971.
  destruct x as [sx|sx| |sx mx ex], y as [sy|sy| |sy my ey]; try done.
  - cbn. by destruct sx, sy.
  - cbn in *. lia.
  - cbn in *. lia.
  - cbn [small] in Hx, Hy. cbn [SFadd]. cbv zeta.
    replace (B + 2) with (B + 1 + 1) by lia.
    apply binary_normalize_small; [|done|done].
    exact (aligned_sum_digits sx mx ex sy my ey false B Hx Hy).
Qed.

Lemma SFsub_small x y B :
  small B x -> small B y -> emin <= B + 1 -> B + 1 <= 971 ->
  small (B + 2) (SFsub prec emax x y).
Proof.
  intros Hx Hy Hemin H971.
  destruct x as [sx|sx| |sx mx ex], y as [sy|sy| |sy my ey]; try done.
  - cbn. by destruct sx, sy.
  - cbn in *. lia.
  - cbn in *. lia.
  - cbn [small] in Hx, Hy. cbn [SFsub]. cbv zeta.
    replace (B + 2) with (B + 1 + 1) by lia.
    apply binary_normalize_small; [|done|done].
    exact (aligned_sum_digits sx mx ex sy my ey true B Hx Hy).
Qed.

Lemma SFmul_small x y B1 B2 :
  small B1 x -> small B2 y -> emin <= B1 + B2 -> B1 + B2 <= 971 ->
  small (B1 + B2 + 1) (SFmul prec emax x y).
Proof.
  intros Hx Hy Hemin H971.
  destruct x as [sx|sx| |sx mx ex], y as [sy|sy| |sy my ey]; try done.
  cbn [small] in Hx, Hy.
  pose proof (SFmul_finite_ub sx mx ex sy my ey (B1 + B2)
                ltac:(lia) Hemin H971) as H.
  destruct (SFmul prec emax _ _) as [s'|s'| |s' m' e']; cbn; try done.
  by destruct H.
Qed.

Lemma SFmul_zero_r x B s :
  small B x -> exists s', SFmul prec emax x (S754_zero s) = S754_zero s'.
Proof. destruct x as [sx|sx| |sx mx ex]; try done; intros _; by eexists. Qed.

Lemma SFadd_zero_r x B s :
  small B x ->
  SFadd prec emax x (S754_zero s) = x
  ∨ exists s1 s2, x = S754_zero s1 ∧ SFadd prec emax x (S754_zero s) = S754_zero s2.
Proof.
  destruct x as [sx|sx| |sx mx ex]; try done; intros _.
  - right. exists sx. destruct sx, s; by eexists.
  - by left.
Qed.

Lemma ofZ_small v : is_byte v -> small 64 (Prim2SF (ofZ v)).
Proof.
  unfold is_byte. intros Hv.
  destruct (Z.eq_dec v 0) as [->|Hne]; [done|].
  assert (H : 0 < v < 2 ^ 63)
    by (split; [lia | apply Z.lt_trans with 256; [lia | reflexivity]]).
  destruct (ofZ_magnitude v H) as (m & e & -> & Hm). cbn [small]. lia.
Qed.

Lemma Prim2SF_inj (a b : float) : Prim2SF a = Prim2SF b -> a = b.
Proof.
  intros E. by rewrite <- (SF2Prim_Prim2SF a), <- (SF2Prim_Prim2SF b), E.
Qed.

(** Clamping a zero of either sign gives a number stored as 0. *)
Lemma clamp255_zero (x : float) s :
  Prim2SF x = S754_zero s -> toUint8Clamp (clamp255 x) = 0.
Proof.
  intros H.
  assert (x = SF2Prim (S754_zero s)) as ->
    by (by rewrite <- H, SF2Prim_Prim2SF).
  by destruct s.
Qed.

End Smallness.

(** With the saturation factor 0 the three channels of a pixel are stored
    as the same byte: each is the grey of the pixel. *)
Lemma saturate_zero_small (R G B : float) :
  small 300 (Prim2SF R) -> small 300 (Prim2SF G) -> small 300 (Prim2SF B) ->
  exists r' g' b',
    ImageEdit.saturate R G B 0 = (r', g', b')
    ∧ toUint8Clamp r' = toUint8Clamp g' ∧ toUint8Clamp g' = toUint8Clamp b'.
Proof.
  intros HR HG HB. unfold ImageEdit.saturate.
  change (negb (0 =? 1)%float) with true. cbv iota zeta.
  set (gray := (0.299 * R + 0.587 * G + 0.114 * B)%float).
  assert (Hemin : emin = -1074) by done.
  assert (Hg : small 400 (Prim2SF gray)).
  { unfold gray. rewrite !add_spec, !mul_spec. unfold SF64add, SF64mul.
    assert (H1 : small 0 (Prim2SF 0.299)) by (by vm_compute).
    assert (H2 : small 0 (Prim2SF 0.587)) by (by vm_compute).
    assert (H3 : small 0 (Prim2SF 0.114)) by (by vm_compute).
    pose proof (SFmul_small _ _ 0 300 H1 HR ltac:(lia) ltac:(lia)) as P1.
    pose proof (SFmul_small _ _ 0 300 H2 HG ltac:(lia) ltac:(lia)) as P2.
    pose proof (SFmul_small _ _ 0 300 H3 HB ltac:(lia) ltac:(lia)) as P3.
    pose proof (SFadd_small _ _ 301 P1 P2 ltac:(lia) ltac:(lia)) as S1.
    pose proof (SFadd_small _ _ 303 S1 (small_mono 301 303 _ ltac:(lia) P3)
                  ltac:(lia) ltac:(lia)) as S2.
    by apply (small_mono 305 400). }
  assert (Hch : forall X, small 300 (Prim2SF X) ->
            toUint8Clamp (clamp255 (gray + (X - gray) * 0))
            = toUint8Clamp (clamp255 gray)).
  { intros X HX.
    assert (Hd : small 402 (Prim2SF (X - gray))).
    { rewrite sub_spec. unfold SF64sub.
      apply (SFsub_small _ _ 400); [by apply (small_mono 300 400)|done|lia|lia]. }
    assert (Hz : exists s', Prim2SF ((X - gray) * 0) = S754_zero s').
    { rewrite mul_spec. unfold SF64mul.
      change (Prim2SF 0) with (S754_zero false).
      by apply (SFmul_zero_r _ 402). }
    destruct Hz as [s' Hz].
    assert (Ha : Prim2SF (gray + (X - gray) * 0)
                 = SFadd prec emax (Prim2SF gray) (S754_zero s'))
      by (by rewrite add_spec, Hz).
    destruct (SFadd_zero_r (Prim2SF gray) 400 s' Hg)
      as [He|(s1 & s2 & H1 & H2)].
    - rewrite He in Ha. by rewrite (Prim2SF_inj _ _ Ha).
    - rewrite H2 in Ha.
      by rewrite (clamp255_zero _ s2 Ha), (clamp255_zero _ s1 H1). }
  eexists _, _, _. split; [reflexivity|].
  by rewrite !Hch.
Qed.

(** *** The numbers of [adjustImageData] are small *)

Lemma SFopp_small x B : small B x -> small B (SFopp x).
Proof. by destruct x. Qed.

Lemma ofZ_small_int z : - 2 ^ 63 < z < 2 ^ 63 -> small 64 (Prim2SF (ofZ z)).
Proof.
  intros Hz. destruct z as [|p|p]; [done | |].
  - destruct (ofZ_magnitude (Zpos p) ltac:(lia)) as (m & e & -> & Hm).
    cbn [small]. lia.
  - change (ofZ (Zneg p)) with (- ofZ (Zpos p))%float. rewrite opp_spec.
    destruct (ofZ_magnitude (Zpos p) ltac:(lia)) as (m & e & -> & Hm).
    cbn [SFopp small]. lia.
Qed.

(** The factor [1 + x / 100] of a setting. *)
Lemma factor_small z :
  - 2 ^ 63 < z < 2 ^ 63 -> small 70 (Prim2SF (1 + ofZ z / 100)%float).
Proof.
  intros Hz. pose proof (ofZ_small_int z Hz) as Hs.
  assert (Hemin : emin = -1074) by done.
  rewrite add_spec, div_spec. unfold SF64add, SF64div.
  change (Prim2SF 100) with (S754_finite false 7036874417766400 (-46)).
  assert (Hq : small 66 (SFdiv prec emax (Prim2SF (ofZ z))
                           (S754_finite false 7036874417766400 (-46)))).
  { destruct (Prim2SF (ofZ z)) as [s|s| |s m e]; try done.
    cbn [small] in Hs.
    pose proof (SFdiv_finite_ub s m e false 7036874417766400 (-46) 65) as Hd.
    change (Zdigits2 (Zpos 7036874417766400)) with 53 in Hd.
    specialize (Hd ltac:(lia) ltac:(lia) ltac:(lia)).
    destruct (SFdiv prec emax _ _) as [s'|s'| |s' m' e']; cbn; try done.
    by destruct Hd. }
  assert (H1 : small 66 (Prim2SF 1)) by (by vm_compute).
  apply (small_mono 68 70); [lia|].
  by apply (SFadd_small _ _ 66).
Qed.

Lemma is_nan_small (x : float) B : small B (Prim2SF x) -> is_nan x = false.
Proof.
  intros H. unfold is_nan. rewrite FloatAxioms.eqb_spec.
  destruct (Prim2SF x) as [s|s| |s m e]; try done.
  unfold SFeqb, SFcompare.
  rewrite Z.compare_refl.
  change (Pos.compare_cont Eq m m) with (Pos.compare m m).
  rewrite Pos.compare_refl. by destruct s.
Qed.

Lemma Math_min_cases (a b : float) :
  is_nan a = false -> is_nan b = false -> Math_min a b = a ∨ Math_min a b = b.
Proof.
  intros Ha Hb. unfold Math_min. rewrite Ha, Hb. cbn [orb].
  destruct (a <? b)%float; [by left|].
  destruct (b <? a)%float; [by right|].
  destruct (get_sign a); [by left | by right].
Qed.

Lemma Math_max_cases (a b : float) :
  is_nan a = false -> is_nan b = false -> Math_max a b = a ∨ Math_max a b = b.
Proof.
  intros Ha Hb. unfold Math_max. rewrite Ha, Hb. cbn [orb].
  destruct (a <? b)%float; [by right|].
  destruct (b <? a)%float; [by left|].
  destruct (get_sign a); [by right | by left].
Qed.

(** Clamping keeps a small number small. *)
Lemma clamp255_small (x : float) B :
  8 <= B -> small B (Prim2SF x) -> small B (Prim2SF (clamp255 x)).
Proof.
  intros HB Hx. unfold clamp255.
  assert (H255 : small B (Prim2SF 255))
    by (apply (small_mono 8); [done | by vm_compute]).
  assert (H0 : small B (Prim2SF 0)) by done.
  assert (Hmin : small B (Prim2SF (Math_min 255 x))).
  { destruct (Math_min_cases 255 x) as [-> | ->];
      [done | by apply (is_nan_small x B) | done | done]. }
  destruct (Math_max_cases 0 (Math_min 255 x)) as [-> | ->];
    [done | by apply (is_nan_small _ B) | done | done].
Qed.

(** A channel after contrast and brightness, for integer settings. *)
Lemma adjust_channel_small v ct br :
  is_byte v -> - 2 ^ 63 < ct < 2 ^ 63 -> - 2 ^ 63 < br < 2 ^ 63 ->
  small 300 (Prim2SF (ImageEdit.adjust_channel
                        (ofZ v) (1 + ofZ ct / 100) (1 + ofZ br / 100))).
Proof.
  intros Hv Hct Hbr. unfold ImageEdit.adjust_channel.
  assert (Hemin : emin = -1074) by done.
  apply clamp255_small; [lia|].
  pose proof (factor_small ct Hct) as Hc.
  pose proof (factor_small br Hbr) as Hb.
  pose proof (ofZ_small v Hv) as HV.
  assert (H127 : small 64 (Prim2SF 127.5)) by (by vm_compute).
  rewrite add_spec, !mul_spec, sub_spec.
  unfold SF64add, SF64mul, SF64sub.
  pose proof (SFsub_small _ _ 64 HV H127 ltac:(lia) ltac:(lia)) as H1.
  pose proof (SFmul_small _ _ 66 70 H1 Hc ltac:(lia) ltac:(lia)) as H2.
  pose proof (SFmul_small _ _ 137 70 H2 Hb ltac:(lia) ltac:(lia)) as H3.
  apply (small_mono 210 300); [lia|].
  apply (SFadd_small _ _ 208); [done | by apply (small_mono 64 208) | lia | lia].
Qed.

(** With the saturation at -100 the three channels of a pixel are stored as
    the same byte, whatever the integer settings of contrast and
    brightness. *)
Lemma saturate_zero pr pg pb ct br :
  is_byte pr -> is_byte pg -> is_byte pb ->
  - 2 ^ 63 < ct < 2 ^ 63 -> - 2 ^ 63 < br < 2 ^ 63 ->
  exists r' g' b',
    ImageEdit.saturate
      (ImageEdit.adjust_channel (ofZ pr) (1 + ofZ ct / 100) (1 + ofZ br / 100))
      (ImageEdit.adjust_channel (ofZ pg) (1 + ofZ ct / 100) (1 + ofZ br / 100))
      (ImageEdit.adjust_channel (ofZ pb) (1 + ofZ ct / 100) (1 + ofZ br / 100))
      0 = (r', g', b')
    ∧ toUint8Clamp r' = toUint8Clamp g' ∧ toUint8Clamp g' = toUint8Clamp b'.
Proof.
  intros Hr Hg Hb Hct Hbr.
  apply saturate_zero_small; by apply adjust_channel_small.
Qed.

(** X1. [adjustImageData] keeps the dimensions, the length of the buffer
    and every alpha byte, whatever the three settings; with the three
    settings at 0 it gives back the raster. *)
Theorem adjustImageData_neutral :
  (forall img br ct st,
      let out := ImageEdit.adjustImageData img br ct st in
      width out = width img ∧ height out = height img
      ∧ length (data out) = length (data img)
      ∧ forall j, (j mod 4 = 3)%nat -> data out !! j = data img !! j)
  ∧ (forall img, raster img -> ImageEdit.adjustImageData img 0 0 0 = img).
Proof.
  split.
  - intros img br ct st. split; [done|]. split; [done|].
    split; [apply adjustImageData_length|].
    intros j Hj. by apply adjustImageData_alpha.
  - intros img Hr. pose proof Hr as (Hw & Hh & Hlen & Hb).
    apply ImageData_eq; [done | done | apply adjustImageData_length|].
    intros j Hj. rewrite adjustImageData_data by first [done | lia].
    change (1 + 0 / 100)%float with 1%float.
    unfold adjusted, ImageEdit.saturate.
    change (negb (1 =? 1)%float) with false. cbv iota.
    assert (Hc : forall k, (4 * (j / 4) ≤ k < 4 * (j / 4) + 3)%nat ->
                 Some (toUint8Clamp (ImageEdit.adjust_channel (num (data img) k) 1 1))
                 = data img !! k).
    { intros k Hk.
      destruct (raster_byte img k Hr ltac:(lia)) as (v & Hv & Hbv).
      rewrite (num_Some _ _ _ Hv), adjust_channel_neutral by done.
      by rewrite (proj1 (byte_facts v Hbv)). }
    assert (Hj4 : (j = 4 * (j / 4) + j mod 4)%nat) by lia.
    destruct (j mod 4)%nat as [|[|[|?]]] eqn:Hm; [| | |done].
    + rewrite Nat.add_0_r in Hj4. rewrite Hj4 at 2.
      apply Hc. lia.
    + rewrite Hj4 at 2. apply Hc. lia.
    + rewrite Hj4 at 2. apply Hc. lia.
Qed.

Lemma adjustImageData_neutral_witness :
  let img := mkImageData 1 2 [10; 20; 30; 255; 0; 255; 7; 128] in
  raster img ∧ ImageEdit.adjustImageData img 0 0 0 = img.
Proof.
  assert (Hr : raster (mkImageData 1 2 [10; 20; 30; 255; 0; 255; 7; 128])).
  { unfold raster, bytes, is_byte. simpl. repeat split; try lia.
    repeat constructor; lia. }
  split; [exact Hr|].
  exact (proj2 adjustImageData_neutral _ Hr).
Defined.

(** X2. With the brightness at -100, whatever the contrast and the
    saturation of the sliders (-100 to 100), [adjustImageData] turns every
    colour byte of a raster into 128 (the middle grey 127.5, stored
    rounded), not into black; the alpha bytes stay. *)
Theorem adjustImageData_brightness_min img ct st :
  raster img -> -100 <= ct <= 100 -> -100 <= st <= 100 ->
  forall j, (j < 4 * (width img * height img))%nat ->
    data (ImageEdit.adjustImageData img (ofZ (-100)) (ofZ ct) (ofZ st)) !! j
    = if (j mod 4 =? 3)%nat then data img !! j else Some 128.
Proof.
  intros Hr Hct Hst j Hj.
  rewrite adjustImageData_data by done.
  change (1 + ofZ (-100) / 100)%float with 0%float.
  unfold adjusted.
  assert (Hc : forall k, (k < 4 * (width img * height img))%nat ->
                 ImageEdit.adjust_channel (num (data img) k) (1 + ofZ ct / 100) 0
                 = 127.5%float).
  { intros k Hk.
    destruct (raster_byte img k Hr Hk) as (v & Hv & Hbv).
    rewrite (num_Some _ _ _ Hv). by apply adjust_channel_dark. }
  rewrite !Hc by lia.
  destruct (saturate_grey st Hst) as (r' & g' & b' & -> & -> & -> & ->).
  pose proof (Nat.mod_upper_bound j 4 ltac:(lia)) as Hm.
  destruct (j mod 4)%nat as [|[|[|[|?]]]]; try done. lia.
Qed.

Lemma adjustImageData_brightness_min_witness :
  let img := mkImageData 1 2 [10; 20; 30; 255; 0; 255; 7; 128] in
  raster img
  ∧ data (ImageEdit.adjustImageData img (ofZ (-100)) (ofZ 40) (ofZ (-20)))
    = [128; 128; 128; 255; 128; 128; 128; 128].
Proof.
  assert (Hr : raster (mkImageData 1 2 [10; 20; 30; 255; 0; 255; 7; 128])).
  { unfold raster, bytes, is_byte. simpl. repeat split; try lia.
    repeat constructor; lia. }
  split; [exact Hr|].
  apply list_eq. intros j.
  destruct (decide (j < 8)%nat) as [Hj|Hj].
  - rewrite (adjustImageData_brightness_min _ 40 (-20) Hr ltac:(lia) ltac:(lia) j Hj).
    by do 8 (destruct j as [|j]; [done|]); simpl in Hj; lia.
  - rewrite !lookup_ge_None_2; [done | simpl; lia |].
    rewrite adjustImageData_length. simpl. lia.
Defined.

(** X3. With the saturation at -100, whatever the brightness and the
    contrast of the sliders (-100 to 100), [adjustImageData] makes every
    pixel of a raster grey: its three colour bytes are equal, and its alpha
    byte is the one it had. *)
Theorem adjustImageData_desaturate img br ct p pr pg pb pa :
  raster img -> -100 <= br <= 100 -> -100 <= ct <= 100 ->
  (p < width img * height img)%nat ->
  pixel img p = Some (pr, pg, pb, pa) ->
  exists v,
    is_byte v
    ∧ pixel (ImageEdit.adjustImageData img (ofZ br) (ofZ ct) (ofZ (-100))) p
      = Some (v, v, v, pa).
Proof.
  intros Hr Hbr Hct Hp Hpx.
  destruct (raster_pixel img p Hr Hp)
    as (r' & g' & b' & a' & H0 & H1 & H2 & H3 & Br & Bg & Bb & Ba).
  unfold pixel in Hpx. rewrite H0, H1, H2, H3 in Hpx. simpl in Hpx.
  injection Hpx as <- <- <- <-.
  assert (Hct' : - 2 ^ 63 < ct < 2 ^ 63)
    by (split; [apply Z.lt_trans with (-101) | apply Z.lt_trans with 101];
        first [reflexivity | lia]).
  assert (Hbr' : - 2 ^ 63 < br < 2 ^ 63)
    by (split; [apply Z.lt_trans with (-101) | apply Z.lt_trans with 101];
        first [reflexivity | lia]).
  destruct (saturate_zero r' g' b' ct br Br Bg Bb Hct' Hbr')
    as (x & y & z & Hs & Hxy & Hyz).
  exists (toUint8Clamp x). split; [apply toUint8Clamp_byte|].
  unfold pixel.
  rewrite !adjustImageData_data by first [done | lia].
  change (1 + ofZ (-100) / 100)%float with 0%float.
  unfold adjusted.
  replace ((4 * p) / 4)%nat with p by lia.
  replace ((4 * p + 1) / 4)%nat with p by lia.
  replace ((4 * p + 2) / 4)%nat with p by lia.
  replace ((4 * p + 3) / 4)%nat with p by lia.
  rewrite (num_Some _ _ _ H0), (num_Some _ _ _ H1), (num_Some _ _ _ H2).
  rewrite Hs.
  replace ((4 * p) mod 4)%nat with 0%nat by lia.
  replace ((4 * p + 1) mod 4)%nat with 1%nat by lia.
  replace ((4 * p + 2) mod 4)%nat with 2%nat by lia.
  replace ((4 * p + 3) mod 4)%nat with 3%nat by lia.
  rewrite H3. simpl. by rewrite <- Hyz, <- Hxy.
Qed.

Lemma adjustImageData_desaturate_witness :
  let img := mkImageData 1 2 [250; 3; 3; 255; 0; 255; 7; 128] in
  raster img
  ∧ data (ImageEdit.adjustImageData img (ofZ 20) (ofZ (-30)) (ofZ (-100)))
    = [85; 85; 85; 255; 147; 147; 147; 128]
  ∧ exists v,
      is_byte v
      ∧ pixel (ImageEdit.adjustImageData img (ofZ 20) (ofZ (-30)) (ofZ (-100)))
              0
        = Some (v, v, v, 255).
Proof.
  assert (Hr : raster (mkImageData 1 2 [250; 3; 3; 255; 0; 255; 7; 128])).
  { unfold raster, bytes, is_byte. simpl. repeat split; try lia.
    repeat constructor; lia. }
  split; [exact Hr|]. split; [by vm_compute|].
  exact (adjustImageData_desaturate _ 20 (-30) 0%nat 250 3 3 255 Hr
           ltac:(lia) ltac:(lia) ltac:(simpl; lia) eq_refl).
Defined.

(** X4. [replaceColorInImageData] gives a raster of the same dimensions
    with the alpha bytes it had, and replacing again with the same colours
    and tolerance changes nothing more. *)
Theorem replaceColor_idempotent img fromColor toColor t :
  raster img ->
  let out := ImageEdit.replaceColorInImageData img fromColor toColor t in
  raster out
  ∧ width out = width img ∧ height out = height img
  ∧ (forall j, (j mod 4 = 3)%nat -> data out !! j = data img !! j)
  ∧ ImageEdit.replaceColorInImageData out fromColor toColor t = out.
Proof.
  intros Hr out.
  pose proof (replaceColor_raster img fromColor toColor t Hr) as Hro.
  split; [done|]. split; [done|]. split; [done|].
  split; [intros j Hj; by apply replaceColor_alpha|].
  fold out in Hro.
  apply ImageData_eq; [done | done | apply replaceColor_length|].
  intros j Hj. pose proof Hro as (_ & _ & Hlen & _).
  rewrite replaceColor_data by first [done | lia].
  apply (replaced_fixed _ _ _ (data img) _ (width img * height img)).
  - intros k Hk. by apply replaceColor_data.
  - change (width out) with (width img) in Hlen.
    change (height out) with (height img) in Hlen. lia.
Qed.

Lemma replaceColor_idempotent_witness :
  let img := mkImageData 1 2 [250; 3; 3; 255; 0; 255; 7; 128] in
  let out := ImageEdit.replaceColorInImageData
               img (mkColor 255 0 0) (mkColor 0 0 255) (ofZ 10) in
  raster img
  ∧ data out = [0; 0; 255; 255; 0; 255; 7; 128]
  ∧ ImageEdit.replaceColorInImageData out (mkColor 255 0 0) (mkColor 0 0 255)
      (ofZ 10) = out.
Proof.
  assert (Hr : raster (mkImageData 1 2 [250; 3; 3; 255; 0; 255; 7; 128])).
  { unfold raster, bytes, is_byte. simpl. repeat split; try lia.
    repeat constructor; lia. }
  split; [exact Hr|]. split; [by vm_compute|].
  exact (proj2 (proj2 (proj2 (proj2
    (replaceColor_idempotent _ (mkColor 255 0 0) (mkColor 0 0 255) (ofZ 10) Hr))))).
Defined.

(** X5. For a tolerance that is not negative, [replaceColorInImageData]
    replaces the colour of exactly the pixels of the raster whose colour
    [colorMatches] the colour to replace at that tolerance (whatever their
    alpha), and leaves the other pixels as they are. *)
Theorem replaceColor_pixels img fromColor toColor (t : float) p pr pg pb pa :
  raster img -> is_color toColor -> (t <? 0)%float = false ->
  (p < width img * height img)%nat ->
  pixel img p = Some (pr, pg, pb, pa) ->
  pixel (ImageEdit.replaceColorInImageData img fromColor toColor t) p
  = Some (if colorMatches (ofZ pr) (ofZ pg) (ofZ pb)
                          (ofZ (r fromColor)) (ofZ (g fromColor))
                          (ofZ (b fromColor)) t
          then (r toColor, g toColor, b toColor, pa)
          else (pr, pg, pb, pa)).
Proof. apply replaceColor_pixel_at. Qed.

Lemma replaceColor_pixels_witness :
  let img := mkImageData 1 2 [250; 3; 3; 255; 0; 255; 7; 128] in
  raster img
  ∧ pixel (ImageEdit.replaceColorInImageData
             img (mkColor 255 0 0) (mkColor 0 0 255) (ofZ 10)) 0
    = Some (0, 0, 255, 255).
Proof.
  assert (Hr : raster (mkImageData 1 2 [250; 3; 3; 255; 0; 255; 7; 128])).
  { unfold raster, bytes, is_byte. simpl. repeat split; try lia.
    repeat constructor; lia. }
  split; [exact Hr|].
  rewrite (replaceColor_pixels _ (mkColor 255 0 0) (mkColor 0 0 255) (ofZ 10)
             0%nat 250 3 3 255 Hr);
    [by vm_compute | unfold is_color, is_byte; simpl; lia | by vm_compute
    | simpl; lia | done].
Defined.

(** ** [mergePaintOverlay] *)

Lemma check_alpha_over_ok :
  ltac:(let t := eval unfold PaintChecks.check_alpha_over
                 in (PaintChecks.check_alpha_over = true) in exact t).
Proof. vm_compute. reflexivity. Qed.

Lemma check_hidden_ok :
  ltac:(let t := eval unfold PaintChecks.check_hidden
                 in (PaintChecks.check_hidden = true) in exact t).
Proof. vm_compute. reflexivity. Qed.

Lemma check_opaque_new_ok :
  ltac:(let t := eval unfold PaintChecks.check_opaque_new
                 in (PaintChecks.check_opaque_new = true) in exact t).
Proof. vm_compute. reflexivity. Qed.

Lemma check_transparent_new_ok :
  ltac:(let t := eval unfold PaintChecks.check_transparent_new
                 in (PaintChecks.check_transparent_new = true) in exact t).
Proof. vm_compute. reflexivity. Qed.

Lemma alpha_over na ea :
  is_byte na -> is_byte ea ->
  let a := toUint8Clamp
             (Math_round (255 * (ofZ na / 255 + ofZ ea / 255 * (1 - ofZ na / 255)))%float) in
  na <= a ∧ ea <= a.
Proof.
  unfold is_byte. intros Hn He. rewrite !ofZ_F by lia.
  pose proof (all_below_sound _ _ check_alpha_over_ok ltac:(lia) na ltac:(lia)) as H.
  cbv beta in H.
  pose proof (all_below_sound _ _ H ltac:(lia) ea ltac:(lia)) as H'.
  cbv beta zeta in H'. rewrite !to_of_Z_small in H' by lia.
  apply andb_prop in H' as [H1 H2]. cbv zeta. lia.
Qed.

Lemma hidden_paint e ea :
  is_byte e -> is_byte ea -> (ofZ e * (ofZ ea / 255) * 0 = 0)%float.
Proof.
  unfold is_byte. intros He Ha. rewrite !ofZ_F by lia.
  apply float_eq_of_eqb.
  pose proof (all_below_sound _ _ check_hidden_ok ltac:(lia) e ltac:(lia)) as H.
  exact (all_below_sound _ _ H ltac:(lia) ea ltac:(lia)).
Qed.

Lemma opaque_new n :
  is_byte n ->
  (ofZ n * 1 + 0 = ofZ n)%float ∧ (ofZ n * 0 = 0)%float
  ∧ (255 * (1 + ofZ n / 255 * 0) = 255)%float.
Proof.
  unfold is_byte. intros Hn. rewrite !ofZ_F by lia.
  pose proof (all_below_sound _ _ check_opaque_new_ok ltac:(lia) n ltac:(lia)) as H.
  cbv beta in H.
  apply andb_prop in H as [H H3]. apply andb_prop in H as [H1 H2].
  split; [|split]; by apply float_eq_of_eqb.
Qed.

Lemma transparent_new e ea :
  is_byte e -> is_byte ea ->
  toUint8Clamp (0 + ofZ e * (ofZ ea / 255) * 1)%float = premultiplied e ea
  ∧ toUint8Clamp (Math_round (255 * (0 + ofZ ea / 255 * 1))%float) = ea.
Proof.
  unfold is_byte. intros He Ha. rewrite !ofZ_F by lia.
  pose proof (all_below_sound _ _ check_transparent_new_ok ltac:(lia) e ltac:(lia)) as H.
  cbv beta in H.
  pose proof (all_below_sound _ _ H ltac:(lia) ea ltac:(lia)) as H'.
  cbv beta in H'. rewrite !to_of_Z_small in H' by lia.
  apply andb_prop in H' as [H1 H2]. by apply Z.eqb_eq in H1, H2.
Qed.

Section MergeLoop.

Local Open Scope nat_scope.

Variable existing : option (list Z).
Variable newData : list Z.

Lemma merge_px_lookup out p j :
  4 * p + 3 < length out ->
  ImageEdit.merge_px existing newData out (4 * p) !! j
  = if decide (4 * p ≤ j < 4 * p + 4) then merged existing newData j
    else out !! j.
Proof.
  intros Hl. unfold ImageEdit.merge_px, merged.
  destruct existing as [ex|].
  - destruct (decide (4 * p ≤ j < 4 * p + 4)) as [Hj|Hj].
    + replace (j / 4) with p by lia.
      rewrite !store_lookup, !length_store.
      assert (j = 4 * p ∨ j = 4 * p + 1 ∨ j = 4 * p + 2 ∨ j = 4 * p + 3)
        as [-> | [-> | [-> | ->]]] by lia.
      * replace (4 * p mod 4) with 0 by lia.
        repeat case_decide; try lia; done.
      * replace ((4 * p + 1) mod 4) with 1 by lia.
        repeat case_decide; try lia; done.
      * replace ((4 * p + 2) mod 4) with 2 by lia.
        repeat case_decide; try lia; done.
      * replace ((4 * p + 3) mod 4) with 3 by lia.
        repeat case_decide; try lia; done.
    + rewrite !store_lookup. repeat case_decide; try lia; done.
  - unfold copy4. rewrite !store_lookup, !length_store.
    destruct (decide (4 * p ≤ j < 4 * p + 4)) as [Hj|Hj].
    + assert (j = 4 * p ∨ j = 4 * p + 1 ∨ j = 4 * p + 2 ∨ j = 4 * p + 3)
        as [-> | [-> | [-> | ->]]] by lia;
        repeat case_decide; try lia; done.
    + repeat case_decide; try lia; done.
Qed.

Lemma length_merge_px out i :
  length (ImageEdit.merge_px existing newData out i) = length out.
Proof.
  unfold ImageEdit.merge_px. destruct existing.
  - by rewrite !length_store.
  - apply length_copy4.
Qed.

Lemma mergePaintOverlay_length w h :
  length (ImageEdit.mergePaintOverlay existing newData w h) = w * h * 4.
Proof.
  unfold ImageEdit.mergePaintOverlay.
  rewrite fold_length by (intros; apply length_merge_px).
  apply length_replicate.
Qed.

Lemma mergePaintOverlay_lookup w h j :
  j < w * h * 4 ->
  ImageEdit.mergePaintOverlay existing newData w h !! j
  = merged existing newData j.
Proof.
  intros Hj. unfold ImageEdit.mergePaintOverlay.
  rewrite for_range_4.
  replace ((w * h * 4 + 3) / 4) with (w * h) by lia.
  destruct (pixel_fold (ImageEdit.merge_px existing newData)
              (replicate (w * h * 4) 0%Z) (merged existing newData) (w * h))
    as [_ H].
  - intros cur p Hp Hc _. rewrite length_replicate in Hc.
    split; [by rewrite length_merge_px, length_replicate|].
    intros k. apply merge_px_lookup. lia.
  - rewrite H. by rewrite decide_True by lia.
Qed.

End MergeLoop.

(** Whatever is merged, the paint is a buffer of bytes. *)
Lemma mergePaintOverlay_bytes existing newData w h :
  bytes (ImageEdit.mergePaintOverlay existing newData w h).
Proof.
  apply Forall_lookup_2. intros j v Hv.
  assert (Hj : (j < w * h * 4)%nat).
  { apply lookup_lt_Some in Hv. by rewrite mergePaintOverlay_length in Hv. }
  rewrite mergePaintOverlay_lookup in Hv by done.
  unfold merged in Hv. destruct existing as [ex|].
  - destruct (j mod 4)%nat as [|[|[|[|?]]]]; injection Hv as <-;
      apply toUint8Clamp_byte.
  - injection Hv as <-. apply toUint8Clamp_byte.
Qed.

(** X6. [mergePaintOverlay] always returns [w * h * 4] bytes; when the
    layer has no paint yet, it returns the new paint itself. *)
Theorem mergePaintOverlay_first_paint :
  (forall existing newData w h,
      length (ImageEdit.mergePaintOverlay existing newData w h) = (w * h * 4)%nat
      ∧ bytes (ImageEdit.mergePaintOverlay existing newData w h))
  ∧ (forall newData w h,
       bytes newData -> length newData = (w * h * 4)%nat ->
       ImageEdit.mergePaintOverlay None newData w h = newData).
Proof.
  split.
  - intros. split; [apply mergePaintOverlay_length|apply mergePaintOverlay_bytes].
  - intros newData w h Hb Hl. apply list_eq. intros j.
    destruct (decide (j < w * h * 4)%nat) as [Hj|Hj].
    + rewrite mergePaintOverlay_lookup by done. unfold merged.
      destruct (lookup_lt_is_Some_2 newData j) as [v Hv]; [lia|].
      rewrite (num_Some _ _ _ Hv), Hv. f_equal.
      by apply byte_facts, (bytes_lookup newData j).
    + rewrite !lookup_ge_None_2; [done | lia |].
      rewrite mergePaintOverlay_length. lia.
Qed.

Lemma mergePaintOverlay_first_paint_witness :
  bytes [9; 8; 7; 100; 0; 0; 0; 0]
  ∧ ImageEdit.mergePaintOverlay None [9; 8; 7; 100; 0; 0; 0; 0] 2 1
    = [9; 8; 7; 100; 0; 0; 0; 0].
Proof.
  assert (Hb : bytes [9; 8; 7; 100; 0; 0; 0; 0]).
  { unfold bytes, is_byte. repeat constructor; lia. }
  split; [exact Hb|].
  by apply (proj2 mergePaintOverlay_first_paint).
Defined.

(** X7. New paint merged over existing paint: the alpha of a pixel is at
    least the alpha of the new paint and that of the existing paint there;
    where the new paint is opaque the pixel is the new one; where the new
    paint is fully transparent the pixel keeps the existing alpha, and each
    colour byte [e] of the existing paint becomes [e] scaled by that alpha
    (the nearest integer to [e * alpha / 255]), so the colour is kept only
    where the existing paint is opaque. *)
Theorem mergePaintOverlay_over existing newData w h p nr ng nb na er eg eb ea :
  bytes existing -> bytes newData -> (p < w * h)%nat ->
  pixel (mkImageData w h newData) p = Some (nr, ng, nb, na) ->
  pixel (mkImageData w h existing) p = Some (er, eg, eb, ea) ->
  exists cr cg cb ca,
    pixel (mkImageData w h
             (ImageEdit.mergePaintOverlay (Some existing) newData w h)) p
    = Some (cr, cg, cb, ca)
    ∧ na <= ca ∧ ea <= ca
    ∧ (na = 255 -> (cr, cg, cb, ca) = (nr, ng, nb, 255))
    ∧ (na = 0 ->
       (cr, cg, cb, ca)
       = (premultiplied er ea, premultiplied eg ea, premultiplied eb ea, ea))
    ∧ (na = 0 -> ea = 255 -> (cr, cg, cb, ca) = (er, eg, eb, 255)).
Proof.
  intros Hbe Hbn Hp Hn He. unfold pixel in *. cbn [data] in *.
  destruct (newData !! (4 * p)%nat) as [nr'|] eqn:N0; [|done].
  destruct (newData !! (4 * p + 1)%nat) as [ng'|] eqn:N1; [|done].
  destruct (newData !! (4 * p + 2)%nat) as [nb'|] eqn:N2; [|done].
  destruct (newData !! (4 * p + 3)%nat) as [na'|] eqn:N3; [|done].
  destruct (existing !! (4 * p)%nat) as [er'|] eqn:E0; [|done].
  destruct (existing !! (4 * p + 1)%nat) as [eg'|] eqn:E1; [|done].
  destruct (existing !! (4 * p + 2)%nat) as [eb'|] eqn:E2; [|done].
  destruct (existing !! (4 * p + 3)%nat) as [ea'|] eqn:E3; [|done].
  simpl in Hn, He. injection Hn as <- <- <- <-. injection He as <- <- <- <-.
  pose proof (bytes_lookup _ _ _ Hbn N0) as Bn0.
  pose proof (bytes_lookup _ _ _ Hbn N1) as Bn1.
  pose proof (bytes_lookup _ _ _ Hbn N2) as Bn2.
  pose proof (bytes_lookup _ _ _ Hbn N3) as Bn3.
  pose proof (bytes_lookup _ _ _ Hbe E0) as Be0.
  pose proof (bytes_lookup _ _ _ Hbe E1) as Be1.
  pose proof (bytes_lookup _ _ _ Hbe E2) as Be2.
  pose proof (bytes_lookup _ _ _ Hbe E3) as Be3.
  rewrite !mergePaintOverlay_lookup by lia. unfold merged.
  replace ((4 * p) / 4)%nat with p by lia.
  replace ((4 * p + 1) / 4)%nat with p by lia.
  replace ((4 * p + 2) / 4)%nat with p by lia.
  replace ((4 * p + 3) / 4)%nat with p by lia.
  replace ((4 * p) mod 4)%nat with 0%nat by lia.
  replace ((4 * p + 1) mod 4)%nat with 1%nat by lia.
  replace ((4 * p + 2) mod 4)%nat with 2%nat by lia.
  replace ((4 * p + 3) mod 4)%nat with 3%nat by lia.
  rewrite (num_Some _ _ _ N0), (num_Some _ _ _ N1), (num_Some _ _ _ N2),
    (num_Some _ _ _ N3), (num_Some _ _ _ E0), (num_Some _ _ _ E1),
    (num_Some _ _ _ E2), (num_Some _ _ _ E3).
  cbn [mbind option_bind].
  eexists _, _, _, _. split; [reflexivity|].
  destruct (alpha_over na' ea' Bn3 Be3) as [Ha1 Ha2].
  split; [exact Ha1|]. split; [exact Ha2|].
  split; [|split].
  - intros ->.
    change (ofZ 255 / 255)%float with 1%float.
    change (1 - 1)%float with 0%float.
    rewrite !hidden_paint by done.
    rewrite (proj1 (opaque_new nr' Bn0)), (proj1 (opaque_new ng' Bn1)),
      (proj1 (opaque_new nb' Bn2)).
    rewrite (proj2 (proj2 (opaque_new ea' Be3))).
    rewrite (proj1 (byte_facts nr' Bn0)), (proj1 (byte_facts ng' Bn1)),
      (proj1 (byte_facts nb' Bn2)).
    by vm_compute.
  - intros ->.
    change (ofZ 0 / 255)%float with 0%float.
    change (1 - 0)%float with 1%float.
    rewrite (proj1 (proj2 (opaque_new nr' Bn0))),
      (proj1 (proj2 (opaque_new ng' Bn1))),
      (proj1 (proj2 (opaque_new nb' Bn2))).
    rewrite (proj1 (transparent_new er' ea' Be0 Be3)),
      (proj1 (transparent_new eg' ea' Be1 Be3)),
      (proj1 (transparent_new eb' ea' Be2 Be3)).
    by rewrite (proj2 (transparent_new er' ea' Be0 Be3)).
  - intros -> ->.
    change (ofZ 0 / 255)%float with 0%float.
    change (1 - 0)%float with 1%float.
    rewrite (proj1 (proj2 (opaque_new nr' Bn0))),
      (proj1 (proj2 (opaque_new ng' Bn1))),
      (proj1 (proj2 (opaque_new nb' Bn2))).
    rewrite (proj1 (transparent_new er' 255 Be0 Be3)),
      (proj1 (transparent_new eg' 255 Be1 Be3)),
      (proj1 (transparent_new eb' 255 Be2 Be3)).
    rewrite (proj2 (transparent_new er' 255 Be0 Be3)).
    unfold premultiplied, is_byte in *.
    repeat f_equal; lia.
Qed.

Lemma mergePaintOverlay_over_witness :
  bytes [200; 100; 50; 128] ∧ bytes [9; 8; 7; 0]
  ∧ exists cr cg cb ca,
      pixel (mkImageData 1 1
               (ImageEdit.mergePaintOverlay (Some [200; 100; 50; 128])
                                            [9; 8; 7; 0] 1 1)) 0
      = Some (cr, cg, cb, ca)
      ∧ (cr, cg, cb, ca) = (100, 50, 25, 128).
Proof.
  assert (Hbe : bytes [200; 100; 50; 128]).
  { unfold bytes, is_byte. repeat constructor; lia. }
  assert (Hbn : bytes [9; 8; 7; 0]).
  { unfold bytes, is_byte. repeat constructor; lia. }
  split; [exact Hbe|]. split; [exact Hbn|].
  destruct (mergePaintOverlay_over [200; 100; 50; 128] [9; 8; 7; 0] 1 1 0
              9 8 7 0 200 100 50 128 Hbe Hbn ltac:(lia) eq_refl eq_refl)
    as (cr & cg & cb & ca & Hpx & _ & _ & _ & Ht & _).
  exists cr, cg, cb, ca. split; [exact Hpx|]. exact (Ht eq_refl).
Defined.

(** ** The export of a layer, pixel by pixel *)

Section ExportLoop.

Local Open Scope nat_scope.

Variable img : ImageData.
Variable layer : Layer.
Hypothesis Hr : raster img.

Lemma export_px_lookup cur p j :
  p < width img * height img -> length cur = length (data img) ->
  (forall k, 4 * p ≤ k < 4 * p + 4 -> cur !! k = Some 0%Z) ->
  export_px (data img) layer cur (4 * p) !! j
  = if decide (4 * p ≤ j < 4 * p + 4)
    then (if shown img layer (j / 4) then data img !! j else Some 0%Z)
    else cur !! j.
Proof.
  intros Hp Hl Hz. destruct Hr as (Hw & Hh & Hlen & Hb).
  unfold export_px. replace (4 * p / 4) with p by lia.
  fold (shown img layer p).
  destruct (decide (4 * p ≤ j < 4 * p + 4)) as [Hj|Hj].
  - replace (j / 4) with p by lia.
    destruct (shown img layer p).
    + rewrite copy4_lookup by first [done | lia].
      rewrite decide_True by lia. f_equal. lia.
    + by apply Hz.
  - destruct (shown img layer p); [|done].
    rewrite copy4_lookup by first [done | lia].
    by rewrite decide_False by lia.
Qed.

Lemma length_export_px src cur i :
  length (export_px src layer cur i) = length cur.
Proof.
  unfold export_px. destruct (_ && _ && _); [apply length_copy4|done].
Qed.

Lemma export_data out :
  exportLayerToImageData img layer = Some out ->
  width out = width img ∧ height out = height img
  ∧ length (data out) = length (data img)
  ∧ forall j, j < 4 * (width img * height img) ->
      data out !! j
      = if shown img layer (j / 4) then data img !! j else Some 0%Z.
Proof.
  pose proof Hr as (Hw & Hh & Hlen & Hb).
  unfold exportLayerToImageData.
  rewrite new_ImageData_pos by done. cbn [mbind option_bind data].
  intros [= <-]. cbn [width height data].
  change ((width img + (width img + (width img + (width img + 0)))) * height img)
    with (4 * width img * height img).
  rewrite (for_range_raster img Hr).
  destruct (pixel_fold (export_px (data img) layer)
              (replicate (4 * width img * height img) 0%Z)
              (fun j => if shown img layer (j / 4) then data img !! j
                        else Some 0%Z)
              (width img * height img)) as [H1 H2].
  - intros cur p Hp Hc Hagree. rewrite length_replicate in Hc.
    split; [by rewrite length_export_px, length_replicate|].
    intros j. apply export_px_lookup; [done | congruence |].
    intros k Hk. rewrite Hagree by lia.
    apply lookup_replicate_2. lia.
  - rewrite length_replicate in H1.
    split; [done|]. split; [done|]. split; [by rewrite H1, Hlen|].
    intros j Hj. rewrite H2. by rewrite decide_True by done.
Qed.

Lemma export_Some :
  exists out, exportLayerToImageData img layer = Some out.
Proof.
  destruct Hr as (Hw & Hh & _). unfold exportLayerToImageData.
  rewrite new_ImageData_pos by done. by eexists.
Qed.

End ExportLoop.

Lemma export_raster img layer out :
  raster img -> exportLayerToImageData img layer = Some out -> raster out.
Proof.
  intros Hr He. pose proof Hr as (Hw & Hh & Hlen & Hb).
  destruct (export_data img layer Hr out He) as (Ew & Eh & El & Ed).
  split; [lia|]. split; [lia|]. split; [rewrite Ew, Eh; lia|].
  apply Forall_lookup_2. intros j v Hv.
  assert (Hj : (j < 4 * (width img * height img))%nat).
  { apply lookup_lt_Some in Hv. lia. }
  rewrite Ed in Hv by done.
  destruct (shown img layer (j / 4)); [by eapply bytes_lookup|].
  injection Hv as <-. unfold is_byte. lia.
Qed.

(** The tests of a layer read the three colour bytes and the alpha byte
    of the pixel. *)
Lemma shown_ext img img' layer p :
  (forall k, (4 * p ≤ k < 4 * p + 4)%nat -> data img' !! k = data img !! k) ->
  shown img' layer p = shown img layer p.
Proof.
  intros H. unfold shown, layer_matches, num.
  by rewrite !H by lia.
Qed.

(** A fully transparent pixel is not shown. *)
Lemma shown_transparent img layer p :
  data img !! (4 * p + 3)%nat = Some 0 -> shown img layer p = false.
Proof.
  intros H. unfold shown. rewrite (num_Some _ _ _ H).
  change (0 <? ofZ 0)%float with false. by rewrite andb_false_r.
Qed.

(** ** The reconstruction, pixel by pixel *)

Lemma check_blend_opaque_ok :
  ltac:(let t := eval unfold BlendChecks.check_blend_opaque
                 in (BlendChecks.check_blend_opaque = true) in exact t).
Proof. vm_compute. reflexivity. Qed.

Lemma blend_opaque v :
  is_byte v ->
  toUint8Clamp (Math_round ((ofZ v * 1 + 0 * 0 * (1 - 1)) / 1)%float) = v
  ∧ toUint8Clamp (Math_round ((ofZ v * 1 + ofZ v * 1 * (1 - 1)) / 1)%float) = v.
Proof.
  unfold is_byte. intros Hv. rewrite !ofZ_F by lia.
  pose proof (all_below_sound _ _ check_blend_opaque_ok ltac:(lia) v ltac:(lia)) as H.
  cbv beta in H. rewrite !to_of_Z_small in H by lia.
  apply andb_prop in H as [H1 H2]. by apply Z.eqb_eq in H1, H2.
Qed.

Lemma existsb_reverse {A} (f : A -> bool) (l : list A) :
  existsb f (reverse l) = existsb f l.
Proof.
  induction l as [|a l IH]; [done|].
  rewrite reverse_cons, existsb_app, IH. cbn [existsb].
  by rewrite orb_false_r, orb_comm.
Qed.

Section Reconstruct.

Local Open Scope nat_scope.

Variable img : ImageData.
Hypothesis Hr : raster img.
Hypothesis Ho : opaque img.

Lemma num_store_ne (a : list Z) k k' v :
  k ≠ k' -> num (store a k v) k' = num a k'.
Proof.
  intros Hne. unfold num, store. by rewrite list_lookup_insert_ne.
Qed.

Lemma contribution_no_paint layer p :
  paintData layer = None ->
  contribution (data img) layer (4 * p)
  = if shown img layer p
    then (num (data img) (4 * p), num (data img) (4 * p + 1),
          num (data img) (4 * p + 2), num (data img) (4 * p + 3))
    else (0, 0, 0, 0)%float.
Proof.
  intros Hpd. unfold contribution. rewrite Hpd.
  replace (4 * p / 4) with p by lia. fold (shown img layer p).
  by destruct (shown img layer p).
Qed.

Lemma blend_hidden layer p result :
  paintData layer = None -> shown img layer p = false ->
  blend (data img) (4 * p) result layer = result.
Proof.
  intros Hpd Hs. unfold blend.
  by rewrite (contribution_no_paint layer p Hpd), Hs.
Qed.

(** A shown pixel of an opaque raster blended over a pixel of the result
    that is still empty, or that already holds it. *)
Lemma blend_shown layer p result :
  p < width img * height img ->
  paintData layer = None -> shown img layer p = true ->
  length result = length (data img) ->
  (forall k, 4 * p ≤ k < 4 * p + 4 -> result !! k = Some 0%Z)
  ∨ (forall k, 4 * p ≤ k < 4 * p + 4 -> result !! k = data img !! k) ->
  length (blend (data img) (4 * p) result layer) = length (data img)
  ∧ forall j, blend (data img) (4 * p) result layer !! j
              = if decide (4 * p ≤ j < 4 * p + 4) then data img !! j
                else result !! j.
Proof.
  intros Hp Hpd Hs Hl Hcase.
  destruct (raster_pixel img p Hr Hp)
    as (v0 & v1 & v2 & v3 & H0 & H1 & H2 & H3 & B0 & B1 & B2 & B3).
  pose proof (Ho p Hp) as Ha. rewrite H3 in Ha. injection Ha as ->.
  destruct Hr as (Hw & Hh & Hlen & Hb).
  unfold blend. rewrite (contribution_no_paint layer p Hpd), Hs.
  rewrite (num_Some _ _ _ H0), (num_Some _ _ _ H1), (num_Some _ _ _ H2),
    (num_Some _ _ _ H3).
  change (0 <? ofZ 255)%float with true. cbv iota.
  change (ofZ 255 / 255)%float with 1%float.
  rewrite !num_store_ne by lia.
  assert (Hfin : forall a0 a1 a2 : float,
             toUint8Clamp a0 = v0 -> toUint8Clamp a1 = v1 ->
             toUint8Clamp a2 = v2 ->
             length (store (store (store (store result (4 * p) a0) (4 * p + 1) a1)
                                  (4 * p + 2) a2) (4 * p + 3)
                           (Math_round (1 * 255))) = length (data img)
             ∧ forall j,
                 store (store (store (store result (4 * p) a0) (4 * p + 1) a1)
                              (4 * p + 2) a2) (4 * p + 3)
                       (Math_round (1 * 255)) !! j
                 = if decide (4 * p ≤ j < 4 * p + 4) then data img !! j
                   else result !! j).
  { intros a0 a1 a2 E0 E1 E2. split; [by rewrite !length_store|].
    intros j. rewrite !store_lookup, !length_store, E0, E1, E2.
    change (toUint8Clamp (Math_round (1 * 255))) with 255%Z.
    repeat case_decide; destruct_and?; subst; try lia;
      rewrite ?H0, ?H1, ?H2, ?H3; try done. }
  destruct Hcase as [Hz|Hsame].
  - rewrite (num_Some result (4 * p) 0), (num_Some result (4 * p + 1) 0),
      (num_Some result (4 * p + 2) 0), (num_Some result (4 * p + 3) 0)
      by (apply Hz; lia).
    change (ofZ 0) with 0%float.
    change (0 / 255)%float with 0%float.
    change (1 + 0 * (1 - 1))%float with 1%float.
    change (0 <? 1)%float with true. cbv iota.
    apply Hfin; by apply blend_opaque.
  - rewrite (num_Some result (4 * p) v0), (num_Some result (4 * p + 1) v1),
      (num_Some result (4 * p + 2) v2), (num_Some result (4 * p + 3) 255)
      by (rewrite Hsame by lia; done).
    change (ofZ 255 / 255)%float with 1%float.
    change (1 + 1 * (1 - 1))%float with 1%float.
    change (0 <? 1)%float with true. cbv iota.
    apply Hfin; by apply blend_opaque.
Qed.

(** The layers blended one after the other into pixel [p]. *)
Lemma blend_fold p (L : list Layer) result :
  p < width img * height img ->
  Forall (fun l => paintData l = None) L ->
  length result = length (data img) ->
  (forall k, 4 * p ≤ k < 4 * p + 4 -> result !! k = Some 0%Z)
  ∨ (forall k, 4 * p ≤ k < 4 * p + 4 -> result !! k = data img !! k) ->
  length (foldl (blend (data img) (4 * p)) result L) = length (data img)
  ∧ forall j, foldl (blend (data img) (4 * p)) result L !! j
              = if decide (4 * p ≤ j < 4 * p + 4)
                then (if existsb (fun l => shown img l p) L then data img !! j
                      else result !! j)
                else result !! j.
Proof.
  intros Hp HL. revert result.
  induction HL as [|l L Hpd HL IH]; intros result Hl Hcase.
  - split; [done|]. intros j. cbn [foldl existsb]. by case_decide.
  - cbn [foldl existsb]. destruct (shown img l p) eqn:Hs.
    + destruct (blend_shown l p result Hp Hpd Hs Hl Hcase) as [Bl Bk].
      destruct (IH (blend (data img) (4 * p) result l) Bl) as [IHl IHk].
      { right. intros k Hk. rewrite Bk. by rewrite decide_True by done. }
      split; [done|]. intros j. rewrite IHk, Bk. cbn [orb].
      case_decide; [|done]. by destruct (existsb _ L).
    + rewrite (blend_hidden l p result Hpd Hs). cbn [orb]. by apply IH.
Qed.

Lemma reconstruct_fold (L : list Layer) :
  Forall (fun l => paintData l = None) L ->
  let res :=
    foldl (fun result i => foldl (blend (data img) i) result L)
          (replicate (width img * height img * 4) 0%Z)
          (for_range (width img * height img * 4) 4) in
  length res = 4 * width img * height img
  ∧ forall j, j < 4 * (width img * height img) ->
      res !! j
      = if existsb (fun l => shown img l (j / 4)) L then data img !! j
        else Some 0%Z.
Proof.
  intros HL. cbv zeta. pose proof Hr as (Hw & Hh & Hlen & Hb).
  rewrite for_range_4.
  replace ((width img * height img * 4 + 3) / 4) with (width img * height img)
    by lia.
  destruct (pixel_fold
              (fun result i => foldl (blend (data img) i) result L)
              (replicate (width img * height img * 4) 0%Z)
              (fun j => if existsb (fun l => shown img l (j / 4)) L
                        then data img !! j else Some 0%Z)
              (width img * height img)) as [H1 H2].
  - intros cur p Hp Hc Hagree. rewrite length_replicate in Hc.
    assert (Hz : forall k, 4 * p ≤ k < 4 * p + 4 -> cur !! k = Some 0%Z).
    { intros k Hk. rewrite Hagree by lia. apply lookup_replicate_2. lia. }
    destruct (blend_fold p L cur Hp HL ltac:(lia) (or_introl Hz)) as [Fl Fk].
    split; [rewrite length_replicate; lia|].
    intros j. rewrite Fk. case_decide; [|done].
    replace (j / 4) with p by lia.
    destruct (existsb _ L); [done|]. by apply Hz.
  - rewrite length_replicate in H1. split; [lia|].
    intros j Hj. rewrite H2. by rewrite decide_True by done.
Qed.

End Reconstruct.

(** X8. On a raster, [exportLayerToImageData] returns a raster of the same
    dimensions in which a pixel is the pixel of the source when the layer's
    mask keeps it, its colour matches the layer and its alpha is not 0, and
    is transparent black otherwise; a layer whose mask is [null] gives a
    fully transparent raster. *)
Theorem exportLayer_pixels img layer :
  raster img ->
  exists out,
    exportLayerToImageData img layer = Some out
    ∧ raster out ∧ width out = width img ∧ height out = height img
    ∧ (forall p, (p < width img * height img)%nat ->
         pixel out p
         = if shown img layer p then pixel img p else Some (0, 0, 0, 0))
    ∧ (mask layer = None ->
       data out = replicate (4 * width img * height img) 0).
Proof.
  intros Hr. destruct (export_Some img layer Hr) as [out He].
  exists out. split; [done|].
  pose proof (export_raster img layer out Hr He) as Hro.
  destruct (export_data img layer Hr out He) as (Ew & Eh & El & Ed).
  split; [done|]. split; [done|]. split; [done|]. split.
  - intros p Hp. unfold pixel. rewrite !Ed by lia.
    replace ((4 * p) / 4)%nat with p by lia.
    replace ((4 * p + 1) / 4)%nat with p by lia.
    replace ((4 * p + 2) / 4)%nat with p by lia.
    replace ((4 * p + 3) / 4)%nat with p by lia.
    by destruct (shown img layer p).
  - intros Hm. destruct Hr as (Hw & Hh & Hlen & Hb).
    apply list_eq. intros j.
    destruct (decide (j < 4 * (width img * height img))%nat) as [Hj|Hj].
    + rewrite Ed by done. unfold shown, mask_keeps. rewrite Hm.
      cbn [andb]. symmetry. apply lookup_replicate_2. lia.
    + rewrite !lookup_ge_None_2; [done | rewrite length_replicate; lia | lia].
Qed.

Lemma exportLayer_pixels_witness :
  let img := mkImageData 1 2 [255; 0; 0; 255; 3; 200; 77; 255] in
  let layer := mkLayer "a" (mkColor 250 5 5) "#fa0505" true (Some 10)
                       (Some [1; 1]) None in
  raster img
  ∧ exists out,
      exportLayerToImageData img layer = Some out
      ∧ pixel out 0 = Some (255, 0, 0, 255)
      ∧ pixel out 1 = Some (0, 0, 0, 0).
Proof.
  assert (Hr : raster (mkImageData 1 2 [255; 0; 0; 255; 3; 200; 77; 255])).
  { unfold raster, bytes, is_byte. simpl. repeat split; try lia.
    repeat constructor; lia. }
  split; [exact Hr|].
  destruct (exportLayer_pixels
              (mkImageData 1 2 [255; 0; 0; 255; 3; 200; 77; 255])
              (mkLayer "a" (mkColor 250 5 5) "#fa0505" true (Some 10)
                       (Some [1; 1]) None) Hr)
    as (out & He & _ & _ & _ & Hpx & _).
  exists out. split; [exact He|]. split.
  - rewrite (Hpx 0%nat) by (simpl; lia). by vm_compute.
  - rewrite (Hpx 1%nat) by (simpl; lia). by vm_compute.
Defined.

(** X9. Exporting a layer from its own export gives the export again. *)
Theorem exportLayer_idempotent img layer out :
  raster img ->
  exportLayerToImageData img layer = Some out ->
  exportLayerToImageData out layer = Some out.
Proof.
  intros Hr He.
  pose proof (export_raster img layer out Hr He) as Hro.
  destruct (export_data img layer Hr out He) as (Ew & Eh & El & Ed).
  destruct (export_Some out layer Hro) as [out2 He2].
  destruct (export_data out layer Hro out2 He2) as (Ew2 & Eh2 & El2 & Ed2).
  rewrite He2. f_equal.
  apply ImageData_eq; [done | done | done |].
  intros j Hj. pose proof Hro as (_ & _ & Hlen & _).
  rewrite Ed2 by lia.
  destruct (shown out layer (j / 4)) eqn:Hs2; [done|].
  rewrite Ed by lia.
  destruct (shown img layer (j / 4)) eqn:Hs; [|done].
  exfalso. rewrite (shown_ext img out) in Hs2; [congruence|].
  intros k Hk. rewrite Ed by lia.
  replace (k / 4)%nat with (j / 4)%nat by lia. by rewrite Hs.
Qed.

Lemma exportLayer_idempotent_witness :
  let img := mkImageData 1 2 [255; 0; 0; 255; 3; 200; 77; 255] in
  let layer := mkLayer "a" (mkColor 250 5 5) "#fa0505" true (Some 10)
                       (Some [1; 1]) None in
  let out := mkImageData 1 2 [255; 0; 0; 255; 0; 0; 0; 0] in
  raster img
  ∧ exportLayerToImageData img layer = Some out
  ∧ exportLayerToImageData out layer = Some out.
Proof.
  assert (Hr : raster (mkImageData 1 2 [255; 0; 0; 255; 3; 200; 77; 255])).
  { unfold raster, bytes, is_byte. simpl. repeat split; try lia.
    repeat constructor; lia. }
  assert (He : exportLayerToImageData
                 (mkImageData 1 2 [255; 0; 0; 255; 3; 200; 77; 255])
                 (mkLayer "a" (mkColor 250 5 5) "#fa0505" true (Some 10)
                          (Some [1; 1]) None)
               = Some (mkImageData 1 2 [255; 0; 0; 255; 0; 0; 0; 0]))
    by (by vm_compute).
  split; [exact Hr|]. split; [exact He|].
  exact (exportLayer_idempotent _ _ _ Hr He).
Defined.

(** X10. On a raster whose pixels all have alpha 255, with layers that
    carry no paint, [exportReconstructedImageData] returns a raster of the
    same dimensions in which a pixel is the pixel of the source when at
    least one selected layer shows it (its mask keeps the pixel and its
    colour matches), and is transparent black otherwise. *)
Theorem exportReconstructed_opaque img layers (ids : gset string) :
  raster img -> opaque img ->
  Forall (fun l => paintData l = None) layers ->
  exists out,
    exportReconstructedImageData img layers ids = Some out
    ∧ width out = width img ∧ height out = height img
    ∧ length (data out) = (4 * width img * height img)%nat
    ∧ forall p, (p < width img * height img)%nat ->
        pixel out p
        = if existsb (fun l => shown img l p)
                     (filter (fun l => id l ∈ ids) layers)
          then pixel img p else Some (0, 0, 0, 0).
Proof.
  intros Hr Ho Hpd. pose proof Hr as (Hw & Hh & Hlen & Hb).
  unfold exportReconstructedImageData.
  set (selected := filter (fun l => id l ∈ ids) layers).
  assert (Hsel : Forall (fun l => paintData l = None) selected).
  { apply Forall_forall. intros l Hl.
    apply list_elem_of_filter in Hl as [_ Hl].
    by eapply (proj1 (Forall_forall _ _) Hpd). }
  destruct selected as [|l0 sel] eqn:Esel.
  - cbn [length Nat.eqb]. rewrite new_ImageData_pos by done.
    eexists. split; [reflexivity|]. cbn [width height data].
    split; [done|]. split; [done|]. split; [by rewrite length_replicate|].
    intros p Hp. cbn [existsb]. unfold pixel. cbn [data].
    rewrite !lookup_replicate_2 by lia. done.
  - change (length (l0 :: sel) =? 0)%nat with false. cbv iota.
    assert (Hrev : Forall (fun l => paintData l = None) (reverse (l0 :: sel))).
    { by apply Forall_reverse. }
    destruct (reconstruct_fold img Hr Ho (reverse (l0 :: sel)) Hrev) as [Fl Fk].
    rewrite ImageData_of_Some by done.
    eexists. split; [reflexivity|]. cbn [width height data].
    split; [done|]. split; [done|]. split; [done|].
    intros p Hp. unfold pixel. cbn [data]. rewrite !Fk by lia.
    replace ((4 * p) / 4)%nat with p by lia.
    replace ((4 * p + 1) / 4)%nat with p by lia.
    replace ((4 * p + 2) / 4)%nat with p by lia.
    replace ((4 * p + 3) / 4)%nat with p by lia.
    rewrite existsb_reverse.
    by destruct (existsb _ (l0 :: sel)).
Qed.

Lemma exportReconstructed_opaque_witness :
  let img := mkImageData 1 2 [255; 0; 0; 255; 3; 200; 77; 255] in
  let layers := [mkLayer "a" (mkColor 250 5 5) "#fa0505" true (Some 10)
                         (Some [1; 1]) None;
                 mkLayer "b" (mkColor 0 200 80) "#00c850" true (Some 10)
                         (Some [1; 1]) None] in
  raster img ∧ opaque img
  ∧ exists out,
      exportReconstructedImageData img layers {["a"; "b"]} = Some out
      ∧ pixel out 0 = Some (255, 0, 0, 255)
      ∧ pixel out 1 = Some (3, 200, 77, 255).
Proof.
  assert (Hr : raster (mkImageData 1 2 [255; 0; 0; 255; 3; 200; 77; 255])).
  { unfold raster, bytes, is_byte. simpl. repeat split; try lia.
    repeat constructor; lia. }
  assert (Ho : opaque (mkImageData 1 2 [255; 0; 0; 255; 3; 200; 77; 255])).
  { intros p Hp. simpl in Hp. destruct p as [|[|p]]; [done | done | lia]. }
  split; [exact Hr|]. split; [exact Ho|].
  destruct (exportReconstructed_opaque
              (mkImageData 1 2 [255; 0; 0; 255; 3; 200; 77; 255])
              [mkLayer "a" (mkColor 250 5 5) "#fa0505" true (Some 10)
                       (Some [1; 1]) None;
               mkLayer "b" (mkColor 0 200 80) "#00c850" true (Some 10)
                       (Some [1; 1]) None]
              {["a"; "b"]} Hr Ho)
    as (out & He & _ & _ & _ & Hpx).
  { by repeat constructor. }
  exists out. split; [exact He|]. split.
  - rewrite (Hpx 0%nat) by (simpl; lia). by vm_compute.
  - rewrite (Hpx 1%nat) by (simpl; lia). by vm_compute.
Defined.

(** ** Flips, crops and their compositions *)

Section Flips.

Local Open Scope nat_scope.

Lemma flipImageData_lookup img hz vt y x c :
  raster img -> y < height img -> x < width img -> c < 4 ->
  data (flipImageData img hz vt) !! ((y * width img + x) * 4 + c)
  = data img !! (((if vt then height img - 1 - y else y) * width img
                  + (if hz then width img - 1 - x else x)) * 4 + c).
Proof.
  intros (Hw & Hh & Hl & Hb) Hy Hx Hc. unfold flipImageData. cbn [data].
  set (sp := fun y x => (if vt then height img - 1 - y else y) * width img
                        + (if hz then width img - 1 - x else x)).
  rewrite (pixel_scan_lookup (fun y x => y * width img + x) sp); try done.
  - assert (Hs : sp y x * 4 + c < 4 * width img * height img).
    { unfold sp. apply byte_index_lt; [destruct vt; lia | destruct hz; lia | done]. }
    destruct (lookup_lt_is_Some_2 (data img) (sp y x * 4 + c)) as [v Hv]; [lia|].
    fold (sp y x). rewrite Hv. f_equal.
    apply clamp_num; [done | by eapply bytes_lookup].
  - intros. by eapply row_major_inj.
  - rewrite Hl. pose proof (byte_index_lt (width img) (height img) y x 3). lia.
Qed.

Lemma flipImageData_raster img hz vt :
  raster img -> raster (flipImageData img hz vt).
Proof.
  intros Hr. pose proof Hr as (Hw & Hh & Hl & Hb).
  split; [done|]. split; [done|].
  split; [by rewrite flipImageData_length|].
  apply Forall_lookup_2. intros k v Hv.
  assert (Hk : k < 4 * width img * height img).
  { apply lookup_lt_Some in Hv. rewrite flipImageData_length in Hv. lia. }
  destruct (byte_index_split _ _ k Hk) as (y & x & c & Hy & Hx & Hc & ->).
  rewrite flipImageData_lookup in Hv by done.
  by eapply bytes_lookup.
Qed.

Lemma flipImageData_twice img hz vt :
  raster img -> flipImageData (flipImageData img hz vt) hz vt = img.
Proof.
  intros Hr. pose proof Hr as (Hw & Hh & Hl & Hb).
  pose proof (flipImageData_raster img hz vt Hr) as Hr1.
  apply ImageData_eq; [done | done | by rewrite !flipImageData_length|].
  intros k Hk.
  destruct (byte_index_split (width img) (height img) k ltac:(lia))
    as (y & x & c & Hy & Hx & Hc & ->).
  pose proof (flipImageData_lookup (flipImageData img hz vt) hz vt y x c
                Hr1 Hy Hx Hc) as H2.
  change (width (flipImageData img hz vt)) with (width img) in H2.
  change (height (flipImageData img hz vt)) with (height img) in H2.
  rewrite H2.
  rewrite flipImageData_lookup by (try done; destruct vt, hz; lia).
  destruct vt, hz; repeat f_equal; lia.
Qed.

Lemma flipImageData_none img :
  raster img -> flipImageData img false false = img.
Proof.
  intros Hr. pose proof Hr as (Hw & Hh & Hl & Hb).
  apply ImageData_eq; [done | done | by rewrite !flipImageData_length|].
  intros k Hk.
  destruct (byte_index_split (width img) (height img) k ltac:(lia))
    as (y & x & c & Hy & Hx & Hc & ->).
  by rewrite flipImageData_lookup.
Qed.

Lemma flipMask_lookup (mask : list Z) w h hz vt y x :
  length mask = w * h -> y < h -> x < w ->
  flipMask mask w h hz vt !! (y * w + x)
  = Some (toUint8 (mask !! ((if vt then h - 1 - y else y) * w
                            + (if hz then w - 1 - x else x)))).
Proof.
  intros Hl Hy Hx. unfold flipMask.
  apply (mask_scan_lookup (fun y x => y * w + x)
           (fun y x => (if vt then h - 1 - y else y) * w
                       + (if hz then w - 1 - x else x))); try done.
  - intros. by eapply row_major_inj.
  - rewrite Hl, (Nat.mul_comm w h). by apply row_major_lt.
Qed.

Lemma flipMask_bytes_lookup (mask : list Z) w h hz vt y x :
  length mask = w * h -> bytes mask -> y < h -> x < w ->
  flipMask mask w h hz vt !! (y * w + x)
  = mask !! ((if vt then h - 1 - y else y) * w
             + (if hz then w - 1 - x else x)).
Proof.
  intros Hl Hb Hy Hx. rewrite flipMask_lookup by done.
  set (k := (if vt then h - 1 - y else y) * w + (if hz then w - 1 - x else x)).
  assert (Hk : k < h * w).
  { unfold k. apply row_major_lt; [destruct vt; lia | destruct hz; lia]. }
  destruct (lookup_lt_is_Some_2 mask k) as [v Hv]; [lia|].
  rewrite Hv. f_equal. rewrite <- Hv. by apply toUint8_byte.
Qed.

Lemma flipMask_bytes (mask : list Z) w h hz vt :
  length mask = w * h -> bytes mask -> bytes (flipMask mask w h hz vt).
Proof.
  intros Hl Hb. apply Forall_lookup_2. intros k v Hv.
  assert (Hk : k < h * w).
  { apply lookup_lt_Some in Hv. rewrite flipMask_length in Hv. lia. }
  destruct (row_major_split w h k Hk) as (y & x & Hy & Hx & ->).
  rewrite flipMask_bytes_lookup in Hv by done.
  by eapply bytes_lookup.
Qed.

Lemma flipMask_none (mask : list Z) w h :
  length mask = w * h -> bytes mask -> flipMask mask w h false false = mask.
Proof.
  intros Hl Hb. apply list_eq. intros k.
  destruct (decide (k < h * w)) as [Hk|Hk].
  - destruct (row_major_split w h k Hk) as (y & x & Hy & Hx & ->).
    by rewrite flipMask_bytes_lookup.
  - rewrite !lookup_ge_None_2; [done | lia |].
    rewrite flipMask_length. lia.
Qed.

Lemma flipMask_twice (mask : list Z) w h hz vt :
  length mask = w * h -> bytes mask ->
  flipMask (flipMask mask w h hz vt) w h hz vt = mask.
Proof.
  intros Hl Hb. apply list_eq. intros k.
  destruct (decide (k < h * w)) as [Hk|Hk].
  - destruct (row_major_split w h k Hk) as (y & x & Hy & Hx & ->).
    rewrite flipMask_bytes_lookup;
      [| by rewrite flipMask_length | by apply flipMask_bytes | done | done].
    rewrite flipMask_bytes_lookup by (try done; destruct vt, hz; lia).
    destruct vt, hz; repeat f_equal; lia.
  - rewrite !lookup_ge_None_2; [done | lia |].
    rewrite !flipMask_length. lia.
Qed.

(** *** A flip on both axes is a half turn *)

Lemma rotate_180_flip img :
  raster img ->
  rotateImageData img 180 = Some (flipImageData img true true).
Proof.
  intros Hr. pose proof Hr as (Hw & Hh & Hl & Hb).
  destruct (rotateImageData_180_Some img Hw Hh Hl) as (d & -> & Hld & Hd).
  f_equal. symmetry.
  apply ImageData_eq; [done | done | by rewrite flipImageData_length; cbn; lia|].
  cbn [data]. intros k Hk.
  destruct (byte_index_split (width img) (height img) k ltac:(lia))
    as (y & x & c & Hy & Hx & Hc & ->).
  rewrite flipImageData_lookup by done.
  specialize (Hd (height img - 1 - y) (width img - 1 - x) c
                 ltac:(lia) ltac:(lia) Hc).
  replace (height img - 1 - (height img - 1 - y)) with y in Hd by lia.
  replace (width img - 1 - (width img - 1 - x)) with x in Hd by lia.
  rewrite Hd.
  set (k := ((height img - 1 - y) * width img + (width img - 1 - x)) * 4 + c).
  assert (Hk' : k < 4 * width img * height img).
  { unfold k. apply byte_index_lt; lia. }
  destruct (lookup_lt_is_Some_2 (data img) k) as [v Hv]; [lia|].
  rewrite Hv. f_equal. symmetry.
  apply clamp_num; [done | by eapply bytes_lookup].
Qed.

Lemma rotateMask_180_flip (mask : list Z) w h :
  length mask = w * h ->
  rotateMask mask w h 180 = flipMask mask w h true true.
Proof.
  intros Hl. apply list_eq. intros k.
  destruct (decide (k < h * w)) as [Hk|Hk].
  - destruct (row_major_split w h k Hk) as (y & x & Hy & Hx & ->).
    rewrite flipMask_lookup by done.
    pose proof (rotateMask_180_lookup mask w h (h - 1 - y) (w - 1 - x) Hl
                  ltac:(lia) ltac:(lia)) as H.
    replace (h - 1 - (h - 1 - y)) with y in H by lia.
    replace (w - 1 - (w - 1 - x)) with x in H by lia.
    done.
  - rewrite !lookup_ge_None_2; [done | rewrite flipMask_length; lia |].
    rewrite rotateMask_length.
    change ((180 =? 90) || (180 =? -90))%Z with false. cbv iota. lia.
Qed.

End Flips.

Section Turns.

Local Open Scope nat_scope.

(** A quarter turn clockwise, on any buffer of the right length. *)
Lemma rotateImageData_90_stored img :
  0 < width img -> 0 < height img ->
  length (data img) = 4 * width img * height img ->
  exists d, rotateImageData img 90 = Some (mkImageData (height img) (width img) d)
    ∧ length d = 4 * width img * height img
    ∧ forall y x c, y < height img -> x < width img -> c < 4 ->
        d !! ((x * height img + (height img - 1 - y)) * 4 + c)
        = Some (toUint8Clamp (num (data img) ((y * width img + x) * 4 + c))).
Proof.
  intros Hw Hh Hl. rewrite rotateImageData_90_eq.
  eexists. split; [apply ImageData_of_Some; [done | done |]|split].
  - rewrite length_pixel_scan, length_replicate. lia.
  - rewrite length_pixel_scan, length_replicate. lia.
  - intros y x c Hy Hx Hc.
    rewrite (pixel_scan_lookup (fun y x => x * height img + (height img - 1 - y))
                               (fun y x => y * width img + x)); try done.
    + intros. by eapply dst90_inj.
    + rewrite length_replicate, Hl.
      pose proof (byte_index_lt (height img) (width img) x (height img - 1 - y) 3).
      lia.
Qed.

Lemma clamp_stored (d : list Z) k v :
  d !! k = Some (toUint8Clamp v) -> toUint8Clamp (num d k) = toUint8Clamp v.
Proof.
  intros H. rewrite (num_Some _ _ _ H).
  apply byte_facts, toUint8Clamp_byte.
Qed.

Lemma rotate_90_90 img :
  raster img ->
  rotateImageData img 90 ≫= (fun r => rotateImageData r 90)
  = rotateImageData img 180.
Proof.
  intros (Hw & Hh & Hl & Hb).
  destruct (rotateImageData_90_stored img Hw Hh Hl) as (d1 & -> & Hl1 & H1).
  cbn [mbind option_bind].
  destruct (rotateImageData_90_stored (mkImageData (height img) (width img) d1))
    as (d2 & -> & Hl2 & H2); cbn [width height data]; [done | done | lia |].
  cbn [width height data] in *.
  destruct (rotateImageData_180_Some img Hw Hh Hl) as (d3 & -> & Hl3 & H3).
  do 2 f_equal. apply list_eq. intros k.
  destruct (decide (k < 4 * width img * height img)) as [Hk|Hk].
  - destruct (byte_index_split (width img) (height img) k Hk)
      as (y' & x' & c & Hy' & Hx' & Hc & ->).
    specialize (H3 (height img - 1 - y') (width img - 1 - x') c
                   ltac:(lia) ltac:(lia) Hc).
    replace (height img - 1 - (height img - 1 - y')) with y' in H3 by lia.
    replace (width img - 1 - (width img - 1 - x')) with x' in H3 by lia.
    rewrite H3.
    specialize (H2 (width img - 1 - x') y' c ltac:(lia) ltac:(lia) Hc).
    replace (width img - 1 - (width img - 1 - x')) with x' in H2 by lia.
    rewrite H2. f_equal.
    specialize (H1 (height img - 1 - y') (width img - 1 - x') c
                   ltac:(lia) ltac:(lia) Hc).
    replace (height img - 1 - (height img - 1 - y')) with y' in H1 by lia.
    by apply clamp_stored.
  - rewrite !lookup_ge_None_2; [done | lia | lia].
Qed.

Lemma rotate_m90_m90 img :
  raster img ->
  rotateImageData img (-90) ≫= (fun r => rotateImageData r (-90))
  = rotateImageData img 180.
Proof.
  intros (Hw & Hh & Hl & Hb).
  destruct (rotateImageData_m90_Some img Hw Hh Hl) as (d1 & -> & Hl1 & H1).
  cbn [mbind option_bind].
  destruct (rotateImageData_m90_Some (mkImageData (height img) (width img) d1))
    as (d2 & -> & Hl2 & H2); cbn [width height data]; [done | done | lia |].
  cbn [width height data] in *.
  destruct (rotateImageData_180_Some img Hw Hh Hl) as (d3 & -> & Hl3 & H3).
  do 2 f_equal. apply list_eq. intros k.
  destruct (decide (k < 4 * width img * height img)) as [Hk|Hk].
  - destruct (byte_index_split (width img) (height img) k Hk)
      as (y' & x' & c & Hy' & Hx' & Hc & ->).
    specialize (H3 (height img - 1 - y') (width img - 1 - x') c
                   ltac:(lia) ltac:(lia) Hc).
    replace (height img - 1 - (height img - 1 - y')) with y' in H3 by lia.
    replace (width img - 1 - (width img - 1 - x')) with x' in H3 by lia.
    rewrite H3.
    specialize (H2 x' (height img - 1 - y') c ltac:(lia) ltac:(lia) Hc).
    replace (height img - 1 - (height img - 1 - y')) with y' in H2 by lia.
    rewrite H2. f_equal.
    specialize (H1 (height img - 1 - y') (width img - 1 - x') c
                   ltac:(lia) ltac:(lia) Hc).
    replace (width img - 1 - (width img - 1 - x')) with x' in H1 by lia.
    by apply clamp_stored.
  - rewrite !lookup_ge_None_2; [done | lia | lia].
Qed.

Lemma toUint8_stored (m : list Z) k v :
  m !! k = Some (toUint8 v) -> toUint8 (m !! k) = toUint8 v.
Proof.
  intros ->. cbn [toUint8]. destruct v as [z|]; cbn [toUint8]; [|done].
  apply Z.mod_mod. lia.
Qed.

Lemma rotateMask_90_90 (mask : list Z) w h :
  length mask = w * h ->
  rotateMask (rotateMask mask w h 90) h w 90 = rotateMask mask w h 180.
Proof.
  intros Hl. apply list_eq. intros k.
  destruct (decide (k < h * w)) as [Hk|Hk].
  - destruct (row_major_split w h k Hk) as (y' & x' & Hy' & Hx' & ->).
    pose proof (rotateMask_180_lookup mask w h (h - 1 - y') (w - 1 - x') Hl
                  ltac:(lia) ltac:(lia)) as H3.
    replace (h - 1 - (h - 1 - y')) with y' in H3 by lia.
    replace (w - 1 - (w - 1 - x')) with x' in H3 by lia.
    rewrite H3.
    pose proof (rotateMask_90_lookup (rotateMask mask w h 90) h w
                  (w - 1 - x') y' ltac:(lia) ltac:(lia)) as H2.
    replace (w - 1 - (w - 1 - x')) with x' in H2 by lia.
    rewrite H2. f_equal.
    pose proof (rotateMask_90_lookup mask w h (h - 1 - y') (w - 1 - x')
                  ltac:(lia) ltac:(lia)) as H1.
    replace (h - 1 - (h - 1 - y')) with y' in H1 by lia.
    by apply toUint8_stored.
  - rewrite !lookup_ge_None_2; [done | |].
    + rewrite rotateMask_length.
      change ((180 =? 90) || (180 =? -90))%Z with false. cbv iota. lia.
    + rewrite rotateMask_length.
      change ((90 =? 90) || (90 =? -90))%Z with true. cbv iota. lia.
Qed.

Lemma rotateMask_m90_m90 (mask : list Z) w h :
  length mask = w * h ->
  rotateMask (rotateMask mask w h (-90)) h w (-90) = rotateMask mask w h 180.
Proof.
  intros Hl. apply list_eq. intros k.
  destruct (decide (k < h * w)) as [Hk|Hk].
  - destruct (row_major_split w h k Hk) as (y' & x' & Hy' & Hx' & ->).
    pose proof (rotateMask_180_lookup mask w h (h - 1 - y') (w - 1 - x') Hl
                  ltac:(lia) ltac:(lia)) as H3.
    replace (h - 1 - (h - 1 - y')) with y' in H3 by lia.
    replace (w - 1 - (w - 1 - x')) with x' in H3 by lia.
    rewrite H3.
    pose proof (rotateMask_m90_lookup (rotateMask mask w h (-90)) h w
                  x' (h - 1 - y') ltac:(lia) ltac:(lia)) as H2.
    replace (h - 1 - (h - 1 - y')) with y' in H2 by lia.
    rewrite H2. f_equal.
    pose proof (rotateMask_m90_lookup mask w h (h - 1 - y') (w - 1 - x')
                  ltac:(lia) ltac:(lia)) as H1.
    replace (w - 1 - (w - 1 - x')) with x' in H1 by lia.
    by apply toUint8_stored.
  - rewrite !lookup_ge_None_2; [done | |].
    + rewrite rotateMask_length.
      change ((180 =? 90) || (180 =? -90))%Z with false. cbv iota. lia.
    + rewrite rotateMask_length.
      change ((-90 =? 90) || (-90 =? -90))%Z with true. cbv iota. lia.
Qed.

(** *** An angle that is none of 90, -90 and 180 *)

Lemma rotateMask_other (mask : list Z) w h degrees :
  degrees ≠ 90%Z -> degrees ≠ (-90)%Z -> degrees ≠ 180%Z ->
  rotateMask mask w h degrees = replicate (length mask) 0%Z.
Proof.
  intros H90 Hm90 H180. unfold rotateMask.
  rewrite (proj2 (Z.eqb_neq _ _) H90), (proj2 (Z.eqb_neq _ _) Hm90),
    (proj2 (Z.eqb_neq _ _) H180).
  cbn [orb].
  generalize (replicate (length mask) 0%Z). intros out.
  assert (Hin : forall (xs : list nat) (o : list Z),
             foldl (fun o' _ => o') o xs = o).
  { induction xs as [|x xs IH]; intros o; [done|]. cbn [foldl]. apply IH. }
  induction (seq 0 h) as [|y ys IH] in out |- *; [done|].
  cbn [foldl]. rewrite Hin. apply IH.
Qed.

End Turns.

Section Crops.

Local Open Scope nat_scope.

Lemma cropImageData_stored img rect :
  0 < rwidth rect -> 0 < rheight rect ->
  exists d,
    cropImageData img rect = Some (mkImageData (rwidth rect) (rheight rect) d)
    ∧ length d = 4 * rwidth rect * rheight rect
    ∧ forall dy dx c, dy < rheight rect -> dx < rwidth rect -> c < 4 ->
        d !! ((dy * rwidth rect + dx) * 4 + c)
        = Some (toUint8Clamp
                  (num (data img)
                       (((y rect + dy) * width img + (x rect + dx)) * 4 + c))).
Proof.
  intros Hw Hh. unfold cropImageData.
  rewrite new_ImageData_pos by done. cbn [mbind option_bind data].
  change ((rwidth rect + (rwidth rect + (rwidth rect + (rwidth rect + 0))))
          * rheight rect) with (4 * rwidth rect * rheight rect).
  eexists. split; [reflexivity|]. split.
  - rewrite (length_pixel_scan (fun dy dx => dy * rwidth rect + dx)
               (fun dy dx => (y rect + dy) * width img + (x rect + dx))).
    by rewrite length_replicate.
  - intros dy dx c Hdy Hdx Hc.
    rewrite (pixel_scan_lookup (fun dy dx => dy * rwidth rect + dx)
               (fun dy dx => (y rect + dy) * width img + (x rect + dx)));
      try done.
    + intros. by eapply row_major_inj.
    + rewrite length_replicate.
      pose proof (byte_index_lt (rwidth rect) (rheight rect) dy dx 3). lia.
Qed.

(** Inside the image the crop copies the bytes of the rectangle. *)
Lemma cropImageData_inside img rect :
  raster img -> in_bounds rect (width img) (height img) ->
  0 < rwidth rect -> 0 < rheight rect ->
  exists d,
    cropImageData img rect = Some (mkImageData (rwidth rect) (rheight rect) d)
    ∧ length d = 4 * rwidth rect * rheight rect
    ∧ forall dy dx c, dy < rheight rect -> dx < rwidth rect -> c < 4 ->
        d !! ((dy * rwidth rect + dx) * 4 + c)
        = data img !! (((y rect + dy) * width img + (x rect + dx)) * 4 + c).
Proof.
  intros (Hw & Hh & Hl & Hb) [Hx Hy] Hrw Hrh.
  destruct (cropImageData_stored img rect Hrw Hrh) as (d & He & Hld & Hd).
  exists d. split; [done|]. split; [done|].
  intros dy dx c Hdy Hdx Hc. rewrite Hd by done.
  set (k := ((y rect + dy) * width img + (x rect + dx)) * 4 + c).
  assert (Hk : k < 4 * width img * height img).
  { unfold k. apply byte_index_lt; lia. }
  destruct (lookup_lt_is_Some_2 (data img) k) as [v Hv]; [lia|].
  rewrite Hv. f_equal. apply clamp_num; [done | by eapply bytes_lookup].
Qed.

Lemma cropImageData_raster img rect out :
  raster img -> in_bounds rect (width img) (height img) ->
  0 < rwidth rect -> 0 < rheight rect ->
  cropImageData img rect = Some out -> raster out.
Proof.
  intros Hr Hin Hrw Hrh He. pose proof Hr as (Hw & Hh & Hl & Hb).
  destruct (cropImageData_inside img rect Hr Hin Hrw Hrh)
    as (d & He' & Hld & Hd).
  rewrite He' in He. injection He as <-.
  split; [done|]. split; [done|]. split; [done|]. cbn [data].
  apply Forall_lookup_2. intros k v Hv.
  assert (Hk : k < 4 * rwidth rect * rheight rect).
  { apply lookup_lt_Some in Hv. lia. }
  destruct (byte_index_split _ _ k Hk) as (dy & dx & c & Hdy & Hdx & Hc & ->).
  rewrite Hd in Hv by done. by eapply bytes_lookup.
Qed.

Lemma cropImageData_full img :
  raster img ->
  cropImageData img (mkRect 0 0 (width img) (height img)) = Some img.
Proof.
  intros Hr. pose proof Hr as (Hw & Hh & Hl & Hb).
  destruct (cropImageData_inside img (mkRect 0 0 (width img) (height img)) Hr)
    as (d & -> & Hld & Hd); [by split; cbn; lia | done | done |].
  cbn [rwidth rheight x y] in *. f_equal.
  apply ImageData_eq; [done | done | cbn; lia|]. cbn [data].
  intros k Hk.
  destruct (byte_index_split (width img) (height img) k ltac:(lia))
    as (dy & dx & c & Hdy & Hdx & Hc & ->).
  by rewrite Hd.
Qed.

Lemma cropImageData_compose img r1 r2 :
  raster img -> in_bounds r1 (width img) (height img) ->
  in_bounds r2 (rwidth r1) (rheight r1) ->
  0 < rwidth r2 -> 0 < rheight r2 ->
  cropImageData img r1 ≫= (fun o => cropImageData o r2)
  = cropImageData img (mkRect (x r1 + x r2) (y r1 + y r2)
                              (rwidth r2) (rheight r2)).
Proof.
  intros Hr Hin1 Hin2 Hw2 Hh2. pose proof Hr as (Hw & Hh & Hl & Hb).
  pose proof Hin1 as [Hx1 Hy1]. pose proof Hin2 as [Hx2 Hy2].
  assert (Hw1 : 0 < rwidth r1) by lia. assert (Hh1 : 0 < rheight r1) by lia.
  destruct (cropImageData_inside img r1 Hr Hin1 Hw1 Hh1)
    as (d1 & He1 & Hl1 & Hd1).
  pose proof (cropImageData_raster img r1 _ Hr Hin1 Hw1 Hh1 He1) as Hr1.
  rewrite He1. cbn [mbind option_bind].
  destruct (cropImageData_inside _ r2 Hr1 Hin2 Hw2 Hh2)
    as (d2 & -> & Hl2 & Hd2).
  destruct (cropImageData_inside img
              (mkRect (x r1 + x r2) (y r1 + y r2) (rwidth r2) (rheight r2)) Hr)
    as (d3 & -> & Hl3 & Hd3); [by split; cbn; lia | done | done |].
  cbn [rwidth rheight x y width height data] in *.
  do 2 f_equal. apply list_eq. intros k.
  destruct (decide (k < 4 * rwidth r2 * rheight r2)) as [Hk|Hk].
  - destruct (byte_index_split _ _ k Hk) as (dy & dx & c & Hdy & Hdx & Hc & ->).
    rewrite Hd2, Hd3 by done. rewrite Hd1 by lia.
    do 2 f_equal. lia.
  - rewrite !lookup_ge_None_2; [done | lia | lia].
Qed.

Lemma cropMask_lookup (mask : list Z) srcWidth rect dy dx :
  dy < rheight rect -> dx < rwidth rect ->
  cropMask mask srcWidth rect !! (dy * rwidth rect + dx)
  = Some (toUint8 (mask !! ((y rect + dy) * srcWidth + (x rect + dx)))).
Proof.
  intros Hdy Hdx. unfold cropMask.
  apply (mask_scan_lookup (fun dy dx => dy * rwidth rect + dx)
           (fun dy dx => (y rect + dy) * srcWidth + (x rect + dx))); try done.
  - intros. by eapply row_major_inj.
  - rewrite length_replicate, (Nat.mul_comm (rwidth rect)).
    by apply row_major_lt.
Qed.

Lemma cropMask_inside (mask : list Z) w h rect dy dx :
  length mask = w * h -> bytes mask -> in_bounds rect w h ->
  dy < rheight rect -> dx < rwidth rect ->
  cropMask mask w rect !! (dy * rwidth rect + dx)
  = mask !! ((y rect + dy) * w + (x rect + dx)).
Proof.
  intros Hl Hb [Hx Hy] Hdy Hdx. rewrite cropMask_lookup by done.
  set (k := (y rect + dy) * w + (x rect + dx)).
  assert (Hk : k < h * w) by (unfold k; apply row_major_lt; lia).
  destruct (lookup_lt_is_Some_2 mask k) as [v Hv]; [lia|].
  rewrite Hv. f_equal. rewrite <- Hv. by apply toUint8_byte.
Qed.

Lemma cropMask_whole (mask : list Z) w h :
  length mask = w * h -> bytes mask ->
  cropMask mask w (mkRect 0 0 w h) = mask.
Proof.
  intros Hl Hb. apply list_eq. intros k.
  destruct (decide (k < h * w)) as [Hk|Hk].
  - destruct (row_major_split w h k Hk) as (dy & dx & Hdy & Hdx & ->).
    pose proof (cropMask_inside mask w h (mkRect 0 0 w h) dy dx Hl Hb) as H.
    cbn [x y rwidth rheight Nat.add] in H. apply H; [split; cbn; lia | done | done].
  - rewrite !lookup_ge_None_2; [done | lia |].
    rewrite cropMask_length. cbn. lia.
Qed.

(** Two pixels with the same four bytes. *)
Lemma pixel_eq (a b : ImageData) p q :
  (forall c, c < 4 -> data a !! (p * 4 + c) = data b !! (q * 4 + c)) ->
  pixel a p = pixel b q.
Proof.
  intros H. unfold pixel.
  replace (4 * p) with (p * 4 + 0) by lia.
  replace (4 * q) with (q * 4 + 0) by lia.
  rewrite <- !Nat.add_assoc. cbn [Nat.add].
  by rewrite !H by lia.
Qed.

End Crops.

(** X11. Flipping a raster twice along the same axes gives back the
    raster, and a flip along no axis changes nothing; the same holds of
    [flipMask] on a mask of the raster's dimensions. *)
Theorem flip_involution :
  (forall img hz vt,
      raster img ->
      flipImageData (flipImageData img hz vt) hz vt = img
      ∧ flipImageData img false false = img)
  ∧ (forall (mask : list Z) (w h : nat) hz vt,
       length mask = (w * h)%nat -> bytes mask ->
       flipMask (flipMask mask w h hz vt) w h hz vt = mask
       ∧ flipMask mask w h false false = mask).
Proof.
  split.
  - intros img hz vt Hr.
    split; [by apply flipImageData_twice | by apply flipImageData_none].
  - intros mask w h hz vt Hl Hb.
    split; [by apply flipMask_twice | by apply flipMask_none].
Qed.

Lemma flip_involution_witness :
  let img := mkImageData 2 1 [1; 2; 3; 255; 4; 5; 6; 128] in
  raster img
  ∧ data (flipImageData img true false) = [4; 5; 6; 128; 1; 2; 3; 255]
  ∧ flipImageData (flipImageData img true false) true false = img
  ∧ bytes [1; 0; 0; 1; 1; 0]
  ∧ flipMask [1; 0; 0; 1; 1; 0] 3 2 true false = [0; 0; 1; 0; 1; 1]
  ∧ flipMask (flipMask [1; 0; 0; 1; 1; 0] 3 2 true false) 3 2 true false
    = [1; 0; 0; 1; 1; 0]
  ∧ flipMask [1; 0; 0; 1; 1; 0] 3 2 false false = [1; 0; 0; 1; 1; 0].
Proof.
  assert (Hr : raster (mkImageData 2 1 [1; 2; 3; 255; 4; 5; 6; 128])).
  { unfold raster, bytes, is_byte. simpl. repeat split; try lia.
    repeat constructor; lia. }
  assert (Hb : bytes [1; 0; 0; 1; 1; 0]).
  { unfold bytes, is_byte. repeat constructor; lia. }
  split; [exact Hr|]. split; [by vm_compute|].
  split; [exact (proj1 (proj1 flip_involution _ true false Hr))|].
  split; [exact Hb|]. split; [by vm_compute|].
  exact (proj2 flip_involution [1; 0; 0; 1; 1; 0] 3%nat 2%nat true false
           eq_refl Hb).
Defined.

(** X12. A flip along both axes is the half turn: [rotateImageData] by 180
    degrees returns what [flipImageData] with both flags gives, and
    [rotateMask] by 180 degrees what [flipMask] with both flags gives. *)
Theorem flip_both_is_half_turn :
  (forall img, raster img ->
      rotateImageData img 180 = Some (flipImageData img true true))
  ∧ (forall (mask : list Z) (w h : nat),
       length mask = (w * h)%nat ->
       rotateMask mask w h 180 = flipMask mask w h true true).
Proof.
  split.
  - intros img Hr. by apply rotate_180_flip.
  - intros mask w h Hl. by apply rotateMask_180_flip.
Qed.

Lemma flip_both_is_half_turn_witness :
  let img := mkImageData 2 1 [1; 2; 3; 255; 4; 5; 6; 128] in
  raster img
  ∧ rotateImageData img 180 = Some (flipImageData img true true)
  ∧ rotateMask [1; 0; 0; 1; 1; 1] 3 2 180
    = flipMask [1; 0; 0; 1; 1; 1] 3 2 true true.
Proof.
  assert (Hr : raster (mkImageData 2 1 [1; 2; 3; 255; 4; 5; 6; 128])).
  { unfold raster, bytes, is_byte. simpl. repeat split; try lia.
    repeat constructor; lia. }
  split; [exact Hr|]. split.
  - exact (proj1 flip_both_is_half_turn _ Hr).
  - by apply (proj2 flip_both_is_half_turn).
Defined.

(** X13. Two quarter turns in the same direction are the half turn, for
    [rotateImageData] on a raster and for [rotateMask] on a mask of its
    dimensions. *)
Theorem quarter_turns_compose :
  (forall img, raster img ->
      rotateImageData img 90 ≫= (fun r => rotateImageData r 90)
      = rotateImageData img 180
      ∧ rotateImageData img (-90) ≫= (fun r => rotateImageData r (-90))
        = rotateImageData img 180)
  ∧ (forall (mask : list Z) (w h : nat),
       length mask = (w * h)%nat ->
       rotateMask (rotateMask mask w h 90) h w 90 = rotateMask mask w h 180
       ∧ rotateMask (rotateMask mask w h (-90)) h w (-90)
         = rotateMask mask w h 180).
Proof.
  split.
  - intros img Hr. split; [by apply rotate_90_90 | by apply rotate_m90_m90].
  - intros mask w h Hl.
    split; [by apply rotateMask_90_90 | by apply rotateMask_m90_m90].
Qed.

Lemma quarter_turns_compose_witness :
  let img := mkImageData 2 1 [1; 2; 3; 255; 4; 5; 6; 128] in
  raster img
  ∧ rotateImageData img 90 ≫= (fun r => rotateImageData r 90)
    = Some (mkImageData 2 1 [4; 5; 6; 128; 1; 2; 3; 255])
  ∧ rotateMask [1; 0; 0; 1; 1; 0] 3 2 (-90) = [0; 0; 0; 1; 1; 1]
  ∧ rotateMask (rotateMask [1; 0; 0; 1; 1; 0] 3 2 (-90)) 2 3 (-90)
    = [0; 1; 1; 0; 0; 1]
  ∧ rotateMask (rotateMask [1; 0; 0; 1; 1; 0] 3 2 90) 2 3 90
    = rotateMask [1; 0; 0; 1; 1; 0] 3 2 180.
Proof.
  assert (Hr : raster (mkImageData 2 1 [1; 2; 3; 255; 4; 5; 6; 128])).
  { unfold raster, bytes, is_byte. simpl. repeat split; try lia.
    repeat constructor; lia. }
  split; [exact Hr|]. split.
  { rewrite (proj1 (proj1 quarter_turns_compose _ Hr)). by vm_compute. }
  split; [by vm_compute|]. split.
  { rewrite (proj2 (proj2 quarter_turns_compose [1; 0; 0; 1; 1; 0] 3%nat 2%nat
                      eq_refl)).
    by vm_compute. }
  exact (proj1 (proj2 quarter_turns_compose [1; 0; 0; 1; 1; 0] 3%nat 2%nat
                  eq_refl)).
Defined.

(** X14. With an angle that is none of 90, -90 and 180, [handleRotate]
    keeps the image and the dimensions but replaces the mask of every layer
    by a mask of zeros of the same length ([rotateImageData] returns the
    image itself and [rotateMask] assigns nothing). *)
Theorem handleRotate_other_angle degrees st w h :
  consistent st w h ->
  degrees ≠ 90 -> degrees ≠ -90 -> degrees ≠ 180 ->
  exists layers',
    App.handleRotate degrees st
    = Some (App.mkState (App.originalImageData st) (Some (w, h)) layers')
    ∧ length layers' = length (App.layers st)
    ∧ forall i l, App.layers st !! i = Some l ->
        exists l', layers' !! i = Some l'
          ∧ id l' = id l ∧ color l' = color l
          ∧ mask l' = Some (replicate (w * h) 0).
Proof.
  intros (img & Hi & Hd & <- & <- & Hw & Hh & Hl & Hm) H90 Hm90 H180.
  unfold App.handleRotate. rewrite Hi, Hd.
  assert (Hrot : rotateImageData img degrees = Some img).
  { unfold rotateImageData.
    by rewrite (proj2 (Z.eqb_neq _ _) H90), (proj2 (Z.eqb_neq _ _) Hm90),
      (proj2 (Z.eqb_neq _ _) H180). }
  rewrite Hrot. cbn [mbind option_bind].
  rewrite (proj2 (Z.eqb_neq _ _) H90), (proj2 (Z.eqb_neq _ _) Hm90).
  cbn [orb].
  assert (Hmap : mapM (fun l =>
                         m ← App.rotateMask_of (mask l) (width img) (height img)
                                               degrees;
                         Some (App.with_mask l m)) (App.layers st)
                 = Some (map (fun l => App.with_mask l
                                         (replicate (width img * height img) 0))
                             (App.layers st))).
  { induction Hm as [|l ls (m & Hml & Hlm) _ IH]; [done|].
    cbn [mapM map]. rewrite Hml. cbn [App.rotateMask_of mbind option_bind].
    rewrite IH. cbn [fmap option_fmap option_map mbind option_bind].
    by rewrite rotateMask_other, Hlm by done. }
  rewrite Hmap. cbn [mbind option_bind].
  eexists. split; [reflexivity|]. split; [by rewrite length_map|].
  intros i l Hil. rewrite list_lookup_fmap, Hil. cbn.
  eexists. split; [reflexivity|]. done.
Qed.

Lemma handleRotate_other_angle_witness :
  let img := mkImageData 1 2 [255; 0; 0; 255; 3; 200; 77; 255] in
  let layer := mkLayer "a" (mkColor 250 5 5) "#fa0505" true (Some 10)
                       (Some [1; 1]) None in
  let st := App.mkState (Some img) (Some (1%nat, 2%nat)) [layer] in
  consistent st 1 2
  ∧ exists layers',
      App.handleRotate 45 st
      = Some (App.mkState (Some img) (Some (1%nat, 2%nat)) layers')
      ∧ length layers' = 1%nat
      ∧ forall i l, [layer] !! i = Some l ->
          exists l', layers' !! i = Some l'
            ∧ id l' = id l ∧ color l' = color l
            ∧ mask l' = Some [0; 0].
Proof.
  assert (Hc : consistent
                 (App.mkState
                    (Some (mkImageData 1 2 [255; 0; 0; 255; 3; 200; 77; 255]))
                    (Some (1%nat, 2%nat))
                    [mkLayer "a" (mkColor 250 5 5) "#fa0505" true (Some 10)
                             (Some [1; 1]) None]) 1 2).
  { eexists. cbn. repeat split; try done; try lia.
    constructor; [|done]. by eexists. }
  split; [exact Hc|].
  exact (handleRotate_other_angle 45 _ 1 2 Hc ltac:(lia) ltac:(lia) ltac:(lia)).
Defined.

(** X15. For a rectangle inside the raster, [cropImageData] returns a
    raster of the rectangle's dimensions whose pixel at column [dx] of row
    [dy] is the pixel of the source at column [x + dx] of row [y + dy], and
    [cropMask] does the same on a mask of the raster's dimensions; cropping
    to the whole image gives back the image and the mask. *)
Theorem crop_rectangle :
  (forall img rect,
      raster img -> in_bounds rect (width img) (height img) ->
      (0 < rwidth rect)%nat -> (0 < rheight rect)%nat ->
      exists out,
        cropImageData img rect = Some out
        ∧ raster out
        ∧ width out = rwidth rect ∧ height out = rheight rect
        ∧ forall dy dx, (dy < rheight rect)%nat -> (dx < rwidth rect)%nat ->
            pixel out (dy * rwidth rect + dx)
            = pixel img ((y rect + dy) * width img + (x rect + dx)))
  ∧ (forall (mask : list Z) w h rect dy dx,
       length mask = (w * h)%nat -> bytes mask -> in_bounds rect w h ->
       (dy < rheight rect)%nat -> (dx < rwidth rect)%nat ->
       cropMask mask w rect !! (dy * rwidth rect + dx)%nat
       = mask !! ((y rect + dy) * w + (x rect + dx))%nat)
  ∧ (forall img, raster img ->
       cropImageData img (mkRect 0 0 (width img) (height img)) = Some img)
  ∧ (forall (mask : list Z) w h,
       length mask = (w * h)%nat -> bytes mask ->
       cropMask mask w (mkRect 0 0 w h) = mask).
Proof.
  split; [|split; [|split]].
  - intros img rect Hr Hin Hw Hh.
    destruct (cropImageData_inside img rect Hr Hin Hw Hh) as (d & He & Hl & Hd).
    eexists. split; [exact He|].
    split; [by eapply cropImageData_raster|].
    split; [done|]. split; [done|].
    intros dy dx Hdy Hdx. apply pixel_eq. intros c Hc. cbn [data].
    by apply Hd.
  - intros mask w h rect dy dx Hl Hb Hin Hdy Hdx. by eapply cropMask_inside.
  - intros img Hr. by apply cropImageData_full.
  - intros mask w h Hl Hb. by apply cropMask_whole.
Qed.

Lemma crop_rectangle_witness :
  let img := mkImageData 2 2 [1; 2; 3; 255; 4; 5; 6; 128;
                              7; 8; 9; 255; 10; 11; 12; 64] in
  raster img ∧ in_bounds (mkRect 1 0 1 2) 2 2
  ∧ exists out,
      cropImageData img (mkRect 1 0 1 2) = Some out
      ∧ pixel out 0 = Some (4, 5, 6, 128)
      ∧ pixel out 1 = Some (10, 11, 12, 64).
Proof.
  assert (Hr : raster (mkImageData 2 2 [1; 2; 3; 255; 4; 5; 6; 128;
                                        7; 8; 9; 255; 10; 11; 12; 64])).
  { unfold raster, bytes, is_byte. simpl. repeat split; try lia.
    repeat constructor; lia. }
  assert (Hin : in_bounds (mkRect 1 0 1 2) 2 2) by (split; cbn; lia).
  split; [exact Hr|]. split; [exact Hin|].
  destruct (proj1 crop_rectangle _ (mkRect 1 0 1 2) Hr Hin)
    as (out & He & _ & _ & _ & Hpx); [cbn; lia | cbn; lia |].
  exists out. split; [exact He|]. split.
  - exact (Hpx 0%nat 0%nat ltac:(cbn; lia) ltac:(cbn; lia)).
  - exact (Hpx 1%nat 0%nat ltac:(cbn; lia) ltac:(cbn; lia)).
Defined.

(** X16. Cropping a crop is one crop: for a rectangle inside the raster
    and a second rectangle inside the first, cropping to the first and then
    to the second gives what cropping to the second, moved by the corner of
    the first, gives. *)
Theorem crop_compose img r1 r2 :
  raster img -> in_bounds r1 (width img) (height img) ->
  in_bounds r2 (rwidth r1) (rheight r1) ->
  (0 < rwidth r2)%nat -> (0 < rheight r2)%nat ->
  cropImageData img r1 ≫= (fun o => cropImageData o r2)
  = cropImageData img (mkRect (x r1 + x r2) (y r1 + y r2)
                              (rwidth r2) (rheight r2)).
Proof. apply cropImageData_compose. Qed.

Lemma crop_compose_witness :
  let img := mkImageData 2 2 [1; 2; 3; 255; 4; 5; 6; 128;
                              7; 8; 9; 255; 10; 11; 12; 64] in
  raster img
  ∧ cropImageData img (mkRect 1 0 1 2)
      ≫= (fun o => cropImageData o (mkRect 0 1 1 1))
    = Some (mkImageData 1 1 [10; 11; 12; 64]).
Proof.
  assert (Hr : raster (mkImageData 2 2 [1; 2; 3; 255; 4; 5; 6; 128;
                                        7; 8; 9; 255; 10; 11; 12; 64])).
  { unfold raster, bytes, is_byte. simpl. repeat split; try lia.
    repeat constructor; lia. }
  split; [exact Hr|].
  rewrite (crop_compose _ (mkRect 1 0 1 2) (mkRect 0 1 1 1) Hr);
    [by vm_compute | split; cbn; lia | split; cbn; lia | cbn; lia | cbn; lia].
Defined.

(** ** Hexadecimal colour names *)

Section HexNames.

Import HexColor.

(** The two digits of a byte are read back as the byte. *)
Lemma hex2_parse v :
  is_byte v ->
  exists c1 c2, hex2 v = String c1 (String c2 EmptyString)
                ∧ parseHex2 c1 c2 = Some v.
Proof.
  unfold is_byte. intros Hv.
  assert (Hall : forallb (fun n =>
                   match hex2 (Z.of_nat n) with
                   | String c1 (String c2 EmptyString) =>
                       bool_decide (parseHex2 c1 c2 = Some (Z.of_nat n))
                   | _ => false
                   end) (seq 0 256) = true) by (by vm_compute).
  rewrite forallb_forall in Hall.
  specialize (Hall (Z.to_nat v)). rewrite Z2Nat.id in Hall by lia.
  assert (Hin : In (Z.to_nat v) (seq 0 256)) by (apply in_seq; lia).
  specialize (Hall Hin).
  destruct (hex2 v) as [|c1 [|c2 [|]]]; try done.
  exists c1, c2. split; [done|]. by apply bool_decide_eq_true in Hall.
Qed.

Lemma hexDigit_range c d : hexDigit c = Some d -> 0 <= d <= 15.
Proof.
  unfold hexDigit. repeat case_match; intros [= <-]; lia.
Qed.

Lemma hexDigit_is_hex c d : hexDigit c = Some d -> is_hex_digit c.
Proof.
  unfold hexDigit, is_hex_digit.
  destruct (Z.leb_spec 48 (Z.of_N (N_of_ascii c)));
    destruct (Z.leb_spec (Z.of_N (N_of_ascii c)) 57);
    destruct (Z.leb_spec 97 (Z.of_N (N_of_ascii c)));
    destruct (Z.leb_spec (Z.of_N (N_of_ascii c)) 102);
    destruct (Z.leb_spec 65 (Z.of_N (N_of_ascii c)));
    destruct (Z.leb_spec (Z.of_N (N_of_ascii c)) 70);
    cbn [andb]; intros [= <-]; lia.
Qed.

Lemma parseHex2_hex c1 c2 v :
  parseHex2 c1 c2 = Some v -> is_hex_digit c1 ∧ is_hex_digit c2.
Proof.
  unfold parseHex2.
  destruct (hexDigit c1) as [d1|] eqn:E1; [|done].
  destruct (hexDigit c2) as [d2|] eqn:E2; [|done].
  intros _. split; by eapply hexDigit_is_hex.
Qed.

Lemma parseHex2_byte c1 c2 v : parseHex2 c1 c2 = Some v -> is_byte v.
Proof.
  unfold parseHex2.
  destruct (hexDigit c1) as [d1|] eqn:E1; [|done].
  destruct (hexDigit c2) as [d2|] eqn:E2; [|done].
  intros [= <-]. apply hexDigit_range in E1, E2. unfold is_byte. lia.
Qed.

(** [#] is not a hexadecimal digit. *)
Lemma hexDigit_hash : hexDigit "#" = None.
Proof. reflexivity. Qed.

Lemma rgbToHex_digits cr cg cb :
  is_byte cr -> is_byte cg -> is_byte cb ->
  exists c1 c2 c3 c4 c5 c6,
    rgbToHex cr cg cb
    = String "#" (String c1 (String c2 (String c3 (String c4
        (String c5 (String c6 EmptyString))))))
    ∧ parseHex2 c1 c2 = Some cr ∧ parseHex2 c3 c4 = Some cg
    ∧ parseHex2 c5 c6 = Some cb.
Proof.
  intros Hr Hg Hb.
  destruct (hex2_parse cr Hr) as (c1 & c2 & E1 & P1).
  destruct (hex2_parse cg Hg) as (c3 & c4 & E2 & P2).
  destruct (hex2_parse cb Hb) as (c5 & c6 & E3 & P3).
  exists c1, c2, c3, c4, c5, c6. split; [|done].
  unfold rgbToHex. cbn [map]. by rewrite E1, E2, E3.
Qed.

Lemma rgbToHex_read cr cg cb :
  is_byte cr -> is_byte cg -> is_byte cb ->
  hexToRgb (rgbToHex cr cg cb) = Some (mkColor cr cg cb).
Proof.
  intros Hr Hg Hb.
  destruct (rgbToHex_digits cr cg cb Hr Hg Hb)
    as (c1 & c2 & c3 & c4 & c5 & c6 & -> & P1 & P2 & P3).
  cbn [hexToRgb]. by rewrite P1, P2, P3.
Qed.

End HexNames.

(** X17. For a colour whose channels are bytes, [rgbToHex] gives [#] and
    six hexadecimal digits, [hexToRgb] reads them back as the colour, and so
    the display name of a layer made by [createLayer] names its colour. *)
Theorem hexToRgb_rgbToHex cr cg cb :
  is_byte cr -> is_byte cg -> is_byte cb ->
  String.length (rgbToHex cr cg cb) = 7%nat
  ∧ HexColor.hexToRgb (rgbToHex cr cg cb) = Some (mkColor cr cg cb)
  ∧ forall layerId m,
      HexColor.hexToRgb
        (HexColor.layerDisplayName
           (HexColor.createLayer (mkColor cr cg cb) layerId m))
      = Some (mkColor cr cg cb).
Proof.
  intros Hr Hg Hb.
  destruct (rgbToHex_digits cr cg cb Hr Hg Hb)
    as (c1 & c2 & c3 & c4 & c5 & c6 & Hhex & _).
  split; [by rewrite Hhex|]. split; [by apply rgbToHex_read|].
  intros layerId m. unfold HexColor.layerDisplayName, HexColor.createLayer.
  cbn [name color r g b].
  destruct (String.eqb _ _); by apply rgbToHex_read.
Qed.

Lemma hexToRgb_rgbToHex_witness :
  is_byte 255 ∧ is_byte 10 ∧ is_byte 0
  ∧ rgbToHex 255 10 0 = "#ff0a00"
  ∧ HexColor.hexToRgb (rgbToHex 255 10 0) = Some (mkColor 255 10 0).
Proof.
  assert (H255 : is_byte 255) by (unfold is_byte; lia).
  assert (H10 : is_byte 10) by (unfold is_byte; lia).
  assert (H0 : is_byte 0) by (unfold is_byte; lia).
  split; [exact H255|]. split; [exact H10|]. split; [exact H0|].
  split; [by vm_compute|].
  exact (proj1 (proj2 (hexToRgb_rgbToHex 255 10 0 H255 H10 H0))).
Defined.

(** X18. [hexToRgb] returns a colour only for six hexadecimal digits,
    alone or after one [#]: the text then is six characters, or [#] and six
    characters, each of them one of [0-9], [a-f] and [A-F] (so it has 6
    characters, or 7 of which the first is [#]); the channels of the
    colour are bytes, and the name that [rgbToHex] gives the colour reads
    back as the colour. *)
Theorem hexToRgb_accepts s c :
  HexColor.hexToRgb s = Some c ->
  is_color c
  ∧ (String.length s = 6%nat
     ∨ (String.length s = 7%nat ∧ exists rest, s = String "#" rest))
  ∧ (exists c1 c2 c3 c4 c5 c6,
        (s = String c1 (String c2 (String c3 (String c4 (String c5
               (String c6 EmptyString)))))
         ∨ s = String "#" (String c1 (String c2 (String c3 (String c4
                 (String c5 (String c6 EmptyString)))))))
        ∧ Forall is_hex_digit [c1; c2; c3; c4; c5; c6])
  ∧ HexColor.hexToRgb (rgbToHex (r c) (g c) (b c)) = Some c.
Proof.
  intros H.
  assert (Hbody : exists c1 c2 c3 c4 c5 c6,
             (s = String c1 (String c2 (String c3 (String c4 (String c5
                    (String c6 EmptyString)))))
              ∨ s = String "#" (String c1 (String c2 (String c3 (String c4
                      (String c5 (String c6 EmptyString)))))))
             ∧ (r' ← HexColor.parseHex2 c1 c2;
                g' ← HexColor.parseHex2 c3 c4;
                b' ← HexColor.parseHex2 c5 c6;
                Some (mkColor r' g' b')) = Some c).
  { unfold HexColor.hexToRgb in H.
    destruct s as [|a0 s0]; [done|].
    destruct (Ascii.eqb_spec a0 "#") as [->|Hne].
    - destruct s0 as [ | c1 [ | c2 [ | c3 [ | c4 [ | c5 [ | c6 [ | ]]]]]]]; try done.
      exists c1, c2, c3, c4, c5, c6. split; [by right | done].
    - assert (Hsame : match String a0 s0 with
                      | String "#" rest => rest
                      | _ => String a0 s0
                      end = String a0 s0).
      { destruct a0 as [[] [] [] [] [] [] [] []]; try done. }
      rewrite Hsame in H.
      destruct s0 as [ | c2 [ | c3 [ | c4 [ | c5 [ | c6 [ | ]]]]]]; try done.
      exists a0, c2, c3, c4, c5, c6. split; [by left | done]. }
  destruct Hbody as (c1 & c2 & c3 & c4 & c5 & c6 & Hs & Hp).
  destruct (HexColor.parseHex2 c1 c2) as [r'|] eqn:P1; [|done].
  destruct (HexColor.parseHex2 c3 c4) as [g'|] eqn:P2; [|done].
  destruct (HexColor.parseHex2 c5 c6) as [b'|] eqn:P3; [|done].
  cbn in Hp. injection Hp as <-.
  pose proof (parseHex2_byte _ _ _ P1) as B1.
  pose proof (parseHex2_byte _ _ _ P2) as B2.
  pose proof (parseHex2_byte _ _ _ P3) as B3.
  destruct (parseHex2_hex _ _ _ P1) as [X1 X2].
  destruct (parseHex2_hex _ _ _ P2) as [X3 X4].
  destruct (parseHex2_hex _ _ _ P3) as [X5 X6].
  split; [done|]. split; [|split].
  - destruct Hs as [-> | ->]; [by left|]. right. split; [done|]. by eexists.
  - exists c1, c2, c3, c4, c5, c6. split; [done|].
    by repeat (apply Forall_cons; split; [done|]).
  - cbn [r g b]. by apply rgbToHex_read.
Qed.

Lemma hexToRgb_accepts_witness :
  HexColor.hexToRgb "FF0a00" = Some (mkColor 255 10 0)
  ∧ HexColor.hexToRgb (rgbToHex 255 10 0) = Some (mkColor 255 10 0).
Proof.
  assert (H : HexColor.hexToRgb "FF0a00" = Some (mkColor 255 10 0))
    by (by vm_compute).
  split; [exact H|].
  exact (proj2 (proj2 (proj2 (hexToRgb_accepts _ _ H)))).
Defined.

(** X19. [rgbDistance], and with it [colorMatches] at any tolerance, is
    symmetric in the two colours, for colours whose channels are bytes. *)
Theorem colorMatches_sym pr pg pb tr tg tb :
  is_byte pr -> is_byte pg -> is_byte pb ->
  is_byte tr -> is_byte tg -> is_byte tb ->
  rgbDistance (ofZ pr) (ofZ pg) (ofZ pb) (ofZ tr) (ofZ tg) (ofZ tb)
  = rgbDistance (ofZ tr) (ofZ tg) (ofZ tb) (ofZ pr) (ofZ pg) (ofZ pb)
  ∧ forall t : float,
      colorMatches (ofZ pr) (ofZ pg) (ofZ pb) (ofZ tr) (ofZ tg) (ofZ tb) t
      = colorMatches (ofZ tr) (ofZ tg) (ofZ tb) (ofZ pr) (ofZ pg) (ofZ pb) t.
Proof.
  intros Hpr Hpg Hpb Htr Htg Htb.
  assert (Hd : rgbDistance (ofZ pr) (ofZ pg) (ofZ pb) (ofZ tr) (ofZ tg) (ofZ tb)
               = rgbDistance (ofZ tr) (ofZ tg) (ofZ tb) (ofZ pr) (ofZ pg) (ofZ pb)).
  { rewrite !rgbDistance_bytes by done. do 2 f_equal. unfold dist2. ring. }
  split; [done|]. intros t. unfold colorMatches. by rewrite Hd.
Qed.

Lemma colorMatches_sym_witness :
  is_byte 200 ∧ is_byte 10 ∧ is_byte 255 ∧ is_byte 0
  ∧ colorMatches (ofZ 200) (ofZ 10) (ofZ 10) (ofZ 255) (ofZ 0) (ofZ 0) 13
    = colorMatches (ofZ 255) (ofZ 0) (ofZ 0) (ofZ 200) (ofZ 10) (ofZ 10) 13.
Proof.
  assert (H200 : is_byte 200) by (unfold is_byte; lia).
  assert (H10 : is_byte 10) by (unfold is_byte; lia).
  assert (H255 : is_byte 255) by (unfold is_byte; lia).
  assert (H0 : is_byte 0) by (unfold is_byte; lia).
  split; [exact H200|]. split; [exact H10|]. split; [exact H255|].
  split; [exact H0|].
  exact (proj2 (colorMatches_sym 200 10 10 255 0 0 H200 H10 H10 H255 H0 H0) 13%float).
Defined.

(** X20. At a tolerance that is 0 or negative (any number), two colours
    whose channels are bytes match exactly when they are the same colour;
    at the tolerance NaN nothing matches. *)
Theorem colorMatches_no_tolerance pr pg pb tr tg tb :
  is_byte pr -> is_byte pg -> is_byte pb ->
  is_byte tr -> is_byte tg -> is_byte tb ->
  (forall t : float, (t <=? 0)%float = true ->
     colorMatches (ofZ pr) (ofZ pg) (ofZ pb) (ofZ tr) (ofZ tg) (ofZ tb) t = true
     <-> pr = tr ∧ pg = tg ∧ pb = tb)
  ∧ colorMatches (ofZ pr) (ofZ pg) (ofZ pb) (ofZ tr) (ofZ tg) (ofZ tb) nan
    = false.
Proof.
  intros Hpr Hpg Hpb Htr Htg Htb. split.
  - intros t Ht.
    assert (colorMatches (ofZ pr) (ofZ pg) (ofZ pb) (ofZ tr) (ofZ tg) (ofZ tb) t
            = colorMatches (ofZ pr) (ofZ pg) (ofZ pb) (ofZ tr) (ofZ tg) (ofZ tb)
                           (ofZ 0)) as ->.
    { unfold colorMatches, toleranceToDistance. by rewrite Ht. }
    rewrite colorMatches_bytes by first [done | lia].
    rewrite within_0 by by apply dist2_bounds.
    rewrite Z.eqb_eq. apply dist2_zero.
  - unfold colorMatches.
    change (toleranceToDistance nan) with nan.
    rewrite leb_spec. change (Prim2SF nan) with S754_nan.
    unfold SFleb, SFcompare. by destruct (Prim2SF _) as [?|?| |? ? ?].
Qed.

Lemma colorMatches_no_tolerance_witness :
  is_byte 200 ∧ is_byte 10
  ∧ (-5 <=? 0)%float = true
  ∧ colorMatches (ofZ 200) (ofZ 10) (ofZ 10) (ofZ 200) (ofZ 10) (ofZ 10) (-5)
    = true.
Proof.
  assert (H200 : is_byte 200) by (unfold is_byte; lia).
  assert (H10 : is_byte 10) by (unfold is_byte; lia).
  split; [exact H200|]. split; [exact H10|]. split; [reflexivity|].
  apply (proj1 (colorMatches_no_tolerance 200 10 10 200 10 10
                  H200 H10 H10 H200 H10 H10)); [reflexivity | done].
Defined.

(** ** Dominant colours *)

Lemma check_quantize_ok :
  ltac:(let t := eval unfold LevelChecks.check_quantize
                 in (LevelChecks.check_quantize = true) in exact t).
Proof. vm_compute. reflexivity. Qed.

Lemma quantize_byte v :
  is_byte v ->
  quantize (ofZ v) 12 = ofZ (level v)
  ∧ center (quantize (ofZ v) 12) 12 = ofZ (centre (level v))
  ∧ Z.abs (centre (level v) - v) <= 11.
Proof.
  unfold is_byte. intros Hv. rewrite !ofZ_F by lia.
  pose proof (all_below_sound _ _ check_quantize_ok ltac:(lia) v ltac:(lia)) as H.
  cbv beta in H. rewrite !to_of_Z_small in H by lia.
  apply andb_prop in H as [H H3]. apply andb_prop in H as [H1 H2].
  apply float_eq_of_eqb in H1, H2. apply Z.leb_le in H3. done.
Qed.

Lemma level_range v : is_byte v -> 0 <= level v <= 11.
Proof.
  unfold is_byte, level. intros Hv.
  assert (0 <= 12 * v / 255) by (apply Z.div_pos; lia). lia.
Qed.

Section Sampling.

Local Open Scope nat_scope.

Lemma for_from_lt fuel i stop step k :
  k ∈ for_from fuel i stop step -> k < stop.
Proof.
  revert i. induction fuel as [|fuel IH]; intros i; cbn [for_from].
  - by intros ?%elem_of_nil.
  - destruct (Nat.ltb_spec i stop) as [Hlt|Hge]; [|by intros ?%elem_of_nil].
    intros [->|Hin]%elem_of_cons; [done|]. by eapply IH.
Qed.

Lemma for_range_lt stop step k : k ∈ for_range stop step -> k < stop.
Proof. apply for_from_lt. Qed.

Lemma for_range_nonempty stop step : 0 < stop -> for_range stop step ≠ [].
Proof.
  intros Hs. unfold for_range. destruct stop as [|n]; [lia|].
  cbn [for_from]. by destruct (Nat.ltb_spec 0 (S n)); [|lia].
Qed.

Lemma same_num_refl (a : float) : same_num a a = true.
Proof.
  unfold same_num, is_nan. by destruct (a =? a)%float.
Qed.

Lemma same_key_refl (k : Key) : same_key k k = true.
Proof.
  destruct k as [[a b] c]. unfold same_key. by rewrite !same_num_refl.
Qed.

(** A fold that keeps a property, and establishes a stronger one at
    every step. *)
Lemma foldl_establish {A B} (f : A -> B -> A) (P Q : A -> Prop) (l : list B) a :
  (forall a, Q a -> P a) ->
  (forall a b, b ∈ l -> P a -> Q (f a b)) ->
  P a -> P (foldl f a l) ∧ (l ≠ [] -> Q (foldl f a l)).
Proof.
  intros HQP Hf. revert a.
  induction l as [|b l IH]; intros a Ha; [done|].
  cbn [foldl].
  assert (Hq : Q (f a b)) by (apply Hf; [by left | done]).
  destruct (IH (fun a b0 Hb => Hf a b0 (proj2 (elem_of_cons _ _ _) (or_intror Hb)))
               (f a b) (HQP _ Hq)) as [IP IQ].
  split; [done|]. intros _.
  destruct l as [|b' l']; [done|]. by apply IQ.
Qed.

Variable img : ImageData.
Hypothesis Hr : raster img.

Lemma sample_pixel y x pr pg pb pa count :
  y < height img -> x < width img ->
  pixel img (y * width img + x) = Some (pr, pg, pb, pa) ->
  sample img 12 y x count
  = if (pa <? 128)%Z then count
    else bump (ofZ (level pr), ofZ (level pg), ofZ (level pb)) count.
Proof.
  intros Hy Hx Hpx.
  assert (Hp : y * width img + x < width img * height img).
  { rewrite (Nat.mul_comm (width img)). by apply row_major_lt. }
  destruct (raster_pixel img _ Hr Hp)
    as (r' & g' & b' & a' & H0 & H1 & H2 & H3 & Br & Bg & Bb & Ba).
  unfold pixel in Hpx. rewrite H0, H1, H2, H3 in Hpx. simpl in Hpx.
  injection Hpx as <- <- <- <-.
  unfold sample.
  replace ((y * width img + x) * 4) with (4 * (y * width img + x)) by lia.
  rewrite (num_Some _ _ _ H0), (num_Some _ _ _ H1), (num_Some _ _ _ H2),
    (num_Some _ _ _ H3).
  rewrite (proj2 (proj2 (proj2 (byte_facts a' Ba)))).
  destruct (a' <? 128)%Z; [done|].
  by rewrite (proj1 (quantize_byte r' Br)), (proj1 (quantize_byte g' Bg)),
    (proj1 (quantize_byte b' Bb)).
Qed.

End Sampling.

(** X21. On a byte [v], [quantize] with 12 levels gives the level
    [min 11 (floor (12 v / 255))], and [center] gives the centre of that
    level, an integer that differs from [v] by at most 11. *)
Theorem quantize_center_bytes v :
  is_byte v ->
  quantize (ofZ v) 12 = ofZ (level v)
  ∧ 0 <= level v <= 11
  ∧ center (quantize (ofZ v) 12) 12 = ofZ (centre (level v))
  ∧ Z.abs (centre (level v) - v) <= 11.
Proof.
  intros Hv. destruct (quantize_byte v Hv) as (H1 & H2 & H3).
  split; [done|]. split; [by apply level_range|]. done.
Qed.

Lemma quantize_center_bytes_witness :
  is_byte 200
  ∧ quantize (ofZ 200) 12 = 9%float
  ∧ center (quantize (ofZ 200) 12) 12 = 202%float.
Proof.
  assert (H200 : is_byte 200) by (unfold is_byte; lia).
  split; [exact H200|].
  destruct (quantize_center_bytes 200 H200) as (H1 & _ & H2 & _).
  split; [exact H1 | exact H2].
Defined.

(** X22. On a raster whose pixels are all the same colour with an alpha of
    at least 128, whatever its size and the sampling step,
    [getDominantColors] returns that one colour, moved to the centre of its
    level in each channel, so at most 11 away from it. *)
Theorem getDominantColors_solid img cr cg cb ca maxColors sampleStep :
  raster img -> solid img (cr, cg, cb, ca) -> 128 <= ca ->
  (0 < maxColors)%nat -> (0 < sampleStep)%nat ->
  getDominantColors img maxColors sampleStep
  = Some [(ofZ (centre (level cr)), ofZ (centre (level cg)),
           ofZ (centre (level cb)))]
  ∧ Z.abs (centre (level cr) - cr) <= 11
  ∧ Z.abs (centre (level cg) - cg) <= 11
  ∧ Z.abs (centre (level cb) - cb) <= 11.
Proof.
  intros Hr Hsolid Ha Hmax Hstep. pose proof Hr as (Hw & Hh & Hlen & Hb).
  destruct (raster_pixel img 0 Hr ltac:(lia))
    as (r' & g' & b' & a' & H0 & H1 & H2 & H3 & Br & Bg & Bb & Ba).
  pose proof (Hsolid 0%nat ltac:(lia)) as Hp0.
  unfold pixel in Hp0. rewrite H0, H1, H2, H3 in Hp0. simpl in Hp0.
  injection Hp0 as -> -> -> ->.
  destruct (quantize_byte cr Br) as (Qr & Cr & Er).
  destruct (quantize_byte cg Bg) as (Qg & Cg & Eg).
  destruct (quantize_byte cb Bb) as (Qb & Cb & Eb).
  split; [|done].
  unfold getDominantColors.
  rewrite (proj2 (Nat.eqb_neq sampleStep 0)) by lia. cbn [andb].
  set (key := (ofZ (level cr), ofZ (level cg), ofZ (level cb))).
  set (P := fun count : list (Key * nat) =>
              count = [] ∨ exists n, count = [(key, n)]).
  set (Q := fun count : list (Key * nat) => exists n, count = [(key, n)]).
  assert (HQP : forall c, Q c -> P c) by (intros c Hc; by right).
  assert (Hstp : forall y x c, (y < height img)%nat -> (x < width img)%nat ->
                   P c -> Q (sample img 12 y x c)).
  { intros y x c Hy Hx Hc.
    rewrite (sample_pixel img Hr y x cr cg cb ca c Hy Hx).
    - rewrite (proj2 (Z.ltb_ge ca 128)) by lia. fold key.
      destruct Hc as [->|[n ->]].
      + by exists 1%nat.
      + cbn [bump]. rewrite same_key_refl. by exists (S n).
    - apply Hsolid. rewrite (Nat.mul_comm (width img)).
      by apply row_major_lt. }
  assert (Hrow : forall y c, (y < height img)%nat -> P c ->
                   Q (foldl (fun count x => sample img 12 y x count) c
                            (for_range (width img) sampleStep))).
  { intros y c Hy Hc.
    apply (foldl_establish _ P Q); [done | | done |].
    - intros a x Hx Ha'. apply Hstp; [done | by eapply for_range_lt | done].
    - by apply for_range_nonempty. }
  destruct (foldl_establish
              (fun count y => foldl (fun count x => sample img 12 y x count)
                                    count (for_range (width img) sampleStep))
              P Q (for_range (height img) sampleStep) [] HQP) as [_ HQ].
  { intros a y Hy Ha'. apply Hrow; [by eapply for_range_lt | done]. }
  { by left. }
  destruct (HQ (for_range_nonempty _ _ Hh)) as [n ->].
  cbn [map sort_desc foldr insert_desc]. unfold key.
  destruct maxColors as [|m]; [lia|]. cbn [take map fst].
  rewrite <- Qr at 1. rewrite <- Qg at 1. rewrite <- Qb at 1.
  rewrite Cr, Cg, Cb. by rewrite take_nil.
Qed.

Lemma getDominantColors_solid_witness :
  raster red4x4 ∧ solid red4x4 (255, 0, 0, 255)
  ∧ getDominantColors red4x4 20 10 = Some [(244, 11, 11)%float].
Proof.
  assert (Hr : raster red4x4).
  { unfold raster, bytes, is_byte. simpl. repeat split; try lia.
    repeat constructor; lia. }
  assert (Hs : solid red4x4 (255, 0, 0, 255)).
  { intros p Hp. simpl in Hp.
    do 16 (destruct p as [|p]; [done|]). lia. }
  split; [exact Hr|]. split; [exact Hs|].
  exact (proj1 (getDominantColors_solid red4x4 255 0 0 255 20 10 Hr Hs
                  ltac:(lia) ltac:(lia) ltac:(lia))).
Defined.

(** X23. For a positive sampling step [getDominantColors] returns at most
    [maxColors] colours, and none for a raster whose pixels all have an
    alpha below 128. *)
Theorem getDominantColors_bounds :
  (forall img maxColors sampleStep,
      (0 < sampleStep)%nat ->
      exists l, getDominantColors img maxColors sampleStep = Some l
                ∧ (length l <= maxColors)%nat)
  ∧ (forall img maxColors sampleStep,
       raster img -> (0 < sampleStep)%nat ->
       (forall p, (p < width img * height img)%nat ->
          exists pr pg pb pa,
            pixel img p = Some (pr, pg, pb, pa) ∧ pa < 128) ->
       getDominantColors img maxColors sampleStep = Some []).
Proof.
  split.
  - intros img maxColors sampleStep Hstep. unfold getDominantColors.
    rewrite (proj2 (Nat.eqb_neq sampleStep 0)) by lia. cbn [andb].
    eexists. split; [reflexivity|].
    rewrite length_map, length_take. lia.
  - intros img maxColors sampleStep Hr Hstep Htr.
    unfold getDominantColors.
    rewrite (proj2 (Nat.eqb_neq sampleStep 0)) by lia. cbn [andb].
    set (P := fun count : list (Key * nat) => count = []).
    assert (Hstp : forall y x c, (y < height img)%nat -> (x < width img)%nat ->
                     P c -> P (sample img 12 y x c)).
    { intros y x c Hy Hx ->.
      destruct (Htr (y * width img + x)%nat) as (pr & pg & pb & pa & Hpx & Hpa).
      { rewrite (Nat.mul_comm (width img)). by apply row_major_lt. }
      rewrite (sample_pixel img Hr y x pr pg pb pa [] Hy Hx Hpx).
      by rewrite (proj2 (Z.ltb_lt pa 128)) by lia. }
    assert (Hrow : forall c y, y ∈ for_range (height img) sampleStep ->
                     P c ->
                     P (foldl (fun count x => sample img 12 y x count) c
                              (for_range (width img) sampleStep))).
    { intros c y Hy Hc.
      refine (proj1 (foldl_establish _ P P _ c (fun a H => H) _ Hc)).
      intros a' x Hx Ha''.
      apply Hstp; [by eapply for_range_lt | by eapply for_range_lt | done]. }
    assert (H0 : P []) by done.
    destruct (foldl_establish
                (fun count y => foldl (fun count x => sample img 12 y x count)
                                      count (for_range (width img) sampleStep))
                P P (for_range (height img) sampleStep) []
                (fun a H => H) Hrow H0) as [HP _].
    unfold P in HP. rewrite HP. by destruct maxColors.
Qed.

Lemma getDominantColors_bounds_witness :
  let img := mkImageData 1 2 [255; 0; 0; 100; 3; 200; 77; 0] in
  raster img ∧ getDominantColors img 20 10 = Some [].
Proof.
  assert (Hr : raster (mkImageData 1 2 [255; 0; 0; 100; 3; 200; 77; 0])).
  { unfold raster, bytes, is_byte. simpl. repeat split; try lia.
    repeat constructor; lia. }
  split; [exact Hr|].
  apply (proj2 getDominantColors_bounds); [exact Hr | lia |].
  intros p Hp. simpl in Hp.
  destruct p as [|[|p]]; [| |lia].
  - exists 255, 0, 0, 100. split; [done | lia].
  - exists 3, 200, 77, 0. split; [done | lia].
Defined.

(** ** Layer lists *)

Section Moves.

Import App Handlers.

Lemma lookup_map {A B} (f : A -> B) (l : list A) (i : nat) :
  map f l !! i = f <$> l !! i.
Proof. revert i. induction l as [|a l IH]; intros [|i]; try done. apply IH. Qed.

(** With distinct ids, [findIndex] finds the layer wherever it is. *)
Lemma findIndex_first layerId prev k x :
  NoDup (map id prev) -> prev !! k = Some x -> id x = layerId ->
  findIndex layerId prev = Some k.
Proof.
  intros Hnd Hk Hid.
  destruct (findIndex_present layerId prev x) as [k' Hk'];
    [by eapply list_elem_of_lookup_2 | done |].
  destruct (findIndex_Some _ _ _ Hk') as (x' & Hx' & Hid').
  rewrite Hk'. f_equal.
  eapply (NoDup_lookup (map id prev)); [done | |].
  - rewrite lookup_map, Hx'. cbn. by rewrite Hid'.
  - rewrite lookup_map, Hk. cbn. by rewrite Hid.
Qed.

(** Putting the removed element back where it was. *)
Lemma splice_back {A} (l : list A) (i : nat) (x : A) :
  l !! i = Some x -> take i (delete i l) ++ x :: drop i (delete i l) = l.
Proof.
  revert i. induction l as [|a l IH]; intros [|i] Hi; try done.
  - cbn in Hi. injection Hi as ->. cbn. by rewrite drop_0.
  - cbn in Hi. cbn. f_equal. by apply IH.
Qed.

(** [splice(i, 1)] followed by [splice(j, 0, removed)]. *)
Lemma move_general {A} (l : list A) (i j : nat) (x : A) :
  l !! i = Some x -> (j < length l)%nat ->
  let next := take j (delete i l) ++ x :: drop j (delete i l) in
  next !! j = Some x
  ∧ delete j next = delete i l
  ∧ length next = length l
  ∧ next ≡ₚ l.
Proof.
  intros Hi Hj next.
  pose proof (lookup_lt_Some _ _ _ Hi) as Hlt.
  destruct (lookup_splice (delete i l) j x) as (H1 & H2 & H3).
  { rewrite length_delete by done. lia. }
  split; [done|]. split; [done|]. split.
  - unfold next. rewrite H3, length_delete by done. lia.
  - unfold next. rewrite <- Permutation_middle, take_drop.
    symmetry. by apply delete_Permutation.
Qed.

Lemma handleMoveLayer_found layerId delta prev i moved :
  findIndex layerId prev = Some i -> prev !! i = Some moved ->
  let j := Z.max 0 (Z.min (Z.of_nat (length prev) - 1) (Z.of_nat i + delta)) in
  handleMoveLayer layerId delta prev
  = if (Z.of_nat i =? j)%Z then prev
    else take (Z.to_nat j) (delete i prev)
         ++ moved :: drop (Z.to_nat j) (delete i prev).
Proof. intros Hf Hm. unfold handleMoveLayer. by rewrite Hf, Hm. Qed.

Lemma handleMoveLayerToIndex_found layerId toIndex prev i moved :
  findIndex layerId prev = Some i -> prev !! i = Some moved ->
  let c := Z.max 0 (Z.min (Z.of_nat (length prev) - 1) toIndex) in
  let t := if (Z.of_nat i <? c)%Z then (c - 1)%Z else c in
  handleMoveLayerToIndex layerId toIndex prev
  = if (Z.of_nat i =? t)%Z then prev
    else take (Z.to_nat t) (delete i prev)
         ++ moved :: drop (Z.to_nat t) (delete i prev).
Proof. intros Hf Hm. unfold handleMoveLayerToIndex. by rewrite Hf, Hm. Qed.

Lemma createFullMask_lookup w h p :
  (p < w * h)%nat -> createFullMask w h !! p = Some 1.
Proof. intros Hp. unfold createFullMask. by apply lookup_replicate_2. Qed.

Lemma createFullMask_keeps l w h p :
  (p < w * h)%nat ->
  ImageExport.mask_keeps (with_mask l (createFullMask w h)) p = true.
Proof.
  intros Hp. unfold ImageExport.mask_keeps. cbn [with_mask mask].
  apply bool_decide_eq_true. by apply createFullMask_lookup.
Qed.

Lemma createFullMask_has_mask l w h :
  has_mask (w * h) (with_mask l (createFullMask w h)).
Proof.
  exists (createFullMask w h). split; [done|].
  unfold createFullMask. by rewrite length_replicate.
Qed.

End Moves.

(** X24. [handleMoveLayer] on a layer that is in the list: the new index is
    the old one plus [delta], clamped into [0, length - 1]; the layer ends
    at that index, the other layers keep their order, and the list holds
    the same layers as before. *)
Theorem handleMoveLayer_spec layerId delta prev l :
  l ∈ prev -> id l = layerId ->
  exists (i : nat) (moved : Layer),
    App.findIndex layerId prev = Some i
    ∧ prev !! i = Some moved ∧ id moved = layerId
    ∧ let len := Z.of_nat (length prev) in
      let j := Z.max 0 (Z.min (len - 1) (Z.of_nat i + delta)) in
      let next := Handlers.handleMoveLayer layerId delta prev in
      0 <= j <= len - 1
      ∧ (0 <= Z.of_nat i + delta <= len - 1 -> j = Z.of_nat i + delta)
      ∧ length next = length prev
      ∧ next !! Z.to_nat j = Some moved
      ∧ delete (Z.to_nat j) next = delete i prev
      ∧ next ≡ₚ prev.
Proof.
  intros Hin Hid.
  destruct (findIndex_present layerId prev l Hin Hid) as [i Hf].
  destruct (findIndex_Some _ _ _ Hf) as (moved & Hm & Hmid).
  exists i, moved. split; [done|]. split; [done|]. split; [done|].
  pose proof (lookup_lt_Some _ _ _ Hm) as Hlt.
  cbv zeta. rewrite (handleMoveLayer_found layerId delta prev i moved Hf Hm).
  cbv zeta.
  set (j := Z.max 0 (Z.min (Z.of_nat (length prev) - 1) (Z.of_nat i + delta))).
  assert (Hj : 0 <= j <= Z.of_nat (length prev) - 1) by lia.
  split; [done|]. split; [lia|].
  destruct (Z.eqb_spec (Z.of_nat i) j) as [He|Hne].
  - replace (Z.to_nat j) with i by lia. done.
  - destruct (move_general prev i (Z.to_nat j) moved Hm ltac:(lia))
      as (H1 & H2 & H3 & H4).
    done.
Qed.

Lemma handleMoveLayer_spec_witness :
  let mk s := mkLayer s (mkColor 0 0 0) "#000000" true None None None in
  map id (Handlers.handleMoveLayer "b" 5 [mk "a"; mk "b"; mk "c"; mk "d"])
  = ["a"; "c"; "d"; "b"]
  ∧ exists i moved,
      App.findIndex "b" [mk "a"; mk "b"; mk "c"; mk "d"] = Some i
      ∧ [mk "a"; mk "b"; mk "c"; mk "d"] !! i = Some moved.
Proof.
  intros mk. split; [reflexivity|].
  destruct (handleMoveLayer_spec "b" 5 [mk "a"; mk "b"; mk "c"; mk "d"] (mk "b"))
    as (i & moved & H1 & H2 & _).
  - apply elem_of_cons. right. apply elem_of_cons. by left.
  - reflexivity.
  - by exists i, moved.
Defined.

(** X25. When the layers have distinct ids, moving a layer by [delta] and
    then by [- delta] gives the list back, provided the first move stays
    inside the list. *)
Theorem handleMoveLayer_round_trip layerId delta prev i :
  NoDup (map id prev) ->
  App.findIndex layerId prev = Some i ->
  0 <= Z.of_nat i + delta <= Z.of_nat (length prev) - 1 ->
  Handlers.handleMoveLayer layerId (- delta)
    (Handlers.handleMoveLayer layerId delta prev) = prev.
Proof.
  intros Hnd Hf Hin.
  destruct (findIndex_Some _ _ _ Hf) as (moved & Hm & Hmid).
  pose proof (lookup_lt_Some _ _ _ Hm) as Hlt.
  rewrite (handleMoveLayer_found layerId delta prev i moved Hf Hm). cbv zeta.
  replace (Z.max 0 (Z.min (Z.of_nat (length prev) - 1) (Z.of_nat i + delta)))
    with (Z.of_nat i + delta) by lia.
  destruct (Z.eqb_spec (Z.of_nat i) (Z.of_nat i + delta)) as [He|Hne].
  - rewrite (handleMoveLayer_found layerId (- delta) prev i moved Hf Hm).
    cbv zeta.
    by rewrite (proj2 (Z.eqb_eq (Z.of_nat i) _)) by lia.
  - set (j := Z.to_nat (Z.of_nat i + delta)).
    destruct (move_general prev i j moved Hm ltac:(lia)) as (H1 & H2 & H3 & H4).
    cbv zeta in H1, H2, H3, H4.
    set (next := take j (delete i prev) ++ moved :: drop j (delete i prev))
      in *.
    assert (Hf' : App.findIndex layerId next = Some j).
    { apply (findIndex_first layerId next j moved); [|done|done].
      assert (Hp : map id next ≡ₚ map id prev) by (by apply Permutation_map).
      by rewrite Hp. }
    rewrite (handleMoveLayer_found layerId (- delta) next j moved Hf' H1).
    cbv zeta. rewrite H3.
    replace (Z.max 0 (Z.min (Z.of_nat (length prev) - 1) (Z.of_nat j + - delta)))
      with (Z.of_nat i) by lia.
    rewrite (proj2 (Z.eqb_neq (Z.of_nat j) (Z.of_nat i))) by lia.
    rewrite H2, Nat2Z.id. by apply splice_back.
Qed.

Lemma handleMoveLayer_round_trip_witness :
  let mk s := mkLayer s (mkColor 0 0 0) "#000000" true None None None in
  let prev := [mk "a"; mk "b"; mk "c"; mk "d"] in
  map id (Handlers.handleMoveLayer "b" 2 prev) = ["a"; "c"; "d"; "b"]
  ∧ Handlers.handleMoveLayer "b" (- 2) (Handlers.handleMoveLayer "b" 2 prev)
    = prev.
Proof.
  intros mk prev. split; [reflexivity|].
  apply (handleMoveLayer_round_trip "b" 2 prev 1).
  - apply (bool_decide_unpack _). by vm_compute.
  - reflexivity.
  - cbn. lia.
Defined.

(** X26. [handleMoveLayerToIndex] changes nothing when the target index is
    the layer's own index or the one after it, and it never changes which
    layer is last unless the last layer is the one moved: no target index
    puts another layer at the end of the list. *)
Theorem handleMoveLayerToIndex_edges layerId prev :
  (forall i toIndex,
      App.findIndex layerId prev = Some i ->
      toIndex = Z.of_nat i ∨ toIndex = Z.of_nat i + 1 ->
      App.handleMoveLayerToIndex layerId toIndex prev = prev)
  ∧ (forall toIndex,
       App.findIndex layerId prev ≠ Some (length prev - 1)%nat ->
       last (App.handleMoveLayerToIndex layerId toIndex prev) = last prev).
Proof.
  split.
  - intros i toIndex Hf Hto.
    destruct (findIndex_Some _ _ _ Hf) as (moved & Hm & Hmid).
    pose proof (lookup_lt_Some _ _ _ Hm) as Hlt.
    rewrite (handleMoveLayerToIndex_found layerId toIndex prev i moved Hf Hm).
    cbv zeta.
    set (c := Z.max 0 (Z.min (Z.of_nat (length prev) - 1) toIndex)).
    assert (Hc : c = Z.of_nat i ∨ c = Z.of_nat i + 1) by lia.
    destruct (Z.ltb_spec (Z.of_nat i) c);
      by rewrite (proj2 (Z.eqb_eq (Z.of_nat i) _)) by lia.
  - intros toIndex Hlast.
    destruct (App.findIndex layerId prev) as [i|] eqn:Hf;
      [|unfold App.handleMoveLayerToIndex; by rewrite Hf].
    destruct (findIndex_Some _ _ _ Hf) as (moved & Hm & Hmid).
    pose proof (lookup_lt_Some _ _ _ Hm) as Hlt.
    assert (Hi : (i < length prev - 1)%nat).
    { destruct (decide (i = length prev - 1)%nat) as [->|]; [done|lia]. }
    rewrite (handleMoveLayerToIndex_found layerId toIndex prev i moved Hf Hm).
    cbv zeta.
    set (c := Z.max 0 (Z.min (Z.of_nat (length prev) - 1) toIndex)).
    set (t := if Z.of_nat i <? c then c - 1 else c).
    assert (Ht : 0 <= t < Z.of_nat (length prev) - 1).
    { unfold t. destruct (Z.ltb_spec (Z.of_nat i) c); lia. }
    destruct (Z.eqb_spec (Z.of_nat i) t) as [He|Hne]; [done|].
    destruct (move_general prev i (Z.to_nat t) moved Hm ltac:(lia))
      as (H1 & H2 & H3 & H4).
    cbv zeta in H1, H2, H3, H4.
    set (next := take (Z.to_nat t) (delete i prev)
                 ++ moved :: drop (Z.to_nat t) (delete i prev)) in *.
    rewrite !last_lookup, H3.
    transitivity (delete (Z.to_nat t) next !! pred (pred (length prev))).
    + rewrite list_lookup_delete_ge by lia. f_equal. lia.
    + rewrite H2, list_lookup_delete_ge by lia. f_equal. lia.
Qed.

Lemma handleMoveLayerToIndex_edges_witness :
  let mk s := mkLayer s (mkColor 0 0 0) "#000000" true None None None in
  let prev := [mk "a"; mk "b"; mk "c"; mk "d"] in
  App.handleMoveLayerToIndex "b" 2 prev = prev
  ∧ map id (App.handleMoveLayerToIndex "a" 9 prev) = ["b"; "c"; "a"; "d"]
  ∧ last (App.handleMoveLayerToIndex "a" 9 prev) = last prev.
Proof.
  intros mk prev. split; [|split].
  - apply (proj1 (handleMoveLayerToIndex_edges "b" prev) 1%nat 2);
      [reflexivity | by right].
  - reflexivity.
  - apply (proj2 (handleMoveLayerToIndex_edges "a" prev) 9). by cbn.
Defined.

(** X27. [handleReset] with known dimensions gives every layer a mask of
    width times height entries that keeps every pixel, whatever the masks
    were, and changes nothing else of the layers; [handleAddLayer] appends
    one layer of the picked colour, named by its hex code, visible, with
    tolerance 10 and such a mask, so that the masks keep the length the
    state requires. *)
Theorem fresh_masks w h prev :
  (let next := Handlers.handleReset (Some (w, h)) prev in
   length next = length prev
   ∧ Forall (has_mask (w * h)) next
   ∧ forall k l', next !! k = Some l' ->
       exists l, prev !! k = Some l
         ∧ l' = App.with_mask l (createFullMask w h)
         ∧ forall p, (p < w * h)%nat -> mask_keeps l' p = true)
  ∧ (forall c newId,
       Forall (has_mask (w * h)) prev ->
       exists l,
         Handlers.handleAddLayer (Some c) (Some (w, h)) newId prev
         = prev ++ [l]
         ∧ id l = newId ∧ color l = c
         ∧ name l = rgbToHex (r c) (g c) (b c)
         ∧ visible l = true ∧ tolerance l = Some 10 ∧ paintData l = None
         ∧ (forall p, (p < w * h)%nat -> mask_keeps l p = true)
         ∧ Forall (has_mask (w * h)) (prev ++ [l])).
Proof.
  split.
  - cbv zeta. unfold Handlers.handleReset. split; [by rewrite length_map|].
    split.
    + apply Forall_lookup. intros k l' Hk. rewrite lookup_map in Hk.
      destruct (prev !! k) as [l|]; [|done]. cbn in Hk. injection Hk as <-.
      apply createFullMask_has_mask.
    + intros k l' Hk. rewrite lookup_map in Hk.
      destruct (prev !! k) as [l|]; [|done]. cbn in Hk. injection Hk as <-.
      exists l. split; [done|]. split; [done|].
      intros p Hp. by apply createFullMask_keeps.
  - intros c newId Hall. eexists. split; [reflexivity|].
    cbn [HexColor.createLayer App.with_mask id color name visible tolerance
         paintData].
    split; [done|]. split; [by destruct c|]. split; [done|].
    split; [done|]. split; [done|]. split; [done|]. split.
    + intros p Hp. by apply createFullMask_keeps.
    + apply Forall_app. split; [done|]. apply Forall_singleton.
      apply createFullMask_has_mask.
Qed.

Lemma fresh_masks_witness :
  let mk s := mkLayer s (mkColor 0 0 0) "#000000" true None None None in
  Forall (has_mask (2 * 1)) []
  ∧ map mask (Handlers.handleReset (Some (2, 1)%nat) [mk "a"])
    = [Some [1; 1]]
  ∧ exists l,
      Handlers.handleAddLayer (Some (mkColor 255 0 0)) (Some (2, 1)%nat)
                              "n" []
      = [] ++ [l]
      ∧ id l = "n".
Proof.
  intros mk. split; [constructor|]. split; [reflexivity|].
  destruct (proj2 (fresh_masks 2 1 []) (mkColor 255 0 0) "n"
              ltac:(constructor)) as (l & H1 & H2 & _).
  by exists l.
Defined.

(** ** Updates of the layers *)

Section LayerUpdates.

Import App Handlers.

Lemma find_findIndex layerId (layers : list Layer) :
  find (fun l => String.eqb (id l) layerId) layers
  = findIndex layerId layers ≫= (layers !!.).
Proof.
  induction layers as [|l layers IH]; [done|].
  cbn [find findIndex]. destruct (String.eqb (id l) layerId); [done|].
  rewrite IH. by destruct (findIndex layerId layers).
Qed.

Lemma updateLayer_lookup layerId updates prev k :
  updateLayer layerId updates prev !! k
  = (fun l => if String.eqb (id l) layerId then updates l else l)
      <$> prev !! k.
Proof. unfold updateLayer. apply lookup_map. Qed.

Lemma replaceLayerColors_lookup ec to prev k layer :
  prev !! k = Some layer -> is_color ec -> color layer = ec ->
  (0 <=? tol_of layer)%float = true ->
  replaceLayerColors ec to prev !! k
  = Some (with_color (mkColor (r to) (g to) (b to)) layer).
Proof.
  intros Hk (Hr & Hg & Hb) Hc Ht. unfold replaceLayerColors.
  rewrite lookup_map, Hk. cbn [fmap option_fmap option_map]. rewrite Hc.
  by rewrite colorMatches_self_float.
Qed.

End LayerUpdates.

(** X28. [handleCommitPaint] leaves the layers alone for an overlay without
    pixels or of the wrong length and for an unknown layer id; otherwise it
    changes only the paint of the layers with that id, to the overlay merged
    over the paint of the first of them, which has width times height times
    4 bytes. *)
Theorem handleCommitPaint_spec layerId newData w h layers :
  (w = 0%nat ∨ h = 0%nat ∨ length newData ≠ (w * h * 4)%nat
   ∨ App.findIndex layerId layers = None ->
   Handlers.handleCommitPaint layerId newData w h layers = layers)
  ∧ (forall i first,
       (0 < w)%nat -> (0 < h)%nat -> length newData = (w * h * 4)%nat ->
       App.findIndex layerId layers = Some i -> layers !! i = Some first ->
       let merged :=
         ImageEdit.mergePaintOverlay (paintData first) newData w h in
       let next := Handlers.handleCommitPaint layerId newData w h layers in
       length merged = (w * h * 4)%nat ∧ bytes merged
       ∧ length next = length layers
       ∧ forall k l, layers !! k = Some l ->
           next !! k
           = Some (if String.eqb (id l) layerId
                   then Handlers.with_paint (Some merged) l else l)).
Proof.
  split.
  - intros Hc. unfold Handlers.handleCommitPaint.
    destruct (Nat.eqb_spec w 0) as [|Hw]; [done|].
    destruct (Nat.eqb_spec h 0) as [|Hh]; [done|].
    destruct (Nat.eqb_spec (length newData) (w * h * 4)) as [Hl|]; [|done].
    cbn [orb negb]. rewrite find_findIndex.
    destruct Hc as [?|[?|[?|Hf]]]; try done. by rewrite Hf.
  - intros i first Hw Hh Hl Hf Hi. cbv zeta.
    split; [apply mergePaintOverlay_length|].
    split; [apply mergePaintOverlay_bytes|].
    unfold Handlers.handleCommitPaint.
    rewrite (proj2 (Nat.eqb_neq w 0)) by lia.
    rewrite (proj2 (Nat.eqb_neq h 0)) by lia.
    rewrite (proj2 (Nat.eqb_eq _ _) Hl). cbn [orb negb].
    rewrite find_findIndex, Hf. cbn [mbind option_bind]. rewrite Hi.
    split; [unfold Handlers.updateLayer; by rewrite length_map|].
    intros k l Hk. by rewrite updateLayer_lookup, Hk.
Qed.

Lemma handleCommitPaint_spec_witness :
  let mk s := mkLayer s (mkColor 0 0 0) "#000000" true None None None in
  map paintData
      (Handlers.handleCommitPaint "b" [9; 8; 7; 255] 1 1 [mk "a"; mk "b"])
  = [None; Some [9; 8; 7; 255]]
  ∧ Handlers.handleCommitPaint "b" [9; 8; 7] 1 1 [mk "a"; mk "b"]
    = [mk "a"; mk "b"]
  ∧ length (ImageEdit.mergePaintOverlay None [9; 8; 7; 255] 1 1) = 4%nat.
Proof.
  intros mk. split; [reflexivity|]. split.
  - apply (proj1 (handleCommitPaint_spec "b" [9; 8; 7] 1 1 [mk "a"; mk "b"])).
    right. right. left. cbn. lia.
  - apply (proj2 (handleCommitPaint_spec "b" [9; 8; 7; 255] 1 1
                    [mk "a"; mk "b"]) 1%nat (mk "b"));
      [lia | lia | reflexivity | reflexivity | reflexivity].
Defined.

(** X29. The rectangle that the crop dialog keeps after a drag between two
    points of the image is at least 4 by 4, starts at coordinates that are
    not negative and, in an image of at least 4 by 4 pixels, lies inside
    the image, so that [handleCrop] takes a state with that image to one
    with the dimensions of the rectangle; in a narrower image the
    rectangle sticks out of it. *)
Theorem pointerUpRect_in_bounds start current (w h : nat) :
  0 <= start.1 <= Z.of_nat w -> 0 <= start.2 <= Z.of_nat h ->
  0 <= current.1 <= Z.of_nat w -> 0 <= current.2 <= Z.of_nat h ->
  exists x y width height,
    CropModal.pointerUpRect start current (Z.of_nat w) (Z.of_nat h)
    = (x, y, width, height)
    ∧ width = Z.max 4 (Z.abs (start.1 - current.1))
    ∧ height = Z.max 4 (Z.abs (start.2 - current.2))
    ∧ 0 <= x ∧ 0 <= y
    ∧ (4 <= Z.abs (start.1 - current.1) -> x = Z.min start.1 current.1)
    ∧ (4 <= Z.abs (start.2 - current.2) -> y = Z.min start.2 current.2)
    ∧ ((w < 4)%nat -> x = 0 ∧ Z.of_nat w < x + width)
    ∧ ((h < 4)%nat -> y = 0 ∧ Z.of_nat h < y + height)
    ∧ ((4 ≤ w)%nat -> (4 ≤ h)%nat ->
       let rect := CropModal.toRect (x, y, width, height) in
       in_bounds rect w h
       ∧ forall st, consistent st w h ->
           exists st', App.handleCrop rect st = Some st'
             ∧ consistent st' (Z.to_nat width) (Z.to_nat height)).
Proof.
  intros Hs1 Hs2 Hc1 Hc2. unfold CropModal.pointerUpRect. cbv zeta.
  destruct start as [sx sy], current as [cx cy]. cbn [fst snd] in *.
  set (width := if Z.max sx cx - Z.min sx cx <? 4 then 4
                else Z.max sx cx - Z.min sx cx).
  set (height := if Z.max sy cy - Z.min sy cy <? 4 then 4
                 else Z.max sy cy - Z.min sy cy).
  assert (Hwd : width = Z.max 4 (Z.abs (sx - cx))).
  { unfold width. destruct (Z.ltb_spec (Z.max sx cx - Z.min sx cx) 4); lia. }
  assert (Hhd : height = Z.max 4 (Z.abs (sy - cy))).
  { unfold height. destruct (Z.ltb_spec (Z.max sy cy - Z.min sy cy) 4); lia. }
  set (x1 := if Z.of_nat w <? Z.min sx cx + width
             then Z.of_nat w - width else Z.min sx cx).
  set (y1 := if Z.of_nat h <? Z.min sy cy + height
             then Z.of_nat h - height else Z.min sy cy).
  set (rx := if x1 <? 0 then 0 else x1).
  set (ry := if y1 <? 0 then 0 else y1).
  assert (Hx : 0 <= rx
               ∧ (4 <= Z.abs (sx - cx) -> rx = Z.min sx cx)
               ∧ ((w < 4)%nat -> rx = 0 ∧ Z.of_nat w < rx + width)
               ∧ ((4 ≤ w)%nat -> rx + width <= Z.of_nat w)).
  { unfold rx, x1.
    destruct (Z.ltb_spec (Z.of_nat w) (Z.min sx cx + width));
      [destruct (Z.ltb_spec (Z.of_nat w - width) 0)
      |destruct (Z.ltb_spec (Z.min sx cx) 0)]; lia. }
  assert (Hy : 0 <= ry
               ∧ (4 <= Z.abs (sy - cy) -> ry = Z.min sy cy)
               ∧ ((h < 4)%nat -> ry = 0 ∧ Z.of_nat h < ry + height)
               ∧ ((4 ≤ h)%nat -> ry + height <= Z.of_nat h)).
  { unfold ry, y1.
    destruct (Z.ltb_spec (Z.of_nat h) (Z.min sy cy + height));
      [destruct (Z.ltb_spec (Z.of_nat h - height) 0)
      |destruct (Z.ltb_spec (Z.min sy cy) 0)]; lia. }
  destruct Hx as (Hx0 & Hx1 & Hx2 & Hx3), Hy as (Hy0 & Hy1 & Hy2 & Hy3).
  exists rx, ry, width, height.
  split; [done|]. split; [done|]. split; [done|]. split; [done|].
  split; [done|]. split; [done|]. split; [done|]. split; [done|].
  split; [done|].
  intros Hw4 Hh4. cbv zeta. cbn [CropModal.toRect]. split.
  - unfold in_bounds. cbn [x y rwidth rheight].
    specialize (Hx3 Hw4). specialize (Hy3 Hh4). lia.
  - intros st Hst.
    apply (handleCrop_consistent
             (mkRect (Z.to_nat rx) (Z.to_nat ry) (Z.to_nat width)
                     (Z.to_nat height)) st w h Hst);
      cbn [rwidth rheight]; lia.
Qed.

Lemma pointerUpRect_in_bounds_witness :
  CropModal.pointerUpRect (1, 1) (2, 9) 10 10 = (1, 1, 4, 8)
  ∧ exists x y width height,
      CropModal.pointerUpRect (1, 1) (2, 9) (Z.of_nat 10) (Z.of_nat 10)
      = (x, y, width, height)
      ∧ 0 <= x ∧ 0 <= y.
Proof.
  split; [reflexivity|].
  destruct (pointerUpRect_in_bounds (1, 1) (2, 9) 10 10)
    as (x & y & width & height & H1 & _ & _ & H2 & H3 & _);
    [cbn; lia | cbn; lia | cbn; lia | cbn; lia |].
  by exists x, y, width, height.
Defined.

(** X30. [handleReplaceColor] on a raster, for a tolerance that is not
    negative: a layer whose colour is the picked colour takes the
    replacement colour and keeps its id, mask and tolerance, and every
    pixel of the image that matched the picked colour has the replacement
    colour afterwards, so the layer still matches it. *)
Theorem handleReplaceColor_follows st img ec to (t : float) k layer :
  App.originalImageData st = Some img -> raster img ->
  is_color ec -> is_color to -> (t <? 0)%float = false ->
  App.layers st !! k = Some layer -> color layer = ec ->
  (0 <=? tol_of layer)%float = true ->
  exists st' img' layer',
    Handlers.handleReplaceColor (Some ec) to t st = Some st'
    ∧ App.originalImageData st' = Some img' ∧ raster img'
    ∧ width img' = width img ∧ height img' = height img
    ∧ App.dimensions st' = App.dimensions st
    ∧ length (App.layers st') = length (App.layers st)
    ∧ App.layers st' !! k = Some layer'
    ∧ color layer' = to ∧ id layer' = id layer ∧ mask layer' = mask layer
    ∧ tolerance layer' = tolerance layer
    ∧ forall p pr pg pb pa,
        (p < width img * height img)%nat ->
        pixel img p = Some (pr, pg, pb, pa) ->
        colorMatches (ofZ pr) (ofZ pg) (ofZ pb)
                     (ofZ (r ec)) (ofZ (g ec)) (ofZ (b ec)) t = true ->
        pixel img' p = Some (r to, g to, b to, pa)
        ∧ layer_matches (data img') layer' (4 * p) = true.
Proof.
  intros Hi Hr Hec Hto Ht Hk Hc Htol.
  pose proof Hr as (Hw & Hh & Hlen & Hb).
  unfold Handlers.handleReplaceColor. rewrite Hi.
  rewrite (ImageData_of_Some (data img) (width img) (height img))
    by first [done | lia].
  cbn [mbind option_bind].
  assert (Heq : mkImageData (width img) (height img) (data img) = img)
    by (by destruct img).
  rewrite Heq.
  set (img' := ImageEdit.replaceColorInImageData img ec to t).
  pose proof (replaceColor_raster img ec to t Hr) as Hr'. fold img' in Hr'.
  eexists _, img', _.
  split; [reflexivity|]. cbn [App.originalImageData App.dimensions App.layers].
  split; [done|]. split; [done|]. split; [done|]. split; [done|].
  split; [done|].
  split; [unfold Handlers.replaceLayerColors; by rewrite length_map|].
  split; [by apply replaceLayerColors_lookup|].
  cbn [Handlers.with_color color id mask tolerance].
  split; [by destruct to|]. split; [done|]. split; [done|]. split; [done|].
  intros p pr pg pb pa Hp Hpx Hm.
  pose proof (replaceColor_pixel_at img ec to t p pr pg pb pa Hr Hto Ht Hp Hpx)
    as Hpx'.
  rewrite Hm in Hpx'. fold img' in Hpx'. split; [done|].
  destruct (raster_pixel img' p Hr' Hp)
    as (r' & g' & b' & a' & H0 & H1 & H2 & H3 & _).
  unfold pixel in Hpx'. rewrite H0, H1, H2, H3 in Hpx'. cbn in Hpx'.
  injection Hpx' as -> -> -> ->.
  unfold layer_matches. cbn [Handlers.with_color color r g b].
  rewrite (num_Some _ _ _ H0), (num_Some _ _ _ H1), (num_Some _ _ _ H2).
  destruct Hto as (? & ? & ?).
  by apply colorMatches_self_float.
Qed.

Lemma handleReplaceColor_follows_witness :
  let img := mkImageData 1 2 [250; 3; 3; 255; 0; 255; 7; 128] in
  let layer := mkLayer "a" (mkColor 255 0 0) "#ff0000" true None None None in
  let st := App.mkState (Some img) (Some (1, 2)%nat) [layer] in
  raster img
  ∧ exists st' img' layer',
      Handlers.handleReplaceColor (Some (mkColor 255 0 0)) (mkColor 0 0 255)
                                  (ofZ 10) st = Some st'
      ∧ App.originalImageData st' = Some img'
      ∧ App.layers st' !! 0%nat = Some layer'
      ∧ color layer' = mkColor 0 0 255.
Proof.
  intros img layer st.
  assert (Hr : raster img).
  { unfold raster, bytes, is_byte. simpl. repeat split; try lia.
    repeat constructor; lia. }
  split; [exact Hr|].
  destruct (handleReplaceColor_follows st img (mkColor 255 0 0)
              (mkColor 0 0 255) (ofZ 10) 0%nat layer)
    as (st' & img' & layer' & H1 & H2 & _ & _ & _ & _ & _ & H3 & H4 & _);
    [reflexivity | exact Hr | unfold is_color, is_byte; simpl; lia
    | unfold is_color, is_byte; simpl; lia | by vm_compute | reflexivity
    | reflexivity | by vm_compute |].
  by exists st', img', layer'.
Defined.
